(* ===== verification/_CoqProject ===== *)
-Q . S2P
Prelude.v
Utf8.v
Error.v
MsgTag.v
Cap.v
Utcb.v
Pages.v
UtcbBlock.v
KernelCalls.v
BufferMgr.v
Serialise.v
Rpc.v
Derive.v
Exporter.v
Server.v
RpcSpec.v
RpcMemory.v
Codegen.v
RpcSystem.v
Runqueue.v
Autosar.v
LinuxLike.v
Host.v
L4re.v
Runtime.v
Served.v
VirtioFrontend.v
NetServer.v
DriverClient.v
FdServer.v
EpollServer.v
AioServer.v
VirtioDisk.v
FsServer.v
Handles.v
DriverPicker.v
DriverExtract.v
LibcTypes.v
Wrappers.v
Functors.v
