(* ===== verification/Prelude.v ===== *)
(** * l4rerust: a verification development

    The repository is a Rust framework for the L4Re microkernel system.  Its core
    is an IPC library ([crates/l4] over the raw calls of [crates/l4-sys]): typed
    arguments are serialised into the message registers of a thread's UTCB, a
    message tag says how many words and items are sent, and on the other side a
    server loop finds the object a message is for and calls the method its opcode
    names; [crates/l4_derive] generates the code around it.  On top of this stand two scheduler
    policies and a set of servers ([src/src]) that offer Linux or virtio services to L4
    clients by hand-written message loops.

    The development is a shallow embedding of that code.  A Rust function is a Rocq
    function; mutable state is passed explicitly; a machine integer is a [Z] with
    its wrap-around or overflow panic written out for both build profiles ([Build]);
    a run is a value of [exec]: a normal return, a panic, undefined behaviour, or a
    loop out of fuel.  Theorems say which of the four happens.  Paths below are
    relative to the repository, [crates/] and [src/] as they stand in its root.

    ** The files, in the order of their dependencies

    - [Prelude]: [exec] and its monad, machine integers, byte memory, the
      state-and-error monad [RM] with its notation, the tactics ([estep], [zb],
      [zif_true], [zif_false]) and the hint database [rust].
    - [Utf8]: [core::str::from_utf8], which string deserialisation calls.
    - [Error] ([crates/l4/error.rs]): the error enums and their coding in labels.
    - [MsgTag] ([l4-sys/ipc_basic.rs], [ipc_ext.rs], [l4/ipc/mod.rs],
      [l4/types.rs]): message tags, raw and wrapped.
    - [Cap] ([l4/cap.rs], [l4-sys/cap.rs]): capabilities, map items, flex pages.
    - [Utcb] ([l4/utcb.rs]): typed access to the message and buffer registers.
    - [Pages] ([l4-sys/lib.rs]): page arithmetic.
    - [UtcbBlock] ([l4/utcb.rs], [l4-sys/ipc_basic.rs], [l4/ipc/syscall.rs]): the UTCB as
      a block of memory that several views share, and the IPC calls on it.
    - [KernelCalls] ([l4-sys/factory.rs], [task.rs], [platform.rs], [l4/task.rs]):
      the messages of kernel calls.
    - [BufferMgr] ([l4/ipc/types.rs]): receive slots for capabilities.  The class
      [CapProvider] is what the server loop needs of a buffer manager;
      [BufferManager] and [Bufferless] are its instances.
    - [Serialise] ([l4/ipc/serialise.rs]): the [Serialiser] trait and its instances.
      [SerLaws] is what the call framework needs of a type; the instances
      discharge it.
    - [Rpc] ([l4/ipc/iface.rs]): the client stub and the dispatch of an interface.
    - [Derive] ([l4_derive/iface.rs], [clntsrv.rs], [export.rs]): the procedural
      macros.
    - [Exporter] ([l4_derive/export.rs], [lib.rs]): the options of the C++ exporter, and
      [iface_export].
    - [Server] ([l4/ipc/server.rs]): the server loop, its hooks and builder.
    - [RpcSpec]: stub, transport, loop and dispatch put together.
    - [RpcMemory]: the stub on the memory of [UtcbBlock], instead of registers as values.
    - [Codegen] ([l4_derive/lib.rs], [iface.rs], [clntsrv.rs], [l4/ipc/iface.rs]): the code
      the macros generate, from the source of an interface to the methods of [Rpc] and from
      a struct to its client or server.
    - [RpcSystem]: client objects, their threads' blocks, a server with several objects and
      one memory: sequences of whole calls.  [Registered] says which objects may take part.
    - [Runqueue], [Autosar], [LinuxLike] ([l4/scheduler/]): the sorted vector both
      policies use, and the two policies.
    - [Host]: what the servers stand on: the [slab] crate, Linux system calls
      with their documented promises, and the UTCB as whole words.
    - [L4re] ([crates/l4re], [l4-sys/helpers.rs]): the look-up of capabilities in the
      program's environment, owned capabilities, and the interfaces of data spaces and
      of the memory allocator, whose calls go through [Derive], [Rpc] and [BufferMgr].
    - [Runtime] ([l4/nostd_helper.rs], [print.rs], [error.rs], [scheduler/mod.rs],
      [core-ffi-helpers]): printing, the panic handler, texts and C strings.
    - [Served]: the frame of a handler that the fd, epoll and aio servers share.
    - [VirtioFrontend] ([src/virtio_frontend], [src/linux_shims],
      [src/driver_server]).
    - [NetServer] ([src/net_server], [crates/net-client]).
    - [DriverClient] ([src/examples/driver_client]): the example client against the driver
      server.
    - [FdServer], [EpollServer], [AioServer] ([src/fd_server], [src/epoll_server],
      [src/aio_server]).
    - [VirtioDisk], [FsServer] ([src/fs_server]).
    - [Handles]: the abstract machine these three and the file server implement for their
      clients, a table of handles.  The class [HandleServer] is a server that follows it; the
      four are its instances.
    - [DriverPicker] ([tools/driver_picker]): the catalogue of drivers and the choice
      of one.
    - [DriverExtract] ([tools/driver_picker]): the extraction of a driver's files, and
      [main].
    - [LibcTypes] ([crates/l4re-libc]): the layouts of the C structs as the bytes of memory,
      and the flag words.
    - [Wrappers] ([l4-sys/ipc_basic.rs], [ipc_ext.rs], [scheduler.rs], [l4re/sys.rs], [env.rs],
      [l4/task.rs], [types.rs]): functions that pass their arguments on to C, with what they do
      to them on the way, and the operators of enumerations.
    - [Functors] ([l4/ipc/iface.rs]): the older macros that turn methods into types.

    Within a file, definitions carry the names of the source; a loop body or the
    arm of a [match] that got a definition of its own is named after what it
    does.  What other people's code does is a class: [ErrConsts], [TagConsts],
    [CapConsts], [UtcbConsts], [LinuxConsts] and [KernelConsts] for the constants
    of C headers, [CapAlloc] and [CapFree] for L4Re's slot allocator, [SynExprs], [BinarySearch],
    [Slab], [Linux], [AiocbLayout], [Fatfs], [Smoltcp], [BlkDevice], [NetDevice], [UtcbLayout] for
    the parts of a UTCB, [PageConsts], [Printing] for how syntax trees print, [Features] for the crate's features.  Their
    fields are the documented behaviour the code relies on, and each has a
    concrete instance on which the theorems are instantiated.  The kernel's own IPC
    is an argument of the definitions that invoke it.

    ** What is shown

    Calls.  A remote call through stub, message registers, server loop and
    dispatcher has the result and the effect of the direct call of the method
    ([RpcSpec.rpc_refines_call]), for any interface over types with [SerLaws].  Whole systems -
    clients on the UTCB blocks of their threads, a server with several objects, one memory -
    behave, for every sequence of calls, as their objects called directly, and nothing but
    message registers changes ([system_refines_calls]); objects of interfaces that the macros
    generate qualify ([derived_registered]).  Arguments that do not fit end with an error before anything is sent
    ([rpc_args_too_long]); a message with an unknown opcode, another protocol or more
    words than there are registers leaves the object alone ([op_dispatch_rejects]).  The same
    holds from the source text on: parsing, numbering, generated text and macro pattern
    together give an interface whose methods can all be called ([derived_call_refines]);
    and the stub on registers as values is the stub on the thread's UTCB in memory, whatever
    the kernel does ([stub_memory_equiv]).  Below it: round trips of tags and
    strings, factory messages that a reader of the kernel's format decodes to the
    arguments added, the invariant of the buffer manager, and that messages written through a
    view of a UTCB touch neither its buffer registers nor other threads ([utcb_mr_frame]).

    Servers.  For any sequence of well-formed messages the fd, epoll, aio, file, driver and network
    servers neither panic nor leave the UTCB, and answer every request, except in
    the cases the theorems single out (an offset from a client of the driver server; a length
    from the network device).  Descriptors are owned by exactly one table entry
    and are never leaked or shared, and the runs of the fd, epoll, aio and file servers are runs of
    one abstract machine, in which a handle belongs to who was given it until it is given back
    ([servers_refine_handles], [open_handles_distinct]); what a read got from the kernel or the FAT
    layer is what the client receives, within the bounds of the buffer
    registers.  The driver server refines eight bytes of memory; the disk refines
    a flat array of bytes.  The network device's adapter offers a frame whenever it is asked, so
    a stack that takes frames until there is none does not return ([ingress_never_returns]).

    Schedulers.  The running task is the most urgent runnable one, with priority
    inheritance and hand-over of mutexes ([Autosar]); virtual run times stay
    within one slice of each other, so that no runnable task starves ([LinuxLike]).

    Code generation.  An interface is numbered in order, its numbers are distinct,
    and its demand counts its capability parameters ([Derive]); which interfaces the macro
    pattern takes and what it binds ([iface_expansion]), and for which structs the generated
    code resolves ([generated_structs_resolve]), is stated exactly; the names the exporter gives the
    parameters of a method are fresh ([Derive]); its options are read back from the tokens they
    are written with, and the header goes next to the source or over it ([Exporter]).

    L4Re.  A capability found in the environment is the one of the first entry with the
    name, and an owned capability leaves the slots of others alone ([L4re]).  A driver named
    without its subsystem is resolved exactly if one subsystem has it ([DriverPicker]), and the
    headers of an extracted one lie in the kernel tree ([DriverExtract]).  A panic ends in the
    handler's loop with a message on the console ([panic_spins]).  Fields of the C structs keep
    to themselves ([struct_fields_apart]) and a flag word answers for each of its flags; of the
    wrappers, it is said what arrives: which flags the region map is given or refused, which
    sizes the allocator sees ([Wrappers]).

    Some theorems state behaviour the code surely does not intend, because that is what it
    does: [rpc_invalid_cap_looks_ok], [option_none_read_as_some],
    [dataspace_calls_refused], [mem_alloc_null_cap], [fd_server_value_not_sent],
    [fd_server_add_watch_refused], [light_task_breaks], [inheritance_not_transitive],
    [transfer_reaches_no_data], [net_client_server],
    [factory_string_overrun], [export_drops_last], [iface_export_overwrites],
    [generated_structs_resolve], [nostd_print], [bdr_of_another].

    ** Bounds and fuel

    Endless server loops run over the finite list of the messages they receive,
    so every statement about them is one about all their finite prefixes.  The loops of the disk
    carry fuel of one more round than the buffer has bytes, the search for an unused name 256,
    the walk of a descriptor chain the table's length, the panic handler two rounds; the theorems about
    them show that it does not run out.  A UTCB has between 8 and 63 message registers and 8 to 255 buffer registers
    (63 and 58 in L4Re); the laws need no more than these ranges.

    ** Not modelled

    Assembly and C below the system calls, time-outs, and the scheduling of the
    threads themselves; the tokenising and parsing done by [rustc], [syn] and [quote] (of
    generated text the names and fields are kept, see [Codegen]); the file system and the tools
    [driver_picker] runs, which are arguments of the model; the C functions of
    [crates/l4re-libc] and the C driver behind [start_driver]; [SchedulerKind::create], which
    does not type-check; build scripts.

    How a payload gets from a client's buffer registers into the server's is not part of the
    model either: the servers of [src/src] find length and bytes in their own UTCB, so a request
    is the whole UTCB as the kernel leaves it, whatever it puts there.

    ** Extent

    Every operation of the Rust code that changes state is a definition; what the source
    leaves to C, to other crates or to the compiler is an argument, as said above.  What one
    could add is on the other side of these arguments: the C clients ([aio.c] and its like)
    against the servers they call, and the kernel's transfer of buffer registers. *)
From Stdlib Require Import ZArith Lia.
From stdpp Require Import base tactics list list_numbers numbers gmap strings.

Open Scope Z_scope.

(** * Outcomes of executing Rust code

    [Done] is a normal return, [Panics] a Rust panic (with [panic = "abort"]
    in both build profiles: the task ends), [UB] an operation Rust leaves
    undefined, such as reading an invalid [bool].  [NoFuel] says that a loop
    was not finished with the fuel its model was given; the theorems about such
    loops show that it does not occur. *)
Inductive exec (A : Type) : Type :=
| Done (a : A)
| Panics
| UB
| NoFuel.
Arguments Done {A} a.
Arguments Panics {A}.
Arguments UB {A}.
Arguments NoFuel {A}.

#[export] Instance exec_ret : MRet exec := fun A a => Done a.
#[export] Instance exec_bind : MBind exec := fun A B f m =>
  match m with Done a => f a | Panics => Panics | UB => UB | NoFuel => NoFuel end.
#[export] Instance exec_fmap : FMap exec := fun A B f m =>
  match m with Done a => Done (f a) | Panics => Panics | UB => UB | NoFuel => NoFuel end.

(** A Rust [unwrap] or indexing that panics on absence. *)
Definition unwrap {A} (o : option A) : exec A :=
  match o with Some a => Done a | None => Panics end.

(** * Machine integers

    A [w]-bit integer is a [Z]; [wrap] and [swrap] are the casts [as uN] and
    [as iN]. *)
Definition wrap (w z : Z) : Z := z `mod` 2 ^ w.
Definition swrap (w z : Z) : Z := (z + 2 ^ (w - 1)) `mod` 2 ^ w - 2 ^ (w - 1).
Definition uint (w z : Z) : Prop := 0 <= z < 2 ^ w.
Definition sint (w z : Z) : Prop := - 2 ^ (w - 1) <= z < 2 ^ (w - 1).

(** The build profile: [cargo] checks arithmetic overflow in debug builds and
    wraps in release builds. *)
Class Build := { overflow_checks : bool }.

Definition uadd {B : Build} (w a b : Z) : exec Z :=
  if a + b <? 2 ^ w then Done (a + b)
  else if overflow_checks then Panics else Done (wrap w (a + b)).
Definition usub {B : Build} (w a b : Z) : exec Z :=
  if b <=? a then Done (a - b)
  else if overflow_checks then Panics else Done (wrap w (a - b)).
Definition umul {B : Build} (w a b : Z) : exec Z :=
  if a * b <? 2 ^ w then Done (a * b)
  else if overflow_checks then Panics else Done (wrap w (a * b)).
Definition sadd {B : Build} (w a b : Z) : exec Z :=
  if (- 2 ^ (w - 1) <=? a + b) && (a + b <? 2 ^ (w - 1)) then Done (a + b)
  else if overflow_checks then Panics else Done (swrap w (a + b)).
Definition smul {B : Build} (w a b : Z) : exec Z :=
  if (- 2 ^ (w - 1) <=? a * b) && (a * b <? 2 ^ (w - 1)) then Done (a * b)
  else if overflow_checks then Panics else Done (swrap w (a * b)).
(** Integer division panics on a zero divisor in every build. *)
Definition udiv (a b : Z) : exec Z := if b =? 0 then Panics else Done (a `div` b).

(** [checked_add] and [checked_mul] on [usize]. *)
Definition checked_add (a b : Z) : option Z := if a + b <? 2 ^ 64 then Some (a + b) else None.
Definition checked_mul (a b : Z) : option Z := if a * b <? 2 ^ 64 then Some (a * b) else None.
Definition saturating_add (a b : Z) : Z := Z.min (a + b) (2 ^ 64 - 1).

(** [!x] on a [w]-bit unsigned word. *)
Definition unot (w x : Z) : Z := 2 ^ w - 1 - x.

Lemma pow2_pos w : 0 <= w -> 0 < 2 ^ w.
Proof. intros; apply Z.pow_pos_nonneg; lia. Qed.

Lemma wrap_id w z : uint w z -> wrap w z = z.
Proof. unfold wrap, uint. intros. apply Z.mod_small. lia. Qed.

Lemma wrap_range w z : 0 <= w -> uint w (wrap w z).
Proof. intros. apply Z.mod_pos_bound, pow2_pos. done. Qed.

Lemma wrap_wrap w z : wrap w (wrap w z) = wrap w z.
Proof. apply Zmod_mod. Qed.

Lemma pow2_half w : 0 < w -> 2 ^ w = 2 * 2 ^ (w - 1).
Proof. intros. rewrite <- Z.pow_succ_r by lia. f_equal; lia. Qed.

Lemma swrap_id w z : 0 < w -> sint w z -> swrap w z = z.
Proof.
  unfold swrap, sint. intros Hw Hz. pose proof (pow2_half w Hw).
  rewrite Z.mod_small; lia.
Qed.

Lemma swrap_range w z : 0 < w -> sint w (swrap w z).
Proof.
  unfold swrap, sint. intros Hw. pose proof (pow2_half w Hw).
  pose proof (pow2_pos (w - 1)).
  pose proof (Z.mod_pos_bound (z + 2 ^ (w - 1)) (2 ^ w)). lia.
Qed.

Lemma swrap_wrap w z : 0 < w -> swrap w (wrap w z) = swrap w z.
Proof.
  intros. unfold swrap, wrap. f_equal.
  rewrite Zplus_mod_idemp_l. done.
Qed.

Lemma wrap_swrap w z : 0 < w -> wrap w (swrap w z) = wrap w z.
Proof.
  intros. unfold swrap, wrap. rewrite Zminus_mod_idemp_l. f_equal. lia.
Qed.

(** A negative [i64] seen as [u64] has its top bit set, and reading it back as
    [i64] gives the number: the servers' errno convention. *)
Lemma swrap_wrap_id w z : 0 < w -> sint w z -> swrap w (wrap w z) = z.
Proof. intros. rewrite swrap_wrap by done. by apply swrap_id. Qed.

Lemma wrap_neg w z : 0 < w -> - 2 ^ w <= z < 0 -> wrap w z = 2 ^ w + z.
Proof.
  intros. unfold wrap. symmetry. apply Z.mod_unique with (-1); lia.
Qed.

(** * Bytes and memory

    A region of memory is a list of bytes, each a [Z] below 256; a multi-byte
    value is stored least significant byte first, as on AArch64. *)
Definition is_byte (b : Z) : Prop := 0 <= b < 256.
Abbreviation bytes_ok := (Forall is_byte).

Definition bytes_okb (l : list Z) : bool := forallb (fun b => (0 <=? b) && (b <? 256)) l.
Lemma bytes_okb_ok l : bytes_okb l = true -> bytes_ok l.
Proof.
  induction l as [|b l IH]; cbn; [constructor|]. rewrite !andb_true_iff, Z.leb_le, Z.ltb_lt.
  intros [Hb Hl]. constructor; [exact Hb | by apply IH].
Qed.

Fixpoint le_bytes (n : nat) (z : Z) : list Z :=
  match n with
  | O => []
  | S n => z `mod` 256 :: le_bytes n (z `div` 256)
  end.
Fixpoint le_num (l : list Z) : Z :=
  match l with [] => 0 | b :: l => b + 256 * le_num l end.

Definition zlen {A} (l : list A) : Z := Z.of_nat (length l).
(** [n] elements from index [off], and the list with [bs] stored at [off]. *)
Definition mread {A} (m : list A) (off n : Z) : list A :=
  take (Z.to_nat n) (drop (Z.to_nat off) m).
Definition mwrite {A} (m : list A) (off : Z) (bs : list A) : list A :=
  take (Z.to_nat off) m ++ bs ++ drop (Z.to_nat (off + zlen bs)) m.

(** Machine words of a register file: word [i] of a byte region. *)
Definition load64 (m : list Z) (i : Z) : Z := le_num (mread m (8 * i) 8).
Definition store64 (m : list Z) (i v : Z) : list Z := mwrite m (8 * i) (le_bytes 8 v).

Lemma length_le_bytes n z : length (le_bytes n z) = n.
Proof. revert z. induction n; intros z; cbn; [done | by rewrite IHn]. Qed.

Lemma zlen_le_bytes n z : zlen (le_bytes n z) = Z.of_nat n.
Proof. unfold zlen. by rewrite length_le_bytes. Qed.

Lemma le_bytes_ok n z : bytes_ok (le_bytes n z).
Proof.
  revert z. induction n; intros z; cbn; constructor; [|done].
  unfold is_byte. apply Z.mod_pos_bound. lia.
Qed.

Lemma le_num_bytes n z : le_num (le_bytes n z) = wrap (8 * Z.of_nat n) z.
Proof.
  unfold wrap. revert z. induction n as [|n IH]; intros z; cbn [le_bytes le_num].
  - by rewrite Z.mod_1_r.
  - rewrite IH. replace (8 * Z.of_nat (S n)) with (8 + 8 * Z.of_nat n) by lia.
    rewrite Z.pow_add_r by lia. change (2 ^ 8) with 256.
    pose proof (pow2_pos (8 * Z.of_nat n)). rewrite Z.rem_mul_r by lia. lia.
Qed.

Lemma le_num_range l : bytes_ok l -> uint (8 * zlen l) (le_num l).
Proof.
  unfold uint, zlen. induction 1 as [|b l Hb Hl IH]; cbn [le_num length]; [lia|].
  unfold is_byte in Hb. replace (8 * Z.of_nat (S (length l))) with (8 + 8 * Z.of_nat (length l)) by lia.
  rewrite Z.pow_add_r by lia. change (2 ^ 8) with 256. lia.
Qed.

Lemma le_bytes_num l : bytes_ok l -> le_bytes (length l) (le_num l) = l.
Proof.
  induction 1 as [|b l Hb Hl IH]; cbn [le_num length le_bytes]; [done|].
  unfold is_byte in Hb. f_equal.
  - symmetry. apply Z.mod_unique with (le_num l); lia.
  - rewrite <- (Z.div_unique _ 256 (le_num l) b); [done | lia..].
Qed.

Lemma zlen_nonneg {A} (l : list A) : 0 <= zlen l.
Proof. unfold zlen. lia. Qed.
Lemma zlen_app {A} (l k : list A) : zlen (l ++ k) = zlen l + zlen k.
Proof. unfold zlen. rewrite length_app. lia. Qed.
Lemma zlen_cons {A} (x : A) l : zlen (x :: l) = 1 + zlen l.
Proof. unfold zlen. cbn [length]. lia. Qed.
Lemma zlen_nil {A} : zlen (@nil A) = 0.
Proof. done. Qed.
Lemma zlen_replicate {A} n (x : A) : zlen (replicate n x) = Z.of_nat n.
Proof. unfold zlen. by rewrite length_replicate. Qed.

Lemma zlen_mwrite {A} (m : list A) off bs :
  0 <= off -> off + zlen bs <= zlen m -> zlen (mwrite m off bs) = zlen m.
Proof.
  unfold mwrite, zlen. intros. rewrite !length_app, length_take, length_drop. lia.
Qed.

Lemma zlen_mread {A} (m : list A) off n :
  0 <= off -> 0 <= n -> off + n <= zlen m -> zlen (mread m off n) = n.
Proof. unfold mread, zlen. intros. rewrite length_take, length_drop. lia. Qed.

Lemma mread_mwrite_same {A} (m : list A) off bs n :
  0 <= off -> off + zlen bs <= zlen m -> n = zlen bs -> mread (mwrite m off bs) off n = bs.
Proof.
  unfold mread, mwrite, zlen. intros ?? ->.
  rewrite drop_app_length', take_app_length'; rewrite ?length_take; auto; lia.
Qed.

(** Writing twice to the same place, and writing what is there. *)
Lemma mwrite_mwrite {A} (m : list A) off a b :
  0 <= off -> off + zlen a <= zlen m -> zlen a = zlen b -> mwrite (mwrite m off a) off b = mwrite m off b.
Proof.
  unfold mwrite, zlen. intros. assert (length (take (Z.to_nat off) m) = Z.to_nat off) as Ht by (rewrite length_take; lia).
  rewrite take_app_length' by done. f_equal. f_equal. rewrite !drop_app_ge by lia. rewrite drop_drop. f_equal. lia.
Qed.
Lemma mwrite_mread {A} (m : list A) off n : 0 <= off -> 0 <= n -> off + n <= zlen m -> mwrite m off (mread m off n) = m.
Proof.
  intros. unfold mwrite, mread, zlen in *.
  assert (length (take (Z.to_nat n) (drop (Z.to_nat off) m)) = Z.to_nat n) as -> by (rewrite length_take, length_drop; lia).
  rewrite <- (take_drop (Z.to_nat off) m) at 4. f_equal.
  rewrite <- (take_drop (Z.to_nat n) (drop (Z.to_nat off) m)) at 2. f_equal. rewrite drop_drop. f_equal. lia.
Qed.
(** A write leaves everything before it and after it alone. *)
Lemma mread_mwrite_before {A} (m : list A) off bs off' n :
  0 <= off' -> 0 <= n -> off' + n <= off -> off + zlen bs <= zlen m ->
  mread (mwrite m off bs) off' n = mread m off' n.
Proof.
  unfold mread, mwrite, zlen. intros.
  rewrite drop_app_le by (rewrite length_take; lia).
  rewrite take_app_le by (rewrite length_drop, length_take; lia).
  rewrite skipn_firstn_comm, take_take. f_equal. lia.
Qed.

Lemma mread_mwrite_after {A} (m : list A) off bs off' n :
  0 <= off -> off + zlen bs <= off' -> off + zlen bs <= zlen m ->
  mread (mwrite m off bs) off' n = mread m off' n.
Proof.
  unfold mread, mwrite, zlen. intros.
  rewrite app_assoc, drop_app_ge by (rewrite length_app, length_take; lia).
  rewrite drop_drop. f_equal. f_equal. rewrite length_app, length_take. lia.
Qed.

(** A prefix is untouched by a write at or behind its end. *)
Lemma take_mwrite {A} (m : list A) off bs n :
  0 <= off -> off <= zlen m -> Z.of_nat n <= off -> take n (mwrite m off bs) = take n m.
Proof.
  unfold mwrite, zlen. intros.
  rewrite take_app_le by (rewrite length_take; lia). rewrite take_take. f_equal. lia.
Qed.

(** Reading inside a prefix only depends on that prefix. *)
Lemma mread_take {A} (m : list A) off n k :
  0 <= off -> 0 <= n -> off + n <= Z.of_nat k -> mread (take k m) off n = mread m off n.
Proof.
  unfold mread. intros. rewrite skipn_firstn_comm, take_take. f_equal. lia.
Qed.

Lemma mread_prefix {A} (m m' : list A) off n k :
  take (Z.to_nat k) m = take (Z.to_nat k) m' -> 0 <= off -> 0 <= n -> off + n <= k ->
  mread m off n = mread m' off n.
Proof.
  intros Heq ???. rewrite <- (mread_take m off n (Z.to_nat k)), <- (mread_take m' off n (Z.to_nat k)) by lia.
  by rewrite Heq.
Qed.

Lemma take_prefix_le {A} (m m' : list A) k j :
  take (Z.to_nat k) m = take (Z.to_nat k) m' -> j <= k ->
  take (Z.to_nat j) m = take (Z.to_nat j) m'.
Proof.
  intros Heq ?. apply (f_equal (take (Z.to_nat j))) in Heq.
  by rewrite !take_take, !Nat.min_l in Heq by lia.
Qed.

Lemma mread_split {A} (m : list A) off a b :
  0 <= off -> 0 <= a -> 0 <= b -> mread m off (a + b) = mread m off a ++ mread m (off + a) b.
Proof.
  unfold mread. intros. rewrite Z2Nat.inj_add, Z2Nat.inj_add by lia.
  rewrite <- drop_drop. symmetry. apply take_take_drop.
Qed.

Lemma mwrite_bytes_ok m off bs : bytes_ok m -> bytes_ok bs -> bytes_ok (mwrite m off bs).
Proof. intros. unfold mwrite. auto using Forall_app_2, Forall_take, Forall_drop. Qed.

Lemma mread_bytes_ok m off n : bytes_ok m -> bytes_ok (mread m off n).
Proof. intros. unfold mread. auto using Forall_take, Forall_drop. Qed.

Lemma zlen_store64 m i v : 0 <= i -> 8 * i + 8 <= zlen m -> zlen (store64 m i v) = zlen m.
Proof. intros. unfold store64. apply zlen_mwrite; rewrite ?zlen_le_bytes; lia. Qed.

Lemma load_store64 m i v :
  0 <= i -> 8 * i + 8 <= zlen m -> load64 (store64 m i v) i = wrap 64 v.
Proof.
  intros. unfold load64, store64.
  rewrite mread_mwrite_same by (rewrite ?zlen_le_bytes; lia). apply le_num_bytes.
Qed.

Lemma load_store64_ne m i j v :
  0 <= i -> 0 <= j -> i <> j -> 8 * i + 8 <= zlen m -> load64 (store64 m i v) j = load64 m j.
Proof.
  intros. unfold load64, store64. f_equal. destruct (decide (j < i)).
  - apply mread_mwrite_before; rewrite ?zlen_le_bytes; lia.
  - apply mread_mwrite_after; rewrite ?zlen_le_bytes; lia.
Qed.

Lemma store64_bytes_ok m i v : bytes_ok m -> bytes_ok (store64 m i v).
Proof. intros. apply mwrite_bytes_ok; auto using le_bytes_ok. Qed.

(** * Rust's [Result] and fallible methods with state

    [RM S E A] is the type of a method that takes [&mut self] (the state [S])
    and returns [Result<A, E>]; the state is kept on both branches. *)
Inductive result (E A : Type) : Type := Ok (a : A) | Err (e : E).
Arguments Ok {E A} a.
Arguments Err {E A} e.

Definition RM (S E A : Type) : Type := S -> exec (result E A * S).
Definition rok {S E A} (a : A) : RM S E A := fun s => Done (Ok a, s).
Definition rerr {S E A} (e : E) : RM S E A := fun s => Done (Err e, s).
Definition rbind {S E A B} (m : RM S E A) (k : A -> RM S E B) : RM S E B := fun s =>
  match m s with
  | Done (Ok a, s) => k a s
  | Done (Err e, s) => Done (Err e, s)
  | Panics => Panics
  | UB => UB
  | NoFuel => NoFuel
  end.
Definition rget {S E} : RM S E S := fun s => Done (Ok s, s).
Definition rput {S E} (s : S) : RM S E unit := fun _ => Done (Ok tt, s).
Definition rlift {S E A} (m : exec A) : RM S E A := fun s => a ← m; Done (Ok a, s).

Declare Scope rust_scope.
Delimit Scope rust_scope with rust.
(** [let? x := m in k] is the [?] operator. *)
Notation "'let?' x ':=' m 'in' k" := (rbind m (fun x => k))
  (at level 10, x pattern, m at level 100, k at level 200, right associativity) : rust_scope.
Notation "m ';?' k" := (rbind m (fun _ => k))
  (at level 199, right associativity) : rust_scope.

Definition result_bind {E A B} (r : result E A) (f : A -> result E B) : result E B :=
  match r with Ok a => f a | Err e => Err e end.
Definition ok_or {E A} (o : option A) (e : E) : result E A :=
  match o with Some a => Ok a | None => Err e end.

(** * Proof automation *)
Create HintDb rust.
#[export] Hint Resolve wrap_range swrap_range le_bytes_ok mwrite_bytes_ok mread_bytes_ok
  store64_bytes_ok zlen_nonneg : rust.
Create Rewrite HintDb zlen.
#[export] Hint Rewrite @zlen_app @zlen_cons @zlen_nil zlen_le_bytes @zlen_replicate : zlen.

(** Split every [match] and [if] of a hypothesis that is an equation of
    outcomes, discarding the branches that do not fit. *)
Ltac inv_exec H :=
  repeat (cbn in H; simplify_eq;
    match type of H with
    | context [match ?x with _ => _ end] => destruct x eqn:?
    | Panics = Done _ => discriminate H
    | UB = Done _ => discriminate H
    | NoFuel = Done _ => discriminate H
    end);
  try (cbn in H; simplify_eq).

(** One step of a bind whose first outcome is known. *)
Ltac estep := cbn [mbind exec_bind]; cbv beta zeta.

Ltac zb := repeat match goal with
  | H : (_ <? _) = true |- _ => apply Z.ltb_lt in H
  | H : (_ <? _) = false |- _ => apply Z.ltb_ge in H
  | H : (_ <=? _) = true |- _ => apply Z.leb_le in H
  | H : (_ <=? _) = false |- _ => apply Z.leb_gt in H
  | H : (_ =? _) = true |- _ => apply Z.eqb_eq in H
  | H : (_ =? _) = false |- _ => apply Z.eqb_neq in H
  | H : (_ && _)%bool = true |- _ => apply andb_true_iff in H as [? ?]
  | H : (_ || _)%bool = false |- _ => apply orb_false_iff in H as [? ?]
  | H : negb _ = true |- _ => apply negb_true_iff in H
  | H : negb _ = false |- _ => apply negb_false_iff in H
  end.

(** Rewrite the guard of a Z comparison in the goal, given that [lia] decides it. *)
Ltac zif_true := match goal with
  | |- context [?a <? ?b] => replace (a <? b) with true by (symmetry; apply Z.ltb_lt; lia)
  | |- context [?a <=? ?b] => replace (a <=? b) with true by (symmetry; apply Z.leb_le; lia)
  | |- context [?a =? ?b] => replace (a =? b) with true by (symmetry; apply Z.eqb_eq; lia)
  end.
Ltac zif_false := match goal with
  | |- context [?a <? ?b] => replace (a <? b) with false by (symmetry; apply Z.ltb_ge; lia)
  | |- context [?a <=? ?b] => replace (a <=? b) with false by (symmetry; apply Z.leb_gt; lia)
  | |- context [?a =? ?b] => replace (a =? b) with false by (symmetry; apply Z.eqb_neq; lia)
  end.

(** Arithmetic that does not overflow is exact in every build. *)
Lemma uadd_small {B : Build} w a b : a + b < 2 ^ w -> uadd w a b = Done (a + b).
Proof. intros. unfold uadd. by zif_true. Qed.
Lemma usub_small {B : Build} w a b : b <= a -> usub w a b = Done (a - b).
Proof. intros. unfold usub. by zif_true. Qed.
Lemma umul_small {B : Build} w a b : a * b < 2 ^ w -> umul w a b = Done (a * b).
Proof. intros. unfold umul. by zif_true. Qed.

(** * The byte order of strings, which [sort] uses *)
Definition str_le (a b : string) : Prop := String.leb a b = true.
#[export] Instance str_le_dec a b : Decision (str_le a b).
Proof. unfold str_le. apply _. Defined.
#[export] Instance str_le_total : Total str_le.
Proof. intros a b. apply String.leb_total. Qed.
Lemma ascii_compare_lt a b c : Ascii.compare a b <> Gt -> Ascii.compare b c <> Gt ->
  Ascii.compare a c <> Gt /\ (Ascii.compare a c = Eq -> Ascii.compare a b = Eq /\ Ascii.compare b c = Eq).
Proof.
  unfold Ascii.compare. rewrite !N.compare_le_iff, !N.compare_eq_iff. intros. split; [lia|]. intros. lia.
Qed.
#[export] Instance str_le_trans : Transitive str_le.
Proof.
  unfold str_le, String.leb. intros a. induction a as [|x a IH]; intros [|y b] [|z c]; cbn; try done.
  destruct (Ascii.compare x y) eqn:E1; [| |done]; destruct (Ascii.compare y z) eqn:E2; try done; intros H1 H2;
    destruct (ascii_compare_lt x y z) as [Hle Heq]; try congruence.
  - destruct (Ascii.compare x z) eqn:E3; [by apply (IH b) | done | done].
  - destruct (Ascii.compare x z) eqn:E3; [destruct (Heq eq_refl); congruence | done | done].
  - destruct (Ascii.compare x z) eqn:E3; [destruct (Heq eq_refl); congruence | done | done].
  - destruct (Ascii.compare x z) eqn:E3; [destruct (Heq eq_refl); congruence | done | done].
Qed.
