(* ===== verification/Utf8.v ===== *)
(** UTF-8 validation as [core::str::from_utf8] does it: the standard
    library routine the string (de)serialisation of the IPC framework and the
    file-system server rely on.  A [&str] is a byte list [s] with
    [from_utf8 s = None] (no error). *)
From S2P Require Import Prelude.
From Stdlib Require Import ZArith Lia.
From stdpp Require Import base list.
Open Scope Z_scope.

(** [core::str::Utf8Error]. *)
Record Utf8Error := { valid_up_to : Z; error_len : option Z }.
#[export] Instance Utf8Error_eq_dec : EqDecision Utf8Error.
Proof. solve_decision. Defined.

Definition in_range (lo hi b : Z) : bool := (lo <=? b) && (b <=? hi).
Definition is_cont (b : Z) : bool := in_range 0x80 0xBF b.

Definition utf8_char_width (b : Z) : nat :=
  if b <? 0x80 then 1%nat
  else if in_range 0xC2 0xDF b then 2%nat
  else if in_range 0xE0 0xEF b then 3%nat
  else if in_range 0xF0 0xF4 b then 4%nat
  else 0%nat.

(** Second byte of a three- and of a four-byte sequence. *)
Definition second_ok3 (b1 b2 : Z) : bool :=
  ((b1 =? 0xE0) && in_range 0xA0 0xBF b2)
  || (in_range 0xE1 0xEC b1 && is_cont b2)
  || ((b1 =? 0xED) && in_range 0x80 0x9F b2)
  || (in_range 0xEE 0xEF b1 && is_cont b2).
Definition second_ok4 (b1 b2 : Z) : bool :=
  ((b1 =? 0xF0) && in_range 0x90 0xBF b2)
  || (in_range 0xF1 0xF3 b1 && is_cont b2)
  || ((b1 =? 0xF4) && in_range 0x80 0x8F b2).

Fixpoint utf8_from (pos : Z) (s : list Z) {struct s} : option Utf8Error :=
  let err l := Some {| valid_up_to := pos; error_len := l |} in
  match s with
  | [] => None
  | b1 :: s1 =>
    match utf8_char_width b1 with
    | 1%nat => utf8_from (pos + 1) s1
    | 2%nat =>
      match s1 with
      | [] => err None
      | b2 :: s2 => if is_cont b2 then utf8_from (pos + 2) s2 else err (Some 1)
      end
    | 3%nat =>
      match s1 with
      | [] => err None
      | b2 :: s2 =>
        if negb (second_ok3 b1 b2) then err (Some 1) else
        match s2 with
        | [] => err None
        | b3 :: s3 => if is_cont b3 then utf8_from (pos + 3) s3 else err (Some 2)
        end
      end
    | 4%nat =>
      match s1 with
      | [] => err None
      | b2 :: s2 =>
        if negb (second_ok4 b1 b2) then err (Some 1) else
        match s2 with
        | [] => err None
        | b3 :: s3 =>
          if negb (is_cont b3) then err (Some 2) else
          match s3 with
          | [] => err None
          | b4 :: s4 => if is_cont b4 then utf8_from (pos + 4) s4 else err (Some 3)
          end
        end
      end
    | _ => err (Some 1)
    end
  end.

Definition from_utf8 (s : list Z) : option Utf8Error := utf8_from 0 s.
Definition is_str (s : list Z) : Prop := bytes_ok s /\ from_utf8 s = None.

Lemma ascii_utf8 pos s : Forall (fun b => 0 <= b < 0x80) s -> utf8_from pos s = None.
Proof.
  intros Hs. revert pos. induction Hs as [|b s Hb Hs IH]; intros pos; [done|].
  cbn [utf8_from]. unfold utf8_char_width. zif_true. apply IH.
Qed.

Lemma ascii_is_str s : Forall (fun b => 0 <= b < 0x80) s -> is_str s.
Proof.
  intros Hs. split; [|by apply ascii_utf8].
  eapply Forall_impl; [done|]. cbn. unfold is_byte. lia.
Qed.
