(* ===== verification/Error.v ===== *)
(** Error values of the [l4] crate ([crates/l4/error.rs]): the enums produced
    by [enumgenerator!], [Error], and the coding of errors into the label of a
    reply tag and back.

    The discriminants are the C constants [bindgen] generates from the L4Re
    headers; they are the class [ErrConsts], with the facts about them the
    crate relies on.  [derive(FromPrimitive)] of [num-derive] is the field
    [generic_from]/[tcr_from] with its documented meaning. *)
From S2P Require Import Prelude Utf8.
From Stdlib Require Import ZArith Lia.
From stdpp Require Import base list strings.
Open Scope Z_scope.

(** Generic L4 error codes. *)
Inductive GenericErr :=
| EOk | NoPerm | NoEntity | IO | NoDevOrAddr | Arg2Big | TryAgain | NoMem
| PermissionDenied | InvalidMemAddr | ObjBusy | AlreadyExists | NoDev
| InvalidArg' | NoSpace | OutOfBounds | NameTooLong | NoSys | InvalidProt
| AddrNotAvail | MaxErr | NoReply | MsgTooShort | MsgTooLong | MsgInvalidCap
| IpcRLow | IpcRHigh.
#[export] Instance GenericErr_eq_dec : EqDecision GenericErr.
Proof. solve_decision. Defined.

(** Error codes of the error thread control register. *)
Inductive TcrErr :=
| IpcErrorMask | SendErrMask | NotExistent | RecvTimeout | SendTimeout
| RecvCanceled | SendCanceled | RemapFailed | SendMapFailed
| RecvSendPFTimeout | SendSendPFTimeout | RecvRecvPFTimeout
| SendRecvPFTimeout | RecvAbort | SendAbort | RecvMsgCut | SendMsgCut.
#[export] Instance TcrErr_eq_dec : EqDecision TcrErr.
Proof. solve_decision. Defined.

(** The generated constants: [l4_error_code_t] and [l4_ipc_tcr_error_t]. Rust
    itself refuses an enum with two equal discriminants; the header's codes are
    small and only [L4_EOK] is zero. *)
Class ErrConsts := {
  generic_code : GenericErr -> Z;
  generic_code_inj : forall e e', generic_code e = generic_code e' -> e = e';
  generic_code_range : forall e, 0 <= generic_code e < 65536;
  generic_code_ok : generic_code EOk = 0;
  generic_from : Z -> option GenericErr;
  generic_from_spec : forall n e, 0 <= n < 2 ^ 63 ->
    generic_from n = Some e <-> generic_code e = n;
  tcr_code : TcrErr -> Z;
  tcr_code_range : forall e, 0 < tcr_code e < 65536;
  tcr_from : Z -> option TcrErr;
  tcr_from_spec : forall n e, 0 <= n < 2 ^ 63 -> tcr_from n = Some e <-> tcr_code e = n;
}.

Inductive Error :=
| Generic (e : GenericErr)
| Tcr (e : TcrErr)
| InvalidCap
| InvalidArg (what : string) (arg : option Z)
| InvalidState (what : string)
| Unknown (code : Z)
| Protocol (label : Z)
| InvalidEncoding (e : option Utf8Error).
#[export] Instance Error_eq_dec : EqDecision Error.
Proof. solve_decision. Defined.

(** [l4::error::Result]. *)
Abbreviation Result := (result Error).

Definition INVALID_CAP_CODE : Z := -65540.
Definition INVALID_ENCODING : Z := -65541.

Section WithConsts.
Context {EC : ErrConsts} {B : Build}.

(** [i64::abs]. *)
Definition i64_abs (z : Z) : exec Z :=
  if z =? - 2 ^ 63 then (if overflow_checks then Panics else Done z) else Done (Z.abs z).

(** [Error::from_ipc]: an error from the (negative) label of a reply tag. *)
Definition from_ipc (code : Z) : exec Error :=
  if code =? INVALID_CAP_CODE then Done InvalidCap
  else if code =? INVALID_ENCODING then Done (InvalidEncoding None)
  else
    abs ← i64_abs code;
    match generic_from (wrap 64 abs) with
    | Some tc => Done (Generic tc)
    | None => Done (Unknown code)
    end.

(** [Error::into_ipc_err]: the label a server answers an error with. *)
Definition into_ipc_err (e : Error) : exec Z :=
  match e with
  | Generic err => smul 64 (generic_code err) (-1)
  | Tcr err => smul 64 (tcr_code err) (-1)
  | InvalidCap => smul 64 (-1) INVALID_CAP_CODE
  | InvalidArg _ _ | InvalidState _ => smul 64 (-1) (generic_code InvalidArg')
  | InvalidEncoding _ => smul 64 (-1) INVALID_ENCODING
  | Unknown n | Protocol n => smul 64 n (-1)
  end.

(** [TcrErr::from_tag_u] and [Error::from_tag_u]/[from_tag_raw], given the
    value [l4_ipc_error] reads from the UTCB. *)
Definition TcrErr_from_tag_u (ipc_error : Z) : Result TcrErr :=
  ok_or (tcr_from ipc_error) (Unknown (swrap 64 ipc_error)).
Definition from_tag_raw (ipc_error : Z) : Error :=
  match TcrErr_from_tag_u ipc_error with Ok tc => Tcr tc | Err e => e end.

Lemma smul_neg1 z : sint 64 (- z) -> smul 64 z (-1) = Done (- z).
Proof.
  unfold sint, smul. intros.
  replace (z * -1) with (- z) by lia. zif_true. by zif_true.
Qed.

Lemma generic_from_code e : generic_from (generic_code e) = Some e.
Proof. apply generic_from_spec; [|done]. pose proof (generic_code_range e). lia. Qed.

Lemma into_ipc_err_generic e : into_ipc_err (Generic e) = Done (- generic_code e).
Proof.
  cbn. apply smul_neg1. pose proof (generic_code_range e). unfold sint. lia.
Qed.

Lemma i64_abs_neg z : - 2 ^ 63 < z <= 0 -> i64_abs z = Done (- z).
Proof. intros. unfold i64_abs. zif_false. rewrite Z.abs_neq by lia. done. Qed.

(** What a client makes of a negative label: the generic error whose code it
    is, else [Unknown]. *)
Lemma from_ipc_generic e : from_ipc (- generic_code e) = Done (Generic e).
Proof.
  pose proof (generic_code_range e) as Hr. unfold from_ipc, INVALID_CAP_CODE, INVALID_ENCODING.
  do 2 zif_false. rewrite i64_abs_neg by lia. cbn.
  rewrite Z.opp_involutive, wrap_id by (unfold uint; lia).
  by rewrite generic_from_code.
Qed.
End WithConsts.

(** The L4Re header values, for concrete runs. *)
Module Headers.
Definition generic_num (e : GenericErr) : Z :=
  match e with
  | EOk => 0 | NoPerm => 1 | NoEntity => 2 | IO => 5 | NoDevOrAddr => 6 | Arg2Big => 7
  | TryAgain => 11 | NoMem => 12 | PermissionDenied => 13 | InvalidMemAddr => 14
  | ObjBusy => 16 | AlreadyExists => 17 | NoDev => 19 | InvalidArg' => 22
  | NoSpace => 28 | OutOfBounds => 34 | NameTooLong => 36 | NoSys => 38
  | InvalidProt => 39 | AddrNotAvail => 99 | MaxErr => 100 | NoReply => 1000
  | MsgTooShort => 1001 | MsgTooLong => 1002 | MsgInvalidCap => 1003 | IpcRLow => 2000
  | IpcRHigh => 2031
  end.
Definition all_generic : list GenericErr :=
  [EOk; NoPerm; NoEntity; IO; NoDevOrAddr; Arg2Big; TryAgain; NoMem; PermissionDenied;
   InvalidMemAddr; ObjBusy; AlreadyExists; NoDev; InvalidArg'; NoSpace; OutOfBounds;
   NameTooLong; NoSys; InvalidProt; AddrNotAvail; MaxErr; NoReply; MsgTooShort;
   MsgTooLong; MsgInvalidCap; IpcRLow; IpcRHigh].
Definition tcr_num (e : TcrErr) : Z :=
  match e with
  | IpcErrorMask => 31 | SendErrMask => 1 | NotExistent => 4 | RecvTimeout => 3
  | SendTimeout => 2 | RecvCanceled => 7 | SendCanceled => 6 | RemapFailed => 17
  | SendMapFailed => 16 | RecvSendPFTimeout => 11 | SendSendPFTimeout => 10
  | RecvRecvPFTimeout => 13 | SendRecvPFTimeout => 12 | RecvAbort => 15
  | SendAbort => 14 | RecvMsgCut => 9 | SendMsgCut => 8
  end.
Definition all_tcr : list TcrErr :=
  [IpcErrorMask; SendErrMask; NotExistent; RecvTimeout; SendTimeout; RecvCanceled;
   SendCanceled; RemapFailed; SendMapFailed; RecvSendPFTimeout; SendSendPFTimeout;
   RecvRecvPFTimeout; SendRecvPFTimeout; RecvAbort; SendAbort; RecvMsgCut; SendMsgCut].
Definition decode {E} (num : E -> Z) (all : list E) (n : Z) : option E :=
  List.find (fun e => num e =? n) all.

Lemma decode_spec {E} (num : E -> Z) all :
  (forall e, decode num all (num e) = Some e) ->
  forall n e, decode num all n = Some e <-> num e = n.
Proof.
  intros Hrt n e. split; [|by intros <-].
  unfold decode. intros H. apply List.find_some in H as [_ H]. by apply Z.eqb_eq.
Qed.
End Headers.

Definition l4re_err_consts : ErrConsts.
Proof.
  refine {| generic_code := Headers.generic_num;
            generic_from := Headers.decode Headers.generic_num Headers.all_generic;
            tcr_code := Headers.tcr_num;
            tcr_from := Headers.decode Headers.tcr_num Headers.all_tcr |}.
  - by intros [] [].
  - intros []; cbn; lia.
  - done.
  - intros n e _. apply Headers.decode_spec. by intros [].
  - intros []; cbn; lia.
  - intros n e _. apply Headers.decode_spec. by intros [].
Defined.

(** The two build profiles of the workspace. *)
Definition debug_build : Build := {| overflow_checks := true |}.
Definition release_build : Build := {| overflow_checks := false |}.
