(* ===== verification/MsgTag.v ===== *)
(** Message tags: the raw encoding functions of [l4-sys]
    ([crates/l4-sys/ipc_basic.rs], [ipc_ext.rs]) and the [MsgTag] wrapper of
    the [l4] crate ([crates/l4/ipc/mod.rs]), with the protocol numbers of
    [crates/l4/types.rs].

    The protocol numbers and [L4_MSGTAG_ERROR] come from the L4Re headers and
    are the class [TagConsts]. *)
From S2P Require Import Prelude Utf8 Error.
From Stdlib Require Import ZArith Lia Btauto.
From coqutil Require Import Z.bitblast.
From stdpp Require Import base list strings.
Open Scope Z_scope.

(** Basic L4 protocols (message tag labels). *)
Inductive Protocol :=
| PNone | PfException | Irq | PageFault | Preemption | SysException | Exception
| Sigma0 | IoPageFault | Kobject | Task | Thread | Log | Scheduler | Factory | Vm
| DmaSpace | IrqSender | IrqMux | Semaphore | Meta | Iommu | Debugger.
#[export] Instance Protocol_eq_dec : EqDecision Protocol.
Proof. solve_decision. Defined.

(** [l4_msgtag_protocol] and [L4_MSGTAG_ERROR]; [from_isize] is the derived
    [FromPrimitive]. *)
Class TagConsts := {
  protocol_code : Protocol -> Z;
  protocol_code_inj : forall p q, protocol_code p = protocol_code q -> p = q;
  protocol_code_range : forall p, sint 48 (protocol_code p);
  protocol_from : Z -> option Protocol;
  protocol_from_spec : forall n p, protocol_from n = Some p <-> protocol_code p = n;
  L4_MSGTAG_ERROR : Z;
  msgtag_error_flag : Z.land L4_MSGTAG_ERROR 0xf000 = L4_MSGTAG_ERROR /\ L4_MSGTAG_ERROR <> 0;
}.

(** Flags for message tags, by name ([MsgTagFlags]). *)
Inductive MsgTagFlags := FError | TransferFpu | Schedule | Propagate | FMask.

(** Bit-level equations: blast to bits, drop the bits below zero. *)
Ltac drop_neg_bits := repeat match goal with
  | |- context [Z.testbit ?a ?i] => rewrite (Z.testbit_neg_r a i) by lia
  end.
Ltac bits := Z.bitblast; drop_neg_bits; btauto.

Lemma flag_mask_shift : 0xf000 = Z.shiftl (Z.ones 4) 12.
Proof. done. Qed.
Lemma six_bits : 0x3f = Z.ones 6.
Proof. done. Qed.
Lemma low16 : 0x0ffff = Z.ones 16.
Proof. done. Qed.
Ltac masks := rewrite ?flag_mask_shift, ?six_bits, ?low16.

Lemma wrap_land w z : 0 <= w -> wrap w z = Z.land z (Z.ones w).
Proof. intros. unfold wrap. symmetry. by apply Z.land_ones. Qed.

Lemma swrap_shiftl w l k : 0 < w -> 0 <= k -> swrap (w + k) (Z.shiftl l k) = Z.shiftl (swrap w l) k.
Proof.
  intros. unfold swrap. rewrite !Z.shiftl_mul_pow2 by lia.
  replace (w + k - 1) with (w - 1 + k) by lia. rewrite !Z.pow_add_r by lia.
  rewrite <- Z.mul_add_distr_r, Z.mul_mod_distr_r by (apply Z.pow_nonzero; lia). lia.
Qed.

(** * [l4_sys::ipc_basic] *)
Definition l4_msgtag (label words items flags : Z) : Z :=
  Z.lor (Z.lor (Z.lor (swrap 64 (Z.shiftl label 16)) (Z.land words 0x3f))
           (Z.shiftl (Z.land items 0x3f) 6)) (Z.land flags 0xf000).
Definition l4_msgtag_flags (raw : Z) : Z := wrap 64 (Z.land raw 0xf000).
Definition l4_msgtag_has_error `{TagConsts} (raw : Z) : bool :=
  negb (Z.land raw L4_MSGTAG_ERROR =? 0).
Definition l4_msgtag_items (raw : Z) : Z := wrap 64 (Z.land (Z.shiftr raw 6) 0x3f).
Definition l4_msgtag_label (raw : Z) : Z := Z.shiftr raw 16.
Definition l4_msgtag_words (raw : Z) : Z := wrap 32 (Z.land raw 0x3f).

(** [l4_sys::ipc_ext] *)
Definition msgtag (label words items flags : Z) : Z := l4_msgtag label words items flags.
Definition msgtag_flags (raw : Z) : Z := wrap 32 (Z.land raw 0xf000).
Definition msgtag_has_error `{TagConsts} (raw : Z) : bool :=
  negb (Z.land raw L4_MSGTAG_ERROR =? 0).
Definition msgtag_items (raw : Z) : Z := l4_msgtag_items raw.
Definition msgtag_label (raw : Z) : Z := l4_msgtag_label raw.
Definition msgtag_words (raw : Z) : Z := l4_msgtag_words raw.

(** * [l4::ipc::MsgTag] *)
Record MsgTag := { tag_raw : Z }.
#[export] Instance MsgTag_eq_dec : EqDecision MsgTag.
Proof. solve_decision. Defined.

Module Tag.
Section Tag.
Context {TC : TagConsts} {EC : ErrConsts} {B : Build}.

Definition new (label words items flags : Z) : MsgTag :=
  {| tag_raw := msgtag label words items flags |}.
Definition label (t : MsgTag) : Z := Z.shiftr (tag_raw t) 16.
Definition protocol (t : MsgTag) : Result Protocol :=
  ok_or (protocol_from (Z.shiftr (tag_raw t) 16))
        (InvalidArg "Unknown protocol" (Some (Z.shiftr (tag_raw t) 16))).
Definition set_label (t : MsgTag) (l : Z) : MsgTag :=
  {| tag_raw := Z.lor (Z.land (tag_raw t) 0x0ffff) (swrap 64 (Z.shiftl l 16)) |}.
Definition set_protocol (t : MsgTag) (p : Protocol) : MsgTag :=
  {| tag_raw := Z.lor (Z.land (tag_raw t) 0x0ffff) (swrap 64 (Z.shiftl (protocol_code p) 16)) |}.
Definition words (t : MsgTag) : Z := Z.land (wrap 64 (tag_raw t)) 0x3f.
Definition items (t : MsgTag) : Z := Z.land (Z.shiftr (wrap 64 (tag_raw t)) 6) 0x3f.
Definition flags (t : MsgTag) : Z := Z.land (wrap 32 (tag_raw t)) 0xf000.
Definition has_error (t : MsgTag) : bool := negb (Z.land (tag_raw t) L4_MSGTAG_ERROR =? 0).
(** [result]: [ipc_error] is what [l4_ipc_error] reads from the UTCB. *)
Definition result (ipc_error : Z) (t : MsgTag) : exec (Result MsgTag) :=
  if has_error t then Done (Err (from_tag_raw ipc_error))
  else if label t <? 0 then e ← from_ipc (label t); Done (Err e)
  else Done (Ok t).
Definition raw (t : MsgTag) : Z := swrap 64 (tag_raw t).
(** [From<l4_msgtag_t>]. *)
Definition from (input : Z) : MsgTag := {| tag_raw := input |}.

Lemma new_raw l w i f :
  tag_raw (new l w i f)
  = Z.lor (Z.lor (Z.lor (Z.shiftl (swrap 48 l) 16) (Z.land w 0x3f))
      (Z.shiftl (Z.land i 0x3f) 6)) (Z.land f 0xf000).
Proof.
  unfold new, msgtag, l4_msgtag. cbn [tag_raw].
  by rewrite <- (swrap_shiftl 48) by lia.
Qed.

Lemma label_new l w i f : label (new l w i f) = swrap 48 l.
Proof. unfold label. rewrite new_raw. masks. bits. Qed.
Lemma words_new l w i f : words (new l w i f) = Z.land w 0x3f.
Proof. unfold words. rewrite new_raw, wrap_land by lia. masks. bits. Qed.
Lemma items_new l w i f : items (new l w i f) = Z.land i 0x3f.
Proof. unfold items. rewrite new_raw, wrap_land by lia. masks. bits. Qed.
Lemma flags_new l w i f : flags (new l w i f) = Z.land f 0xf000.
Proof. unfold flags. rewrite new_raw, wrap_land by lia. masks. bits. Qed.

Lemma label_set t l : label (set_label t l) = swrap 48 l.
Proof.
  unfold label, set_label. cbn [tag_raw]. change 64 with (48 + 16).
  rewrite swrap_shiftl by lia. masks. bits.
Qed.
Lemma words_set t l : words (set_label t l) = words t.
Proof.
  unfold words, set_label. cbn [tag_raw]. rewrite !wrap_land by lia. change 64 with (48 + 16) at 1.
  rewrite swrap_shiftl by lia. masks. bits.
Qed.
Lemma items_set t l : items (set_label t l) = items t.
Proof.
  unfold items, set_label. cbn [tag_raw]. rewrite !wrap_land by lia. change 64 with (48 + 16) at 1.
  rewrite swrap_shiftl by lia. masks. bits.
Qed.
Lemma flags_set t l : flags (set_label t l) = flags t.
Proof.
  unfold flags, set_label. cbn [tag_raw]. rewrite !wrap_land by lia. change 64 with (48 + 16).
  rewrite swrap_shiftl by lia. masks. bits.
Qed.

(** Through the C struct and back. *)
Lemma shiftr_swrap z : Z.shiftr (swrap 64 z) 16 = swrap 48 (Z.shiftr z 16).
Proof.
  unfold swrap. rewrite !Z.shiftr_div_pow2 by lia.
  change (2 ^ (64 - 1)) with (2 ^ 47 * 2 ^ 16). change (2 ^ (48 - 1)) with (2 ^ 47).
  change (2 ^ 64) with (2 ^ 16 * 2 ^ 48).
  rewrite Z.rem_mul_r, Z.div_add by lia.
  set (q := z `div` 2 ^ 16 + 2 ^ 47).
  pose proof (Z.mod_pos_bound (z + 2 ^ 47 * 2 ^ 16) (2 ^ 16)).
  symmetry. apply Z.div_unique with ((z + 2 ^ 47 * 2 ^ 16) `mod` 2 ^ 16); lia.
Qed.
Lemma wrap_lower w v z : 0 < w <= v -> wrap w (swrap v z) = wrap w z.
Proof.
  intros. rewrite <- (wrap_swrap w z), <- (wrap_swrap w (swrap v z)) by lia. f_equal.
  unfold swrap. f_equal.
  assert (2 ^ v = 2 ^ (v - w) * 2 ^ w) as Hv by (rewrite <- Z.pow_add_r by lia; f_equal; lia).
  pose proof (pow2_pos w). pose proof (pow2_pos (v - w)).
  rewrite (Z.mod_eq (z + 2 ^ (v - 1)) (2 ^ v)) by lia.
  replace (z + 2 ^ (v - 1) - 2 ^ v * ((z + 2 ^ (v - 1)) `div` 2 ^ v) - 2 ^ (v - 1) + 2 ^ (w - 1))
    with (z + 2 ^ (w - 1) + - (2 ^ (v - w) * ((z + 2 ^ (v - 1)) `div` 2 ^ v)) * 2 ^ w) by (rewrite Hv; ring).
  by rewrite Z.mod_add by lia.
Qed.

Lemma from_raw_label t : label (from (raw t)) = swrap 48 (label t).
Proof. apply shiftr_swrap. Qed.
Lemma from_raw_words t : words (from (raw t)) = words t.
Proof. unfold words, from, raw. cbn [tag_raw]. by rewrite wrap_swrap. Qed.
Lemma from_raw_items t : items (from (raw t)) = items t.
Proof. unfold items, from, raw. cbn [tag_raw]. by rewrite wrap_swrap. Qed.
Lemma from_raw_flags t : flags (from (raw t)) = flags t.
Proof. unfold flags, from, raw. cbn [tag_raw]. by rewrite wrap_lower. Qed.

Lemma land_low k n : 0 <= k -> 0 <= n < 2 ^ k -> Z.land n (Z.ones k) = n.
Proof. intros. rewrite Z.land_ones by done. apply Z.mod_small. lia. Qed.

(** The error test only looks at the flag bits. *)
Lemma has_error_flags t : has_error t = negb (Z.land (flags t) L4_MSGTAG_ERROR =? 0).
Proof.
  unfold has_error, flags. destruct msgtag_error_flag as [<- _].
  do 2 f_equal. rewrite wrap_land by lia. masks. bits.
Qed.

Lemma has_error_no_flags t : flags t = 0 -> has_error t = false.
Proof. intros H. rewrite has_error_flags, H. done. Qed.

(** [result] of an error-free reply tag. *)
Lemma result_ok ie t : flags t = 0 -> 0 <= label t -> result ie t = Done (Ok t).
Proof.
  intros Hf Hl. unfold result. rewrite has_error_no_flags by done. by zif_false.
Qed.
Lemma result_neg ie t :
  flags t = 0 -> label t < 0 -> result ie t = (e ← from_ipc (label t); Done (Err e)).
Proof.
  intros Hf Hl. unfold result. rewrite has_error_no_flags by done. by zif_true.
Qed.
(** C14: a message tag made with [MsgTag::new] gives back the four values it was
    made from, also after the trip through the C type ([raw], [From]):
    48-bit labels, word and item counts below 64, flag bits in their mask; and
    [set_label] exchanges the label and nothing else. *)
Theorem msgtag_roundtrip l w i f l' :
  sint 48 l -> 0 <= w < 64 -> 0 <= i < 64 -> 0 <= f < 16 -> sint 48 l' ->
  let t := from (raw (new l w i (Z.shiftl f 12))) in
  (label t = l /\ words t = w /\ items t = i /\ flags t = Z.shiftl f 12)
  /\ (label (set_label t l') = l' /\ words (set_label t l') = w
      /\ items (set_label t l') = i /\ flags (set_label t l') = Z.shiftl f 12).
Proof.
  intros Hl Hw Hi Hf Hl' t.
  assert (label t = l /\ words t = w /\ items t = i /\ flags t = Z.shiftl f 12) as (?&?&?&?).
  { subst t. rewrite from_raw_label, from_raw_words, from_raw_items, from_raw_flags.
    rewrite label_new, words_new, items_new, flags_new, !swrap_id by (done || by apply swrap_range).
    masks. rewrite !land_low by lia. split_and!; try done.
    rewrite <- Z.shiftl_land, land_low by lia. done. }
  rewrite label_set, words_set, items_set, flags_set, swrap_id by done. by split_and!.
Qed.
End Tag.
End Tag.

(** The values of the L4Re headers. *)
Definition l4re_protocol_code (p : Protocol) : Z :=
  match p with
  | PNone => 0 | PfException => 1 | Irq => -1 | PageFault => -2 | Preemption => -3
  | SysException => -4 | Exception => -5 | Sigma0 => -6 | IoPageFault => -8
  | Kobject => -10 | Task => -11 | Thread => -12 | Log => -13 | Scheduler => -14
  | Factory => -15 | Vm => -16 | DmaSpace => -17 | IrqSender => -18 | IrqMux => -19
  | Semaphore => -20 | Meta => -21 | Iommu => -22 | Debugger => -23
  end.
Definition all_protocols : list Protocol :=
  [PNone; PfException; Irq; PageFault; Preemption; SysException; Exception; Sigma0;
   IoPageFault; Kobject; Task; Thread; Log; Scheduler; Factory; Vm; DmaSpace; IrqSender;
   IrqMux; Semaphore; Meta; Iommu; Debugger].

Definition l4re_tag_consts : TagConsts.
Proof.
  refine {| protocol_code := l4re_protocol_code;
            protocol_from := Headers.decode l4re_protocol_code all_protocols;
            L4_MSGTAG_ERROR := 0x8000 |}.
  - by intros [] [].
  - intros []; unfold sint; cbn; lia.
  - intros n p. apply Headers.decode_spec. by intros [].
  - done.
Defined.

Lemma msgtag_roundtrip_witness :
  let t := Tag.from (Tag.raw (Tag.new (-15) 3 1 0x8000)) in
  (Tag.label t = -15 /\ Tag.words t = 3 /\ Tag.items t = 1 /\ Tag.flags t = 0x8000)
  /\ (Tag.label (Tag.set_label t (-1004)) = -1004 /\ Tag.words (Tag.set_label t (-1004)) = 3
      /\ Tag.items (Tag.set_label t (-1004)) = 1 /\ Tag.flags (Tag.set_label t (-1004)) = 0x8000).
Proof. apply (Tag.msgtag_roundtrip (-15) 3 1 8 (-1004)); unfold sint; lia. Defined.
