(* ===== verification/Cap.v ===== *)
(** Capabilities: [crates/l4/cap.rs], the map-item encodings of
    [crates/l4-sys/cap.rs], and the flex-page rights of [crates/l4/utcb.rs].

    The capability constants and [l4_obj_fpage] (a C inline function called
    through a wrapper) are the class [CapConsts]; an interface type is a class,
    as in the source; the mapping system call used by [Cap::transfer] is an
    argument. *)
From S2P Require Import Prelude Utf8 Error MsgTag.
From Stdlib Require Import ZArith Lia.
From coqutil Require Import Z.bitblast.
From stdpp Require Import base list.
Open Scope Z_scope.

Class CapConsts := {
  L4_CAP_SHIFT : Z; cap_shift_range : 0 <= L4_CAP_SHIFT < 64;
  L4_INVALID_CAP_BIT : Z;
  L4_INVALID_CAP : Z;
  L4_CAP_MASK : Z;
  L4_BASE_TASK_CAP : Z;
  L4_CAP_FPAGE_RWSD : Z;
  L4_ITEM_MAP : Z; L4_ITEM_CONT : Z;
  L4_MAP_ITEM_MAP : Z; L4_MAP_ITEM_GRANT : Z;
  L4_RCV_ITEM_SINGLE_CAP : Z; L4_RCV_ITEM_LOCAL_ID : Z;
  rcv_flag_range : 0 < L4_RCV_ITEM_LOCAL_ID < 2 ^ 32;
  L4_FPAGE_X : Z; L4_FPAGE_W : Z; L4_FPAGE_RO : Z;
  L4_FPAGE_CONTROL_MASK : Z;
  (** Indices handed out have the flag bits clear; the invalid index does not. *)
  cap_mask_bits : forall c, Z.land c L4_CAP_MASK = c ->
    Z.land (Z.lor (Z.lor c L4_RCV_ITEM_SINGLE_CAP) L4_RCV_ITEM_LOCAL_ID) L4_CAP_MASK = c;
  invalid_cap_bit : Z.land L4_INVALID_CAP L4_INVALID_CAP_BIT <> 0;
  (** [l4_obj_fpage(obj, order, rights).raw], a C inline function. *)
  l4_obj_fpage : Z -> Z -> Z -> Z;
  l4_obj_fpage_range : forall o n r, uint 64 (l4_obj_fpage o n r);
}.

(** The [Interface] and [IfaceInit] traits: a type that holds a capability
    index. *)
Class Interface (T : Type) := { iface_raw : T -> Z }.
Class IfaceInit (T : Type) `{Interface T} := {
  iface_new : Z -> T;
  iface_raw_new : forall c, iface_raw (iface_new c) = c;
}.

Record Untyped := UntypedCap { untyped_idx : Z }.
#[export] Instance untyped_interface : Interface Untyped := {| iface_raw := untyped_idx |}.
#[export] Instance untyped_init : IfaceInit Untyped.
Proof. refine {| iface_new := UntypedCap |}. done. Defined.

Record Cap (T : Type) := MkCap { interface : T }.
Arguments MkCap {T} interface.
Arguments interface {T} c.

Section L4SysCap.
Context {CC : CapConsts}.

Definition l4_is_invalid_cap (cap : Z) : bool := 0 <? Z.land cap L4_INVALID_CAP_BIT.
(** [grant] is a [u32], [cache] a [u8]. *)
Definition l4_map_control (snd_base cache grant : Z) : Z :=
  Z.lor (Z.lor (Z.lor (Z.land snd_base L4_FPAGE_CONTROL_MASK) (Z.shiftl cache 4)) L4_ITEM_MAP) grant.
Definition l4_map_obj_control (snd_base grant : Z) : Z := l4_map_control snd_base 0 grant.
Definition map_control (snd_base cache grant : Z) : Z := l4_map_control snd_base cache grant.
End L4SysCap.

Module Caps.
Section Caps.
Context {CC : CapConsts}.
Context {T : Type} `{IfaceInit T}.

Definition new (c : Z) : Cap T := MkCap (iface_new c).
Definition raw (c : Cap T) : Z := iface_raw (interface c).
Definition eqb (a b : Cap T) : bool :=
  Z.shiftr (raw a) L4_CAP_SHIFT =? Z.shiftr (raw b) L4_CAP_SHIFT.
Definition neb (a b : Cap T) : bool :=
  negb (Z.shiftr (raw a) L4_CAP_SHIFT =? Z.shiftr (raw b) L4_CAP_SHIFT).
(** [PartialEq<CapIdx>]. *)
Definition eqb_idx (a : Cap T) (other : Z) : bool :=
  Z.shiftr (raw a) L4_CAP_SHIFT =? Z.shiftr other L4_CAP_SHIFT.
Definition neb_idx (a : Cap T) (other : Z) : bool :=
  negb (Z.shiftr (raw a) L4_CAP_SHIFT =? Z.shiftr other L4_CAP_SHIFT).
Definition is_valid (c : Cap T) : bool := Z.land (raw c) L4_INVALID_CAP_BIT =? 0.
Definition is_invalid (c : Cap T) : bool := negb (Z.land (raw c) L4_INVALID_CAP_BIT =? 0).
Definition send_base (c : Cap T) (grant : Z) (base_cap : option Z) : Z :=
  l4_map_obj_control (default (raw c) base_cap) grant.

(** [transfer]: [l4_task_map k dst src snd_fpage snd_base] is the system call;
    its tag is dropped. *)
Definition transfer {K} (l4_task_map : K -> Z -> Z -> Z -> Z -> K) (k : K) (self source : Cap T)
  : Result unit * K :=
  if negb (is_valid self) || negb (is_valid source) then (Err InvalidCap, k)
  else (Ok tt, l4_task_map k L4_BASE_TASK_CAP L4_BASE_TASK_CAP
                 (l4_obj_fpage (raw source) 0 (wrap 8 L4_CAP_FPAGE_RWSD))
                 (Z.lor (send_base self L4_MAP_ITEM_GRANT None) 0xe0)).

Lemma raw_new c : raw (new c) = c.
Proof. apply iface_raw_new. Qed.
Lemma valid_invalid c : is_invalid c = negb (is_valid c).
Proof. done. Qed.
End Caps.

(** [cast] keeps the index and changes the interface. *)
Definition cast {T U} `{IfaceInit T} `{IfaceInit U} (c : Cap T) : Cap U := new (raw c).

(** [cap::from] and [invalid_cap]. *)
Definition from (c : Z) : Cap Untyped := MkCap (UntypedCap c).
Definition invalid_cap `{CapConsts} : Cap Untyped := MkCap (UntypedCap L4_INVALID_CAP).
End Caps.

(** * Flex-page rights and types *)

(** [bitflags!] of the rights, as their bits; the crate documents
    [from_bits_truncate] to drop the unknown bits. *)
Section Rights.
Context {CC : CapConsts}.
Definition RIGHTS_X : Z := wrap 8 L4_FPAGE_X.
Definition RIGHTS_W : Z := wrap 8 L4_FPAGE_W.
Definition RIGHTS_R : Z := wrap 8 L4_FPAGE_RO.
Definition RIGHTS_RW : Z := Z.lor RIGHTS_W RIGHTS_R.
Definition RIGHTS_RX : Z := Z.lor RIGHTS_R RIGHTS_X.
Definition RIGHTS_RWX : Z := Z.lor (Z.lor RIGHTS_R RIGHTS_W) RIGHTS_X.
End Rights.

Inductive MapType := MapMap | MapGrant.
Definition MapType_code `{CapConsts} (m : MapType) : Z :=
  match m with MapMap => wrap 8 L4_MAP_ITEM_MAP | MapGrant => wrap 8 L4_MAP_ITEM_GRANT end.

(** The values of the L4Re headers (with an [l4_obj_fpage] of the documented
    layout: object index above bit 12, type in bits 4-5, rights below). *)
Definition l4re_cap_consts : CapConsts.
Proof.
  refine {| L4_CAP_SHIFT := 12; L4_INVALID_CAP_BIT := 0x800;
            L4_INVALID_CAP := 0xfffffffffffff800; L4_CAP_MASK := 0xfffffffffffff800;
            L4_BASE_TASK_CAP := 0x1000; L4_CAP_FPAGE_RWSD := 15;
            L4_ITEM_MAP := 8; L4_ITEM_CONT := 1; L4_MAP_ITEM_MAP := 0; L4_MAP_ITEM_GRANT := 2;
            L4_RCV_ITEM_SINGLE_CAP := 10; L4_RCV_ITEM_LOCAL_ID := 4;
            L4_FPAGE_X := 1; L4_FPAGE_W := 2; L4_FPAGE_RO := 4;
            L4_FPAGE_CONTROL_MASK := 0xfffffffffffff000;
            l4_obj_fpage := fun o n r =>
              wrap 64 (Z.lor (Z.lor (Z.land o 0xfffffffffffff000) (Z.lor 48 (Z.shiftl n 6))) (wrap 8 r)) |}.
  - lia.
  - lia.
  - intros c Hc. rewrite !Z.land_lor_distr_l, Hc. cbn. by rewrite !Z.lor_0_r.
  - done.
  - intros. by apply wrap_range.
Defined.
