(* ===== verification/Utcb.v ===== *)
(** The UTCB's message and buffer registers as byte-granular, type-aligned
    storage: [Registers], [UtcbMr], [UtcbBr] of [crates/l4/utcb.rs] and
    [SndFlexPage].

    A register block is a list of bytes; a store or load through the raw
    [base] pointer is undefined behaviour outside it ([poke], [peek]).  A Rust
    type that may be copied bytewise is a [Pod]: size, alignment, and its byte
    representation.  Reading bytes that are not a value of the type ([bool],
    [char]) is undefined behaviour too. *)
From S2P Require Import Prelude Utf8 Error MsgTag Cap.
From Stdlib Require Import ZArith Lia.
From coqutil Require Import Z.bitblast.
From stdpp Require Import base list.
Open Scope Z_scope.

(** * Plain data: types that are [Serialisable] *)
Record Pod := {
  pod_t :> Type;
  size_of : Z;
  align_of : Z;
  pod_ok : pod_t -> Prop;
  pod_enc : pod_t -> list Z;
  pod_dec : list Z -> option pod_t;
  size_pos : 0 < size_of < 2 ^ 32;
  align_pow2 : exists k, 0 <= k <= 16 /\ align_of = 2 ^ k;
  zlen_enc : forall v, zlen (pod_enc v) = size_of;
  enc_ok : forall v, bytes_ok (pod_enc v);
  dec_enc : forall v, pod_ok v -> pod_dec (pod_enc v) = Some v;
}.

(** Unsigned and signed integers of [n] bytes, aligned to their size. *)
Definition uint_pod (k : nat) : Pod.
Proof.
  refine {| pod_t := Z; size_of := 2 ^ Z.of_nat (Nat.min k 4); align_of := 2 ^ Z.of_nat (Nat.min k 4);
            pod_ok := uint (8 * 2 ^ Z.of_nat (Nat.min k 4));
            pod_enc := le_bytes (Z.to_nat (2 ^ Z.of_nat (Nat.min k 4)));
            pod_dec := fun bs => Some (le_num bs) |}.
  - split; [apply pow2_pos; lia|]. apply Z.pow_lt_mono_r; lia.
  - exists (Z.of_nat (Nat.min k 4)). lia.
  - intros v. rewrite zlen_le_bytes. pose proof (pow2_pos (Z.of_nat (Nat.min k 4))). lia.
  - intros v. apply le_bytes_ok.
  - intros v Hv. rewrite le_num_bytes, Z2Nat.id by (apply Z.pow_nonneg; lia). by rewrite wrap_id.
Defined.

Definition sint_pod (k : nat) : Pod.
Proof.
  refine {| pod_t := Z; size_of := 2 ^ Z.of_nat (Nat.min k 4); align_of := 2 ^ Z.of_nat (Nat.min k 4);
            pod_ok := sint (8 * 2 ^ Z.of_nat (Nat.min k 4));
            pod_enc := le_bytes (Z.to_nat (2 ^ Z.of_nat (Nat.min k 4)));
            pod_dec := fun bs => Some (swrap (8 * 2 ^ Z.of_nat (Nat.min k 4)) (le_num bs)) |}.
  - split; [apply pow2_pos; lia|]. apply Z.pow_lt_mono_r; lia.
  - exists (Z.of_nat (Nat.min k 4)). lia.
  - intros v. rewrite zlen_le_bytes. pose proof (pow2_pos (Z.of_nat (Nat.min k 4))). lia.
  - intros v. apply le_bytes_ok.
  - intros v Hv. pose proof (pow2_pos (Z.of_nat (Nat.min k 4))).
    rewrite le_num_bytes, Z2Nat.id by lia. by rewrite swrap_wrap_id by (done || lia).
Defined.

Definition u8 : Pod := uint_pod 0.
Definition u16 : Pod := uint_pod 1.
Definition u32 : Pod := uint_pod 2.
Definition u64 : Pod := uint_pod 3.
Definition u128 : Pod := uint_pod 4.
Definition usize : Pod := uint_pod 3.
Definition i8 : Pod := sint_pod 0.
Definition i16 : Pod := sint_pod 1.
Definition i32 : Pod := sint_pod 2.
Definition i64 : Pod := sint_pod 3.
Definition i128 : Pod := sint_pod 4.
Definition isize : Pod := sint_pod 3.
(** Floats are copied as their bits. *)
Definition f32 : Pod := uint_pod 2.
Definition f64 : Pod := uint_pod 3.

Definition bool_pod : Pod.
Proof.
  refine {| pod_t := bool; size_of := 1; align_of := 1; pod_ok := fun _ => True;
            pod_enc := fun b => [if b then 1 else 0];
            pod_dec := fun bs => match bs with [0] => Some false | [1] => Some true | _ => None end |}.
  - lia.
  - exists 0. lia.
  - done.
  - intros []; constructor; unfold is_byte; [lia | constructor | lia | constructor].
  - by intros [] _.
Defined.

(** [char]: a Unicode scalar value in four bytes. *)
Definition is_scalar (c : Z) : bool :=
  ((0 <=? c) && (c <? 0xD800)) || ((0xDFFF <? c) && (c <? 0x110000)).
Definition char_pod : Pod.
Proof.
  refine {| pod_t := Z; size_of := 4; align_of := 4; pod_ok := fun c => is_scalar c = true;
            pod_enc := le_bytes 4;
            pod_dec := fun bs => if is_scalar (le_num bs) then Some (le_num bs) else None |}.
  - lia.
  - exists 2. lia.
  - intros v. by rewrite zlen_le_bytes.
  - intros v. apply le_bytes_ok.
  - intros c Hc. rewrite le_num_bytes, wrap_id, Hc; [done|].
    unfold uint. unfold is_scalar in Hc.
    apply orb_true_iff in Hc as [Hc|Hc]; apply andb_true_iff in Hc as [H1 H2]; zb; cbn; lia.
Defined.

(** A flex page to send: two words, [repr(C)]. *)
Record SndFlexPage := { description : Z; fpage : Z }.
#[export] Instance SndFlexPage_eq_dec : EqDecision SndFlexPage.
Proof. solve_decision. Defined.
Definition flexpage_pod : Pod.
Proof.
  refine {| pod_t := SndFlexPage; size_of := 16; align_of := 8;
            pod_ok := fun f => uint 64 (description f) /\ uint 64 (fpage f);
            pod_enc := fun f => le_bytes 8 (description f) ++ le_bytes 8 (fpage f);
            pod_dec := fun bs => Some {| description := le_num (take 8 bs); fpage := le_num (drop 8 bs) |} |}.
  - lia.
  - exists 3. lia.
  - intros v. by rewrite zlen_app, !zlen_le_bytes.
  - intros v. apply Forall_app_2; apply le_bytes_ok.
  - intros [d f] [Hd Hf]. cbn in Hd, Hf. do 2 f_equal.
    + rewrite take_app_length' by (by rewrite length_le_bytes). cbn [description].
      rewrite le_num_bytes. by apply wrap_id.
    + rewrite drop_app_length' by (by rewrite length_le_bytes). cbn [fpage].
      rewrite le_num_bytes. by apply wrap_id.
Defined.

Module FlexPage.
Section FlexPage.
Context {CC : CapConsts}.
Definition new (fpage snd_base : Z) (mt : option MapType) : SndFlexPage :=
  {| description := Z.lor (Z.lor L4_ITEM_MAP (Z.land snd_base (wrap 64 (Z.shiftl (unot 64 0) 10))))
                      (default 0 (MapType_code <$> mt));
     fpage := fpage |}.
Definition from_cap {T} `{IfaceInit T} (c : Cap T) (rights : Z) (mt : option MapType) : SndFlexPage :=
  new (l4_obj_fpage (Caps.raw c) 0 rights) 0 mt.
End FlexPage.
End FlexPage.

(** * Register blocks *)

(** Stores and loads through a raw pointer into a block. *)
Definition poke (m : list Z) (off : Z) (bs : list Z) : exec (list Z) :=
  if (0 <=? off) && (off + zlen bs <=? zlen m) then Done (mwrite m off bs) else UB.
Definition peek (m : list Z) (off n : Z) : exec (list Z) :=
  if (0 <=? off) && (0 <=? n) && (off + n <=? zlen m) then Done (mread m off n) else UB.
(** A load at a type. *)
Definition decode (T : Pod) (bs : list Z) : exec T :=
  match pod_dec T bs with Some v => Done v | None => UB end.

(** The element bytes of a slice, in order. *)
Definition slice_bytes (T : Pod) (val : list T) : list Z := concat (pod_enc T <$> val).
(** A [&[T]] into a block: start offset and element count.  Its elements are
    read from the block when they are used. *)
Record view := { v_start : Z; v_len : Z }.
Fixpoint view_decode (T : Pod) (n : nat) (bs : list Z) : exec (list T) :=
  match n with
  | O => Done []
  | S n =>
    v ← decode T (take (Z.to_nat (size_of T)) bs);
    vs ← view_decode T n (drop (Z.to_nat (size_of T)) bs);
    Done (v :: vs)
  end.
Definition view_get (T : Pod) (m : list Z) (v : view) : exec (list T) :=
  bs ← peek m (v_start v) (v_len v * size_of T);
  view_decode T (Z.to_nat (v_len v)) bs.

Definition align_offset {B : Build} (T : Pod) (off : Z) : exec Z :=
  s ← uadd 64 off (align_of T);
  s ← usub 64 s 1;
  Done (Z.land s (unot 64 (align_of T - 1))).

(** [NumCast::from] and [ToPrimitive::to_usize] of the [num] crate at an
    integer length type: the conversions that fail when the value does not fit. *)
Record LenType := {
  len_pod :> Pod;
  len_from : Z -> option len_pod;
  len_to_usize : len_pod -> option Z;
  len_from_ok : forall n l, 0 <= n -> len_from n = Some l -> pod_ok len_pod l /\ len_to_usize l = Some n;
  len_to_range : forall l n, len_to_usize l = Some n -> uint 64 n;
}.

Record Registers := { regs_mem : list Z; regs_offset : Z }.

Section Regs.
Context {B : Build}.
(** [U::BUF_SIZE]. *)
Variable BUF_SIZE : Z.
Abbreviation RegM := (RM Registers Error).

Definition from_raw (buf : list Z) : Registers := {| regs_mem := buf; regs_offset := 0 |}.

Definition write (T : Pod) (val : T) : RegM unit := fun r =>
  start ← align_offset T (regs_offset r);
  match checked_add start (size_of T) with
  | None => Done (Err (Generic MsgTooLong), r)
  | Some fin =>
    if BUF_SIZE <? fin then Done (Err (Generic MsgTooLong), r)
    else
      m ← poke (regs_mem r) start (pod_enc T val);
      Done (Ok tt, {| regs_mem := m; regs_offset := fin |})
  end.

Definition read (T : Pod) : RegM T := fun r =>
  start ← align_offset T (regs_offset r);
  match checked_add start (size_of T) with
  | None => Done (Err (Generic MsgTooLong), r)
  | Some fin =>
    if BUF_SIZE <? fin then Done (Err (Generic MsgTooLong), r)
    else
      bs ← peek (regs_mem r) start (size_of T);
      v ← decode T bs;
      Done (Ok v, {| regs_mem := regs_mem r; regs_offset := fin |})
  end.

Definition write_slice (Len : LenType) (T : Pod) (val : list T) : RegM unit :=
  match len_from Len (zlen val) with
  | None => rerr (Generic InvalidArg')
  | Some l =>
    (write Len l ;?
     fun r =>
      start ← align_offset T (regs_offset r);
      match checked_mul (zlen val) (size_of T) with
      | None => Done (Err (Generic MsgTooLong), r)
      | Some size_bytes =>
        match checked_add start size_bytes with
        | None => Done (Err (Generic MsgTooLong), r)
        | Some fin =>
          if BUF_SIZE <? fin then Done (Err (Generic MsgTooLong), r)
          else
            m ← poke (regs_mem r) start (slice_bytes T val);
            Done (Ok tt, {| regs_mem := m; regs_offset := fin |})
        end
      end)%rust
  end.

Definition read_slice (Len : LenType) (T : Pod) : RegM view :=
  (let? l := read Len in
   match len_to_usize Len l with
   | None => rerr (Generic InvalidArg')
   | Some len => fun r =>
     start ← align_offset T (regs_offset r);
     match checked_mul len (size_of T) with
     | None => Done (Err (Generic OutOfBounds), r)
     | Some size_bytes =>
       match checked_add start size_bytes with
       | None => Done (Err (Generic OutOfBounds), r)
       | Some fin =>
         if BUF_SIZE <? fin then Done (Err (Generic OutOfBounds), r)
         else Done (Ok {| v_start := start; v_len := len |},
                    {| regs_mem := regs_mem r; regs_offset := fin |})
       end
     end
   end)%rust.

(** [read_str]: a view on UTF-8 bytes of the block, one trailing NUL dropped. *)
Definition read_str : RegM view :=
  (let? len := read usize in
   fun r =>
     match checked_add (regs_offset r) len with
     | None => Done (Err (Generic OutOfBounds), r)
     | Some fin =>
       if BUF_SIZE <? fin then Done (Err (Generic OutOfBounds), r)
       else
         slice ← peek (regs_mem r) (regs_offset r) len;
         let usable := match last slice with Some 0 => len - 1 | _ => len end in
         match from_utf8 (take (Z.to_nat usable) slice) with
         | Some e => Done (Err (InvalidEncoding (Some e)), r)
         | None => Done (Ok {| v_start := regs_offset r; v_len := usable |},
                         {| regs_mem := regs_mem r; regs_offset := fin |})
         end
     end)%rust.

(** Mwords written to this buffer, rounded up. *)
Definition regs_words (r : Registers) : Z :=
  wrap 32 (regs_offset r `div` 8 + match regs_offset r `mod` 8 with 0 => 0 | _ => 1 end).
Definition reset (r : Registers) : Registers := {| regs_mem := regs_mem r; regs_offset := 0 |}.
Definition skip (T : Pod) : RegM unit := fun r =>
  start ← align_offset T (regs_offset r);
  match checked_add start (size_of T) with
  | None => Done (Err (Generic MsgTooLong), r)
  | Some fin =>
    if BUF_SIZE <? fin then Done (Err (Generic MsgTooLong), r)
    else Done (Ok tt, {| regs_mem := regs_mem r; regs_offset := fin |})
  end.
End Regs.

(** [write_str] is [write_slice::<usize, u8>]. *)
Definition usize_len : LenType.
Proof.
  refine {| len_pod := usize;
            len_from := fun n => if n <? 2 ^ 64 then Some n else None;
            len_to_usize := fun l => if (0 <=? l) && (l <? 2 ^ 64) then Some l else None |}.
  - intros n l Hn H. destruct (n <? 2 ^ 64) eqn:E; [|done]. simplify_eq. zb.
    split; [unfold pod_ok, usize, uint_pod, uint; cbn; lia|].
    by do 2 (replace (0 <=? l) with true by (symmetry; apply Z.leb_le; lia); cbn; try zif_true).
  - intros l n H. destruct ((0 <=? l) && (l <? 2 ^ 64)) eqn:E; [|done].
    simplify_eq. zb. unfold uint. lia.
Defined.
Definition u16_len : LenType.
Proof.
  refine {| len_pod := u16;
            len_from := fun n => if n <? 2 ^ 16 then Some n else None;
            len_to_usize := fun l => if (0 <=? l) && (l <? 2 ^ 64) then Some l else None |}.
  - intros n l Hn H. destruct (n <? 2 ^ 16) eqn:E; [|done]. simplify_eq. zb.
    split; [unfold pod_ok, u16, uint_pod, uint; cbn; lia|].
    replace (0 <=? l) with true by (symmetry; apply Z.leb_le; lia). cbn. by zif_true.
  - intros l n H. destruct ((0 <=? l) && (l <? 2 ^ 64)) eqn:E; [|done].
    simplify_eq. zb. unfold uint. lia.
Defined.
Definition write_str {B : Build} (BUF_SIZE : Z) (val : list Z) : RM Registers Error unit :=
  write_slice BUF_SIZE usize_len u8 val.

(** * The UTCB *)
Class UtcbConsts := {
  L4_UTCB_GENERIC_DATA_SIZE : Z; generic_data_range : 8 <= L4_UTCB_GENERIC_DATA_SIZE <= 63;
  L4_UTCB_GENERIC_BUFFERS_SIZE : Z; generic_buffers_range : 8 <= L4_UTCB_GENERIC_BUFFERS_SIZE < 256;
}.
Definition l4re_utcb_consts : UtcbConsts.
Proof.
  refine {| L4_UTCB_GENERIC_DATA_SIZE := 63; L4_UTCB_GENERIC_BUFFERS_SIZE := 58 |}; lia.
Defined.

Section Sizes.
Context {UC : UtcbConsts}.
Definition UTCB_GENERIC_DATA_SIZE : Z := L4_UTCB_GENERIC_DATA_SIZE.
Definition MSG_REG_COUNT : Z := UTCB_GENERIC_DATA_SIZE `div` (8 `div` 8).
(** [BUF_SIZE] of the message and of the buffer registers. *)
Definition MR_SIZE : Z := L4_UTCB_GENERIC_DATA_SIZE * 8.
Definition BR_SIZE : Z := L4_UTCB_GENERIC_BUFFERS_SIZE * 8.
End Sizes.

Record UtcbMr := { mr_regs : Registers; mr_items : Z }.

Module Mr.
Section Mr.
Context {UC : UtcbConsts} {B : Build}.
Abbreviation MrM := (RM UtcbMr Error).

(** [Deref]/[DerefMut]: an operation of the registers on the message registers. *)
Definition on_regs {A} (f : RM Registers Error A) : MrM A := fun mr =>
  '(a, r) ← f (mr_regs mr);
  Done (a, {| mr_regs := r; mr_items := mr_items mr |}).
Definition write (T : Pod) (v : T) : MrM unit := on_regs (write MR_SIZE T v).
Definition read (T : Pod) : MrM T := on_regs (read MR_SIZE T).
Definition skip (T : Pod) : MrM unit := on_regs (skip MR_SIZE T).
Definition write_slice (Len : LenType) (T : Pod) (v : list T) : MrM unit :=
  on_regs (write_slice MR_SIZE Len T v).
Definition read_slice (Len : LenType) (T : Pod) : MrM view := on_regs (read_slice MR_SIZE Len T).
Definition write_str (v : list Z) : MrM unit := on_regs (write_str MR_SIZE v).
Definition read_str : MrM view := on_regs (read_str MR_SIZE).

Definition from_mr (m : list Z) : UtcbMr := {| mr_regs := from_raw m; mr_items := 0 |}.
Definition write_item (T : Pod) (v : T) : MrM unit :=
  (write T v ;?
   fun mr =>
     i ← uadd 32 (mr_items mr) 1;
     Done (Ok tt, {| mr_regs := mr_regs mr; mr_items := i |}))%rust.
Definition items (mr : UtcbMr) : Z := mr_items mr.
Definition words (mr : UtcbMr) : exec Z :=
  i2 ← umul 32 (mr_items mr) 2;
  usub 32 (regs_words (mr_regs mr)) i2.
Definition reset (mr : UtcbMr) : UtcbMr := {| mr_regs := reset (mr_regs mr); mr_items := 0 |}.
End Mr.
End Mr.

(** [UtcbBr]: two words per item. *)
Record UtcbBr := { br_regs : Registers }.
Definition UtcbBr_from_br (m : list Z) : UtcbBr := {| br_regs := from_raw m |}.
Definition UtcbBr_words (b : UtcbBr) : Z := regs_words (br_regs b) `div` 2.

(** * Behaviour of the register operations *)

(** [align_offset] rounds up to the type's alignment. *)
Definition align_up (T : Pod) (off : Z) : Z :=
  (off + align_of T - 1) `div` align_of T * align_of T.

Lemma align_range T : 1 <= align_of T <= 65536.
Proof.
  destruct (align_pow2 T) as (k & Hk & ->). split.
  - pose proof (pow2_pos k). lia.
  - change 65536 with (2 ^ 16). apply Z.pow_le_mono_r; lia.
Qed.

Lemma align_up_bounds T off : off <= align_up T off < off + align_of T.
Proof.
  pose proof (align_range T). unfold align_up.
  pose proof (Z.div_mod (off + align_of T - 1) (align_of T)).
  pose proof (Z.mod_pos_bound (off + align_of T - 1) (align_of T)). lia.
Qed.

Lemma align_up_aligned T off : align_up T off `mod` align_of T = 0.
Proof. pose proof (align_range T). unfold align_up. apply Z.mod_mul. lia. Qed.

Lemma land_clear s k : 0 <= k <= 16 -> uint 64 s ->
  Z.land s (unot 64 (2 ^ k - 1)) = s `div` 2 ^ k * 2 ^ k.
Proof.
  intros Hk Hs. assert (unot 64 (2 ^ k - 1) = Z.shiftl (Z.ones (64 - k)) k) as ->.
  { unfold unot. rewrite Z.shiftl_mul_pow2, Z.ones_equiv by lia.
    replace 64 with ((64 - k) + k) at 1 by lia. rewrite Z.pow_add_r by lia. lia. }
  rewrite <- Z.shiftr_div_pow2, <- Z.shiftl_mul_pow2 by lia.
  rewrite <- Z.ldiff_ones_r by lia.
  rewrite <- (wrap_id 64 s Hs), wrap_land by lia. clear Hs. bits.
Qed.

Lemma align_offset_up {B : Build} T off :
  0 <= off < 2 ^ 32 -> align_offset T off = Done (align_up T off).
Proof.
  intros Hoff. pose proof (align_range T). unfold align_offset.
  rewrite uadd_small by lia. cbn. rewrite usub_small by lia. cbn. f_equal.
  unfold align_up. destruct (align_pow2 T) as (k & Hk & Ha). rewrite Ha in *.
  apply land_clear; [done | unfold uint; lia].
Qed.

Section Specs.
Context {B : Build}.
Variable BUF : Z.
Implicit Types (T : Pod) (Len : LenType).

(** The registers of a valid UTCB: the block has its size, the offset is inside. *)
Definition regs_ok (r : Registers) : Prop :=
  0 <= regs_offset r <= BUF /\ zlen (regs_mem r) = BUF /\ bytes_ok (regs_mem r) /\ BUF < 2 ^ 16.

(** Where a [T] goes, and whether it fits. *)
Definition slot_end (T : Pod) (off : Z) : Z := align_up T off + size_of T.

Lemma slot_bounds T r : regs_ok r ->
  0 <= align_up T (regs_offset r) < 2 ^ 32 /\ regs_offset r <= align_up T (regs_offset r)
  /\ align_up T (regs_offset r) < slot_end T (regs_offset r) < 2 ^ 40.
Proof.
  intros (? & ? & ? & ?). pose proof (align_range T). pose proof (size_pos T).
  pose proof (align_up_bounds T (regs_offset r)). unfold slot_end. lia.
Qed.

(** Enter a register operation: the offset computations are exact. *)
Lemma enter_slot T r {A} (k : Z -> Z -> exec A) (err : exec A) : regs_ok r ->
  (start ← align_offset T (regs_offset r);
   match checked_add start (size_of T) with
   | None => err
   | Some fin => k start fin
   end) = k (align_up T (regs_offset r)) (slot_end T (regs_offset r)).
Proof.
  intros Hr. pose proof (slot_bounds T r Hr). destruct Hr as (? & ? & ? & ?).
  rewrite align_offset_up by lia. cbn. unfold checked_add, slot_end in *. by zif_true.
Qed.

Lemma poke_inside m off bs : 0 <= off -> off + zlen bs <= zlen m -> poke m off bs = Done (mwrite m off bs).
Proof. intros. unfold poke. do 2 zif_true. done. Qed.
Lemma peek_inside m off n : 0 <= off -> 0 <= n -> off + n <= zlen m -> peek m off n = Done (mread m off n).
Proof. intros. unfold peek. do 3 zif_true. done. Qed.

Lemma write_spec T v r : regs_ok r ->
  write BUF T v r =
  if BUF <? slot_end T (regs_offset r) then Done (Err (Generic MsgTooLong), r)
  else Done (Ok tt, {| regs_mem := mwrite (regs_mem r) (align_up T (regs_offset r)) (pod_enc T v);
                       regs_offset := slot_end T (regs_offset r) |}).
Proof.
  intros Hr. unfold write. rewrite enter_slot by done. destruct (_ <? _) eqn:E; [done|]. zb.
  pose proof (slot_bounds T r Hr). destruct Hr as (? & ? & ? & ?). unfold slot_end in *.
  rewrite poke_inside by (rewrite ?zlen_enc; lia). done.
Qed.

Lemma read_spec T r : regs_ok r ->
  read BUF T r =
  if BUF <? slot_end T (regs_offset r) then Done (Err (Generic MsgTooLong), r)
  else v ← decode T (mread (regs_mem r) (align_up T (regs_offset r)) (size_of T));
       Done (Ok v, {| regs_mem := regs_mem r; regs_offset := slot_end T (regs_offset r) |}).
Proof.
  intros Hr. unfold read. rewrite enter_slot by done. destruct (_ <? _) eqn:E; [done|]. zb.
  pose proof (slot_bounds T r Hr). pose proof (size_pos T). destruct Hr as (? & ? & ? & ?).
  unfold slot_end in *. rewrite peek_inside by lia. done.
Qed.

Lemma skip_spec T r : regs_ok r ->
  skip BUF T r =
  if BUF <? slot_end T (regs_offset r) then Done (Err (Generic MsgTooLong), r)
  else Done (Ok tt, {| regs_mem := regs_mem r; regs_offset := slot_end T (regs_offset r) |}).
Proof. intros Hr. unfold skip. rewrite enter_slot by done. done. Qed.

(** [r'] is [r] after some writing: nothing before the old offset changed. *)
Definition ext (r r' : Registers) : Prop :=
  regs_ok r' /\ regs_offset r <= regs_offset r' /\
  take (Z.to_nat (regs_offset r)) (regs_mem r') = take (Z.to_nat (regs_offset r)) (regs_mem r).

Ltac regs_split := unfold ext, regs_ok in *; destruct_and?; cbn in *; split_and!; try done; try lia.

Lemma ext_refl r : regs_ok r -> ext r r.
Proof. intros. regs_split. Qed.
Lemma ext_trans r1 r2 r3 : ext r1 r2 -> ext r2 r3 -> ext r1 r3.
Proof.
  intros (H1 & H2 & H3) (H4 & H5 & H6). refine (conj H4 (conj _ _)); [lia|].
  rewrite <- H3. by eapply take_prefix_le.
Qed.

(** Storing behind the offset and moving the offset behind the store. *)
Lemma ext_store r start bs : regs_ok r -> regs_offset r <= start -> bytes_ok bs ->
  start + zlen bs <= BUF ->
  ext r {| regs_mem := mwrite (regs_mem r) start bs; regs_offset := start + zlen bs |}.
Proof.
  intros ????. pose proof (zlen_nonneg bs). regs_split; [| auto with rust |].
  - rewrite zlen_mwrite; lia.
  - apply take_mwrite; lia.
Qed.

Lemma write_ext T v r r' : regs_ok r -> write BUF T v r = Done (Ok tt, r') -> ext r r'.
Proof.
  intros Hr. rewrite write_spec by done. destruct (_ <? _) eqn:E; [done|]. intros H. simplify_eq. zb.
  pose proof (slot_bounds T r Hr). unfold slot_end in *. rewrite <- (zlen_enc T v).
  apply ext_store; [done | lia | apply enc_ok | rewrite zlen_enc; lia].
Qed.

Lemma skip_ext T r r' : regs_ok r -> skip BUF T r = Done (Ok tt, r') -> ext r r'.
Proof.
  intros Hr. rewrite skip_spec by done. destruct (_ <? _) eqn:E; [done|]. intros H. simplify_eq. zb.
  pose proof (slot_bounds T r Hr). regs_split.
Qed.

(** A write never leaves the block, and fails without effect when it does not fit. *)
Lemma write_cases T v r : regs_ok r ->
  (exists r', write BUF T v r = Done (Ok tt, r') /\ ext r r')
  \/ write BUF T v r = Done (Err (Generic MsgTooLong), r).
Proof.
  intros Hr. destruct (BUF <? slot_end T (regs_offset r)) eqn:E.
  - right. rewrite write_spec, E by done. done.
  - left. eexists. split; [rewrite write_spec, E by done; done|].
    eapply write_ext; [done|]. rewrite write_spec, E by done. done.
Qed.

(** What was written is read back, from any block that agrees up to the end
    of what was written: later writes and the transport do not matter. *)
Lemma read_write T v r r' m :
  regs_ok r -> pod_ok T v -> write BUF T v r = Done (Ok tt, r') ->
  zlen m = BUF -> bytes_ok m ->
  take (Z.to_nat (regs_offset r')) m = take (Z.to_nat (regs_offset r')) (regs_mem r') ->
  read BUF T {| regs_mem := m; regs_offset := regs_offset r |}
  = Done (Ok v, {| regs_mem := m; regs_offset := regs_offset r' |}).
Proof.
  intros Hr Hv Hw Hm Hok Heq. pose proof (slot_bounds T r Hr) as Hb. pose proof (size_pos T).
  assert (regs_ok {| regs_mem := m; regs_offset := regs_offset r |}) as Hr2
    by (clear -Hr Hm Hok; regs_split).
  rewrite read_spec by done. rewrite write_spec in Hw by done. cbn.
  destruct (_ <? _) eqn:E; [done|]. simplify_eq. zb. cbn in Heq |- *.
  rewrite (mread_prefix m _ _ _ _ Heq) by (unfold slot_end; lia).
  destruct Hr as (?&?&?&?). unfold slot_end in *.
  rewrite mread_mwrite_same by (rewrite ?zlen_enc; lia).
  unfold decode. by rewrite dec_enc.
Qed.

Lemma skip_skip T r r' m :
  regs_ok r -> skip BUF T r = Done (Ok tt, r') -> zlen m = BUF -> bytes_ok m ->
  skip BUF T {| regs_mem := m; regs_offset := regs_offset r |}
  = Done (Ok tt, {| regs_mem := m; regs_offset := regs_offset r' |}).
Proof.
  intros Hr. assert (regs_ok r) by done. rewrite skip_spec by done. intros Hs Hm Hok.
  rewrite skip_spec by (clear -Hr Hm Hok; regs_split). cbn.
  destruct (_ <? _); [done|]. by simplify_eq.
Qed.

(** ** Slices and strings *)
Lemma slice_bytes_len T (val : list T) : zlen (slice_bytes T val) = zlen val * size_of T.
Proof.
  unfold slice_bytes. induction val as [|v val IH]; [done|].
  cbn [fmap list_fmap concat]. rewrite zlen_app, zlen_enc, IH, zlen_cons. lia.
Qed.
Lemma slice_bytes_ok T (val : list T) : bytes_ok (slice_bytes T val).
Proof. induction val; cbn; [constructor | apply Forall_app_2; [apply enc_ok | done]]. Qed.

Lemma view_decode_slice T (val : list T) :
  Forall (pod_ok T) val -> view_decode T (length val) (slice_bytes T val) = Done val.
Proof.
  pose proof (size_pos T). induction 1 as [|v val Hv Hval IH]; [done|].
  assert (length (pod_enc T v) = Z.to_nat (size_of T)) as Hl
    by (pose proof (zlen_enc T v); unfold zlen in *; lia).
  unfold slice_bytes in *. cbn [length view_decode fmap list_fmap concat].
  rewrite take_app_length', drop_app_length' by done.
  unfold decode. rewrite dec_enc by done. cbn. by rewrite IH.
Qed.

(** The element part of [write_slice], after the length. *)
Lemma write_slice_ok Len T val r r' : regs_ok r ->
  write_slice BUF Len T val r = Done (Ok tt, r') ->
  exists l r1, len_from Len (zlen val) = Some l /\ write BUF Len l r = Done (Ok tt, r1) /\ regs_ok r1
    /\ align_up T (regs_offset r1) + zlen val * size_of T <= BUF
    /\ zlen val * size_of T < 2 ^ 64
    /\ r' = {| regs_mem := mwrite (regs_mem r1) (align_up T (regs_offset r1)) (slice_bytes T val);
            regs_offset := align_up T (regs_offset r1) + zlen val * size_of T |}.
Proof.
  intros Hr. unfold write_slice. destruct (len_from Len (zlen val)) as [l|] eqn:Hl; [|done].
  unfold rbind. destruct (write_cases Len l r Hr) as [(r1 & Hw & Hx) | ->]; [|done].
  rewrite Hw.
  assert (regs_ok r1) as Hr1 by apply Hx. pose proof (slot_bounds T r1 Hr1).
  rewrite align_offset_up by (destruct Hr1 as (?&?&?&?); lia). cbn.
  unfold checked_mul, checked_add. destruct (zlen val * size_of T <? _) eqn:?; [|done].
  destruct (align_up T (regs_offset r1) + zlen val * size_of T <? _) eqn:?; [|done].
  destruct (BUF <? _) eqn:?; [done|]. zb.
  pose proof (zlen_nonneg val). pose proof (size_pos T).
  rewrite poke_inside by (rewrite ?slice_bytes_len; destruct Hr1 as (?&?&?&?); lia). cbn.
  intros Heq. simplify_eq. exists l, r1. by split_and!.
Qed.

Lemma write_slice_ext Len T val r r' : regs_ok r ->
  write_slice BUF Len T val r = Done (Ok tt, r') -> ext r r'.
Proof.
  intros Hr Hw. destruct (write_slice_ok _ _ _ _ _ Hr Hw) as (l & r1 & Hl & Hw1 & Hr1 & Hfit & _ & ->).
  eapply ext_trans; [by eapply write_ext|]. rewrite <- slice_bytes_len.
  pose proof (slot_bounds T r1 Hr1). apply ext_store; [done | lia | apply slice_bytes_ok |].
  by rewrite slice_bytes_len.
Qed.

(** Writing a slice stays inside the block on every path. *)
Lemma write_slice_total Len T val r : regs_ok r ->
  exists res r', write_slice BUF Len T val r = Done (res, r') /\ ext r r'.
Proof.
  intros Hr. unfold write_slice. destruct (len_from Len (zlen val)) as [l|] eqn:Hl;
    [|eexists _, r; by split; [|apply ext_refl]].
  unfold rbind. destruct (write_cases Len l r Hr) as [(r1 & -> & Hx) | ->];
    [|eexists _, r; by split; [|apply ext_refl]].
  assert (regs_ok r1) as Hr1 by apply Hx. pose proof (slot_bounds T r1 Hr1).
  rewrite align_offset_up by (destruct Hr1 as (?&?&?&?); lia). cbn.
  unfold checked_mul, checked_add. destruct (zlen val * size_of T <? _) eqn:?; [|eauto].
  destruct (align_up T (regs_offset r1) + zlen val * size_of T <? _) eqn:?; [|eauto].
  destruct (BUF <? _) eqn:?; [eauto|]. zb.
  pose proof (zlen_nonneg val). pose proof (size_pos T).
  rewrite poke_inside by (rewrite ?slice_bytes_len; destruct Hr1 as (?&?&?&?); lia). cbn.
  eexists _, _. split; [done|]. eapply ext_trans; [done|]. rewrite <- slice_bytes_len.
  apply ext_store; [done | lia | apply slice_bytes_ok | by rewrite slice_bytes_len].
Qed.

(** The common part of the two readers: the length and the place are those of
    the writer. *)
Lemma read_write_slice Len T val r r' m :
  regs_ok r -> Forall (pod_ok T) val -> write_slice BUF Len T val r = Done (Ok tt, r') ->
  zlen m = BUF -> bytes_ok m ->
  take (Z.to_nat (regs_offset r')) m = take (Z.to_nat (regs_offset r')) (regs_mem r') ->
  exists v, read_slice BUF Len T {| regs_mem := m; regs_offset := regs_offset r |}
    = Done (Ok v, {| regs_mem := m; regs_offset := regs_offset r' |})
    /\ v_len v = zlen val /\ view_get T m v = Done val.
Proof.
  intros Hr Hval Hw Hm Hok Heq.
  destruct (write_slice_ok _ _ _ _ _ Hr Hw) as (l & r1 & Hl & Hw1 & Hr1 & Hfit & Hsz & ->).
  destruct (len_from_ok Len _ _ (zlen_nonneg val) Hl) as [Hlok Hback].
  pose proof (slot_bounds T r1 Hr1) as Hb. pose proof (zlen_nonneg val). pose proof (size_pos T).
  cbn [regs_offset regs_mem] in *.
  eexists {| v_start := align_up T (regs_offset r1); v_len := zlen val |}. split_and!; [|done|].
  - unfold read_slice, rbind. erewrite read_write; [| exact Hr | exact Hlok | exact Hw1 | done | done |].
    2:{ apply (take_prefix_le _ _ _ (regs_offset r1)) in Heq; [|lia]. rewrite Heq.
        apply take_mwrite; destruct Hr1 as (?&?&?&?); lia. }
    rewrite Hback. cbn. rewrite align_offset_up by (destruct Hr1 as (?&?&?&?); lia). cbn.
    unfold checked_mul, checked_add. destruct Hr1 as (?&?&?&?). do 2 zif_true. by zif_false.
  - unfold view_get. cbn. rewrite peek_inside by lia. cbn.
    rewrite (mread_prefix m _ _ _ _ Heq) by lia. destruct Hr1 as (?&?&?&?).
    rewrite mread_mwrite_same by (rewrite ?slice_bytes_len; lia).
    unfold zlen. rewrite Nat2Z.id. by apply view_decode_slice.
Qed.

Lemma slice_bytes_u8 (s : list Z) : bytes_ok s -> slice_bytes u8 s = s.
Proof.
  induction 1 as [|b s Hb Hs IH]; [done|].
  unfold slice_bytes in *. cbn [fmap list_fmap concat]. rewrite IH.
  change (pod_enc u8 b) with (le_bytes 1 b). cbn [le_bytes app].
  unfold is_byte in Hb. by rewrite Z.mod_small.
Qed.

Lemma mread_shorter (m : list Z) off n k : n <= k -> mread m off n = take (Z.to_nat n) (mread m off k).
Proof. intros. unfold mread. rewrite take_take. f_equal. lia. Qed.

Lemma mwrite_usize_len (val : list Z) r l r1 :
  len_from usize_len (zlen val) = Some l -> write BUF usize_len l r = Done (Ok tt, r1) -> l = zlen val.
Proof. cbn [len_from usize_len]. destruct (_ <? _); [|done]. by intros [= ->]. Qed.

Lemma align_up_u8 off : align_up u8 off = off.
Proof. unfold align_up. cbn. rewrite Z.div_1_r. lia. Qed.

(** A string that does not end in NUL is read back as it was written; one that
    does loses exactly that byte ("0-bytes from C strings will be discarded"). *)
Definition drop_nul (s : list Z) : list Z :=
  match last s with Some 0 => take (length s - 1) s | _ => s end.

Lemma drop_nul_len (s : list Z) : zlen (drop_nul s) = match last s with Some 0 => zlen s - 1 | _ => zlen s end.
Proof.
  unfold drop_nul, zlen. destruct s as [|a s]; [done|].
  destruct (last (a :: s)) as [[]|]; try done. rewrite length_take. cbn [length]. lia.
Qed.
Lemma drop_nul_take (s : list Z) :
  take (Z.to_nat match last s with Some 0 => zlen s - 1 | _ => zlen s end) s = drop_nul s.
Proof.
  unfold drop_nul, zlen. destruct (last s) as [[]|]; rewrite ?firstn_all2 by lia; try done.
  f_equal. lia.
Qed.

Lemma read_write_str s r r' m :
  regs_ok r -> bytes_ok s -> from_utf8 (drop_nul s) = None ->
  write_str BUF s r = Done (Ok tt, r') ->
  zlen m = BUF -> bytes_ok m ->
  take (Z.to_nat (regs_offset r')) m = take (Z.to_nat (regs_offset r')) (regs_mem r') ->
  exists v, read_str BUF {| regs_mem := m; regs_offset := regs_offset r |}
    = Done (Ok v, {| regs_mem := m; regs_offset := regs_offset r' |})
    /\ peek m (v_start v) (v_len v) = Done (drop_nul s).
Proof.
  intros Hr Hs Hutf Hw Hm Hok Heq. unfold write_str in Hw.
  destruct (write_slice_ok _ _ _ _ _ Hr Hw) as (l & r1 & Hl & Hw1 & Hr1 & Hfit & Hsz & ->).
  pose proof (mwrite_usize_len _ _ _ _ Hl Hw1) as ->.
  destruct (len_from_ok usize_len _ _ (zlen_nonneg s) Hl) as [Hlok _].
  rewrite align_up_u8 in *. rewrite slice_bytes_u8 in * by done.
  change (size_of u8) with 1 in *. change (pod_t u8) with Z in *.
  rewrite Z.mul_1_r in *. pose proof (zlen_nonneg s).
  cbn [regs_offset regs_mem] in *.
  assert (mread m (regs_offset r1) (zlen s) = s) as Hread.
  { destruct Hr1 as (?&?&?&?). rewrite (mread_prefix m _ _ _ _ Heq) by lia.
    apply mread_mwrite_same; lia. }
  destruct Hr1 as (?&?&?&?).
  eexists {| v_start := regs_offset r1; v_len := zlen (drop_nul s) |}. split.
  - unfold read_str, rbind. rewrite (read_write usize (zlen s) r r1); [| done.. |].
    2:{ apply (take_prefix_le _ _ _ (regs_offset r1)) in Heq; [|lia]. rewrite Heq.
        apply take_mwrite; lia. }
    cbn. unfold checked_add. zif_true. zif_false. rewrite peek_inside by lia. cbn.
    rewrite Hread, drop_nul_take, Hutf, drop_nul_len. done.
  - cbn. assert (zlen (drop_nul s) <= zlen s) as Hle.
    { unfold drop_nul, zlen. repeat case_match; rewrite ?length_take; lia. }
    pose proof (zlen_nonneg (drop_nul s)). rewrite peek_inside by lia.
    f_equal. rewrite (mread_shorter m _ _ (zlen s)) by lia.
    rewrite Hread, drop_nul_len. apply drop_nul_take.
Qed.

(** A string goes in when its length word and its bytes fit, and is refused
    with [MsgTooLong] otherwise. *)
Lemma write_str_cases s r : regs_ok r -> zlen s < 2 ^ 63 ->
  exists r', ext r r' /\
    write_str BUF s r
    = Done (if slot_end usize (regs_offset r) + zlen s <=? BUF then Ok tt else Err (Generic MsgTooLong), r').
Proof.
  intros Hr Hs. pose proof (zlen_nonneg s). unfold write_str, write_slice. cbn [len_from usize_len].
  change (pod_t u8) with Z. change (size_of u8) with 1. zif_true. unfold rbind.
  rewrite (write_spec usize_len (zlen s)) by done. change (slot_end usize_len) with (slot_end usize).
  destruct (BUF <? slot_end usize (regs_offset r)) eqn:E; zb.
  { exists r. zif_false. by split; [apply ext_refl|]. }
    set (r1 := {| regs_mem := mwrite (regs_mem r) (align_up usize_len (regs_offset r)) (pod_enc usize_len (zlen s));
                regs_offset := slot_end usize (regs_offset r) |}).
  assert (ext r r1) as Hx.
  { apply (write_ext usize_len (zlen s)); [done|].
    rewrite write_spec by done. change (slot_end usize_len) with (slot_end usize). by zif_false. }
  pose proof Hx as [Hr1 _]. pose proof Hr1 as (?&?&?&?).
  assert (regs_offset r1 = slot_end usize (regs_offset r)) as Ho by done.
  rewrite align_offset_up, align_up_u8 by lia. estep. rewrite Ho in *.
  unfold checked_mul, checked_add. rewrite Z.mul_1_r. do 2 zif_true.
  destruct (BUF <? _) eqn:E2; zb.
  { exists r1. zif_false. by split. }
  exists {| regs_mem := mwrite (regs_mem r1) (regs_offset r1) (slice_bytes u8 s);
       regs_offset := regs_offset r1 + zlen (slice_bytes u8 s) |}.
  pose proof (slice_bytes_len u8 s) as Hb. change (size_of u8) with 1 in Hb. change (pod_t u8) with Z in Hb.
  split.
  - eapply ext_trans; [done|]. apply ext_store; [done | lia | apply slice_bytes_ok | lia].
  - rewrite poke_inside by lia. zif_true. rewrite Hb, Ho. estep. by rewrite Z.mul_1_r.
Qed.

(** C12: [write_str] on valid registers writes the string exactly when its
    aligned length word and its bytes fit, touches nothing before the write
    offset either way, and reports [MsgTooLong] otherwise; what it wrote,
    [read_str] at the same offset of any block that agrees up to the end of the
    writing reads back as the same bytes, less one trailing NUL. *)
Theorem write_str_roundtrip s r : regs_ok r -> bytes_ok s -> zlen s < 2 ^ 63 ->
  from_utf8 (drop_nul s) = None ->
  if slot_end usize (regs_offset r) + zlen s <=? BUF then
    exists r', write_str BUF s r = Done (Ok tt, r') /\ ext r r' /\
      forall m, zlen m = BUF -> bytes_ok m ->
        take (Z.to_nat (regs_offset r')) m = take (Z.to_nat (regs_offset r')) (regs_mem r') ->
        exists v, read_str BUF {| regs_mem := m; regs_offset := regs_offset r |}
          = Done (Ok v, {| regs_mem := m; regs_offset := regs_offset r' |})
          /\ peek m (v_start v) (v_len v) = Done (drop_nul s)
  else exists r', write_str BUF s r = Done (Err (Generic MsgTooLong), r') /\ ext r r'.
Proof.
  intros Hr Hs Hl Hu. destruct (write_str_cases s r Hr Hl) as (r' & Hx & Hw).
  destruct (_ <=? BUF); exists r'; [|done].
  split; [done|]. split; [done|]. intros m Hm Hb Hag. by eapply read_write_str.
Qed.
End Specs.

(** * Behaviour of the message registers *)
Lemma ceil_div8 o : 0 <= o < 2 ^ 16 ->
  o `div` 8 + match o `mod` 8 with 0 => 0 | _ => 1 end = (o + 7) `div` 8.
Proof.
  intros Ho. pose proof (Z.div_mod o 8). pose proof (Z.mod_pos_bound o 8).
  destruct (o `mod` 8) eqn:E; try lia.
  - apply Z.div_unique with 7; lia.
  - apply Z.div_unique with (Z.pos p - 1); lia.
Qed.

Section MrSpecs.
Context {UC : UtcbConsts} {B : Build}.

(** An item takes two words of the registers. *)
Definition mr_ok (mr : UtcbMr) : Prop :=
  regs_ok MR_SIZE (mr_regs mr) /\ 0 <= mr_items mr /\ 16 * mr_items mr <= regs_offset (mr_regs mr).
(** [mr'] is [mr] after some writing. *)
Definition mr_ext (mr mr' : UtcbMr) : Prop :=
  mr_ok mr' /\ ext MR_SIZE (mr_regs mr) (mr_regs mr').
(** A fresh set of registers over a UTCB's message words. *)
Definition mr_fresh (m : list Z) : Prop := zlen m = MR_SIZE /\ bytes_ok m.

Lemma mr_size_range : 0 < MR_SIZE < 2 ^ 16.
Proof. pose proof generic_data_range. unfold MR_SIZE. lia. Qed.

Lemma from_mr_ok m : mr_fresh m -> mr_ok (Mr.from_mr m).
Proof. intros []. pose proof mr_size_range. unfold mr_ok, regs_ok. cbn. split_and!; (done || lia). Qed.

Lemma mr_ext_refl mr : mr_ok mr -> mr_ext mr mr.
Proof. intros H. split; [done|]. apply ext_refl, H. Qed.
Lemma mr_ext_trans a b c : mr_ext a b -> mr_ext b c -> mr_ext a c.
Proof. intros [? ?] [? ?]. split; [done|]. by eapply ext_trans. Qed.

Lemma regs_words_spec r : regs_ok MR_SIZE r -> regs_words r = (regs_offset r + 7) `div` 8.
Proof.
  intros (?&?&?&?). pose proof mr_size_range. unfold regs_words.
  rewrite ceil_div8 by lia. apply wrap_id. unfold uint.
  pose proof (Z.div_le_mono (regs_offset r + 7) (2 ^ 17) 8).
  change (2 ^ 17 `div` 8) with 16384 in *. pose proof (Z.div_pos (regs_offset r + 7) 8). lia.
Qed.

(** The word count of the reply tag never underflows. *)
Lemma mr_words_spec mr : mr_ok mr ->
  Mr.words mr = Done ((regs_offset (mr_regs mr) + 7) `div` 8 - 2 * mr_items mr).
Proof.
  intros (Hr & Hi & Hb). unfold Mr.words. rewrite regs_words_spec by done.
  pose proof mr_size_range. destruct Hr as (?&?&?&?).
  rewrite umul_small by lia. cbn.
  assert (2 * mr_items mr <= (regs_offset (mr_regs mr) + 7) `div` 8)
    by (apply Z.div_le_lower_bound; lia).
  rewrite usub_small by lia. f_equal. lia.
Qed.

Lemma mr_write_cases T v mr : mr_ok mr ->
  (exists mr', Mr.write T v mr = Done (Ok tt, mr') /\ mr_ext mr mr' /\ mr_items mr' = mr_items mr)
  \/ Mr.write T v mr = Done (Err (Generic MsgTooLong), mr).
Proof.
  intros (Hr & ? & ?). unfold Mr.write, Mr.on_regs.
  destruct (write_cases MR_SIZE T v (mr_regs mr) Hr) as [(r' & -> & Hx) | ->].
  - left. eexists. split; [done|]. cbn. split; [|done]. split; [|done].
    destruct Hx as (?&?&?). split_and!; cbn; [done | lia | lia].
  - right. by destruct mr.
Qed.

Lemma mr_write_inv T v mr mr' : mr_ok mr -> Mr.write T v mr = Done (Ok tt, mr') ->
  mr_ext mr mr' /\ mr_items mr' = mr_items mr
  /\ write MR_SIZE T v (mr_regs mr) = Done (Ok tt, mr_regs mr').
Proof.
  intros Hmr Hw. destruct (mr_write_cases T v mr Hmr) as [(mr2 & Hw' & ? & ?) | Hw'];
    rewrite Hw in Hw'; simplify_eq. split_and!; try done.
  unfold Mr.write, Mr.on_regs in Hw. destruct (write _ _ _ _) as [[[]]| | |] eqn:E; cbn in Hw; by simplify_eq.
Qed.

Lemma slot_end_0 T : slot_end T 0 = size_of T.
Proof. unfold slot_end, align_up. pose proof (align_range T). rewrite (Z.div_small (0 + _ - 1)) by lia. lia. Qed.

(** Room for the next value. *)
Lemma mr_write_fits T v mr : mr_ok mr -> slot_end T (regs_offset (mr_regs mr)) <= MR_SIZE ->
  exists mr', Mr.write T v mr = Done (Ok tt, mr') /\ mr_ok mr' /\ regs_offset (mr_regs mr') = slot_end T (regs_offset (mr_regs mr)).
Proof.
  intros Hmr Hs. assert (MR_SIZE <? slot_end T (regs_offset (mr_regs mr)) = false) as E by (apply Z.ltb_ge; lia).
  destruct (mr_write_cases T v mr Hmr) as [(mr' & Hw & Hx & _)|Hw].
  - exists mr'. split; [done|]. split; [apply Hx|]. destruct (mr_write_inv T v mr mr' Hmr Hw) as (_ & _ & Hr).
    rewrite write_spec, E in Hr by apply Hmr. by injection Hr as <-.
  - exfalso. unfold Mr.write, Mr.on_regs in Hw. by rewrite write_spec, E in Hw by apply Hmr.
Qed.

(** Reading at the same place of a block that agrees up to the end. *)
Definition agree (mr : UtcbMr) (m : list Z) : Prop :=
  mr_fresh m /\
  take (Z.to_nat (regs_offset (mr_regs mr))) m
  = take (Z.to_nat (regs_offset (mr_regs mr))) (regs_mem (mr_regs mr)).
Definition at_off (m : list Z) (mr : UtcbMr) (n : Z) : UtcbMr :=
  {| mr_regs := {| regs_mem := m; regs_offset := regs_offset (mr_regs mr) |}; mr_items := n |}.

Lemma agree_ext a b m : mr_ext a b -> agree b m -> agree a m.
Proof.
  intros [_ (_ & Hle & Heq)] [Hf Hag]. split; [done|].
  rewrite <- Heq. by eapply take_prefix_le.
Qed.

Lemma mr_read_write T v mr mr' m n :
  mr_ok mr -> pod_ok T v -> Mr.write T v mr = Done (Ok tt, mr') -> agree mr' m ->
  Mr.read T (at_off m mr n) = Done (Ok v, at_off m mr' n).
Proof.
  intros Hmr Hv Hw [[Hl Hb] Hag]. pose proof (mr_write_inv _ _ _ _ Hmr Hw) as (_ & _ & Hw').
  unfold Mr.read, Mr.on_regs, at_off. cbn. by erewrite read_write; [| apply Hmr | ..].
Qed.
End MrSpecs.

(** Registers of 32 bytes; "hi" and its terminator at offset 3. *)
Lemma write_str_roundtrip_witness :
  let r := {| regs_mem := replicate 32 0; regs_offset := 3 |} in
  exists r', write_str (B := Build_Build true) 32 [104; 105; 0] r = Done (Ok tt, r') /\ ext 32 r r' /\
    forall m, zlen m = 32 -> bytes_ok m ->
      take (Z.to_nat (regs_offset r')) m = take (Z.to_nat (regs_offset r')) (regs_mem r') ->
      exists v, read_str (B := Build_Build true) 32 {| regs_mem := m; regs_offset := 3 |}
        = Done (Ok v, {| regs_mem := m; regs_offset := regs_offset r' |})
        /\ peek m (v_start v) (v_len v) = Done [104; 105].
Proof.
  intros r. apply (write_str_roundtrip (B := Build_Build true) 32 [104; 105; 0] r).
  - by apply (bool_decide_unpack _); vm_compute.
  - by apply bytes_okb_ok.
  - done.
  - done.
Defined.
