(* ===== verification/Pages.v ===== *)
(** Page arithmetic ([l4-sys/lib.rs]).

    Shown: [trunc_page] is the page boundary at or below an address; [round_page] the
    one at or above it, except on the last page ([page_rounding]). *)
From S2P Require Import Prelude Error Utcb.
From Stdlib Require Import ZArith Lia.
From stdpp Require Import base numbers.
Open Scope Z_scope.

(** The kernel headers' page size, a power of two, and its mask. *)
Class PageConsts := {
  L4_PAGESIZE : Z;
  L4_PAGEMASK : Z;
  pagesize_pow2 : exists k, 0 <= k <= 16 /\ L4_PAGESIZE = 2 ^ k;
  pagemask_size : wrap 64 L4_PAGEMASK = unot 64 (L4_PAGESIZE - 1);
}.

Module Pages.
Section Pages.
Context {PG : PageConsts} {B : Build}.

Definition L4_PAGEMASKU : Z := wrap 64 L4_PAGEMASK.
Definition trunc_page (address : Z) : Z := Z.land address L4_PAGEMASKU.
Definition round_page (address : Z) : exec Z :=
  s ← uadd 64 address (wrap 64 L4_PAGESIZE);
  s ← usub 64 s 1;
  Done (Z.land s (wrap 64 L4_PAGEMASK)).

(** The page boundary at or below [a]. *)
Definition boundary_below (a b : Z) : Prop := b `mod` L4_PAGESIZE = 0 /\ b <= a < b + L4_PAGESIZE.

Lemma pagesize_range : 1 <= L4_PAGESIZE <= 65536.
Proof.
  destruct pagesize_pow2 as (k & Hk & ->). pose proof (pow2_pos k). split; [lia|].
  change 65536 with (2 ^ 16). apply Z.pow_le_mono_r; lia.
Qed.
Lemma boundary_unique a b c : boundary_below a b -> boundary_below a c -> b = c.
Proof.
  pose proof pagesize_range. intros [Hb ?] [Hc ?]. apply Z.div_exact in Hb, Hc; [|lia..].
  set (x := b `div` L4_PAGESIZE) in *. set (y := c `div` L4_PAGESIZE) in *. clearbody x y. subst b c. f_equal.
  assert (x < y + 1 /\ y < x + 1); [|lia]. split; apply (Z.mul_lt_mono_pos_l L4_PAGESIZE); lia.
Qed.
Lemma mask_below s : uint 64 s -> boundary_below s (Z.land s L4_PAGEMASKU).
Proof.
  intros Hs. pose proof pagesize_range. unfold L4_PAGEMASKU, boundary_below. rewrite pagemask_size.
  destruct pagesize_pow2 as (k & Hk & Hp). rewrite Hp, land_clear in * by done.
  split; [apply Z.mod_mul; lia|]. pose proof (Z.div_mod s (2 ^ k)). pose proof (Z.mod_pos_bound s (2 ^ k)). lia.
Qed.
Lemma mask_small s : 0 <= s < L4_PAGESIZE -> Z.land s L4_PAGEMASKU = 0.
Proof.
  intros Hs. pose proof pagesize_range. unfold L4_PAGEMASKU. rewrite pagemask_size.
  destruct pagesize_pow2 as (k & Hk & Hp). rewrite Hp, land_clear in * by (done || unfold uint; lia).
  rewrite Z.div_small by lia. lia.
Qed.
(** 2^64 is a page boundary. *)
Lemma last_page : (2 ^ 64 - L4_PAGESIZE) `mod` L4_PAGESIZE = 0.
Proof.
  destruct pagesize_pow2 as (k & Hk & ->). replace (2 ^ 64 - 2 ^ k) with ((2 ^ (64 - k) - 1) * 2 ^ k).
  - apply Z.mod_mul. pose proof (pow2_pos k). lia.
  - rewrite Z.mul_sub_distr_r, <- Z.pow_add_r by lia. f_equal; [f_equal; lia | lia].
Qed.

(** Truncating an address gives the page boundary at or below it. Rounding
    gives the least one at or above it for every address below the last page.
    On the last page the sum overflows: with overflow checks every address there
    panics, its first one too, which is a boundary itself; without, the first one
    is kept and the others become 0. *)
Theorem page_rounding a : uint 64 a ->
  boundary_below a (trunc_page a)
  /\ (a + L4_PAGESIZE < 2 ^ 64 -> exists b, round_page a = Done b /\ b `mod` L4_PAGESIZE = 0 /\ a <= b < a + L4_PAGESIZE)
  /\ (2 ^ 64 - L4_PAGESIZE <= a ->
      round_page a = if overflow_checks then Panics else Done (if a =? 2 ^ 64 - L4_PAGESIZE then a else 0)).
Proof.
  intros Ha. pose proof pagesize_range. pose proof (mask_below a Ha) as Hm. split; [done|].
  unfold round_page. rewrite (wrap_id 64 L4_PAGESIZE) by (unfold uint; lia). fold L4_PAGEMASKU. unfold uint in Ha. split.
  - intros Hs. rewrite uadd_small by lia. estep. rewrite usub_small by lia. estep. eexists. split; [done|].
    destruct (mask_below (a + L4_PAGESIZE - 1)) as [Hd Hb]; [unfold uint; lia|]. split; [done | lia].
  - intros Hs. unfold uadd. zif_false. destruct overflow_checks eqn:Eo; [done|]. estep.
    assert (wrap 64 (a + L4_PAGESIZE) = a + L4_PAGESIZE - 2 ^ 64) as ->.
    { unfold wrap. symmetry. apply Z.mod_unique with 1; lia. }
    destruct (a =? 2 ^ 64 - L4_PAGESIZE) eqn:E; zb.
    + subst a. unfold usub. zif_false. rewrite Eo. estep. f_equal.
      replace (2 ^ 64 - L4_PAGESIZE + L4_PAGESIZE - 2 ^ 64 - 1) with (-1) by lia. change (wrap 64 (-1)) with (2 ^ 64 - 1).
      apply (boundary_unique (2 ^ 64 - 1)); [apply mask_below; unfold uint; lia|]. split; [apply last_page | lia].
    + rewrite usub_small by lia. estep. f_equal. apply mask_small. lia.
Qed.
End Pages.

(** Pages of 4 KiB. *)
Module Concrete.
#[local] Instance pages_4k : PageConsts.
Proof.
  refine {| L4_PAGESIZE := 4096; L4_PAGEMASK := -4096 |}; [exists 12; split; [lia | done] | done].
Defined.
#[local] Existing Instance debug_build.
Lemma page_rounding_witness :
  boundary_below 0x1234 (trunc_page 0x1234)
  /\ (exists b, round_page 0x1234 = Done b /\ b `mod` L4_PAGESIZE = 0 /\ 0x1234 <= b < 0x1234 + L4_PAGESIZE)
  /\ round_page (2 ^ 64 - 4096) = Panics.
Proof.
  destruct (page_rounding 0x1234) as (H1 & H2 & _); [unfold uint; lia|]. split; [exact H1|]. split; [by apply H2|].
  destruct (page_rounding (2 ^ 64 - 4096)) as (_ & _ & H3); [unfold uint; lia|]. by apply H3.
Defined.
Example round_up : round_page 0x1234 = Done 0x2000.
Proof. reflexivity. Qed.
End Concrete.
End Pages.
