(* ===== verification/UtcbBlock.v ===== *)
(** The UTCB as memory ([l4/utcb.rs], [Utcb]; [l4-sys/ipc_basic.rs]; the calls of
    [l4/ipc/syscall.rs]).

    [Utcb.v] treats the registers an operation is given; here they are parts of
    one block of memory per thread, and every [mr()], [br()] or [mr_raw()] is a
    pointer into it.  A value of [UtcbMr] is then a pointer with its own position,
    and several of them can point to the same registers.

    Shown: what is written through one of them is read through another
    ([utcb_views_share]), and writing messages leaves the buffer registers, the
    buffer descriptor and other threads' blocks alone ([utcb_mr_frame]). *)
From S2P Require Import Prelude Error MsgTag Cap Utcb.
From Stdlib Require Import ZArith Lia.
From stdpp Require Import base list gmap.
Open Scope Z_scope.

(** The layout, from the kernel's headers: offsets of the two parts in the block. *)
Class UtcbLayout `{UC : UtcbConsts} := {
  UTCB_SIZE : Z;
  L4_UTCB_MSG_REGS_OFFSET : Z;
  L4_UTCB_BUF_REGS_OFFSET : Z;
  msg_regs_inside : 0 <= L4_UTCB_MSG_REGS_OFFSET /\ L4_UTCB_MSG_REGS_OFFSET + MR_SIZE <= L4_UTCB_BUF_REGS_OFFSET;
  buf_regs_inside : L4_UTCB_BUF_REGS_OFFSET + 8 + BR_SIZE <= UTCB_SIZE;
}.

Module UtcbBlock.
Section Block.
Context {TC : TagConsts} {CC : CapConsts} {UC : UtcbConsts} {UL : UtcbLayout} {B : Build}.

(** Blocks by address; a pointer is a block's address and an offset. *)
Abbreviation memory := (gmap Z (list Z)).
Record Ptr := { blk : Z; ofs : Z }.
Definition load (p : Ptr) (n : Z) (mem : memory) : exec (list Z) :=
  match mem !! blk p with Some m => peek m (ofs p) n | None => UB end.
Definition store (p : Ptr) (bs : list Z) (mem : memory) : exec memory :=
  match mem !! blk p with
  | Some m => m ← poke m (ofs p) bs; Done (<[ blk p := m ]> mem)
  | None => UB
  end.

(** ** [ipc_basic.rs] *)
(** The calling thread's block. *)
Variable l4_utcb : Z.
Definition UTCB_BUF_REGS_OFFSET : Z := L4_UTCB_BUF_REGS_OFFSET.
Definition l4_utcb_mr_u (u : Z) : Ptr := {| blk := u; ofs := L4_UTCB_MSG_REGS_OFFSET |}.
Definition l4_utcb_mr : Ptr := l4_utcb_mr_u l4_utcb.
Definition l4_utcb_br_u (u : Z) : Ptr := {| blk := u; ofs := UTCB_BUF_REGS_OFFSET |}.
Definition l4_utcb_br : Ptr := {| blk := l4_utcb; ofs := UTCB_BUF_REGS_OFFSET |}.
(** Fields of [l4_buf_regs_t]: the descriptor, then the registers. *)
Definition field_bdr (p : Ptr) : Ptr := p.
Definition field_br (p : Ptr) : Ptr := {| blk := blk p; ofs := ofs p + 8 |}.

(** ** [Utcb] *)
Record Utcb := { raw : Z }.
Definition current : Utcb := {| raw := l4_utcb |}.
Definition from_ptr (u : Z) : Utcb := {| raw := u |}.
Definition words_of (bs : list Z) : list Z := (fun i => load64 bs (Z.of_nat i)) <$> seq 0 (Z.to_nat MSG_REG_COUNT).
Definition mr_raw (self : Utcb) (mem : memory) : exec (list Z) :=
  bs ← load (l4_utcb_mr_u (raw self)) MR_SIZE mem; Done (words_of bs).
(** [mr_raw_mut()[i] = v]. *)
Definition mr_raw_set (self : Utcb) (i v : Z) (mem : memory) : exec memory :=
  if (0 <=? i) && (i <? MSG_REG_COUNT) then
    store {| blk := raw self; ofs := ofs (l4_utcb_mr_u (raw self)) + 8 * i |} (le_bytes 8 v) mem
  else Panics.

(** [UtcbMr] and [UtcbBr] with the pointer of their [Registers]. *)
Record MrAt := { mr_ptr : Ptr; mr_off : Z; mr_cnt : Z }.
Record BrAt := { br_ptr : Ptr; br_off : Z }.
Definition from_utcb_mr (u : Z) : MrAt := {| mr_ptr := l4_utcb_mr_u u; mr_off := 0; mr_cnt := 0 |}.
Definition from_utcb_br (u : Z) : BrAt := {| br_ptr := field_br (l4_utcb_br_u u); br_off := 0 |}.
Definition mr (self : Utcb) : MrAt := from_utcb_mr (raw self).
Definition br (self : Utcb) : BrAt := from_utcb_br (raw self).
Definition bdr (self : Utcb) (mem : memory) : exec Z := bs ← load (field_bdr l4_utcb_br) 8 mem; Done (le_num bs).

(** An operation of [Utcb.v] through such a pointer. *)
Definition via_mr {A} (f : RM UtcbMr Error A) : RM (MrAt * memory) Error A := fun '(b, mem) =>
  bs ← load (mr_ptr b) MR_SIZE mem;
  '(r, m) ← f {| mr_regs := {| regs_mem := bs; regs_offset := mr_off b |}; mr_items := mr_cnt b |};
  mem ← store (mr_ptr b) (regs_mem (mr_regs m)) mem;
  Done (r, ({| mr_ptr := mr_ptr b; mr_off := regs_offset (mr_regs m); mr_cnt := mr_items m |}, mem)).
Definition via_br {A} (f : RM Registers Error A) : RM (BrAt * memory) Error A := fun '(b, mem) =>
  bs ← load (br_ptr b) BR_SIZE mem;
  '(r, m) ← f {| regs_mem := bs; regs_offset := br_off b |};
  mem ← store (br_ptr b) (regs_mem m) mem;
  Done (r, ({| br_ptr := br_ptr b; br_off := regs_offset m |}, mem)).

(** ** [syscall.rs]: the kernel's primitives act on the memory *)
Context {Timeout : Type}.
Variable l4_ipc_call_wrapper : Z -> Z -> Z -> Timeout -> memory -> Z * memory.
Variable l4_ipc_receive_wrapper : Z -> Z -> Timeout -> memory -> Z * memory.
Variable l4_ipc_sleep_wrapper : Timeout -> memory -> Z * memory.
Definition call {T} `{IfaceInit T} (dest : Cap T) (utcb : Utcb) (tag : MsgTag) (timeout : Timeout) (mem : memory) : MsgTag * memory :=
  let '(t, mem) := l4_ipc_call_wrapper (Caps.raw dest) (raw utcb) (Tag.raw tag) timeout mem in (Tag.from t, mem).
Definition receive {T} `{IfaceInit T} (object : Cap T) (utcb : Utcb) (timeout : Timeout) (mem : memory) : MsgTag * memory :=
  let '(t, mem) := l4_ipc_receive_wrapper (Caps.raw object) (raw utcb) timeout mem in (Tag.from t, mem).
Definition sleep (timeout : Timeout) (mem : memory) : MsgTag * memory :=
  let '(t, mem) := l4_ipc_sleep_wrapper timeout mem in (Tag.from t, mem).

(** * Theorems *)
(** A thread's block, and a part of it. *)
Definition block_ok (u : Z) (mem : memory) : Prop := exists m, mem !! u = Some m /\ zlen m = UTCB_SIZE /\ bytes_ok m.
Definition part (p : Ptr) (n : Z) (mem : memory) : list Z :=
  match mem !! blk p with Some m => mread m (ofs p) n | None => [] end.
Definition inside (p : Ptr) (n : Z) : Prop := 0 <= ofs p /\ 0 <= n /\ ofs p + n <= UTCB_SIZE.
Definition apart (p : Ptr) (n : Z) (q : Ptr) (k : Z) : Prop := blk p <> blk q \/ ofs p + n <= ofs q \/ ofs q + k <= ofs p.

Lemma layout_range : 0 <= L4_UTCB_MSG_REGS_OFFSET /\ L4_UTCB_MSG_REGS_OFFSET + MR_SIZE <= L4_UTCB_BUF_REGS_OFFSET
  /\ L4_UTCB_BUF_REGS_OFFSET + 8 + BR_SIZE <= UTCB_SIZE /\ 0 < MR_SIZE /\ 0 < BR_SIZE.
Proof.
  pose proof msg_regs_inside. pose proof buf_regs_inside. pose proof mr_size_range. pose proof generic_buffers_range.
  unfold BR_SIZE in *. lia.
Qed.
Lemma mr_inside u : inside (l4_utcb_mr_u u) MR_SIZE.
Proof. pose proof layout_range. unfold inside. cbn. lia. Qed.

Lemma load_part p n mem : block_ok (blk p) mem -> inside p n ->
  load p n mem = Done (part p n mem) /\ zlen (part p n mem) = n /\ bytes_ok (part p n mem).
Proof.
  intros (m & Hm & Hl & Hb) (H1 & H2 & H3). unfold load, part. rewrite Hm, peek_inside by lia.
  split; [done|]. split; [apply zlen_mread; lia | by apply mread_bytes_ok].
Qed.
Lemma store_part p bs mem : block_ok (blk p) mem -> inside p (zlen bs) -> bytes_ok bs ->
  exists mem', store p bs mem = Done mem' /\ part p (zlen bs) mem' = bs
  /\ (forall v, block_ok v mem -> block_ok v mem')
  /\ forall q k, inside q k -> apart p (zlen bs) q k -> part q k mem' = part q k mem.
Proof.
  intros (m & Hm & Hl & Hb) (H1 & H2 & H3) Hbs. unfold store, part, block_ok. rewrite Hm, poke_inside by lia. cbn.
  eexists. split; [done|]. split_and!.
  - rewrite lookup_insert_eq. apply mread_mwrite_same; lia.
  - intros v (mv & Hv & Hlv & Hbv). destruct (decide (blk p = v)) as [<-|Hne].
    + rewrite lookup_insert_eq. eexists. split; [done|]. rewrite zlen_mwrite by lia. split; [done | by apply mwrite_bytes_ok].
    + rewrite lookup_insert_ne by done. eauto.
  - intros q k (? & ? & ?) Hap. destruct (decide (blk p = blk q)) as [He|Hne].
    + rewrite <- He, lookup_insert_eq, Hm. destruct Hap as [|[|]]; [done | |];
        [apply mread_mwrite_after | apply mread_mwrite_before]; lia.
    + by rewrite lookup_insert_ne.
Qed.

(** Writing twice to the same place, and writing what is there. *)
Lemma store_store p a b mem mem1 : inside p (zlen b) -> zlen a = zlen b -> block_ok (blk p) mem ->
  store p a mem = Done mem1 -> store p b mem1 = store p b mem.
Proof.
  intros (H1 & H2 & H3) Hab (m & Hm & Hl & _). unfold store. rewrite Hm, poke_inside by lia. estep. intros [= <-].
  rewrite lookup_insert_eq, !poke_inside by (rewrite ?zlen_mwrite; lia). estep. rewrite insert_insert_eq, mwrite_mwrite; [done | lia..].
Qed.
Lemma store_part_same p n mem : block_ok (blk p) mem -> inside p n -> store p (part p n mem) mem = Done mem.
Proof.
  intros Hb Hin. destruct (load_part p n mem Hb Hin) as (_ & Hz & _). destruct Hb as (m & Hm & Hl & _), Hin as (H1 & H2 & H3).
  unfold store, part in *. rewrite Hm in *. rewrite poke_inside by lia. estep. rewrite mwrite_mread by lia. by rewrite insert_id.
Qed.

(** A pointer's value and the memory: the registers [m] written into [mem0]. *)
Definition shows (u : Z) (mem0 : memory) (m : UtcbMr) (b : MrAt) (mem : memory) : Prop :=
  b = {| mr_ptr := l4_utcb_mr_u u; mr_off := regs_offset (mr_regs m); mr_cnt := mr_items m |}
  /\ store (l4_utcb_mr_u u) (regs_mem (mr_regs m)) mem0 = Done mem.

Lemma shows_fresh u mem : block_ok u mem -> shows u mem (Mr.from_mr (part (l4_utcb_mr_u u) MR_SIZE mem)) (from_utcb_mr u) mem.
Proof. intros Hu. split; [done|]. apply store_part_same; [done | apply mr_inside]. Qed.
Lemma shows_part u mem0 m b mem : block_ok u mem0 -> mr_ok m -> shows u mem0 m b mem ->
  part (l4_utcb_mr_u u) MR_SIZE mem = regs_mem (mr_regs m)
  /\ (forall v, block_ok v mem0 -> block_ok v mem)
  /\ forall q k, inside q k -> apart (l4_utcb_mr_u u) MR_SIZE q k -> part q k mem = part q k mem0.
Proof.
  intros Hu ((_ & Hl & Hb & _) & _) [_ Hs].
  destruct (store_part (l4_utcb_mr_u u) (regs_mem (mr_regs m)) mem0 Hu) as (mem' & Hs' & H); [rewrite Hl; apply mr_inside | done |].
  rewrite Hl in H. by rewrite Hs in Hs'; injection Hs' as <-.
Qed.
(** An operation that stays within the registers, through a pointer. *)
Lemma via_mr_shows {A} (f : RM UtcbMr Error A) u mem0 m b mem r m' : block_ok u mem0 -> mr_ok m -> shows u mem0 m b mem ->
  f m = Done (r, m') -> mr_ok m' -> exists b' mem', via_mr f (b, mem) = Done (r, (b', mem')) /\ shows u mem0 m' b' mem'.
Proof.
  intros Hu Hm Hs Hf Hm'. destruct (shows_part _ _ _ _ _ Hu Hm Hs) as (Hp & Hk & _). destruct Hs as [-> Hst].
  destruct (load_part (l4_utcb_mr_u u) MR_SIZE mem (Hk _ Hu) (mr_inside u)) as (Hld & _).
  unfold via_mr. cbn [mr_ptr mr_off mr_cnt]. rewrite Hld, Hp. estep.
  replace {| mr_regs := {| regs_mem := regs_mem (mr_regs m); regs_offset := regs_offset (mr_regs m) |}; mr_items := mr_items m |}
    with m by (by destruct m as [[]]). rewrite Hf. estep.
  assert (zlen (regs_mem (mr_regs m)) = MR_SIZE) as Hl by apply Hm. assert (zlen (regs_mem (mr_regs m')) = MR_SIZE) as Hl' by apply Hm'.
  rewrite (store_store _ _ _ _ _ ltac:(rewrite Hl'; apply mr_inside) ltac:(by rewrite Hl, Hl') Hu Hst).
  destruct (store_part (l4_utcb_mr_u u) (regs_mem (mr_regs m')) mem0 Hu) as (mem' & E & _); [rewrite Hl'; apply mr_inside | apply Hm' |].
  rewrite E. estep. eexists _, _. split; [done|]. by split.
Qed.
Lemma via_mr_run {A} (f : RM UtcbMr Error A) u mem r m : block_ok u mem ->
  f (Mr.from_mr (part (l4_utcb_mr_u u) MR_SIZE mem)) = Done (r, m) -> mr_ok m ->
  exists mem', via_mr f (from_utcb_mr u, mem)
    = Done (r, ({| mr_ptr := l4_utcb_mr_u u; mr_off := regs_offset (mr_regs m); mr_cnt := mr_items m |}, mem'))
  /\ part (l4_utcb_mr_u u) MR_SIZE mem' = regs_mem (mr_regs m)
  /\ (forall v, block_ok v mem -> block_ok v mem')
  /\ forall q k, inside q k -> apart (l4_utcb_mr_u u) MR_SIZE q k -> part q k mem' = part q k mem.
Proof.
  intros Hu Hf Hm. assert (mr_ok (Mr.from_mr (part (l4_utcb_mr_u u) MR_SIZE mem))) as Hok.
  { apply from_mr_ok. by destruct (load_part (l4_utcb_mr_u u) MR_SIZE mem Hu (mr_inside u)) as (_ & ? & ?). }
  destruct (via_mr_shows f u mem _ _ _ r m Hu Hok (shows_fresh u mem Hu) Hf Hm) as (b' & mem' & Hv & Hs).
  exists mem'. split; [|by apply (shows_part u mem m b' mem')]. by destruct Hs as [-> _].
Qed.
Lemma mr_part_fresh u mem : block_ok u mem -> mr_fresh (part (l4_utcb_mr_u u) MR_SIZE mem).
Proof. intros Hu. by destruct (load_part (l4_utcb_mr_u u) MR_SIZE mem Hu (mr_inside u)) as (_ & ? & ?). Qed.

(** A value written first, and read first. *)
Lemma write_read_first (T : Pod) v u mem : block_ok u mem -> pod_ok T v -> size_of T <= MR_SIZE ->
  let b := {| mr_ptr := l4_utcb_mr_u u; mr_off := size_of T; mr_cnt := 0 |} in
  exists mem1, via_mr (Mr.write T v) (from_utcb_mr u, mem) = Done (Ok tt, (b, mem1)) /\ block_ok u mem1
  /\ exists mem2, via_mr (Mr.read T) (from_utcb_mr u, mem1) = Done (Ok v, (b, mem2)).
Proof.
  intros Hu Hv Hs b. set (bs := part (l4_utcb_mr_u u) MR_SIZE mem). pose proof (mr_part_fresh u mem Hu) as Hbs.
  pose proof (from_mr_ok _ Hbs) as Hok.
  destruct (mr_write_fits T v _ Hok) as (m & Hw & Hm & Ho); [cbn; by rewrite slot_end_0|]. cbn in Ho. rewrite slot_end_0 in Ho.
  destruct (via_mr_run _ u mem _ m Hu Hw Hm) as (mem1 & Hw1 & Hp & Hk & _).
  destruct (mr_write_inv T v _ _ Hok Hw) as (Hx & Hit & _). exists mem1.
  split; [rewrite Hw1; unfold b; by rewrite Ho, Hit|]. split; [by apply Hk|].
  assert (agree m (regs_mem (mr_regs m))) as Hag by (split; [destruct Hm as ((_ & ? & ? & _) & _); by split | done]).
  pose proof (mr_read_write T v _ m _ 0 Hok Hv Hw Hag) as Hr.
  change (at_off (regs_mem (mr_regs m)) (Mr.from_mr bs) 0) with (Mr.from_mr (regs_mem (mr_regs m))) in Hr. rewrite <- Hp in Hr.
  destruct (via_mr_run _ u mem1 _ _ (Hk _ Hu) Hr) as (mem2 & Hr2 & _).
  { rewrite Hp. destruct Hm as ((? & ? & ? & ?) & _). unfold mr_ok, regs_ok. cbn. split_and!; (done || lia). }
  exists mem2. rewrite Hr2. unfold b. cbn. by rewrite Ho.
Qed.

(** The views of a thread's message registers share them. A value written
    first through one [mr()] is what another [mr()] of the same block reads
    first; a value written first through the second then takes the place of the
    first one's. *)
Theorem utcb_views_share (T : Pod) v w (u : Utcb) mem : block_ok (raw u) mem -> pod_ok T v -> pod_ok T w -> size_of T <= MR_SIZE ->
  exists b mem1, via_mr (Mr.write T v) (mr u, mem) = Done (Ok tt, (b, mem1))
  /\ (exists mem', via_mr (Mr.read T) (mr u, mem1) = Done (Ok v, (b, mem')))
  /\ exists mem2, via_mr (Mr.write T w) (mr u, mem1) = Done (Ok tt, (b, mem2))
     /\ exists mem', via_mr (Mr.read T) (mr u, mem2) = Done (Ok w, (b, mem')).
Proof.
  intros Hu Hv Hw Hs. destruct (write_read_first T v _ _ Hu Hv Hs) as (mem1 & Hw1 & Hu1 & Hr1).
  destruct (write_read_first T w _ _ Hu1 Hw Hs) as (mem2 & Hw2 & _ & Hr2). eauto 10.
Qed.

End Block.

(** A block of 128 words: the message registers at its start, the
    buffer registers behind a descriptor at byte 512. *)
Module Concrete.
#[local] Existing Instance l4re_utcb_consts.
#[local] Existing Instance debug_build.
#[local] Instance block_layout : UtcbLayout.
Proof.
  refine {| UTCB_SIZE := 1024; L4_UTCB_MSG_REGS_OFFSET := 0; L4_UTCB_BUF_REGS_OFFSET := 512 |};
    unfold MR_SIZE, BR_SIZE; cbn; lia.
Defined.
Definition threads : gmap Z (list Z) := <[ 0x1000 := replicate 1024 7 ]> (<[ 0x2000 := replicate 1024 9 ]> ∅).
Lemma thread_ok : block_ok 0x1000 threads.
Proof. exists (replicate 1024 7). split; [done|]. split; [done|]. apply Forall_replicate. unfold is_byte. lia. Qed.

Lemma utcb_views_share_witness :
  exists b mem1, via_mr (Mr.write u32 5) (mr {| raw := 0x1000 |}, threads) = Done (Ok tt, (b, mem1))
  /\ (exists mem', via_mr (Mr.read u32) (mr {| raw := 0x1000 |}, mem1) = Done (Ok 5, (b, mem')))
  /\ exists mem2, via_mr (Mr.write u32 6) (mr {| raw := 0x1000 |}, mem1) = Done (Ok tt, (b, mem2))
     /\ exists mem', via_mr (Mr.read u32) (mr {| raw := 0x1000 |}, mem2) = Done (Ok 6, (b, mem')).
Proof.
  apply (utcb_views_share u32 5 6 {| raw := 0x1000 |} threads thread_ok);
    [unfold pod_ok, u32, uint_pod, uint; cbn; lia.. | by vm_compute].
Defined.

(** [bdr] asks the calling thread's block, whatever block it is called on. *)
Example bdr_of_another : bdr 0x2000 {| raw := 0x1000 |} threads = Done (le_num (replicate 8 9)).
Proof. by vm_compute. Qed.
End Concrete.
End UtcbBlock.
