(* ===== verification/KernelCalls.v ===== *)
(** System-call messages of [l4-sys]: the object factory
    ([crates/l4-sys/factory.rs]), the task and platform-control calls
    ([task.rs], [platform.rs]), flex pages added to a message
    ([ipc_basic.rs], [l4_sndfpage_add_u]), and the [Task] object of the [l4]
    crate ([crates/l4/task.rs]).

    Each call writes its arguments into the message registers of a UTCB and
    invokes the kernel, which is an argument of the model: a function from the
    invoked capability, the UTCB and the tag to the answer. *)
From S2P Require Import Prelude Utf8 Error MsgTag Cap Utcb.
From Stdlib Require Import ZArith Lia.
From stdpp Require Import base list.
Open Scope Z_scope.

(** The constants of the L4Re headers these calls use. *)
Class KernelConsts := {
  L4_VARG_TYPE_NIL : Z; L4_VARG_TYPE_UMWORD : Z; L4_VARG_TYPE_MWORD : Z;
  L4_VARG_TYPE_STRING : Z; L4_VARG_TYPE_FPAGE : Z;
  varg_distinct : NoDup [L4_VARG_TYPE_NIL; L4_VARG_TYPE_UMWORD; L4_VARG_TYPE_MWORD;
    L4_VARG_TYPE_STRING; L4_VARG_TYPE_FPAGE];
  varg_range : Forall (uint 16) [L4_VARG_TYPE_NIL; L4_VARG_TYPE_UMWORD; L4_VARG_TYPE_MWORD;
    L4_VARG_TYPE_STRING; L4_VARG_TYPE_FPAGE];
  L4_FPAGE_RWX : Z;
  L4_TASK_MAP_OP : Z; L4_TASK_UNMAP_OP : Z; L4_TASK_CAP_INFO_OP : Z; L4_TASK_ADD_KU_MEM_OP : Z;
  L4_FP_DELETE_OBJ : Z; L4_FP_ALL_SPACES : Z;
  L4_ENOMEM : Z; enomem_range : 0 < L4_ENOMEM < 2 ^ 31;
}.

(** The parts of a UTCB the calls touch: the message registers as bytes, the
    buffer descriptor and the buffer registers as words. *)
Record utcb := { u_mr : list Z; u_bdr : Z; u_br : list Z }.
Definition set_regs (u : utcb) (m : list Z) : utcb := {| u_mr := m; u_bdr := u_bdr u; u_br := u_br u |}.

Section KernelCalls.
Context {TC : TagConsts} {CC : CapConsts} {UC : UtcbConsts} {KC : KernelConsts} {B : Build}.

(** [mr!(v[w] = stuff)]: a bounds-checked store of the value cast to [u64]. *)
Definition mr_store (w v : Z) (u : utcb) : exec utcb :=
  if (0 <=? w) && (w <? L4_UTCB_GENERIC_DATA_SIZE) then Done (set_regs u (store64 (u_mr u) w v)) else Panics.

(** * Flex pages of a message *)
Definition l4_sndfpage_add_u (snd_fpage snd_base tag : Z) (u : utcb) : exec (Z * Z * utcb) :=
  let i := l4_msgtag_words tag + 2 * l4_msgtag_items tag in
  if UTCB_GENERIC_DATA_SIZE - 1 <=? i then Done (swrap 32 L4_ENOMEM * -1, tag, u)
  else
    u ← mr_store i (Z.lor (Z.lor snd_base L4_ITEM_MAP) L4_ITEM_CONT) u;
    u ← mr_store (i + 1) snd_fpage u;
    n ← uadd 32 (wrap 32 (l4_msgtag_items tag)) 1;
    Done (0, l4_msgtag (l4_msgtag_label tag) (l4_msgtag_words tag) n (wrap 32 (l4_msgtag_flags tag)), u).

(** * The factory protocol *)

(** The word count of a tag, exchanged. *)
Definition set_words (tag w : Z) : Z := Z.lor (Z.land tag (Z.lnot 0x3f)) (Z.land w 0x3f).

Definition l4_factory_create_start_u (protocol target_cap : Z) (u : utcb) : exec (Z * utcb) :=
  u ← mr_store 0 protocol u;
  Done (msgtag (protocol_code Factory) 1 0 0,
        {| u_mr := u_mr u; u_bdr := 0; u_br := <[0%nat := Z.lor target_cap L4_RCV_ITEM_SINGLE_CAP]> (u_br u) |}).

(** The adders return whether the argument went in, the tag and the UTCB.
    [add_word] is what those of one data word have in common. *)
Definition add_word (header d tag : Z) (u : utcb) : exec (bool * Z * utcb) :=
  let w := msgtag_words tag in
  if L4_UTCB_GENERIC_DATA_SIZE <? w + 2 then Done (false, tag, u)
  else
    u ← mr_store w header u;
    u ← mr_store (w + 1) d u;
    Done (true, set_words tag (w + 2), u).
Definition l4_factory_create_add_int_u (d : Z) := add_word (Z.lor L4_VARG_TYPE_MWORD (Z.shiftl 8 16)) d.
Definition l4_factory_create_add_uint_u (d : Z) := add_word (Z.lor L4_VARG_TYPE_UMWORD (Z.shiftl 8 16)) d.
Definition l4_factory_create_add_fpage_u (d : Z) := add_word (Z.lor L4_VARG_TYPE_FPAGE (Z.shiftl 8 16)) d.

Definition l4_factory_create_add_nil_u (tag : Z) (u : utcb) : exec (bool * Z * utcb) :=
  let w := msgtag_words tag in
  if L4_UTCB_GENERIC_DATA_SIZE <? w + 1 then Done (false, tag, u)
  else
    u ← mr_store w L4_VARG_TYPE_NIL u;
    Done (true, set_words tag (w + 1), u).

(** Bytes copied to the address of register [w]: taking the address is
    bounds-checked, the copy is not. *)
Definition mr_copy (w : Z) (bs : list Z) (u : utcb) : exec utcb :=
  if w <? L4_UTCB_GENERIC_DATA_SIZE then m ← poke (u_mr u) (8 * w) bs; Done (set_regs u m) else Panics.

(** [core_ffi_helpers::strlen] on the memory behind a pointer. *)
Fixpoint strlen (mem : list Z) : exec Z :=
  match mem with
  | [] => UB
  | 0 :: _ => Done 0
  | _ :: mem => n ← strlen mem; Done (n + 1)
  end.

Definition l4_factory_create_add_cstr_u (s : list Z) (tag : Z) (u : utcb) : exec (bool * Z * utcb) :=
  let w := msgtag_words tag in
  len ← strlen s;
  if L4_UTCB_GENERIC_DATA_SIZE <? w + 1 + (len + 8 - 1) `div` 8 then Done (false, tag, u)
  else
    u ← mr_store w (Z.lor L4_VARG_TYPE_STRING (Z.shiftl len 16)) u;
    u ← mr_copy (w + 1) (take (Z.to_nat (len + 1)) s) u;
    Done (true, set_words tag (w + 1 + (len + 8 - 1) `div` 8), u).

Definition l4_factory_create_add_str_u (s : list Z) (tag : Z) (u : utcb) : exec (bool * Z * utcb) :=
  let w := msgtag_words tag in
  let len := zlen s in
  if L4_UTCB_GENERIC_DATA_SIZE <? w + 1 + (len + 8 - 1) `div` 8 then Done (false, tag, u)
  else
    u ← mr_store w (Z.lor L4_VARG_TYPE_STRING (Z.shiftl len 16)) u;
    u ← mr_copy (w + 1) s u;
    m ← poke (u_mr u) (8 * (w + 1) + len) [0];
    Done (true, set_words tag (wrap 32 (w + 1 + (len + 8 - 1) `div` 8)), set_regs u m).

(** * Calls to the kernel *)
Section Calls.
Context {W : Type}.
(** [l4_ipc_call(dest, utcb, tag, timeout_never())]: the kernel. *)
Variable l4_ipc_call : Z -> Z -> utcb * W -> Z * (utcb * W).
Abbreviation call := (utcb * W -> exec (Z * (utcb * W))).

(** Fill in the registers, then call. *)
Definition invoke (dest tag : Z) (fill : utcb -> exec utcb) : call := fun '(u, w) =>
  u ← fill u; Done (l4_ipc_call dest tag (u, w)).
Definition l4_factory_create_commit_u (factory tag : Z) : call := invoke factory tag Done.

Definition l4_factory_create_u (factory protocol target : Z) : call := fun '(u, w) =>
  '(t, u) ← l4_factory_create_start_u protocol target u;
  l4_factory_create_commit_u factory t (u, w).
Definition l4_factory_create := l4_factory_create_u.
Definition l4_factory_create_task_u (factory target_cap utcb_area : Z) : call := fun '(u, w) =>
  '(tag, u) ← l4_factory_create_start_u (protocol_code Task) target_cap u;
  '(_, tag, u) ← l4_factory_create_add_fpage_u utcb_area tag u;
  l4_factory_create_commit_u factory tag (u, w).
Definition l4_factory_create_task := l4_factory_create_task_u.
Definition l4_factory_create_thread_u (factory target_cap : Z) : call :=
  l4_factory_create_u factory (protocol_code Thread) target_cap.
Definition l4_factory_create_thread := l4_factory_create_thread_u.
Definition l4_factory_create_factory_u (factory target_cap limit : Z) : call := fun '(u, w) =>
  '(tag, u) ← l4_factory_create_start_u (protocol_code Factory) target_cap u;
  '(_, tag, u) ← l4_factory_create_add_uint_u limit tag u;
  l4_factory_create_commit_u factory tag (u, w).
Definition l4_factory_create_factory := l4_factory_create_factory_u.
Definition l4_factory_create_gate_u (factory target_cap thread_cap label : Z) : call := fun '(u, w) =>
  '(tag, u) ← l4_factory_create_start_u 0 target_cap u;
  '(_, tag, u) ← l4_factory_create_add_uint_u label tag u;
  '(items, u) ←
    (if Z.land thread_cap L4_INVALID_CAP_BIT =? 0 then
       u ← mr_store 3 (l4_map_obj_control 0 0) u;
       u ← mr_store 4 (l4_obj_fpage thread_cap 0 (wrap 8 L4_FPAGE_RWX)) u;
       Done (1, u)
     else Done (0, u));
  l4_factory_create_commit_u factory
    (msgtag (msgtag_label tag) (msgtag_words tag) items (msgtag_flags tag)) (u, w).
Definition l4_factory_create_gate := l4_factory_create_gate_u.
Definition l4_factory_create_irq_u (factory target_cap : Z) : call :=
  l4_factory_create_u factory (protocol_code IrqSender) target_cap.
Definition l4_factory_create_irq := l4_factory_create_irq_u.
Definition l4_factory_create_vm_u (factory target_cap : Z) : call :=
  l4_factory_create_u factory (protocol_code Vm) target_cap.
Definition l4_factory_create_vm := l4_factory_create_vm_u.

(** Task calls. *)
Definition task_tag (words items : Z) : Z := msgtag (protocol_code Task) words items 0.
Definition l4_task_map_u (dst_task src_task snd_fpage snd_base : Z) : call :=
  invoke dst_task (task_tag 3 1) (fun u =>
    u ← mr_store 0 L4_TASK_MAP_OP u;
    u ← mr_store 3 (l4_map_obj_control 0 0) u;
    u ← mr_store 4 (l4_obj_fpage src_task 0 (wrap 8 L4_FPAGE_RWX)) u;
    u ← mr_store 1 snd_base u;
    mr_store 2 snd_fpage u).
Definition l4_task_map := l4_task_map_u.
Definition l4_task_unmap_u (task fpage map_mask : Z) : call :=
  invoke task (task_tag 3 0) (fun u =>
    u ← mr_store 0 L4_TASK_UNMAP_OP u;
    u ← mr_store 1 map_mask u;
    mr_store 2 fpage u).
Definition l4_task_unmap := l4_task_unmap_u.
(** [fpages] is the memory behind the pointer, in words. *)
Definition l4_task_unmap_batch_u (task : Z) (fpages : list Z) (num_fpages map_mask : Z) : call := fun '(u, w) =>
  u ← mr_store 0 L4_TASK_UNMAP_OP u;
  u ← mr_store 1 map_mask u;
  words ← (if num_fpages <=? zlen fpages then Done (take (Z.to_nat num_fpages) fpages) else UB);
  u ← mr_copy 2 (concat (le_bytes 8 <$> words)) u;
  n ← uadd 32 2 num_fpages;
  l4_factory_create_commit_u task (task_tag n 0) (u, w).
Definition l4_task_unmap_batch := l4_task_unmap_batch_u.
Definition l4_task_delete_obj_u (task obj : Z) : call :=
  l4_task_unmap_u task (l4_obj_fpage obj 0 (wrap 8 L4_CAP_FPAGE_RWSD)) L4_FP_DELETE_OBJ.
Definition l4_task_delete_obj := l4_task_delete_obj_u.
Definition l4_task_release_cap_u (task cap : Z) : call :=
  l4_task_unmap_u task (l4_obj_fpage cap 0 (wrap 8 L4_CAP_FPAGE_RWSD)) L4_FP_ALL_SPACES.
Definition l4_task_release_cap := l4_task_release_cap_u.
Definition l4_task_cap_valid_u (task cap : Z) : call :=
  invoke task (task_tag 2 0) (fun u =>
    u ← mr_store 0 L4_TASK_CAP_INFO_OP u;
    mr_store 1 (Z.land cap (unot 64 1)) u).
Definition l4_task_cap_valid := l4_task_cap_valid_u.
Definition l4_task_cap_equal_u (task cap_a cap_b : Z) : call :=
  invoke task (task_tag 3 0) (fun u =>
    u ← mr_store 0 L4_TASK_CAP_INFO_OP u;
    u ← mr_store 1 cap_a u;
    mr_store 2 cap_b u).
Definition l4_task_cap_equal := l4_task_cap_equal_u.
Definition l4_task_add_ku_mem_u (task ku_mem : Z) : call :=
  invoke task (task_tag 2 0) (fun u =>
    u ← mr_store 0 L4_TASK_ADD_KU_MEM_OP u;
    mr_store 1 ku_mem u).
Definition l4_task_add_ku_mem := l4_task_add_ku_mem_u.

(** Platform control. *)
Definition L4_PLATFORM_CTL_SYS_SUSPEND_OP : Z := 0.
Definition L4_PLATFORM_CTL_SYS_SHUTDOWN_OP : Z := 1.
Definition L4_PLATFORM_CTL_CPU_ENABLE_OP : Z := 3.
Definition L4_PROTO_PLATFORM_CTL : Z := 0.
Definition platform_call (op arg pfc : Z) : call :=
  invoke pfc (msgtag L4_PROTO_PLATFORM_CTL 2 0 0) (fun u => u ← mr_store 0 op u; mr_store 1 arg u).
Definition l4_platform_ctl_system_suspend_u (pfc extras : Z) : call :=
  platform_call L4_PLATFORM_CTL_SYS_SUSPEND_OP extras pfc.
Definition l4_platform_ctl_system_shutdown_u (pfc reboot : Z) : call :=
  platform_call L4_PLATFORM_CTL_SYS_SHUTDOWN_OP reboot pfc.
Definition l4_platform_ctl_cpu_enable_u (pfc phys_id : Z) : call :=
  platform_call L4_PLATFORM_CTL_CPU_ENABLE_OP phys_id pfc.
Definition l4_platform_ctl_system_suspend := l4_platform_ctl_system_suspend_u.
Definition l4_platform_ctl_system_shutdown := l4_platform_ctl_system_shutdown_u.
Definition l4_platform_ctl_cpu_enable := l4_platform_ctl_cpu_enable_u.

(** * [l4::task::Task] *)
Context {EC : ErrConsts}.
(** [l4_ipc_error(tag, utcb)]. *)
Variable l4_ipc_error : Z -> utcb * W -> Z.
(** [MsgTag::from(tag).result()]. *)
Definition checked (c : call) : utcb * W -> exec (Result MsgTag * (utcb * W)) := fun s =>
  '(tag, s) ← c s;
  r ← Tag.result (l4_ipc_error tag s) (Tag.from tag);
  Done (r, s).

Record task := { cap : Z }.
#[global] Instance task_interface : Interface task := {| iface_raw := cap |}.
Definition map_u (self : task) (dst_task : Cap task) (snd_fpage snd_base : Z) :=
  checked (l4_task_map_u (Caps.raw dst_task) (cap self) snd_fpage snd_base).
Definition map (self : task) (src_task : Cap task) (snd_fpage snd_base : Z) :=
  map_u self src_task snd_fpage snd_base.
Definition unmap_u (self : task) (fpage map_mask : Z) := checked (l4_task_unmap_u (cap self) fpage map_mask).
Definition unmap := unmap_u.
Definition unmap_batch (self : task) (fpages : list Z) (num_fpages map_mask : Z) :=
  checked (l4_task_unmap_batch_u (cap self) fpages (wrap 32 num_fpages) map_mask).
Definition delete_obj {T} `{Interface T} (self : task) (obj : Cap T) :=
  checked (l4_task_delete_obj_u (cap self) (iface_raw (interface obj))).
Definition release_cap {T} `{Interface T} (self : task) (c : Cap T) :=
  checked (l4_task_release_cap_u (cap self) (iface_raw (interface c))).
(** The answer's label, tested. *)
Definition label_test (p : Z -> bool) (c : call) : utcb * W -> exec (Result bool * (utcb * W)) := fun s =>
  '(r, s) ← checked c s;
  Done (match r with Ok tag => Ok (p (Tag.label tag)) | Err e => Err e end, s).
Definition cap_valid {T} `{Interface T} (self : task) (c : Cap T) :=
  label_test (fun l => 0 <? l) (l4_task_cap_valid_u (cap self) (iface_raw (interface c))).
Definition cap_equal {T} `{Interface T} (self : task) (a b : Cap T) :=
  label_test (fun l => l =? 1) (l4_task_cap_equal_u (cap self) (iface_raw (interface a)) (iface_raw (interface b))).
Definition add_ku_mem (self : task) (fpage : Z) := checked (l4_task_add_ku_mem_u (cap self) fpage).

(** [create_from]: [env_factory] and [env_task] are the capabilities of the
    task's environment. *)
Variables env_factory env_task : Z.
Definition and_then {A} (c : utcb * W -> exec (Result MsgTag * (utcb * W)))
    (k : utcb * W -> exec (Result A * (utcb * W))) : utcb * W -> exec (Result A * (utcb * W)) := fun s =>
  '(r, s) ← c s;
  match r with Ok _ => k s | Err e => Done (Err e, s) end.
Definition create_from (task_cap : Cap Untyped) (utcb_area : Z) : utcb * W -> exec (Result task * (utcb * W)) :=
  let new := Caps.raw task_cap in
  let hand c := checked (l4_task_map new env_task
    (l4_obj_fpage c 0 (wrap 8 L4_CAP_FPAGE_RWSD)) (l4_map_obj_control c L4_MAP_ITEM_MAP)) in
  and_then (checked (l4_factory_create_task env_factory new utcb_area))
    (and_then (hand new) (and_then (hand env_task) (fun s => Done (Ok {| cap := new |}, s)))).
End Calls.

(** * The messages, as the kernel reads them *)

(** The arguments of a factory message; a reader of the documented format: a
    header word of type and byte count, then the bytes in whole words. *)
Inductive Varg := VNil | VInt (d : Z) | VUint (d : Z) | VFpage (d : Z) | VStr (s : list Z).
Definition varg_ok (a : Varg) : Prop :=
  match a with VNil => True | VInt d => sint 64 d | VUint d | VFpage d => uint 64 d | VStr s => bytes_ok s end.
Definition arg_words (a : Varg) : Z :=
  match a with VNil => 1 | VStr s => 1 + (zlen s + 7) `div` 8 | _ => 2 end.

Definition parse_arg (m : list Z) (w : Z) : option (Varg * Z) :=
  let header := load64 m w in
  let ty := wrap 16 header in
  let size := Z.shiftr header 16 in
  let data := mread m (8 * (w + 1)) size in
  a ← (if (ty =? L4_VARG_TYPE_NIL) && (size =? 0) then Some VNil
       else if (ty =? L4_VARG_TYPE_MWORD) && (size =? 8) then Some (VInt (swrap 64 (le_num data)))
       else if (ty =? L4_VARG_TYPE_UMWORD) && (size =? 8) then Some (VUint (le_num data))
       else if (ty =? L4_VARG_TYPE_FPAGE) && (size =? 8) then Some (VFpage (le_num data))
       else if ty =? L4_VARG_TYPE_STRING then Some (VStr data)
       else None);
  Some (a, w + 1 + (size + 7) `div` 8).
Fixpoint parse_args (fuel : nat) (m : list Z) (w e : Z) : option (list Varg) :=
  if w =? e then Some []
  else match fuel with
  | O => None
  | S fuel =>
    '(a, next) ← parse_arg m w;
    if next <=? e then cons a <$> parse_args fuel m next e else None
  end.

(** One argument, and several until one is refused. *)
Definition add_arg (a : Varg) : Z -> utcb -> exec (bool * Z * utcb) :=
  match a with
  | VNil => l4_factory_create_add_nil_u
  | VInt d => l4_factory_create_add_int_u d
  | VUint d => l4_factory_create_add_uint_u d
  | VFpage d => l4_factory_create_add_fpage_u d
  | VStr s => l4_factory_create_add_str_u s
  end.
Fixpoint add_args (l : list Varg) (tag : Z) (u : utcb) : exec (bool * Z * utcb) :=
  match l with
  | [] => Done (true, tag, u)
  | a :: l =>
    '(added, tag, u) ← add_arg a tag u;
    if added : bool then add_args l tag u else Done (false, tag, u)
  end.

Definition mrs_ok (u : utcb) : Prop := zlen (u_mr u) = MR_SIZE /\ bytes_ok (u_mr u).

(** ** Words of a tag *)
Lemma words_range tag : 0 <= msgtag_words tag < 64.
Proof.
  unfold msgtag_words, l4_msgtag_words. rewrite wrap_id.
  - rewrite six_bits, Z.land_ones by lia. apply Z.mod_pos_bound. lia.
  - unfold uint. rewrite six_bits, Z.land_ones by lia. pose proof (Z.mod_pos_bound tag (2 ^ 6)). lia.
Qed.
Lemma words_set_words tag w : 0 <= w < 64 -> msgtag_words (set_words tag w) = w.
Proof.
  intros Hw. unfold msgtag_words, l4_msgtag_words, set_words.
  assert (Z.land (Z.lor (Z.land tag (Z.lnot 0x3f)) (Z.land w 0x3f)) 0x3f = Z.land w 0x3f) as ->
    by (masks; bits).
  rewrite six_bits, Tag.land_low by lia. apply wrap_id. unfold uint. lia.
Qed.
Lemma label_set_words tag w : msgtag_label (set_words tag w) = msgtag_label tag.
Proof. unfold msgtag_label, l4_msgtag_label, set_words. masks. bits. Qed.
Lemma items_set_words tag w : msgtag_items (set_words tag w) = msgtag_items tag.
Proof. unfold msgtag_items, l4_msgtag_items, set_words. f_equal. masks. bits. Qed.
Lemma flags_set_words tag w : msgtag_flags (set_words tag w) = msgtag_flags tag.
Proof. unfold msgtag_flags, set_words. f_equal. masks. bits. Qed.

(** A header word: the type below, the size above. *)
Lemma header_add ty n : uint 16 ty -> 0 <= n -> Z.lor ty (Z.shiftl n 16) = ty + n * 2 ^ 16.
Proof.
  intros Hty Hn. rewrite <- Z.shiftl_mul_pow2 by lia. symmetry. apply Z.add_nocarry_lor.
  unfold uint in Hty. rewrite <- (Tag.land_low 16 ty) by lia. bits.
Qed.
Lemma header_parts ty n : uint 16 ty -> 0 <= n < 2 ^ 40 ->
  let h := wrap 64 (Z.lor ty (Z.shiftl n 16)) in wrap 16 h = ty /\ Z.shiftr h 16 = n.
Proof.
  intros Hty Hn h. subst h. rewrite header_add by (done || lia). unfold uint in Hty.
  rewrite (wrap_id 64) by (unfold uint; lia). split.
  - unfold wrap. rewrite Z.mod_add by lia. by apply Z.mod_small.
  - rewrite Z.shiftr_div_pow2, Z.div_add by lia. rewrite Z.div_small by lia. lia.
Qed.

(** ** Stores into the registers *)
Lemma mr_store_ok w v u : mrs_ok u -> 0 <= w < L4_UTCB_GENERIC_DATA_SIZE ->
  mr_store w v u = Done (set_regs u (store64 (u_mr u) w v)) /\ mrs_ok (set_regs u (store64 (u_mr u) w v)).
Proof.
  intros [Hl Hb] Hw. unfold mr_store, mrs_ok. cbn [u_mr set_regs]. rewrite zlen_store64 by (unfold MR_SIZE in Hl; lia).
  split; [|auto using store64_bytes_ok].
  by replace ((0 <=? w) && (w <? L4_UTCB_GENERIC_DATA_SIZE)) with true
    by (symmetry; apply andb_true_iff; rewrite Z.leb_le, Z.ltb_lt; lia).
Qed.

(** [m'] has the bytes of [m] below word [w]. *)
Definition keeps (w : Z) (m m' : list Z) : Prop := take (Z.to_nat (8 * w)) m' = take (Z.to_nat (8 * w)) m.
Lemma keeps_trans w w' m1 m2 m3 : w <= w' -> keeps w m1 m2 -> keeps w' m2 m3 -> keeps w m1 m3.
Proof. unfold keeps. intros Hw H1 H2. rewrite <- H1. apply (take_prefix_le _ _ (8 * w')); [done | lia]. Qed.
Lemma keeps_mwrite w m off bs : 0 <= 8 * w <= off -> off <= zlen m -> keeps w m (mwrite m off bs).
Proof. intros. apply take_mwrite; lia. Qed.
Lemma keeps_store w w' m v : 0 <= w <= w' -> 8 * w' <= zlen m -> keeps w m (store64 m w' v).
Proof. intros. apply keeps_mwrite; lia. Qed.
Lemma load64_keeps w m m' i : keeps w m m' -> 0 <= i -> i + 1 <= w -> load64 m' i = load64 m i.
Proof. unfold keeps, load64. intros Hk Hi Hw. f_equal. eapply mread_prefix; [exact Hk | lia..]. Qed.

(** Reading an argument looks only at its own words. *)
Lemma parse_arg_next m w a next : bytes_ok m -> parse_arg m w = Some (a, next) ->
  let size := Z.shiftr (load64 m w) 16 in
  0 <= size /\ next = w + 1 + (size + 7) `div` 8 /\ w < next.
Proof.
  intros Hb Hp size. assert (0 <= size) by (apply Z.shiftr_nonneg, le_num_range; by apply mread_bytes_ok).
  assert (next = w + 1 + (size + 7) `div` 8) as ->.
  { unfold parse_arg in Hp. match type of Hp with (?o ≫= _) = _ => destruct o end; cbn in Hp; by simplify_eq. }
  pose proof (Z.div_pos (size + 7) 8). lia.
Qed.
Lemma parse_arg_keeps w m m' a next :
  keeps next m m' -> bytes_ok m -> 0 <= w -> parse_arg m w = Some (a, next) -> parse_arg m' w = Some (a, next).
Proof.
  intros Hk Hb Hw Hp. pose proof (parse_arg_next _ _ _ _ Hb Hp) as (Hs & Hn & Hlt).
  unfold parse_arg in *. rewrite (load64_keeps _ _ _ _ Hk) by lia.
  set (size := Z.shiftr (load64 m w) 16) in *.
  assert (mread m' (8 * (w + 1)) size = mread m (8 * (w + 1)) size) as ->; [|done].
  pose proof (Z.div_mod (size + 7) 8). pose proof (Z.mod_pos_bound (size + 7) 8).
  eapply mread_prefix; [exact Hk | lia..].
Qed.
Lemma parse_args_keeps n : forall w m m' e l,
  keeps e m m' -> bytes_ok m -> 0 <= w -> parse_args n m w e = Some l -> parse_args n m' w e = Some l.
Proof.
  induction n as [|n IH]; intros w m m' e l Hk Hb Hw; cbn [parse_args]; destruct (w =? e); try done.
  destruct (parse_arg m w) as [[a next]|] eqn:Hp; [|done]. pose proof (parse_arg_next _ _ _ _ Hb Hp) as (_ & _ & Hlt).
  cbn. destruct (next <=? e) eqn:E; [|done]. zb. intros Hr.
  rewrite (parse_arg_keeps w m m' a next); [| apply (keeps_trans next e m m m'); done | done..]. cbn.
  rewrite (proj2 (Z.leb_le _ _)) by lia.
  destruct (parse_args n m next e) as [l'|] eqn:Hl; [|done]. by rewrite (IH next m m' e l' Hk Hb ltac:(lia) Hl).
Qed.

(** ** One argument *)
Ltac zeqb := repeat match goal with
  | |- context [?a =? ?b] => first
    [ rewrite (proj2 (Z.eqb_eq a b)) by (done || lia) | rewrite (proj2 (Z.eqb_neq a b)) by lia ]
  end; cbn [andb].

Lemma varg_types :
  (uint 16 L4_VARG_TYPE_NIL /\ uint 16 L4_VARG_TYPE_UMWORD /\ uint 16 L4_VARG_TYPE_MWORD
   /\ uint 16 L4_VARG_TYPE_STRING /\ uint 16 L4_VARG_TYPE_FPAGE)
  /\ L4_VARG_TYPE_NIL <> L4_VARG_TYPE_UMWORD /\ L4_VARG_TYPE_NIL <> L4_VARG_TYPE_MWORD
  /\ L4_VARG_TYPE_NIL <> L4_VARG_TYPE_STRING /\ L4_VARG_TYPE_NIL <> L4_VARG_TYPE_FPAGE
  /\ L4_VARG_TYPE_UMWORD <> L4_VARG_TYPE_MWORD /\ L4_VARG_TYPE_UMWORD <> L4_VARG_TYPE_STRING
  /\ L4_VARG_TYPE_UMWORD <> L4_VARG_TYPE_FPAGE /\ L4_VARG_TYPE_MWORD <> L4_VARG_TYPE_STRING
  /\ L4_VARG_TYPE_MWORD <> L4_VARG_TYPE_FPAGE /\ L4_VARG_TYPE_STRING <> L4_VARG_TYPE_FPAGE.
Proof.
  pose proof varg_distinct as Hd. pose proof varg_range as Hr.
  rewrite !Forall_cons in Hr. rewrite !NoDup_cons, !not_elem_of_cons in Hd. destruct_and?. by split_and!.
Qed.

(** What the reader sees behind a header word. *)
Lemma parse_arg_header m w ty n :
  uint 16 ty -> 0 <= n < 2 ^ 40 -> load64 m w = wrap 64 (Z.lor ty (Z.shiftl n 16)) ->
  parse_arg m w =
  (let data := mread m (8 * (w + 1)) n in
   a ← (if (ty =? L4_VARG_TYPE_NIL) && (n =? 0) then Some VNil
        else if (ty =? L4_VARG_TYPE_MWORD) && (n =? 8) then Some (VInt (swrap 64 (le_num data)))
        else if (ty =? L4_VARG_TYPE_UMWORD) && (n =? 8) then Some (VUint (le_num data))
        else if (ty =? L4_VARG_TYPE_FPAGE) && (n =? 8) then Some (VFpage (le_num data))
        else if ty =? L4_VARG_TYPE_STRING then Some (VStr data)
        else None);
   Some (a, w + 1 + (n + 7) `div` 8)).
Proof.
  intros Hty Hn Hm. unfold parse_arg. rewrite Hm.
  by destruct (header_parts ty n Hty Hn) as [-> ->].
Qed.

(** The outcome of adding [a] at word [w]. *)
Definition added (a : Varg) (w tag : Z) (u : utcb) (r : exec (bool * Z * utcb)) : Prop :=
  exists u', r = Done (true, set_words tag (w + arg_words a), u') /\ mrs_ok u'
    /\ u_bdr u' = u_bdr u /\ u_br u' = u_br u /\ keeps w (u_mr u) (u_mr u')
    /\ parse_arg (u_mr u') w = Some (a, w + arg_words a).

Lemma add_word_fits ty d tag u w a :
  mrs_ok u -> msgtag_words tag = w -> w + 2 <= L4_UTCB_GENERIC_DATA_SIZE -> uint 16 ty -> arg_words a = 2 ->
  (forall m, load64 m w = wrap 64 (Z.lor ty (Z.shiftl 8 16)) -> le_num (mread m (8 * (w + 1)) 8) = wrap 64 d ->
     parse_arg m w = Some (a, w + 2)) ->
  added a w tag u (add_word (Z.lor ty (Z.shiftl 8 16)) d tag u).
Proof.
  intros Hu Hw Hfit Hty Ha Hp. pose proof (words_range tag). pose proof generic_data_range.
  unfold added, add_word. rewrite Hw, Ha. zif_false.
  destruct (mr_store_ok w (Z.lor ty (Z.shiftl 8 16)) u Hu ltac:(lia)) as [-> Hu1]. estep.
  destruct (mr_store_ok (w + 1) d _ Hu1 ltac:(lia)) as [-> Hu2]. estep.
  eexists. split; [done|]. split; [exact Hu2|]. do 2 (split; [done|]). split.
  all: destruct Hu as [Hl _], Hu1 as [Hl1 _]; unfold MR_SIZE in *; cbn [u_mr set_regs] in *.
  - eapply (keeps_trans w w); [lia | | apply keeps_store; lia]. apply keeps_store; lia.
  - apply Hp.
    + rewrite load_store64_ne by lia. apply load_store64; lia.
    + change (load64 (store64 (store64 (u_mr u) w (Z.lor ty (Z.shiftl 8 16))) (w + 1) d) (w + 1) = wrap 64 d).
      apply load_store64; lia.
Qed.

(** The string writer: header, bytes, terminator. *)
Definition arg_space (a : Varg) : Z := match a with VStr s => 2 + zlen s `div` 8 | a => arg_words a end.

Lemma ceil8 n : 0 <= n -> (n + 7) `div` 8 <= 1 + n `div` 8 /\ n <= 8 * ((n + 7) `div` 8) <= n + 7.
Proof.
  intros. pose proof (Z.div_mod n 8). pose proof (Z.mod_pos_bound n 8).
  pose proof (Z.div_mod (n + 7) 8). pose proof (Z.mod_pos_bound (n + 7) 8). lia.
Qed.

Lemma add_str_fits s tag u w :
  mrs_ok u -> bytes_ok s -> msgtag_words tag = w -> w + arg_space (VStr s) <= L4_UTCB_GENERIC_DATA_SIZE ->
  added (VStr s) w tag u (l4_factory_create_add_str_u s tag u).
Proof.
  intros Hu Hs Hw Hfit. pose proof (words_range tag). pose proof generic_data_range. cbn [arg_space] in Hfit.
  pose proof (zlen_nonneg s). pose proof (ceil8 (zlen s) ltac:(done)) as (?&?&?).
  pose proof (Z.div_mod (zlen s) 8). pose proof (Z.mod_pos_bound (zlen s) 8).
  unfold added, l4_factory_create_add_str_u. rewrite Hw. replace (zlen s + 8 - 1) with (zlen s + 7) by lia. zif_false.
  destruct (mr_store_ok w (Z.lor L4_VARG_TYPE_STRING (Z.shiftl (zlen s) 16)) u Hu ltac:(lia)) as [-> [Hl1 Hb1]]. estep.
  set (m1 := store64 (u_mr u) w _) in *. cbn [u_mr set_regs] in Hl1, Hb1. unfold MR_SIZE in Hl1.
  unfold mr_copy. zif_true. cbn [u_mr set_regs]. rewrite poke_inside by lia. estep. cbn [u_mr set_regs].
  pose proof (zlen_mwrite m1 (8 * (w + 1)) s ltac:(lia) ltac:(lia)) as Hl2.
  rewrite poke_inside by (rewrite ?zlen_cons, ?zlen_nil; lia). estep.
  rewrite wrap_id by (unfold uint; lia). cbn [arg_words]. replace (w + (1 + (zlen s + 7) `div` 8)) with (w + 1 + (zlen s + 7) `div` 8) by lia.
  set (m2 := mwrite m1 _ s) in *. set (m3 := mwrite m2 _ [0]).
  assert (keeps (w + 1) m1 m3) as Hk.
  { eapply (keeps_trans (w + 1) (w + 1)); [lia | | apply keeps_mwrite; lia]. apply keeps_mwrite; lia. }
  eexists. split; [done|]. split; [|do 2 (split; [done|]); split].
  - split; cbn [u_mr set_regs].
    + unfold m3. rewrite zlen_mwrite by (rewrite ?zlen_cons, ?zlen_nil; lia). unfold MR_SIZE. lia.
    + unfold m3, m2. apply mwrite_bytes_ok; [by apply mwrite_bytes_ok|].
      constructor; [split; lia | constructor].
  - cbn [u_mr set_regs]. destruct Hu as [Hl _]. unfold MR_SIZE in Hl.
    eapply (keeps_trans w (w + 1)); [lia | | done]. apply keeps_store; lia.
  - cbn [u_mr set_regs]. destruct Hu as [Hl _]. unfold MR_SIZE in Hl.
    destruct varg_types as ((?&?&?&?&?)&?). destruct_and?.
    rewrite (parse_arg_header _ _ L4_VARG_TYPE_STRING (zlen s)); [| done | lia |].
    + zeqb. cbv zeta. cbn. do 3 f_equal. unfold m3. rewrite mread_mwrite_before by (rewrite ?zlen_cons, ?zlen_nil; lia).
      apply mread_mwrite_same; lia.
    + rewrite (load64_keeps _ _ _ _ Hk) by lia. apply load_store64; lia.
Qed.

Lemma add_nil_fits tag u w :
  mrs_ok u -> msgtag_words tag = w -> w + 1 <= L4_UTCB_GENERIC_DATA_SIZE ->
  added VNil w tag u (l4_factory_create_add_nil_u tag u).
Proof.
  intros Hu Hw Hfit. pose proof (words_range tag). pose proof generic_data_range.
  unfold added, l4_factory_create_add_nil_u. rewrite Hw. zif_false.
  destruct (mr_store_ok w L4_VARG_TYPE_NIL u Hu ltac:(lia)) as [-> Hu1]. estep.
  eexists. split; [done|]. split; [exact Hu1|]. do 2 (split; [done|]).
  destruct Hu as [Hl _]. unfold MR_SIZE in Hl. cbn [u_mr set_regs]. split; [apply keeps_store; lia|].
  destruct varg_types as ((?&?&?&?&?)&?).
  rewrite (parse_arg_header _ _ L4_VARG_TYPE_NIL 0); [| done | lia |].
  - zeqb. change ((0 + 7) `div` 8) with 0. by rewrite Z.add_0_r.
  - rewrite load_store64 by lia. by rewrite Z.shiftl_0_l, Z.lor_0_r.
Qed.

Lemma add_arg_fits a tag u w :
  mrs_ok u -> varg_ok a -> msgtag_words tag = w -> w + arg_space a <= L4_UTCB_GENERIC_DATA_SIZE ->
  added a w tag u (add_arg a tag u).
Proof.
  intros Hu Ha Hw Hfit. destruct varg_types as ((?&?&?&?&?)&?). destruct_and?.
  destruct a as [|d|d|d|s]; cbn [add_arg varg_ok arg_space arg_words] in *.
  - by apply add_nil_fits.
  - apply add_word_fits; try done. intros m Hh Hd.
    rewrite (parse_arg_header _ _ L4_VARG_TYPE_MWORD 8) by (done || lia). zeqb. cbv zeta. rewrite Hd, swrap_wrap_id by (done || lia).
    change ((8 + 7) `div` 8) with 1. by rewrite <- Z.add_assoc.
  - apply add_word_fits; try done. intros m Hh Hd.
    rewrite (parse_arg_header _ _ L4_VARG_TYPE_UMWORD 8) by (done || lia). zeqb. cbv zeta. rewrite Hd, wrap_id by done.
    change ((8 + 7) `div` 8) with 1. by rewrite <- Z.add_assoc.
  - apply add_word_fits; try done. intros m Hh Hd.
    rewrite (parse_arg_header _ _ L4_VARG_TYPE_FPAGE 8) by (done || lia). zeqb. cbv zeta. rewrite Hd, wrap_id by done.
    change ((8 + 7) `div` 8) with 1. by rewrite <- Z.add_assoc.
  - by apply add_str_fits.
Qed.

Lemma add_arg_refused a tag u :
  L4_UTCB_GENERIC_DATA_SIZE < msgtag_words tag + arg_words a -> add_arg a tag u = Done (false, tag, u).
Proof.
  destruct a as [|d|d|d|s]; cbn [add_arg arg_words]; intros Hw.
  2-4: unfold l4_factory_create_add_int_u, l4_factory_create_add_uint_u, l4_factory_create_add_fpage_u, add_word; by zif_true.
  - unfold l4_factory_create_add_nil_u. by zif_true.
  - unfold l4_factory_create_add_str_u. replace (zlen s + 8 - 1) with (zlen s + 7) by lia. by zif_true.
Qed.

(** A C string, with what lies behind its terminator, is added like the Rust
    string of its bytes. *)
Lemma strlen_app s rest : Forall (fun b => b <> 0) s -> strlen (s ++ 0 :: rest) = Done (zlen s).
Proof.
  induction 1 as [|b s Hb Hs IH]; [done|]. cbn [app strlen]. rewrite IH. rewrite zlen_cons.
  destruct b; [done | cbn; f_equal; lia..].
Qed.
Lemma mwrite_app m off (a b : list Z) : 0 <= off -> off + zlen a + zlen b <= zlen m ->
  mwrite m off (a ++ b) = mwrite (mwrite m off a) (off + zlen a) b.
Proof.
  intros Ho Hl. pose proof (zlen_nonneg a). pose proof (zlen_nonneg b). unfold mwrite, zlen in *.
  set (t := take (Z.to_nat off) m). assert (length t = Z.to_nat off) by (unfold t; rewrite length_take; lia).
  set (r := drop (Z.to_nat (off + Z.of_nat (length a))) m).
  rewrite (app_assoc t a r), take_app_length' by (rewrite length_app; lia).
  rewrite drop_app_ge by (rewrite length_app; lia). unfold r. rewrite drop_drop, <- !app_assoc.
  do 4 f_equal. rewrite !length_app. lia.
Qed.
Lemma poke_app m off (a b : list Z) :
  poke m off (a ++ b) = (m1 ← poke m off a; poke m1 (off + zlen a) b).
Proof.
  pose proof (zlen_nonneg a). pose proof (zlen_nonneg b). unfold poke. rewrite zlen_app.
  destruct (0 <=? off) eqn:E1; [|done]. cbn [andb]. zb.
  destruct (off + zlen a <=? zlen m) eqn:E2; zb; [|by zif_false]. estep.
  rewrite zlen_mwrite by lia. zif_true. cbn [andb]. rewrite Z.add_assoc.
  destruct (off + zlen a + zlen b <=? zlen m) eqn:E3; zb; [|done]. by rewrite mwrite_app by lia.
Qed.
Lemma add_cstr_add_str s rest tag u : Forall (fun b => b <> 0) s ->
  l4_factory_create_add_cstr_u (s ++ 0 :: rest) tag u = l4_factory_create_add_str_u s tag u.
Proof.
  intros Hs. pose proof (zlen_nonneg s). pose proof (words_range tag). pose proof generic_data_range.
  unfold l4_factory_create_add_cstr_u, l4_factory_create_add_str_u. rewrite strlen_app by done. estep.
  destruct (_ <? _) eqn:E; [done|]. zb. destruct (mr_store _ _ u) as [u1| | |]; try done. estep.
  pose proof (Z.div_pos (zlen s + 8 - 1) 8 ltac:(lia) ltac:(lia)). rewrite wrap_id by (unfold uint; lia).
  assert (take (Z.to_nat (zlen s + 1)) (s ++ 0 :: rest) = s ++ [0]) as ->.
  { unfold zlen. replace (Z.to_nat (Z.of_nat (length s) + 1)) with (length s + 1)%nat by lia. by rewrite take_app_add. }
  unfold mr_copy. destruct (_ <? L4_UTCB_GENERIC_DATA_SIZE); [|done]. rewrite poke_app.
  destruct (poke (u_mr u1) _ s) as [m| | |]; try done. estep. cbn [u_mr set_regs].
  by destruct (poke m _ [0]).
Qed.

(** ** Several arguments *)
Fixpoint fits (w : Z) (l : list Varg) : Prop :=
  match l with
  | [] => True
  | a :: l => w + arg_space a <= L4_UTCB_GENERIC_DATA_SIZE /\ fits (w + arg_words a) l
  end.
Definition total_words (l : list Varg) : Z := foldr (fun a n => arg_words a + n) 0 l.

Lemma arg_words_pos a : 1 <= arg_words a <= arg_space a.
Proof.
  destruct a as [| | | |s]; cbn; try lia. pose proof (zlen_nonneg s). destruct (ceil8 (zlen s)) as (?&?&?); lia.
Qed.
Lemma total_words_nonneg l : 0 <= total_words l.
Proof. induction l as [|a l IH]; cbn; [lia|]. pose proof (arg_words_pos a). unfold total_words in *. lia. Qed.

Lemma add_args_fits l : forall tag u, mrs_ok u -> Forall varg_ok l -> fits (msgtag_words tag) l ->
  exists tag' u', add_args l tag u = Done (true, tag', u') /\ mrs_ok u'
    /\ u_bdr u' = u_bdr u /\ u_br u' = u_br u /\ keeps (msgtag_words tag) (u_mr u) (u_mr u')
    /\ msgtag_words tag' = msgtag_words tag + total_words l /\ msgtag_label tag' = msgtag_label tag
    /\ msgtag_items tag' = msgtag_items tag /\ msgtag_flags tag' = msgtag_flags tag
    /\ parse_args (length l) (u_mr u') (msgtag_words tag) (msgtag_words tag') = Some l.
Proof.
  induction l as [|a l IH]; intros tag u Hu Hl Hf.
  { eexists tag, u. split; [done|]. split; [done|]. split_and!; try done; cbn; [lia|]. by zif_true. }
  destruct Hf as [Hfit Hf]. inversion_clear Hl as [|? ? Ha Hl']. pose proof (arg_words_pos a). pose proof (words_range tag).
  pose proof generic_data_range.
  destruct (add_arg_fits a tag u _ Hu Ha eq_refl Hfit) as (u1 & Hadd & Hu1 & Hd1 & Hb1 & Hk1 & Hp1).
  cbn [add_args]. rewrite Hadd. estep. set (w := msgtag_words tag) in *.
  assert (msgtag_words (set_words tag (w + arg_words a)) = w + arg_words a) as Hw1 by (apply words_set_words; lia).
  destruct (IH (set_words tag (w + arg_words a)) u1 Hu1 Hl') as (tag' & u' & -> & Hu' & Hd & Hb & Hk & Ht & Hlb & Hit & Hfl & Hp);
    [by rewrite Hw1|].
  rewrite Hw1 in *. pose proof (total_words_nonneg l).
  eexists tag', u'. split; [done|]. split; [done|]. split; [congruence|]. split; [congruence|].
  split; [eapply keeps_trans; [|done|done]; lia|].
  split; [rewrite Ht; cbn; unfold total_words; lia|].
  split; [by rewrite Hlb, label_set_words|]. split; [by rewrite Hit, items_set_words|].
  split; [by rewrite Hfl, flags_set_words|].
  cbn [length parse_args]. rewrite (proj2 (Z.eqb_neq _ _)) by lia.
  rewrite (parse_arg_keeps w (u_mr u1) (u_mr u') a (w + arg_words a)) by (done || apply Hu1 || lia). cbn.
  rewrite (proj2 (Z.leb_le _ _)) by lia. by rewrite Hp.
Qed.


(** A string whose length is a multiple of eight and that fills the registers
    to the end passes the size check, which does not count its terminator: the
    terminator is stored one byte behind the registers, and for the empty string
    the address of the register behind the last one is taken, a panic. *)
Theorem factory_string_overrun s tag u :
  mrs_ok u -> bytes_ok s -> zlen s `mod` 8 = 0 ->
  msgtag_words tag + 1 + zlen s `div` 8 = L4_UTCB_GENERIC_DATA_SIZE ->
  l4_factory_create_add_str_u s tag u = (if zlen s =? 0 then Panics else UB)
  /\ (Forall (fun b => b <> 0) s -> forall rest,
       l4_factory_create_add_cstr_u (s ++ 0 :: rest) tag u = if zlen s =? 0 then Panics else UB).
Proof.
  intros Hu Hs Hm Hw. assert (l4_factory_create_add_str_u s tag u = if zlen s =? 0 then Panics else UB) as Hstr.
  2:{ split; [done|]. intros Hz rest. by rewrite add_cstr_add_str. }
  pose proof (words_range tag). pose proof generic_data_range. pose proof (zlen_nonneg s). pose proof (Z.div_mod (zlen s) 8).
  unfold l4_factory_create_add_str_u. replace ((zlen s + 8 - 1) `div` 8) with (zlen s `div` 8).
  2:{ apply Z.div_unique with 7; lia. }
  zif_false. destruct (mr_store_ok (msgtag_words tag) (Z.lor L4_VARG_TYPE_STRING (Z.shiftl (zlen s) 16)) u Hu) as [-> [Hl1 _]].
  { pose proof (Z.div_pos (zlen s) 8). lia. }
  estep. unfold mr_copy, MR_SIZE in *. cbn [u_mr set_regs] in *. destruct (zlen s =? 0) eqn:E; zb; [by zif_false|]. zif_true.
  rewrite poke_inside by lia. estep. cbn [u_mr set_regs]. unfold poke. change (zlen [0]) with 1. rewrite zlen_mwrite by lia.
  zif_true. zif_false. done.
Qed.

(** ** Whole calls *)
Lemma words_msgtag l w i f : 0 <= w < 64 -> msgtag_words (msgtag l w i f) = w.
Proof.
  intros Hw. transitivity (Tag.words (Tag.new l w i f)).
  - unfold Tag.words, Tag.new. cbn [tag_raw]. unfold msgtag_words, l4_msgtag_words. rewrite !wrap_land by lia. masks. bits.
  - rewrite Tag.words_new. masks. apply Tag.land_low; lia.
Qed.
Lemma items_msgtag l w i f : 0 <= i < 64 -> msgtag_items (msgtag l w i f) = i.
Proof.
  intros Hw. transitivity (Tag.items (Tag.new l w i f)).
  - unfold Tag.items, Tag.new. cbn [tag_raw]. unfold msgtag_items, l4_msgtag_items. rewrite !wrap_land by lia. masks. bits.
  - rewrite Tag.items_new. masks. apply Tag.land_low; lia.
Qed.
Lemma label_msgtag l w i f : sint 48 l -> msgtag_label (msgtag l w i f) = l.
Proof. intros Hl. change (Tag.label (Tag.new l w i f) = l). rewrite Tag.label_new. by apply swrap_id. Qed.
Lemma flags_msgtag l w i f : msgtag_flags (msgtag l w i f) = Z.land f 0xf000.
Proof.
  transitivity (Tag.flags (Tag.new l w i f)); [|apply Tag.flags_new].
  unfold Tag.flags, Tag.new, msgtag_flags. cbn [tag_raw]. rewrite !wrap_land by lia. masks. bits.
Qed.

Section Sends.
Context {W : Type} (l4_ipc_call : Z -> Z -> utcb * W -> Z * (utcb * W)).

(** A factory message: the protocol in word 0, then the arguments, then the
    flex-page items, and the slot for the new capability in the buffer
    registers. *)
Definition creates (proto : Z) (args : list Varg) (items : list (Z * Z)) (target tag : Z) (u : utcb) : Prop :=
  msgtag_label tag = protocol_code Factory /\ msgtag_flags tag = 0
  /\ msgtag_words tag = 1 + total_words args /\ msgtag_items tag = zlen items
  /\ load64 (u_mr u) 0 = wrap 64 proto /\ parse_args (length args) (u_mr u) 1 (msgtag_words tag) = Some args
  /\ (forall i c p, items !! i = Some (c, p) -> let at_ := 1 + total_words args + 2 * Z.of_nat i in
        load64 (u_mr u) at_ = wrap 64 c /\ load64 (u_mr u) (at_ + 1) = wrap 64 p)
  /\ u_bdr u = 0 /\ u_br u !! 0%nat = Some (Z.lor target L4_RCV_ITEM_SINGLE_CAP).

Lemma start_ok proto target u : mrs_ok u -> u_br u <> [] ->
  exists u', l4_factory_create_start_u proto target u = Done (msgtag (protocol_code Factory) 1 0 0, u') /\ mrs_ok u'
    /\ load64 (u_mr u') 0 = wrap 64 proto /\ u_bdr u' = 0 /\ u_br u' !! 0%nat = Some (Z.lor target L4_RCV_ITEM_SINGLE_CAP).
Proof.
  intros Hu Hb. pose proof generic_data_range. unfold l4_factory_create_start_u.
  destruct (mr_store_ok 0 proto u Hu ltac:(lia)) as [-> Hu1]. estep.
  eexists. split; [done|]. split; [exact Hu1|]. destruct Hu as [Hl _]. unfold MR_SIZE in Hl. cbn.
  split; [apply load_store64; lia|]. split; [done|]. by destruct (u_br u).
Qed.

(** Start, arguments, call: what the creating functions have in common. *)
Lemma create_args proto target args u w factory :
  mrs_ok u -> u_br u <> [] -> Forall varg_ok args -> fits 1 args ->
  exists t1 u1 tag u', l4_factory_create_start_u proto target u = Done (t1, u1)
    /\ add_args args t1 u1 = Done (true, tag, u') /\ mrs_ok u' /\ creates proto args [] target tag u'
    /\ l4_factory_create_commit_u l4_ipc_call factory tag (u', w) = Done (l4_ipc_call factory tag (u', w)).
Proof.
  intros Hu Hb Ha Hf. destruct (start_ok proto target u Hu Hb) as (u1 & Hs & Hu1 & Hp & Hd & Hr).
  assert (msgtag_words (msgtag (protocol_code Factory) 1 0 0) = 1) as Hw by by apply words_msgtag.
  destruct (add_args_fits args _ u1 Hu1 Ha ltac:(by rewrite Hw)) as (tag & u' & Hadd & Hu' & Hd' & Hr' & Hk & Hwd & Hlb & Hit & Hfl & Hps).
  rewrite Hw in *. exists (msgtag (protocol_code Factory) 1 0 0), u1, tag, u'. do 2 (split; [done|]). split; [done|]. split; [|done].
  split; [rewrite Hlb; apply label_msgtag, protocol_code_range|].
  split; [by rewrite Hfl, flags_msgtag|]. split; [done|]. split; [rewrite Hit; by apply items_msgtag|].
  split; [rewrite (load64_keeps _ _ _ _ Hk) by lia; done|]. split; [done|].
  split; [intros i c p Hi; by rewrite lookup_nil in Hi|]. split; congruence.
Qed.

Lemma add_args_one a tag u : add_args [a] tag u = add_arg a tag u.
Proof. cbn. by destruct (add_arg a tag u) as [[[[]]]| | |]. Qed.

Lemma create_plain proto target u w factory : mrs_ok u -> u_br u <> [] ->
  exists tag u', l4_factory_create_u l4_ipc_call factory proto target (u, w) = Done (l4_ipc_call factory tag (u', w))
    /\ creates proto [] [] target tag u'.
Proof.
  intros Hu Hb. destruct (create_args proto target [] u w factory Hu Hb) as (t1 & u1 & tag & u' & Hs & Ha & _ & Hc & Hk);
    [done.. |]. cbn in Ha. simplify_eq. exists tag, u'. split; [|done]. unfold l4_factory_create_u. rewrite Hs. estep. exact Hk.
Qed.

Lemma create_gate target thread lbl u w factory :
  mrs_ok u -> u_br u <> [] -> uint 64 lbl ->
  exists tag u', l4_factory_create_gate_u l4_ipc_call factory target thread lbl (u, w) = Done (l4_ipc_call factory tag (u', w))
    /\ creates 0 [VUint lbl]
         (if Z.land thread L4_INVALID_CAP_BIT =? 0
          then [(l4_map_obj_control 0 0, l4_obj_fpage thread 0 (wrap 8 L4_FPAGE_RWX))] else []) target tag u'.
Proof.
  intros Hu Hb Hl. pose proof generic_data_range.
  destruct (create_args 0 target [VUint lbl] u w factory Hu Hb) as (t1 & u1 & tag & u' & Hs & Ha & Hu' & Hc & Hk);
    [by constructor | cbn; lia |].
  rewrite add_args_one in Ha. unfold l4_factory_create_gate_u. rewrite Hs. estep.
  change (l4_factory_create_add_uint_u lbl t1 u1) with (add_arg (VUint lbl) t1 u1). rewrite Ha. estep.
  destruct Hc as (Hlb & Hfl & Hwd & Hit & Hp & Hps & Hi & Hd & Hr). change (1 + total_words [VUint lbl]) with 3 in *.
  set (tag' n := msgtag (msgtag_label tag) (msgtag_words tag) n (msgtag_flags tag)).
  assert (forall n, 0 <= n < 64 -> msgtag_label (tag' n) = protocol_code Factory /\ msgtag_flags (tag' n) = 0
    /\ msgtag_words (tag' n) = 3 /\ msgtag_items (tag' n) = n) as Ht.
  { intros n Hn. unfold tag'. rewrite Hlb, Hfl, Hwd, label_msgtag, flags_msgtag, words_msgtag, items_msgtag
      by (apply protocol_code_range || done || lia). done. }
  rewrite Hwd in Hps. destruct (Z.land thread _ =? 0).
  - destruct (mr_store_ok 3 (l4_map_obj_control 0 0) u' Hu' ltac:(lia)) as [-> Hu2]. estep.
    destruct (mr_store_ok 4 (l4_obj_fpage thread 0 (wrap 8 L4_FPAGE_RWX)) _ Hu2 ltac:(lia)) as [-> Hu3]. estep.
    eexists _, _. split; [done|]. destruct (Ht 1 ltac:(lia)) as (?&?&Hw&?). destruct Hu' as [Hl' Hb'], Hu2 as [Hl2 _].
    unfold MR_SIZE in *. cbn [u_mr u_bdr u_br set_regs] in *.
    assert (keeps 3 (u_mr u') (store64 (store64 (u_mr u') 3 (l4_map_obj_control 0 0)) 4
      (l4_obj_fpage thread 0 (wrap 8 L4_FPAGE_RWX)))) as Hkp.
    { eapply (keeps_trans 3 3); [lia | | apply keeps_store; lia]. apply keeps_store; lia. }
    split; [done|]. split; [done|]. split; [done|]. split; [done|].
    split; [rewrite (load64_keeps _ _ _ _ Hkp) by lia; done|].
    split; [fold (tag' 1); rewrite Hw; by apply (parse_args_keeps _ 1 (u_mr u'))|]. split; [|done].
    intros [|i] c p Hc; [|done]. cbn in Hc. simplify_eq. cbn. split.
    + rewrite load_store64_ne by lia. apply load_store64; lia.
    + apply load_store64; lia.
  - eexists _, _. split; [done|]. destruct (Ht 0 ltac:(lia)) as (?&?&Hw&?).
    split; [done|]. split; [done|]. split; [done|]. split; [done|]. split; [done|]. fold (tag' 0). rewrite Hw. by split_and!.
Qed.

(** C16: each creating function sends the kernel a well-formed factory message:
    the object's protocol, exactly the arguments its kind takes (the UTCB area
    of a task, the limit of a factory, the label of a gate), a flex page of the
    thread to bind behind them when the gate has a valid one, and the slot for
    the new capability armed in the buffer registers. *)
Theorem factory_create_sends factory target u w :
  mrs_ok u -> u_br u <> [] ->
  let sends r proto args items := exists tag u', r = Done (l4_ipc_call factory tag (u', w)) /\ creates proto args items target tag u' in
  (forall area, uint 64 area ->
     sends (l4_factory_create_task_u l4_ipc_call factory target area (u, w)) (protocol_code Task) [VFpage area] [])
  /\ (forall limit, uint 64 limit ->
     sends (l4_factory_create_factory_u l4_ipc_call factory target limit (u, w)) (protocol_code Factory) [VUint limit] [])
  /\ (forall thread lbl, uint 64 lbl ->
     sends (l4_factory_create_gate_u l4_ipc_call factory target thread lbl (u, w)) 0 [VUint lbl]
       (if Z.land thread L4_INVALID_CAP_BIT =? 0
        then [(l4_map_obj_control 0 0, l4_obj_fpage thread 0 (wrap 8 L4_FPAGE_RWX))] else []))
  /\ sends (l4_factory_create_thread_u l4_ipc_call factory target (u, w)) (protocol_code Thread) [] []
  /\ sends (l4_factory_create_irq_u l4_ipc_call factory target (u, w)) (protocol_code IrqSender) [] []
  /\ sends (l4_factory_create_vm_u l4_ipc_call factory target (u, w)) (protocol_code Vm) [] [].
Proof.
  intros Hu Hb sends. pose proof generic_data_range. unfold sends.
  split; [|split; [|split; [|split; [|split]]]]; try by apply create_plain.
  3: intros; by apply create_gate.
  all: intros d Hd.
  1: destruct (create_args (protocol_code Task) target [VFpage d] u w factory Hu Hb) as (t1 & u1 & tag & u' & Hs & Ha & _ & Hc & Hk);
    [by constructor | cbn; lia |].
  2: destruct (create_args (protocol_code Factory) target [VUint d] u w factory Hu Hb) as (t1 & u1 & tag & u' & Hs & Ha & _ & Hc & Hk);
    [by constructor | cbn; lia |].
  all: rewrite add_args_one in Ha; cbn [add_arg] in Ha; exists tag, u'; split; [|done].
  - unfold l4_factory_create_task_u. rewrite Hs. estep. rewrite Ha. estep. exact Hk.
  - unfold l4_factory_create_factory_u. rewrite Hs. estep. rewrite Ha. estep. exact Hk.
Qed.
End Sends.

(** ** Flex pages *)

(** A flex page added to a message goes behind its words and the items
    already there, as a compound item, and the tag counts one item more; when
    fewer than two registers are left, the page is refused with [-L4_ENOMEM] and
    neither tag nor registers change. *)
Theorem sndfpage_add_appends fp base tag u :
  mrs_ok u -> sint 64 tag ->
  let i := msgtag_words tag + 2 * msgtag_items tag in
  if L4_UTCB_GENERIC_DATA_SIZE <? i + 2 then l4_sndfpage_add_u fp base tag u = Done (- L4_ENOMEM, tag, u)
  else exists tag' u', l4_sndfpage_add_u fp base tag u = Done (0, tag', u') /\ mrs_ok u' /\ keeps i (u_mr u) (u_mr u')
    /\ load64 (u_mr u') i = wrap 64 (Z.lor (Z.lor base L4_ITEM_MAP) L4_ITEM_CONT)
    /\ load64 (u_mr u') (i + 1) = wrap 64 fp
    /\ msgtag_items tag' = msgtag_items tag + 1 /\ msgtag_words tag' = msgtag_words tag
    /\ msgtag_label tag' = msgtag_label tag /\ msgtag_flags tag' = msgtag_flags tag.
Proof.
  intros Hu Htag i. pose proof generic_data_range. pose proof enomem_range. pose proof (words_range tag).
  assert (0 <= msgtag_items tag < 64) as Hit.
  { unfold msgtag_items, l4_msgtag_items. rewrite six_bits, Z.land_ones by lia.
    rewrite wrap_id; [apply Z.mod_pos_bound; lia|]. unfold uint.
    pose proof (Z.mod_pos_bound (Z.shiftr tag 6) (2 ^ 6)). lia. }
  unfold l4_sndfpage_add_u, UTCB_GENERIC_DATA_SIZE.
  change (l4_msgtag_words tag + 2 * l4_msgtag_items tag) with i.
  destruct (L4_UTCB_GENERIC_DATA_SIZE <? i + 2) eqn:E; zb.
  { zif_true. rewrite swrap_id by (unfold sint; lia). do 3 f_equal. lia. }
  zif_false. change (msgtag_words tag) with (l4_msgtag_words tag) in *. change (msgtag_items tag) with (l4_msgtag_items tag) in *.
  destruct (mr_store_ok i (Z.lor (Z.lor base L4_ITEM_MAP) L4_ITEM_CONT) u Hu ltac:(lia)) as [-> Hu1]. estep.
  destruct (mr_store_ok (i + 1) fp _ Hu1 ltac:(lia)) as [-> Hu2]. estep.
  rewrite (wrap_id 32 (l4_msgtag_items tag)), uadd_small by (try unfold uint; lia). estep.
  eexists _, _. split; [done|]. split; [exact Hu2|]. destruct Hu as [Hl _], Hu1 as [Hl1 _]. unfold MR_SIZE in *.
  cbn [u_mr set_regs] in *. change (l4_msgtag ?a ?b ?c ?d) with (msgtag a b c d).
  split; [eapply (keeps_trans i i); [lia | | apply keeps_store; lia]; apply keeps_store; lia|].
  split; [rewrite load_store64_ne by lia; apply load_store64; lia|].
  split; [apply load_store64; lia|].
  rewrite items_msgtag, words_msgtag by lia. split; [done|]. split; [done|].
  rewrite label_msgtag, flags_msgtag.
  - split; [done|]. unfold msgtag_flags, l4_msgtag_flags. rewrite !wrap_land by lia. masks. bits.
  - unfold sint, l4_msgtag_label in *. rewrite Z.shiftr_div_pow2 by lia.
    change (2 ^ (48 - 1)) with (2 ^ 47). change (2 ^ (64 - 1)) with (2 ^ 47 * 2 ^ 16) in Htag.
    split; [apply Z.div_le_lower_bound; lia | apply Z.div_lt_upper_bound; lia].
Qed.

(** [Task::map] names its argument the source task and documents its own
    capability as the destination; the call goes to the argument's capability and
    carries the own one as the source. *)
Lemma map_goes_to_argument {W} (call : Z -> Z -> utcb * W -> Z * (utcb * W)) {EC : ErrConsts} ipc_error self src fp base u w :
  mrs_ok u ->
  exists u', map call ipc_error self src fp base (u, w)
    = ('(tag, s) ← Done (call (Caps.raw src) (task_tag 3 1) (u', w));
       r ← Tag.result (ipc_error tag s) (Tag.from tag); Done (r, s))
  /\ load64 (u_mr u') 4 = l4_obj_fpage (cap self) 0 (wrap 8 L4_FPAGE_RWX).
Proof.
  intros Hu. pose proof generic_data_range. unfold map, map_u, checked, l4_task_map_u, invoke.
  destruct (mr_store_ok 0 L4_TASK_MAP_OP u Hu ltac:(lia)) as [-> Hu1]. estep.
  destruct (mr_store_ok 3 (l4_map_obj_control 0 0) _ Hu1 ltac:(lia)) as [-> Hu2]. estep.
  destruct (mr_store_ok 4 (l4_obj_fpage (cap self) 0 (wrap 8 L4_FPAGE_RWX)) _ Hu2 ltac:(lia)) as [-> Hu3]. estep.
  destruct (mr_store_ok 1 base _ Hu3 ltac:(lia)) as [-> Hu4]. estep.
  destruct (mr_store_ok 2 fp _ Hu4 ltac:(lia)) as [-> Hu5]. estep.
  eexists. split; [done|]. clear Hu Hu1 Hu5. destruct Hu2 as [Hl2 _], Hu3 as [Hl3 _], Hu4 as [Hl4 _]. unfold MR_SIZE in *.
  cbn [u_mr set_regs] in *. rewrite load_store64_ne, load_store64_ne, load_store64 by lia.
  apply wrap_id, l4_obj_fpage_range.
Qed.
End KernelCalls.

(** The values of the L4Re headers. *)
Definition l4re_kernel_consts : KernelConsts.
Proof.
  refine {| L4_VARG_TYPE_NIL := 0; L4_VARG_TYPE_UMWORD := 1; L4_VARG_TYPE_MWORD := 0x81;
            L4_VARG_TYPE_STRING := 2; L4_VARG_TYPE_FPAGE := 3; L4_FPAGE_RWX := 7;
            L4_TASK_MAP_OP := 0; L4_TASK_UNMAP_OP := 1; L4_TASK_CAP_INFO_OP := 2; L4_TASK_ADD_KU_MEM_OP := 3;
            L4_FP_DELETE_OBJ := 0xc0000000; L4_FP_ALL_SPACES := 0x80000000; L4_ENOMEM := 12 |}.
  - apply (bool_decide_unpack _). by vm_compute.
  - repeat constructor; unfold uint; lia.
  - lia.
Defined.

Module Examples.
#[local] Existing Instance l4re_tag_consts.
#[local] Existing Instance l4re_cap_consts.
#[local] Existing Instance l4re_utcb_consts.
#[local] Existing Instance l4re_kernel_consts.
#[local] Instance checked_build : Build := {| overflow_checks := true |}.
Definition blank : utcb := {| u_mr := replicate 504 0; u_bdr := 7; u_br := [0; 0] |}.
(** A kernel that answers with the tag it was given. *)
Definition echo (dest tag : Z) (s : utcb * unit) : Z * (utcb * unit) := (tag, s).
Definition start_tag : Z := msgtag (protocol_code Factory) 1 0 0.
Definition some_args : list Varg := [VInt (-5); VStr [104; 105]; VNil; VFpage 0x3f; VUint 9].

Lemma blank_ok : mrs_ok blank.
Proof. split; [done | by apply bytes_okb_ok]. Qed.

Lemma start_words : msgtag_words start_tag = 1.
Proof. done. Qed.


Lemma factory_string_overrun_witness :
  l4_factory_create_add_str_u [] (set_words start_tag 62) blank = Panics
  /\ l4_factory_create_add_str_u (replicate 488 65) start_tag blank = UB.
Proof.
  split.
  - apply (factory_string_overrun [] (set_words start_tag 62) blank blank_ok); [constructor | done..].
  - apply (factory_string_overrun (replicate 488 65) start_tag blank blank_ok); [by apply bytes_okb_ok | done..].
Defined.

Lemma factory_create_sends_witness :
  exists tag u', l4_factory_create_gate_u echo 0x3000 0x5000 0x4000 42 (blank, tt) = Done (echo 0x3000 tag (u', tt))
    /\ creates 0 [VUint 42] [(8, l4_obj_fpage 0x4000 0 7)] 0x5000 tag u'.
Proof.
  destruct (factory_create_sends echo 0x3000 0x5000 blank tt blank_ok ltac:(done)) as (_ & _ & Hg & _).
  apply (Hg 0x4000 42). unfold uint. lia.
Defined.

(** Thirty flex pages behind one word: one more fits, and takes the last two
    registers; behind sixty-two words none does. *)
Definition roomy_tag : Z := msgtag 1 1 30 0.
Definition full_tag : Z := msgtag 1 62 0 0.
Lemma roomy_words : msgtag_words roomy_tag + 2 * msgtag_items roomy_tag = 61 /\ sint 64 roomy_tag.
Proof. by repeat split. Qed.
Lemma full_words : msgtag_words full_tag + 2 * msgtag_items full_tag = 62 /\ sint 64 full_tag.
Proof. by repeat split. Qed.

Lemma sndfpage_add_appends_witness :
  l4_sndfpage_add_u 5 0 full_tag blank = Done (- L4_ENOMEM, full_tag, blank)
  /\ exists tag' u', l4_sndfpage_add_u 5 0 roomy_tag blank = Done (0, tag', u')
    /\ load64 (u_mr u') 62 = wrap 64 5 /\ msgtag_items tag' = msgtag_items roomy_tag + 1.
Proof.
  destruct roomy_words as [Hr Hr'], full_words as [Hf Hf'].
  pose proof (sndfpage_add_appends 5 0 full_tag blank blank_ok Hf') as H1.
  pose proof (sndfpage_add_appends 5 0 roomy_tag blank blank_ok Hr') as H2.
  cbv zeta in H1, H2. rewrite Hf in H1. rewrite Hr in H2.
  change (L4_UTCB_GENERIC_DATA_SIZE <? 62 + 2) with true in H1.
  change (L4_UTCB_GENERIC_DATA_SIZE <? 61 + 2) with false in H2.
  split; [exact H1|]. destruct H2 as (tag' & u' & Ha & _ & _ & _ & Hp & Hi & _).
  exists tag', u'. split; [exact Ha|]. split; [exact Hp | exact Hi].
Defined.
End Examples.
