(* ===== verification/BufferMgr.v ===== *)
(** Receive buffers: [crates/l4/ipc/types.rs].

    [BufferManager] prepares the capability slots a server offers to the
    kernel; [Bufferless] offers none; [BufferAccess] is the raw pointer the
    deserialiser takes received capabilities from.  The slot allocator
    [l4re_util_cap_alloc] is a C function of L4Re: the class [CapAlloc], with
    its documented behaviour (a free slot, or an invalid index). *)
From S2P Require Import Prelude Utf8 Error MsgTag Cap Utcb.
From Stdlib Require Import ZArith Lia.
From coqutil Require Import Z.bitblast.
From stdpp Require Import base list gmap strings.
Open Scope Z_scope.

Class CapAlloc `{CC : CapConsts} := {
  alloc_state : Type;
  slots_used : alloc_state -> gset Z;
  l4re_util_cap_alloc : alloc_state -> Z * alloc_state;
  cap_alloc_range : forall a, uint 64 (l4re_util_cap_alloc a).1;
  cap_alloc_ok : forall a c a', l4re_util_cap_alloc a = (c, a') ->
    Z.land c L4_INVALID_CAP_BIT = 0 ->
    (c ∉ slots_used a) /\ (slots_used a' = {[ c ]} ∪ slots_used a) /\ Z.land c L4_CAP_MASK = c;
  cap_alloc_fail : forall a c a', l4re_util_cap_alloc a = (c, a') ->
    Z.land c L4_INVALID_CAP_BIT <> 0 -> slots_used a' = slots_used a;
}.

(** [BufferAccess]: a pointer into the buffer [ba_buf] of a manager, as an
    index, or none. *)
Record BufferAccess := { ba_buf : list Z; ba_ptr : option Z }.

Module Access.
Section Access.
Context {T : Type} `{IfaceInit T}.
(** Dereference: undefined outside the buffer. *)
Definition deref (b : BufferAccess) (i : Z) : exec Z :=
  if (0 <=? i) && (i <? zlen (ba_buf b)) then unwrap (ba_buf b !! Z.to_nat i) else UB.
Definition rcv_cap_unchecked (b : BufferAccess) : exec (Cap T * BufferAccess) :=
  ptr ← unwrap (ba_ptr b);
  c ← deref b ptr;
  Done (Caps.new c, {| ba_buf := ba_buf b; ba_ptr := Some ptr |}).
End Access.
End Access.

(** The [CapProvider] trait: what a server loop needs of a buffer manager. *)
Class CapProvider `{CC : CapConsts} `{CA : !CapAlloc} `{UC : UtcbConsts} (P : Type) := {
  provider_new : P;
  rcv_cap : P -> Z -> exec (Result Z);
  rcv_cap_unchecked : P -> Z -> exec Z;
  caps_used : P -> Z;
  alloc_capslots : P -> Z -> alloc_state -> exec (Result unit * P * alloc_state);
  set_rcv_cap_flags : P -> Z -> Result unit * P;
  max_slots : P -> Z;
  (** the buffer descriptor register and the buffer registers *)
  setup_wait : P -> Z * list Z -> exec (Z * list Z);
  access_buffers : P -> BufferAccess;
}.

(** [Bufferless]. *)
Record Bufferless := BufferlessMk {}.
Module BufferlessImpl.
Section Impl.
Context {CC : CapConsts} {CA : CapAlloc} {UC : UtcbConsts}.
Definition alloc_capslots (s : Bufferless) (cap_demand : Z) (a : alloc_state)
  : exec (Result unit * Bufferless * alloc_state) :=
  Done (if cap_demand =? 0 then Ok tt else Err (InvalidArg "buffer allocation not permitted" None), s, a).
Definition rcv_cap (s : Bufferless) (index : Z) : exec (Result Z) :=
  Done (Err (InvalidArg "No buffers allocated" None)).
Definition rcv_cap_unchecked (s : Bufferless) (index : Z) : exec Z := Done (Caps.raw Caps.invalid_cap).
Definition set_rcv_cap_flags (s : Bufferless) (flags : Z) : Result unit * Bufferless := (Ok tt, s).
Definition setup_wait (s : Bufferless) (u : Z * list Z) : exec (Z * list Z) := Done u.
Definition access_buffers (s : Bufferless) : BufferAccess := {| ba_buf := []; ba_ptr := None |}.
End Impl.
End BufferlessImpl.

#[export] Instance bufferless_provider `{CC : CapConsts} `{CA : !CapAlloc} `{UC : UtcbConsts} :
  CapProvider Bufferless := {|
  provider_new := BufferlessMk;
  rcv_cap := BufferlessImpl.rcv_cap;
  rcv_cap_unchecked := BufferlessImpl.rcv_cap_unchecked;
  caps_used := fun _ => 0;
  alloc_capslots := BufferlessImpl.alloc_capslots;
  set_rcv_cap_flags := BufferlessImpl.set_rcv_cap_flags;
  max_slots := fun _ => 0;
  setup_wait := BufferlessImpl.setup_wait;
  access_buffers := BufferlessImpl.access_buffers;
|}.

(** [BufferManager<N>]. *)
Record BufferManager := { caps : Z; cap_flags : Z; br : list Z }.

(** Indexing an array: panics out of range. *)
Definition index_get (l : list Z) (i : Z) : exec Z :=
  if (0 <=? i) && (i <? zlen l) then unwrap (l !! Z.to_nat i) else Panics.
Definition index_set (l : list Z) (i v : Z) : exec (list Z) :=
  if (0 <=? i) && (i <? zlen l) then Done (<[Z.to_nat i := v]> l) else Panics.

Module Manager.
Section Manager.
Context {CC : CapConsts} {CA : CapAlloc} {UC : UtcbConsts} {B : Build}.
Variable N : Z.

Definition new : BufferManager :=
  {| caps := 0; cap_flags := wrap 64 L4_RCV_ITEM_LOCAL_ID; br := replicate (Z.to_nat N) 0 |}.

(** The [while cap_demand > self.caps] loop; [caps] is a [u8]. *)
Fixpoint alloc_loop (fuel : nat) (cap_demand : Z) (s : BufferManager) (a : alloc_state)
  : exec (Result unit * BufferManager * alloc_state) :=
  match fuel with
  | O => NoFuel
  | S fuel =>
    if caps s <? cap_demand then
      let '(cap, a) := l4re_util_cap_alloc a in
      if negb (Z.land cap L4_INVALID_CAP_BIT =? 0) then Done (Err (Generic NoMem), s, a)
      else
        b ← index_set (br s) (caps s) (Z.lor (Z.lor cap L4_RCV_ITEM_SINGLE_CAP) (cap_flags s));
        n ← uadd 8 (caps s) 1;
        alloc_loop fuel cap_demand {| caps := n; cap_flags := cap_flags s; br := b |} a
    else Done (Ok tt, s, a)
  end.

Definition alloc_capslots (s : BufferManager) (cap_demand : Z) (a : alloc_state)
  : exec (Result unit * BufferManager * alloc_state) :=
  d ← uadd 8 cap_demand 3;
  if wrap 8 N <=? d then
    Done (Err (InvalidArg "Capability slot demand too large" (Some cap_demand)), s, a)
  else
    '(res, s, a) ← alloc_loop 256 cap_demand s a;
    match res with
    | Err e => Done (Err e, s, a)
    | Ok _ =>
      b ← index_set (br s) (caps s) 0;
      Done (Ok tt, {| caps := caps s; cap_flags := cap_flags s; br := b |}, a)
    end.

Definition rcv_cap (s : BufferManager) (index : Z) : exec (Result Z) :=
  if index <? caps s then c ← index_get (br s) index; Done (Ok (Z.land c L4_CAP_MASK))
  else Done (Err (InvalidArg "Index not allocated" (Some (swrap 64 index)))).
Definition rcv_cap_unchecked (s : BufferManager) (index : Z) : exec Z :=
  c ← index_get (br s) index; Done (Z.land c L4_CAP_MASK).
Definition set_rcv_cap_flags (s : BufferManager) (flags : Z) : Result unit * BufferManager :=
  if cap_flags s =? 0 then (Ok tt, {| caps := caps s; cap_flags := flags; br := br s |})
  else (Err (InvalidState "Unable to set buffer flags when capabilities were already allocated"), s).
Definition max_slots (s : BufferManager) : Z := wrap 32 N.
Definition caps_used (s : BufferManager) : Z := caps s.
(** [setup_wait]: the state is the thread's buffer descriptor and buffer
    registers; [copy_from_slice] of equal-length slices. *)
Definition setup_wait (s : BufferManager) (u : Z * list Z) : exec (Z * list Z) :=
  let n := Z.to_nat (caps s) in
  if (caps s <=? zlen u.2) && (caps s <=? zlen (br s))
  then Done (0, take n (br s) ++ drop n u.2) else Panics.
Definition access_buffers (s : BufferManager) : BufferAccess :=
  {| ba_buf := br s; ba_ptr := Some 0 |}.

#[global] Instance manager_provider : CapProvider BufferManager := {|
  BufferMgr.provider_new := new;
  BufferMgr.rcv_cap := rcv_cap;
  BufferMgr.rcv_cap_unchecked := rcv_cap_unchecked;
  BufferMgr.caps_used := caps_used;
  BufferMgr.alloc_capslots := alloc_capslots;
  BufferMgr.set_rcv_cap_flags := set_rcv_cap_flags;
  BufferMgr.max_slots := max_slots;
  BufferMgr.setup_wait := setup_wait;
  BufferMgr.access_buffers := access_buffers;
|}.
End Manager.
End Manager.

(** * [BufStr]: a string copied into a caller's buffer *)
Record BufStr := { bs_target : list Z; bs_len : Z }.
Module Str.
Definition new (target input : list Z) : Result BufStr :=
  if zlen target <? zlen input then Err (Generic MsgTooLong)
  else Ok {| bs_target := mwrite target 0 input; bs_len := zlen input |}.
Definition get (s : BufStr) (i : Z) : option Z := bs_target s !! Z.to_nat i.
Definition set (s : BufStr) (i v : Z) : option unit * BufStr :=
  if (0 <=? i) && (i <? zlen (bs_target s))
  then (Some tt, {| bs_target := <[Z.to_nat i := v]> (bs_target s); bs_len := bs_len s |})
  else (None, s).
Definition as_ref (s : BufStr) : list Z := take (Z.to_nat (bs_len s)) (bs_target s).
End Str.

(** * [Array]: a slice with a length of type [Len] *)
Module Array.
Section Array.
Context {UC : UtcbConsts} {B : Build}.
Variables (Len : LenType) (T : Pod).
(** Reading yields a view on the message registers. *)
Definition read : RM UtcbMr Error view :=
  (let? sl := Mr.read_slice Len T in
   match len_from Len (v_len sl) with
   | Some _ => rok sl
   | None => rerr (Generic OutOfBounds)
   end)%rust.
(** [From<&[T]>]: the length must fit, else the [unwrap] panics. *)
Definition from_slice (sl : list T) : exec (list T) :=
  _ ← unwrap (len_from Len (zlen sl)); Done sl.
Definition write (sl : list T) : RM UtcbMr Error unit := Mr.write_slice Len T sl.
(** [Into<Vec<T>>]: the elements are copied out of the registers. *)
Definition into_vec (regs : list Z) (v : view) : exec (list T) := view_get T regs v.
End Array.
End Array.

(** * Correctness of the buffer manager *)
Section ManagerSpec.
Context {CC : CapConsts} {CA : CapAlloc} {UC : UtcbConsts} {B : Build}.
Variable N : Z.
Hypothesis N_range : 3 < N < 256.

(** The item the kernel finds in a slot for capability [c]. *)
Definition rcv_item (c : Z) : Z := Z.lor (Z.lor c L4_RCV_ITEM_SINGLE_CAP) L4_RCV_ITEM_LOCAL_ID.

(** The allocated slots hold receive items of distinct, valid capability
    slots that belong to this manager. *)
Definition mgr_ok (s : BufferManager) (a : alloc_state) (cs : list Z) : Prop :=
  zlen (br s) = N /\ caps s = zlen cs /\ zlen cs < N /\ cap_flags s = L4_RCV_ITEM_LOCAL_ID
  /\ take (length cs) (br s) = rcv_item <$> cs
  /\ NoDup cs /\ (forall c, c ∈ cs -> c ∈ slots_used a)
  /\ Forall (fun c => Z.land c L4_CAP_MASK = c /\ Z.land c L4_INVALID_CAP_BIT = 0) cs.

Lemma index_set_ok l i v : 0 <= i < zlen l -> index_set l i v = Done (<[Z.to_nat i := v]> l).
Proof. intros. unfold index_set. do 2 zif_true. done. Qed.
Lemma index_get_ok l i x : l !! Z.to_nat i = Some x -> 0 <= i -> index_get l i = Done x.
Proof.
  intros H ?. pose proof (lookup_lt_Some _ _ _ H). unfold index_get, zlen. do 2 zif_true.
  cbn. by rewrite H.
Qed.

Lemma take_snoc_insert (l : list Z) cs c :
  (length cs < length l)%nat -> take (length cs) l = rcv_item <$> cs ->
  take (length (cs ++ [c])) (<[length cs := rcv_item c]> l) = rcv_item <$> (cs ++ [c]).
Proof.
  intros Hlt Htk. rewrite length_app, fmap_app, <- Htk. cbn. rewrite Nat.add_1_r.
  rewrite (take_S_r _ _ (rcv_item c)) by (by apply list_lookup_insert_eq).
  by rewrite take_insert_ge by lia.
Qed.

Lemma mgr_ok_step s a cs c a' :
  mgr_ok s a cs -> l4re_util_cap_alloc a = (c, a') -> Z.land c L4_INVALID_CAP_BIT = 0 ->
  zlen cs + 1 < N ->
  mgr_ok {| caps := caps s + 1; cap_flags := cap_flags s;
            br := <[Z.to_nat (caps s) := Z.lor (Z.lor c L4_RCV_ITEM_SINGLE_CAP) (cap_flags s)]> (br s) |}
         a' (cs ++ [c]).
Proof.
  intros (Hbr & Hn & Hlt & Hf & Htk & Hnd & Hin & Hc) Ha Hv Hroom.
  destruct (cap_alloc_ok a c a' Ha Hv) as (Hfresh & Hused & Hmask). unfold mgr_ok. cbn.
  autorewrite with zlen. rewrite Hn, Hf. unfold zlen in *. rewrite Nat2Z.id. split_and!.
  - by rewrite length_insert.
  - cbn. lia.
  - cbn. lia.
  - done.
  - by apply take_snoc_insert; [lia|].
  - apply NoDup_app. split_and!; [done | | apply NoDup_singleton].
    intros x Hx Hxc. apply list_elem_of_singleton in Hxc as ->. by apply Hfresh, Hin.
  - intros x Hx. rewrite Hused. apply elem_of_app in Hx as [Hx|Hx]; [apply Hin in Hx; set_solver|].
    apply list_elem_of_singleton in Hx as ->. set_solver.
  - apply Forall_app_2; [done|]. by constructor.
Qed.

Lemma alloc_loop_spec fuel cap_demand s a cs :
  mgr_ok s a cs -> cap_demand + 3 < N -> Z.max 0 (cap_demand - caps s) < Z.of_nat fuel ->
  exists res s' a' cs', Manager.alloc_loop fuel cap_demand s a = Done (res, s', a')
    /\ mgr_ok s' a' (cs ++ cs')
    /\ (res = Ok tt /\ zlen (cs ++ cs') = Z.max (zlen cs) cap_demand
        \/ res = Err (Generic NoMem) /\ zlen (cs ++ cs') < cap_demand).
Proof.
  revert s a cs. induction fuel as [|fuel IH]; intros s a cs Hok Hd Hfuel; [lia|].
  pose proof Hok as (Hbr & Hn & Hlt & Hf & _). cbn [Manager.alloc_loop].
  destruct (caps s <? cap_demand) eqn:E; zb.
  2:{ exists (Ok tt), s, a, []. rewrite app_nil_r. split_and!; [done | done |]. left. split; [done|lia]. }
  destruct (l4re_util_cap_alloc a) as [c a'] eqn:Ha.
  destruct (Z.land c L4_INVALID_CAP_BIT =? 0) eqn:Hv; cbn [negb]; zb.
  2:{ exists (Err (Generic NoMem)), s, a', []. rewrite app_nil_r. split_and!; [done | | right; split; [done|lia]].
      pose proof (cap_alloc_fail a c a' Ha Hv) as Hu. destruct Hok as (?&?&?&?&?&?&Hin&?).
      unfold mgr_ok. rewrite Hu. done. }
  rewrite index_set_ok by (rewrite Hbr, Hn; pose proof (zlen_nonneg cs); lia). cbn.
  rewrite uadd_small by (change (2 ^ 8) with 256; lia). cbn.
  pose proof (mgr_ok_step s a cs c a' Hok Ha Hv ltac:(lia)) as Hok'.
  destruct (IH _ _ _ Hok' Hd) as (res & s' & a2 & cs' & Hl & Hok2 & Hres); [cbn; lia|].
  exists res, s', a2, (c :: cs'). rewrite Hl. rewrite <- app_assoc in Hok2, Hres. cbn in Hok2, Hres.
  split_and!; [done | done |]. rewrite (zlen_app cs [c]), zlen_cons, zlen_nil in Hres.
  destruct Hres as [[? Hz] | [? Hz]]; [left | right]; (split; [done|]). all: lia.
Qed.

(** Writing the terminator behind the allocated slots. *)
Lemma mgr_ok_terminate s a cs : mgr_ok s a cs ->
  mgr_ok {| caps := caps s; cap_flags := cap_flags s; br := <[Z.to_nat (caps s) := 0]> (br s) |} a cs.
Proof.
  intros (Hbr & Hn & Hlt & Hf & Htk & ?). unfold mgr_ok. cbn. split_and!; try done; try apply H.
  - unfold zlen in *. by rewrite length_insert.
  - rewrite Hn. unfold zlen. rewrite Nat2Z.id. by rewrite take_insert_ge by lia.
Qed.

Lemma mgr_new_ok a : mgr_ok (Manager.new N) a [].
Proof.
  unfold mgr_ok, Manager.new. cbn. autorewrite with zlen. split_and!; try done; try lia; try constructor.
  - apply wrap_id. pose proof rcv_flag_range. unfold uint. lia.
  - intros c Hc. by apply not_elem_of_nil in Hc.
Qed.



(** The receive flags can never be set: [set_rcv_cap_flags] answers every
    manager that [new] and [alloc_capslots] produce with the "already allocated"
    error, also before the first allocation, where the trait documents that it
    must work. *)
Theorem set_rcv_cap_flags_always_refused s a cs flags :
  mgr_ok s a cs ->
  exists what, Manager.set_rcv_cap_flags s flags = (Err (InvalidState what), s).
Proof.
  intros (?&?&?&Hf&_). unfold Manager.set_rcv_cap_flags. rewrite Hf.
  pose proof rcv_flag_range. zif_false. by eexists.
Qed.
End ManagerSpec.

(** ** A concrete allocator: slots from a counter, 4096 apart, until [2^20]. *)
Definition counter_alloc : @CapAlloc l4re_cap_consts.
Proof.
  refine {| alloc_state := nat;
            slots_used := fun n => list_to_set ((fun i => Z.of_nat i * 4096) <$> seq 0 n);
            l4re_util_cap_alloc := fun n =>
              if Z.of_nat n <? 2 ^ 20 then (Z.of_nat n * 4096, S n)
              else (0xfffffffffffff800, n) |}.
  - intros n. destruct (_ <? _) eqn:E; unfold uint; cbn; zb; lia.
  - intros n c n' H Hv. destruct (_ <? _) eqn:E; [|by simplify_eq]. simplify_eq. zb. split_and!.
    + rewrite elem_of_list_to_set, list_elem_of_fmap. intros (i & Hi & [_ Hs]%elem_of_seq). lia.
    + rewrite seq_S, fmap_app, list_to_set_app_L. cbn. set_solver.
    + change L4_CAP_MASK with 0xfffffffffffff800.
      assert (0xfffffffffffff800 = Z.shiftl (Z.ones 53) 11) as -> by done.
      replace (Z.of_nat n * 4096) with (Z.shiftl (Z.of_nat n) 12) by (rewrite Z.shiftl_mul_pow2; lia).
      rewrite <- (wrap_id 52 (Z.of_nat n)), wrap_land by (unfold uint; lia). bits.
  - intros n c n' H Hv. destruct (_ <? _) eqn:E; [|by simplify_eq].
    simplify_eq. exfalso. apply Hv. change L4_INVALID_CAP_BIT with (Z.land (Z.ones 12) 0x800).
    by rewrite Z.land_assoc, Z.land_ones, Z.mod_mul.
Defined.

Section Witnesses.
#[local] Existing Instance l4re_cap_consts.
#[local] Existing Instance counter_alloc.
#[local] Existing Instance l4re_utcb_consts.
#[local] Existing Instance debug_build.


(** Two slots allocated from a fresh manager. *)
Definition two_slots : BufferManager :=
  match Manager.alloc_capslots 58 (Manager.new 58) 2 5%nat with
  | Done (_, s, _) => s
  | _ => Manager.new 58
  end.
Lemma two_slots_ok : mgr_ok 58 two_slots 7%nat [5 * 4096; 6 * 4096].
Proof.
  unfold mgr_ok. split_and!; [by vm_compute.. | | |].
  - by apply (bool_decide_eq_true_1 (NoDup [5 * 4096; 6 * 4096])).
  - intros c Hc. cbn [slots_used counter_alloc]. rewrite elem_of_list_to_set, list_elem_of_fmap.
    apply elem_of_cons in Hc as [->|Hc]; [exists 5%nat; split; [done | apply elem_of_seq; lia]|].
    apply list_elem_of_singleton in Hc as ->. exists 6%nat. split; [done | apply elem_of_seq; lia].
  - repeat constructor.
Qed.


Lemma set_rcv_cap_flags_always_refused_witness :
  mgr_ok 58 (Manager.new 58) 5%nat [] /\
  exists what, Manager.set_rcv_cap_flags (Manager.new 58) 8 = (Err (InvalidState what), Manager.new 58).
Proof.
  assert (mgr_ok 58 (Manager.new 58) 5%nat []) as H by (apply mgr_new_ok; lia).
  split; [exact H|]. exact (set_rcv_cap_flags_always_refused 58 _ _ [] 8 H).
Defined.
End Witnesses.
