(* ===== verification/Serialise.v ===== *)
(** (De)serialisation of argument and return values: the [Serialiser] trait of
    [crates/l4/ipc/serialise.rs] and its instances.

    A [Ser] is a Rust type with its [read] and [write].  [SerLaws] is what the
    IPC framework needs of one: writing stays inside the message registers, and
    what was written is read back. *)
From S2P Require Import Prelude Utf8 Error MsgTag Cap Utcb BufferMgr.
From Stdlib Require Import ZArith Lia.
From stdpp Require Import base list strings.
Open Scope Z_scope.

Section Serialise.
Context {CC : CapConsts} {UC : UtcbConsts} {B : Build}.

Abbreviation MrM := (RM UtcbMr Error).
(** The reader's state: the registers and the received capabilities. *)
Abbreviation RdM := (RM (UtcbMr * BufferAccess) Error).

Record Ser := {
  ser_t :> Type;
  ser_ok : ser_t -> Prop;
  ser_read : RdM ser_t;
  ser_write : ser_t -> MrM unit;
}.

(** A reader of the registers as a reader of both. *)
Definition on_mr {A} (f : MrM A) : RdM A := fun '(mr, bufs) =>
  '(a, mr) ← f mr; Done (a, (mr, bufs)).

(** [impl_serialisable!]: integers, floats, [bool], [char]. *)
Definition pod_ser (T : Pod) : Ser := {|
  ser_t := T; ser_ok := pod_ok T;
  ser_read := on_mr (Mr.read T);
  ser_write := Mr.write T;
|}.

Definition unit_ser : Ser := {|
  ser_t := unit; ser_ok := fun _ => True;
  ser_read := rok tt; ser_write := fun _ => rok tt;
|}.

(** [SndFlexPage]: written as an item; on reading, the object reference is
    replaced by the received capability. *)
Definition from_bits_truncate (b : Z) : Z := Z.land b RIGHTS_RWX.
Definition flexpage_read : RdM SndFlexPage :=
  (let? description := on_mr (Mr.read u64) in
   let? fp_raw := on_mr (Mr.read u64) in
   fun '(mr, bufs) =>
     let rights := from_bits_truncate (wrap 8 (Z.land fp_raw 0xff)) in
     match ba_ptr bufs with
     | None => Done (Err (InvalidState "missing capability for flex page"), (mr, bufs))
     | Some ptr =>
       cap_idx ← Access.deref bufs ptr;
       Done (Ok {| description := description; fpage := l4_obj_fpage cap_idx 0 rights |},
             (mr, {| ba_buf := ba_buf bufs; ba_ptr := Some (ptr + 1) |}))
     end)%rust.
Definition flexpage_ser : Ser := {|
  ser_t := SndFlexPage; ser_ok := pod_ok flexpage_pod;
  ser_read := flexpage_read; ser_write := Mr.write_item flexpage_pod;
|}.

(** [Option<T>]: the value, then a [bool]. *)
Definition option_read (T : Pod) : RdM (option T) :=
  (let? val := on_mr (Mr.read T) in
   let? _ := on_mr (Mr.read bool_pod) in
   rok (Some val))%rust.
Definition option_write (T : Pod) (v : option T) : MrM unit :=
  match v with
  | None => (Mr.skip T ;? Mr.write bool_pod false)%rust
  | Some v => (Mr.write T v ;? Mr.write bool_pod true)%rust
  end.
Definition option_ser (T : Pod) : Ser := {|
  ser_t := option T; ser_ok := fun o => exists v, o = Some v /\ pod_ok T v;
  ser_read := option_read T; ser_write := option_write T;
|}.

(** [Cap<T>]: sent as a flex page with all rights, received from the buffer. *)
Section CapSer.
Context {I : Type} `{IfaceInit I}.
Definition cap_read : RdM (Cap I) := fun '(mr, bufs) =>
  '(c, bufs) ← Access.rcv_cap_unchecked bufs; Done (Ok c, (mr, bufs)).
Definition cap_write (c : Cap I) : MrM unit :=
  Mr.write_item flexpage_pod (FlexPage.from_cap c RIGHTS_RWX None).
Definition cap_ser : Ser := {|
  ser_t := Cap I; ser_ok := fun _ => False; ser_read := cap_read; ser_write := cap_write;
|}.
End CapSer.

(** [String]: copied out of the registers at once. *)
Definition string_read : RdM (list Z) :=
  (let? v := on_mr Mr.read_str in
   fun '(mr, bufs) =>
     s ← peek (regs_mem (mr_regs mr)) (v_start v) (v_len v);
     Done (Ok s, (mr, bufs)))%rust.
Definition string_ser : Ser := {|
  ser_t := list Z;
  ser_ok := fun s => bytes_ok s /\ from_utf8 s = None /\ last s <> Some 0;
  ser_read := string_read; ser_write := Mr.write_str;
|}.

(** [Vec<T>]: a [BufArray], copied element by element. *)
Definition vec_read (T : Pod) : RdM (list T) :=
  (let? v := on_mr (Array.read u16_len T) in
   fun '(mr, bufs) =>
     s ← Array.into_vec T (regs_mem (mr_regs mr)) v;
     Done (Ok s, (mr, bufs)))%rust.
Definition vec_ser (T : Pod) : Ser := {|
  ser_t := list T; ser_ok := Forall (pod_ok T);
  ser_read := vec_read T; ser_write := Mr.write_slice u16_len T;
|}.

(** * What the framework relies on *)
Class SerLaws (S : Ser) := {
  ser_write_total : forall v mr, mr_ok mr ->
    exists res mr', ser_write S v mr = Done (res, mr') /\ mr_ext mr mr';
  ser_roundtrip : forall v mr mr' m n bufs, mr_ok mr -> ser_ok S v ->
    ser_write S v mr = Done (Ok tt, mr') -> agree mr' m ->
    ser_read S (at_off m mr n, bufs) = Done (Ok v, (at_off m mr' n, bufs));
}.

Lemma ser_write_ext S `{SerLaws S} v mr mr' res :
  mr_ok mr -> ser_write S v mr = Done (res, mr') -> mr_ext mr mr'.
Proof.
  intros Hmr Hw. destruct (ser_write_total v mr Hmr) as (r & m & Hw' & Hx).
  rewrite Hw in Hw'. by simplify_eq.
Qed.

Lemma mr_write_total T v mr : mr_ok mr ->
  exists res mr', Mr.write T v mr = Done (res, mr') /\ mr_ext mr mr'.
Proof.
  intros Hmr. destruct (mr_write_cases T v mr Hmr) as [(mr' & -> & Hx & _) | ->].
  - eauto.
  - eexists _, mr. split; [done|]. by apply mr_ext_refl.
Qed.

#[global] Instance pod_laws T : SerLaws (pod_ser T).
Proof.
  split; [apply mr_write_total|]. intros v mr mr' m n bufs Hmr Hv Hw Hag.
  cbn [ser_read pod_ser] in *. unfold on_mr.
  by rewrite (mr_read_write T v mr mr' m n Hmr Hv Hw Hag).
Qed.

Lemma at_off_same m (mr mr' : UtcbMr) n :
  regs_offset (mr_regs mr) = regs_offset (mr_regs mr') -> at_off m mr n = at_off m mr' n.
Proof. unfold at_off. by intros ->. Qed.

#[global] Instance unit_laws : SerLaws unit_ser.
Proof.
  split; cbn.
  - intros [] mr Hmr. eexists _, mr. split; [done|]. by apply mr_ext_refl.
  - intros [] mr mr' m n bufs _ _ Hw _. unfold rok in *. by simplify_eq.
Qed.

(** Two writes in sequence. *)
Lemma rbind_total (f g : MrM unit) mr :
  mr_ok mr ->
  (exists res mr', f mr = Done (res, mr') /\ mr_ext mr mr') ->
  (forall mr', mr_ok mr' -> exists res mr'', g mr' = Done (res, mr'') /\ mr_ext mr' mr'') ->
  exists res mr', (f ;? g)%rust mr = Done (res, mr') /\ mr_ext mr mr'.
Proof.
  intros Hmr (res & mr1 & Hf & Hx) Hg. unfold rbind. rewrite Hf. destruct res as [[]|e].
  - destruct (Hg mr1 ltac:(apply Hx)) as (res & mr2 & -> & Hx2).
    eexists _, mr2. split; [done|]. by eapply mr_ext_trans.
  - eauto.
Qed.

Lemma rbind_ok_inv (f g : MrM unit) mr mr' :
  (f ;? g)%rust mr = Done (Ok tt, mr') ->
  exists mr1, f mr = Done (Ok tt, mr1) /\ g mr1 = Done (Ok tt, mr').
Proof. unfold rbind. destruct (f mr) as [[[[]|] mr1]| | |]; try done. eauto. Qed.

Lemma mr_skip_total T mr : mr_ok mr ->
  exists res mr', Mr.skip T mr = Done (res, mr') /\ mr_ext mr mr'.
Proof.
  intros (Hr & ? & ?). unfold Mr.skip, Mr.on_regs. pose proof (skip_spec MR_SIZE T _ Hr) as Hs.
  destruct (MR_SIZE <? _); rewrite Hs; cbn; eexists _, _; (split; [done|]).
  - destruct mr. by apply mr_ext_refl.
  - apply skip_ext in Hs; [|done]. split; [|done].
    split_and!; cbn; [apply Hs | done |]. destruct Hs as (_&Hle&_). cbn in Hle. lia.
Qed.

#[global] Instance option_laws T : SerLaws (option_ser T).
Proof.
  split.
  - intros [v|] mr Hmr; cbn; apply rbind_total; auto using mr_write_total, mr_skip_total.
  - intros o mr mr' m n bufs Hmr (v & -> & Hv) Hw Hag.
    cbn [ser_write ser_read option_ser option_write] in *.
    destruct (rbind_ok_inv _ _ _ _ Hw) as (mr1 & Hw1 & Hw2).
    destruct (mr_write_inv _ _ _ _ Hmr Hw1) as (Hx1 & _).
    destruct (mr_write_inv _ _ _ _ ltac:(apply Hx1) Hw2) as (Hx2 & _).
    unfold option_read, rbind, on_mr.
    rewrite (mr_read_write T v mr mr1 m n Hmr Hv Hw1 (agree_ext _ _ _ Hx2 Hag)). cbn.
    by rewrite (mr_read_write bool_pod true mr1 mr' m n ltac:(apply Hx1) I Hw2 Hag).
Qed.

(** Lifting the register lemmas on slices and strings. *)
Lemma mr_on_regs_inv {A} (f : RM Registers Error A) (a : Result A) mr mr' :
  Mr.on_regs f mr = Done (a, mr') ->
  f (mr_regs mr) = Done (a, mr_regs mr') /\ mr_items mr' = mr_items mr.
Proof. unfold Mr.on_regs. destruct (f _) as [[]| | |]; cbn; intros; by simplify_eq. Qed.

Lemma mr_ext_regs mr mr' : mr_ok mr -> ext MR_SIZE (mr_regs mr) (mr_regs mr') ->
  mr_items mr' = mr_items mr -> mr_ext mr mr'.
Proof.
  intros (?&?&?) Hx Hi. split; [|done]. pose proof Hx as (?&?&?). split_and!; [apply Hx | lia | lia].
Qed.

Lemma mr_slice_total Len T v mr : mr_ok mr ->
  exists res mr', Mr.write_slice Len T v mr = Done (res, mr') /\ mr_ext mr mr'.
Proof.
  intros Hmr. destruct (write_slice_total MR_SIZE Len T v (mr_regs mr) ltac:(apply Hmr)) as (res & r' & Hw & Hx).
  unfold Mr.write_slice, Mr.on_regs. rewrite Hw. cbn. eexists _, _. split; [done|].
  by apply mr_ext_regs.
Qed.

#[global] Instance string_laws : SerLaws string_ser.
Proof.
  split; [exact (mr_slice_total usize_len u8)|].
  intros s mr mr' m n bufs Hmr (Hs & Hu & Hl) Hw [[Hm1 Hm2] Hag]. cbn [ser_write ser_read string_ser] in *.
  apply mr_on_regs_inv in Hw as [Hw _].
  assert (drop_nul s = s) as Hd.
  { unfold drop_nul. destruct (last s) as [[]|]; done. }
  destruct (read_write_str MR_SIZE s _ _ m ltac:(apply Hmr) Hs ltac:(by rewrite Hd) Hw Hm1 Hm2 Hag)
    as (v & Hrd & Hpk).
  unfold string_read, rbind, on_mr, Mr.read_str, Mr.on_regs, at_off. cbn [mr_regs mr_items].
  rewrite Hrd. cbn. rewrite Hpk, Hd. done.
Qed.

#[global] Instance vec_laws T : SerLaws (vec_ser T).
Proof.
  split; [exact (mr_slice_total u16_len T)|].
  intros v mr mr' m n bufs Hmr Hv Hw [[Hm1 Hm2] Hag]. cbn [ser_write ser_read vec_ser] in *.
  apply mr_on_regs_inv in Hw as [Hw _].
  destruct (read_write_slice MR_SIZE u16_len T v _ _ m ltac:(apply Hmr) Hv Hw Hm1 Hm2 Hag)
    as (vw & Hrd & Hlen & Hget).
  unfold vec_read, rbind, on_mr, Array.read, rbind, Mr.read_slice, Mr.on_regs, at_off. cbn [mr_regs mr_items].
  rewrite Hrd. estep. rewrite Hlen.
  destruct (write_slice_ok _ _ _ _ _ _ ltac:(apply Hmr) Hw) as (l & _ & -> & _).
  unfold rok, Array.into_vec. estep. cbn [regs_mem mr_regs]. rewrite Hget. done.
Qed.
(** An [Option] sent as [None] is never received as [None]: the writer
    skips the value's place and writes a false flag, the reader loads a value
    from that place and drops the flag, so the server gets [Some] of the bytes
    that happened to be there, or undefined behaviour when they are no value of
    the type. *)
Theorem option_none_read_as_some T mr mr' m n bufs :
  mr_ok mr -> option_write T None mr = Done (Ok tt, mr') -> agree mr' m ->
  option_read T (at_off m mr n, bufs) =
  (v ← decode T (mread m (align_up T (regs_offset (mr_regs mr))) (size_of T));
   Done (Ok (Some v), (at_off m mr' n, bufs))).
Proof.
  intros Hmr Hw Hag. destruct (rbind_ok_inv _ _ _ _ Hw) as (mr1 & Hw1 & Hw2).
  apply mr_on_regs_inv in Hw1 as [Hs Hi]. pose proof Hmr as (Hr & _).
  pose proof (skip_ext _ _ _ _ Hr Hs) as Hx.
  assert (mr_ext mr mr1) as Hx1 by by apply mr_ext_regs.
  destruct (mr_write_inv _ _ _ _ ltac:(apply Hx1) Hw2) as (Hx2 & _).
  rewrite skip_spec in Hs by done. destruct (_ <? _) eqn:E in Hs; [done|]. injection Hs as Ho.
  pose proof Hag as [[Hml Hmb] _].
  unfold option_read, rbind, on_mr, Mr.read at 1, Mr.on_regs. cbn [at_off mr_regs].
  rewrite read_spec by (destruct Hr as ([]&?&?&?); split; [by split | by split]).
  cbn [regs_mem regs_offset]. rewrite E.
  destruct (decode _ _) as [v| | |]; try done. estep. cbn [mr_items].
  change (Mr.read bool_pod _) with (Mr.read bool_pod
    {| mr_regs := {| regs_mem := m; regs_offset := slot_end T (regs_offset (mr_regs mr)) |}; mr_items := n |}).
  replace (slot_end T (regs_offset (mr_regs mr))) with (regs_offset (mr_regs mr1)) by by rewrite <- Ho.
  change {| mr_regs := _; mr_items := n |} with (at_off m mr1 n).
  by rewrite (mr_read_write bool_pod false mr1 mr' m n ltac:(apply Hx1) I Hw2 Hag).
Qed.
End Serialise.

(** A [None] of [u32] over registers whose first bytes hold a 7. *)
Module Stale.
#[local] Existing Instance l4re_utcb_consts.
#[local] Instance debug_build : Build := {| overflow_checks := true |}.
Definition block (flag : Z) : list Z := [7; 0; 0; 0; flag] ++ replicate 499 0.
Definition sent : UtcbMr := {| mr_regs := {| regs_mem := block 0; regs_offset := 5 |}; mr_items := 0 |}.
Definition no_caps : BufferAccess := {| ba_buf := []; ba_ptr := None |}.

Lemma option_none_read_as_some_witness :
  option_write u32 None (Mr.from_mr (block 1)) = Done (Ok tt, sent)
  /\ option_read u32 (at_off (block 0) (Mr.from_mr (block 1)) 0, no_caps)
     = Done (Ok (Some 7), (at_off (block 0) sent 0, no_caps)).
Proof.
  assert (bytes_ok (block 0)) by by apply bytes_okb_ok; vm_compute.
  assert (bytes_ok (block 1)) by by apply bytes_okb_ok; vm_compute.
  assert (option_write u32 None (Mr.from_mr (block 1)) = Done (Ok tt, sent)) as Hw by by vm_compute.
  split; [done|].
  rewrite (option_none_read_as_some u32 (Mr.from_mr (block 1)) sent (block 0) 0 no_caps); [by vm_compute | | done |].
  - by apply from_mr_ok.
  - by split.
Defined.
End Stale.
