(* ===== verification/Rpc.v ===== *)
(** Remote calls: the client stub [derive_ipc_calls!] and the server's
    [op_dispatch] of [crates/l4/ipc/iface.rs].

    An interface is a list of methods, each with its opcode, argument and
    return types; an implementation gives each method a function on the server
    object's state. *)
From S2P Require Import Prelude Utf8 Error MsgTag Cap Utcb BufferMgr Serialise.
From Stdlib Require Import ZArith Lia.
From stdpp Require Import base list strings.
Open Scope Z_scope.

Section Rpc.
Context {EC : ErrConsts} {TC : TagConsts} {CC : CapConsts} {CA : CapAlloc} {UC : UtcbConsts} {B : Build}.

(** * Interfaces and implementations *)
Fixpoint args_t (l : list Ser) : Type :=
  match l with [] => unit | s :: l => (ser_t s * args_t l)%type end.
Record Method := { m_op : Z; m_args : list Ser; m_ret : Ser }.
Record Handler (S : Type) := {
  h_method : Method;
  h_fn : args_t (m_args h_method) -> S -> exec (Result (ser_t (m_ret h_method)) * S);
}.
Arguments h_method {S} h.
Arguments h_fn {S} h.

Fixpoint write_args (l : list Ser) : args_t l -> RM UtcbMr Error unit :=
  match l with
  | [] => fun _ => rok tt
  | s :: l => fun '(v, vs) => (ser_write s v ;? write_args l vs)%rust
  end.
Fixpoint read_args (l : list Ser) : RM (UtcbMr * BufferAccess) Error (args_t l) :=
  match l with
  | [] => rok tt
  | s :: l => (let? v := ser_read s in let? vs := read_args l in rok (v, vs))%rust
  end.
Fixpoint args_ok (l : list Ser) : args_t l -> Prop :=
  match l with
  | [] => fun _ => True
  | s :: l => fun '(v, vs) => ser_ok s v /\ args_ok l vs
  end.

(** * The server's side: [op_dispatch] *)
Section Dispatch.
Context {S : Type}.
Variable PROTOCOL_ID : Z.
(** [OpType]; an opcode is matched as a number. *)
Variable op_type : Pod.
Variable op_num : op_type -> Z.
Variable handlers : list (Handler S).

Abbreviation SrvM := (RM (UtcbMr * BufferAccess * S) Error).

(** Run a reader or a writer of the registers in the server's state. *)
Definition srv_read {A} (f : RM (UtcbMr * BufferAccess) Error A) : SrvM A := fun '(mb, s) =>
  '(a, mb) ← f mb; Done (a, (mb, s)).
Definition srv_write {A} (f : RM UtcbMr Error A) : SrvM A := fun '(mr, bufs, s) =>
  '(a, mr) ← f mr; Done (a, (mr, bufs, s)).
Definition srv_call {A} (f : S -> exec (Result A * S)) : SrvM A := fun '(mr, bufs, s) =>
  '(a, s) ← f s; Done (a, (mr, bufs, s)).
Definition srv_reset : SrvM unit := fun '(mr, bufs, s) => Done (Ok tt, (Mr.reset mr, bufs, s)).

(** One arm of the match on the opcode. *)
Definition dispatch_arm (h : Handler S) : SrvM MsgTag :=
  (let? args := srv_read (read_args (m_args (h_method h))) in
   let? user_ret := srv_call (h_fn h args) in
   srv_reset ;?
   srv_write (ser_write (m_ret (h_method h)) user_ret) ;?
   fun '(mr, bufs, s) =>
     w ← Mr.words mr;
     Done (Ok (Tag.new 0 w (Mr.items mr) 0), (mr, bufs, s)))%rust.

Definition op_dispatch (tag : MsgTag) : SrvM MsgTag := fun st =>
  (* [words + items * 2] on usize, both below 64 *)
  if L4_UTCB_GENERIC_DATA_SIZE <? Tag.words tag + Tag.items tag * 2 then
    Done (Err (Generic MsgTooLong), st)
  else if negb (Tag.label tag =? PROTOCOL_ID) then Done (Err (Generic InvalidProt), st)
  else
    (let? opcode := srv_read (on_mr (Mr.read op_type)) in
     match List.find (fun h => m_op (h_method h) =? op_num opcode) handlers with
     | Some h => dispatch_arm h
     | None => rerr (InvalidArg "unknown opcode received" (Some (swrap 64 (op_num opcode))))
     end)%rust st.
End Dispatch.

(** * The client's side: the methods [derive_ipc_calls!] generates *)
Section Client.
Context {P : Type} `{!CapProvider P} {W : Type}.
(** The IPC system call: capability, tag and message registers out, tag and
    message registers in; [l4_ipc_error] reads the error register. *)
Variable l4_ipc_call : W -> Z -> Z -> list Z -> Z * list Z * W.
Variable l4_ipc_error : W -> Z.
Variables (proto cap_demand : Z).

(** What a client object, its thread's UTCB and the world hold. *)
Record Client := {
  cl_cap : Z;
  cl_slots : P;
  cl_alloc : alloc_state;
  cl_mr : list Z;
  cl_world : W;
}.

Definition cl_set_mr (c : Client) (m : list Z) : Client :=
  {| cl_cap := cl_cap c; cl_slots := cl_slots c; cl_alloc := cl_alloc c; cl_mr := m; cl_world := cl_world c |}.

Definition ensure_slots : RM Client Error unit := fun c =>
  '(res, p, a) ← alloc_capslots (cl_slots c) cap_demand (cl_alloc c);
  Done (res, {| cl_cap := cl_cap c; cl_slots := p; cl_alloc := a; cl_mr := cl_mr c; cl_world := cl_world c |}).

(** A method call. The opcode is an unsuffixed literal: an [i32]. *)
Definition ipc_method (m : Method) (args : args_t (m_args m)) : RM Client Error (ser_t (m_ret m)) :=
  (ensure_slots ;?
   fun c =>
    '(res, mr) ← (Mr.write i32 (m_op m) ;? write_args (m_args m) args)%rust (Mr.from_mr (cl_mr c));
    let c := cl_set_mr c (regs_mem (mr_regs mr)) in
    match res with
    | Err e => Done (Err e, c)
    | Ok _ =>
      w ← Mr.words mr;
      let tag := Tag.new proto w (Mr.items mr) 0 in
      let '(restag, m', w') := l4_ipc_call (cl_world c) (cl_cap c) (Tag.raw tag) (cl_mr c) in
      let c := {| cl_cap := cl_cap c; cl_slots := cl_slots c; cl_alloc := cl_alloc c;
                  cl_mr := m'; cl_world := w' |} in
      r ← Tag.result (l4_ipc_error w') (Tag.from restag);
      match r with
      | Err e => Done (Err e, c)
      | Ok _ =>
        let mr := Mr.reset {| mr_regs := {| regs_mem := m'; regs_offset := regs_offset (mr_regs mr) |};
                              mr_items := mr_items mr |} in
        '(ret, (mr, _)) ← ser_read (m_ret m) (mr, access_buffers (cl_slots c));
        Done (ret, c)
      end
    end)%rust.
End Client.
End Rpc.
Arguments h_method {S} h.
Arguments h_fn {S} h.
