(* ===== verification/Derive.v ===== *)
(** The procedural macros of [crates/l4_derive]: what they compute from a parsed
    interface.  [Meta] is the attribute parsing of [clntsrv.rs] and the buffer
    of a generated server, [Iface] the validation, numbering and slot demand of
    [iface.rs], [CppExport] the C++ interface of [export.rs].

    The syntax trees are the [syn] crate's.  Of them the model keeps the
    constructors and fields the macros look at; everything else of a tree is
    opaque.  Token streams and their printing are arguments. *)
From S2P Require Import Prelude Utf8 Error MsgTag Cap Utcb BufferMgr Serialise Rpc.
From Stdlib Require Import ZArith Lia.
From stdpp Require Import base list gmap strings sorting pretty.
Open Scope Z_scope.

(** [syn::Result]: the error as its message. *)
#[local] Abbreviation Result := (result string).
Definition err {A} (msg : string) : Result A := Err msg.

(** The [?] operator on these results, and over a list. *)
#[local] Instance result_mbind : MBind (result string) := fun A B f r =>
  match r with Ok a => f a | Err e => Err e end.
#[local] Instance result_mret : MRet (result string) := fun A a => Ok a.

(** * Attribute arguments *)
Module Meta.
Section Meta.

Inductive Lit := LInt (n : Z) | LStr (s : string) | LOther.
Inductive Item := Literal | Word (name : string) | NameValue (name : string) (v : Lit) | MList.

Fixpoint parse_client_loop (meta : list Item) (traitname : option string) (demand : Z) : Result (string * Z) :=
  match meta with
  | [] =>
    match traitname with
    | None => err "No IPC interface trait specified"
    | Some tn => Ok (tn, demand)
    end
  | Literal :: _ => err "Literals not allowed"
  | Word tn :: meta => parse_client_loop meta (Some tn) demand
  | NameValue ident lit :: meta =>
    if bool_decide (ident <> "demand"%string) then err "Only `demand = NUM` allowed"
    else match lit with
    | LInt i => parse_client_loop meta traitname (wrap 32 i)
    | _ => err "Demand can only be a positive integer number"
    end
  | MList :: _ => err "Invalid nesting of attributes"
  end.
Definition parse_client_meta (meta : list Item) : Result (string * Z) := parse_client_loop meta None 0.

Fixpoint parse_server_loop (meta : list Item) (trait_name : option string) (buffer : Z) : Result (string * Z) :=
  match meta with
  | [] =>
    match trait_name with
    | None => err "No IPC interface trait specified"
    | Some tn => Ok (tn, buffer)
    end
  | Literal :: _ => err "Literals not allowed"
  | Word tn :: meta => parse_server_loop meta (Some tn) buffer
  | NameValue ident lit :: meta =>
    if bool_decide (ident <> "buffer"%string) then err "Only `demand = NUM` allowed"
    else match lit with
    | LInt i =>
      if 500 <? i then err "Cache size may not exceed 500 bytes" else parse_server_loop meta trait_name (wrap 64 i)
    | _ => err "Buffer size must be a positive integer"
    end
  | MList :: _ => err "Invalid nesting of attributes"
  end.
Definition parse_server_meta (meta : list Item) : Result (string * Z) := parse_server_loop meta None 0.
End Meta.

(** The generated [TypedBuffer::copy_in]: the bytes behind the returned
    reference, and the buffer. *)
Definition copy_in (i : list Z) (buffer : list Z) : Error.Result (list Z) * list Z :=
  if zlen buffer <? zlen i then (Err (Generic MsgTooLong), buffer)
  else let buffer := mwrite buffer 0 i in (Ok (mread buffer 0 (zlen i)), buffer).
Definition get_buffer_size (n : Z) (buffer : list Z) : Z := n.
End Meta.

(** * [iface.rs] *)
Module Iface.

(** Types, as far as the macros look into them. *)
Inductive Type_ :=
| TPath (segments : list (string * Arguments))
| TTuple (elems : list Type_)
| TReference (elem : Type_)
| TOther (tokens : string)
with Arguments := ANone | AAngle (args : list GenericArg) | AParen
with GenericArg := GLifetime | GType (ty : Type_) | GOther.

Inductive FnArg :=
| SelfRef (mutable : bool)
| SelfValue
| Inferred (pat : string)
| Ignored (ty : Type_)
| Captured (name : option string) (ty : Type_).   (* [None]: the pattern is no identifier *)

Record Method := {
  ident : string;
  constness : bool;
  inputs : list FnArg;
  output : option Type_;       (* [ReturnType::Default] is [None] *)
  default_body : bool;
  attrs : list string;
}.
Inductive IfaceMethod := Unnumbered (m : Method) | Numbered (op : Z) (m : Method).

Definition same_type (a b : IfaceMethod) : bool :=
  let num x := match x with Unnumbered _ => 0 | Numbered _ _ => 1 end in num a =? num b.
Definition inner_ref (x : IfaceMethod) : Method := match x with Unnumbered m | Numbered _ m => m end.
(** [*self.inner_mut() = f(…)]. *)
Definition inner_mut (f : Method -> Method) (x : IfaceMethod) : IfaceMethod :=
  match x with Unnumbered m => Unnumbered (f m) | Numbered n m => Numbered n (f m) end.
Definition set_opcode_if_unnumbered (opcode : Z) (x : IfaceMethod) : IfaceMethod :=
  match x with Unnumbered m => Numbered opcode m | Numbered n m => Numbered n m end.
Definition unit_type : Type_ := TOther "()".

Section Iface.
Context {B : Build}.

(** The checks and the normalisation of one method. *)
Definition check_method (m : Method) : Result unit :=
  if constness m then err "Const fn functions not allowed"
  else match head (inputs m) with
  | Some (SelfRef true) =>
    if default_body m then err "No default implementation allowed" else Ok tt
  | _ => err "First parameter must be &mut self"
  end.
Definition normalise (m : Method) : Method :=
  {| ident := ident m; constness := constness m; inputs := inputs m;
     output := Some (default unit_type (output m)); default_body := default_body m; attrs := [] |}.
Fixpoint enumerate_loop (opcode : Z) (methods : list IfaceMethod) : exec (Result (list IfaceMethod)) :=
  match methods with
  | [] => Done (Ok [])
  | x :: rest =>
    match check_method (inner_ref x) with
    | Err e => Done (Err e)
    | Ok _ =>
      let x := set_opcode_if_unnumbered opcode (inner_mut normalise x) in
      opcode ← sadd 32 opcode 1;
      r ← enumerate_loop opcode rest;
      Done (xs ← r; Ok (x :: xs))
    end
  end.
Definition enumerate_iface_methods (methods : list IfaceMethod) : exec (Result (list IfaceMethod)) :=
  match methods with
  | [] => Done (err "Empty interfaces not allowed")
  | first :: _ =>
    if negb (forallb (same_type first) methods) then Done (err "Found methods both with and without an opcode")
    else enumerate_loop 0 methods
  end.

(** [count_demand]: the arguments whose type is a path ending in [Cap]. *)
Definition is_cap_arg (arg : FnArg) : bool :=
  match arg with
  | Ignored (TPath segs) | Captured _ (TPath segs) =>
    match last segs with Some (name, _) => bool_decide (name = "Cap"%string) | None => false end
  | _ => false
  end.
Definition count_demand (methods : list IfaceMethod) : exec Z :=
  foldl (fun count m => count ← count;
    uadd 8 count (wrap 8 (zlen (List.filter is_cap_arg (inputs (inner_ref m)))))) (Done 0) methods.

(** The interface's associated items; [Expr] stands for its expressions. *)
Context {Expr : Type}.
Inductive TraitItem :=
| Const (name : string) (value : option Expr)
| TypeItem (name : string) (value : option Type_) (type_attrs : list string)
| MethodItem (m : Method)
| OtherItem.
Inductive IfaceAttr :=
| AttrConst (name : string) (value : option Expr)
| AttrType (name : string) (value : option Type_) (type_attrs : list string).
Record Iface := {
  name : string; protocol : Expr; opattrs : list string; optype : Type_; demand : Z; methods : list IfaceMethod;
}.

Fixpoint parse_attributes_loop (l : list IfaceAttr) (opattrs : list string) (optype : Type_) (protocol : option Expr) :
    Result (Expr * list string * Type_) :=
  match l with
  | [] =>
    match protocol with
    | None => err "No protocol id (PROTOCOL_ID) specified"
    | Some p => Ok (p, opattrs, optype)
    end
  | AttrConst n v :: l =>
    if bool_decide (n = "PROTOCOL_ID"%string) then
      match v with Some e => parse_attributes_loop l opattrs optype (Some e) | None => err "Missing protocol ID" end
    else err "Illegal interface attribute specified"
  | AttrType n v a :: l =>
    if bool_decide (n = "OpType"%string) then
      match v with Some t => parse_attributes_loop l a t protocol | None => err "No operand type specified" end
    else err "Illegal interface attribute specified"
  end.
Definition parse_iface_attributes (l : list IfaceAttr) : Result (Expr * list string * Type_) :=
  parse_attributes_loop l [] (TOther "i32") None.

(** [Iface::parse], after the tokens have become trait items. *)
Fixpoint sort_items (items : list TraitItem) : Result (list IfaceAttr * list IfaceMethod) :=
  match items with
  | [] => Ok ([], [])
  | OtherItem :: _ => err "Only methods, associated consts and associated types allowed"
  | Const n v :: items => '(a, m) ← sort_items items; Ok (AttrConst n v :: a, m)
  | TypeItem n v at_ :: items => '(a, m) ← sort_items items; Ok (AttrType n v at_ :: a, m)
  | MethodItem f :: items => '(a, m) ← sort_items items; Ok (a, Unnumbered f :: m)
  end.
Definition parse (iface_name : string) (items : list TraitItem) : exec (Result Iface) :=
  match sort_items items with
  | Err e => Done (Err e)
  | Ok (a, m) =>
    match parse_iface_attributes a with
    | Err e => Done (Err e)
    | Ok (protocol, opattrs, optype) =>
      r ← enumerate_iface_methods m;
      match r with
      | Err e => Done (Err e)
      | Ok ms =>
        d ← count_demand ms;
        Done (Ok {| name := iface_name; protocol := protocol; opattrs := opattrs; optype := optype;
                    demand := d; methods := ms |})
      end
    end
  end.
End Iface.
End Iface.

(** * [export.rs] *)
Module CppExport.
Import Iface.

(** ** The interface's text in a source file

    A Rust string is the list of its characters; indices count the bytes of
    their UTF-8 encoding, and a slice whose ends lie outside of the string or
    inside a character panics. *)
Section Source.
Context {B : Build}.
Definition char_len (c : Z) : Z := if c <? 0x80 then 1 else if c <? 0x800 then 2 else if c <? 0x10000 then 3 else 4.
Definition byte_len (s : list Z) : Z := foldr (fun c n => char_len c + n) 0 s.
Fixpoint slice_from (n : Z) (s : list Z) : exec (list Z) :=
  if n =? 0 then Done s
  else match s with
  | c :: s => if char_len c <=? n then slice_from (n - char_len c) s else Panics
  | [] => Panics
  end.
Fixpoint slice_to (n : Z) (s : list Z) : exec (list Z) :=
  if n =? 0 then Done []
  else match s with
  | c :: s => if char_len c <=? n then cons c <$> slice_to (n - char_len c) s else Panics
  | [] => Panics
  end.
Definition slice (a b : Z) (s : list Z) : exec (list Z) :=
  if b <? a then Panics else s ← slice_from a s; slice_to (b - a) s.
Fixpoint starts_with (pat s : list Z) : bool :=
  match pat, s with
  | [], _ => true
  | p :: pat, c :: s => (p =? c) && starts_with pat s
  | _, [] => false
  end.
Fixpoint find (pat s : list Z) : option Z :=
  if starts_with pat s then Some 0
  else match s with [] => None | c :: s => Z.add (char_len c) <$> find pat s end.

Definition IFACE : list Z := [105; 102; 97; 99; 101; 33].   (* iface! *)
Definition OPEN : Z := 123.
Definition CLOSE : Z := 125.
(** The loop over [chars().enumerate()]: the index counts characters. *)
Fixpoint scan (braces index : Z) (chars : list Z) : exec (option Z) :=
  match chars with
  | [] => Done None
  | ch :: chars =>
    braces ← (if ch =? OPEN then sadd 32 braces 1 else if ch =? CLOSE then sadd 32 braces (-1) else Done braces);
    if braces =? 0 then Done (Some index) else scan braces (index + 1) chars
  end.
(** [parse_tokens] is [TokenStream::from_str] followed by [syn::parse];
    [contents] what [read_to_string] gave. *)
Definition parse_external_iface {I} (parse_tokens : list Z -> Result I) (contents : Result (list Z)) : exec (Result I) :=
  match contents with
  | Err e => Done (Err e)
  | Ok contents =>
    match find IFACE contents with
    | None => Done (err "No iface! macro invocation found")
    | Some start =>
      rest ← slice_from start contents;
      match find [OPEN] rest with
      | None => Done (err "Interface definition without opening brace '{'")
      | Some brace =>
        let start := start + brace + 1 in
        last ← usub 64 (byte_len contents) 1;
        chars ← slice (start + 1) last contents;
        index ← scan 1 0 chars;
        match index with
        | None => Done (err "Unterminated IPC interface definition")
        | Some index =>
          text ← slice start (start + index) contents;
          Done (parse_tokens text)
        end
      end
    end
  end.
End Source.

(** ** Types *)
Abbreviation TypeMappings := (gmap string (string * string)).
(** [HashSet]s of used name spaces and of includes. *)
Abbreviation Sets := (gset string * gset string)%type.

Definition RUST2CPP_TYPE : gmap string string := list_to_map
  [("char", "char"); ("i8", "char"); ("u8", "unsigned char"); ("i16", "l4_int16_t"); ("u16", "l4_uint16_t");
   ("i32", "l4_int32_t"); ("u32", "l4_uint32_t"); ("i64", "l4_int64_t"); ("u64", "l4_uint64_t");
   ("f32", "float"); ("f64", "double"); ("usize", "l4_umword_t"); ("isize", "l4_mword_t"); ("bool", "bool");
   ("Option", "Opt"); ("Cap", "Cap"); ("String", "String<>"); ("str", "String<>")]%string.
Definition CPPTYPE2NAMESPACE : gmap string (string * option string) := list_to_map
  [("Opt", ("L4::Ipc::Opt", Some "l4/sys/cxx/ipc_types")); ("Cap", ("L4::Ipc::Cap", Some "l4/sys/capability"));
   ("String", ("L4::Ipc::String", Some "l4/sys/cxx/ipc_string"));
   ("Dataspace", ("L4Re::Dataspace", Some "l4/re/dataspace"))]%string.
Definition RUST2CPP_OUTPUT : gmap string string := list_to_map
  [("String", "String<char>"); ("str", "String<char>")]%string.

Definition is_whitespace (c : Ascii.ascii) : bool :=
  let n := Ascii.N_of_ascii c in bool_decide (9 <= n <= 13 \/ n = 32 \/ n = 133 \/ n = 160)%N.
Fixpoint strip (s : string) : string :=
  match s with
  | EmptyString => EmptyString
  | String.String c s => if is_whitespace c then strip s else String.String c (strip s)
  end.
(** [truncate(len() - 2)]. *)
Definition drop_comma (s : string) : string := String.substring 0 (String.length s - 2) s.

Section Cpp.
Context {B : Build}.
(** Printing of trees ([to_tokens]) and re-reading an argument pattern as a
    type. *)
Context (to_tokens : Type_ -> string) (parse_type : string -> Result Type_).
Variable additional : TypeMappings.

Definition other_type (tokens : string) (sets : Sets) : Result (string * Sets) :=
  let n := strip tokens in
  if bool_decide (n = "()"%string) then Ok (EmptyString, sets) else err ("Unrecognised type expression: " +:+ n).
Definition base_name (is_output : bool) (main : string) : string :=
  let translated := default main (from_option Some (RUST2CPP_TYPE !! main) (snd <$> additional !! main)) in
  if is_output then default translated (RUST2CPP_OUTPUT !! main) else translated.
Definition declare (main : string) (sets : Sets) : Sets :=
  let decl := match CPPTYPE2NAMESPACE !! main with
    | Some e => Some e
    | None => match additional !! main with Some (usg, _) => Some (usg, None) | None => None end
    end in
  match decl with
  | Some (usg, incl) =>
    ({[ usg ]} ∪ sets.1, match incl with Some i => {[ i ]} ∪ sets.2 | None => sets.2 end)
  | None => sets
  end.
Definition finish (translated generics : string) : string :=
  let translated :=
    if (0 <? String.length generics)%nat then translated +:+ "<" +:+ drop_comma generics +:+ ">" else translated in
  if bool_decide (translated = "()"%string) then EmptyString else translated.

Fixpoint translate_type (is_output : bool) (ty : Type_) (sets : Sets) {struct ty} : Result (string * Sets) :=
  match ty with
  | TTuple [] => Ok (EmptyString, sets)
  | TReference elem => translate_type is_output elem sets
  | TTuple (_ :: _) => other_type (to_tokens ty) sets
  | TOther tokens => other_type tokens sets
  | TPath segments =>
    (fix last_segment (segments : list (string * Arguments)) : Result (string * Sets) :=
       match segments with
       | [] => err "Invalid type specification"
       | [(main, arguments)] =>
         let translated := base_name is_output main in
         let sets := declare main sets in
         match arguments with
         | ANone => Ok (finish translated EmptyString, sets)
         | AAngle args =>
           '(generics, sets) ←
             (fix go (args : list GenericArg) (generics : string) (sets : Sets) : Result (string * Sets) :=
                match args with
                | [] => Ok (generics, sets)
                | GLifetime :: args => go args (generics +:+ ", ") sets
                | GType t :: args =>
                  '(s, sets) ← translate_type is_output t sets;
                  go args (generics +:+ s +:+ ", ") sets
                | GOther :: _ => err "Invalid type parameter"
                end) args EmptyString sets;
           Ok (finish translated generics, sets)
         | AParen => err "Only types with generic types supported"
         end
       | _ :: segments => last_segment segments
       end) segments
  end.

(** ** Methods *)
Definition nl : string := String.String (Ascii.ascii_of_nat 10) EmptyString.
Definition name_of (n : Z) : string := String.String (Ascii.ascii_of_N (Z.to_N n)) EmptyString.
(** [(97u8..).find(…)]: the range computes its next element before it yields one. *)
Fixpoint first_unused (fuel : nat) (n : Z) (used : list string) : exec string :=
  match fuel with
  | O => NoFuel
  | S fuel =>
    next ← uadd 8 n 1;
    if bool_decide (name_of n ∈ used) then first_unused fuel next used else Done (name_of n)
  end.
Definition new_var (used : list string) : exec (string * list string) :=
  x ← first_unused 256 97 used; Done (x, used ++ [x]).

(** An argument's explicit name and its type. *)
Definition arg_type (fnarg : FnArg) : option (Result (string * Type_)) :=
  match fnarg with
  | SelfRef _ | SelfValue => None
  | Inferred pat => Some (ty ← parse_type pat; Ok (EmptyString, ty))
  | Ignored ty => Some (Ok (EmptyString, ty))
  | Captured (Some n) ty => Some (Ok (n, ty))
  | Captured None _ => Some (err "Invalid argument type")
  end.
Fixpoint gen_args (idx : Z) (args : list FnArg) (cpp : string) (used : list string) (sets : Sets) :
    exec (Result (string * list string * Sets)) :=
  match args with
  | [] => Done (Ok (cpp, used, sets))
  | fnarg :: args =>
    match arg_type fnarg with
    | None => gen_args (idx + 1) args cpp used sets
    | Some (Err e) => Done (Err e)
    | Some (Ok (name, ty)) =>
      '(name, used) ← (if bool_decide (name = EmptyString) then new_var used else Done (name, used ++ [name]));
      match translate_type false ty sets with
      | Err e => Done (Err e)
      | Ok (argtype, sets) =>
        let cpp := if 1 <? idx then cpp +:+ ", " else cpp in
        gen_args (idx + 1) args (cpp +:+ argtype +:+ " " +:+ name) used sets
      end
    end
  end.
Definition gen_cpp_rpc_method (method : Method) (sets : Sets) : exec (Result (string * Sets)) :=
  r ← gen_args 0 (inputs method) ("  L4_INLINE_RPC(int, " +:+ ident method +:+ ", (") [] sets;
  match r with
  | Err e => Done (Err e)
  | Ok (cpp, used, sets) =>
    match output method with
    | None => Done (Ok (cpp +:+ "));" +:+ nl, sets))
    | Some ty =>
      match translate_type true ty sets with
      | Err e => Done (Err e)
      | Ok (ty, sets) =>
        cpp ← (if bool_decide (ty = EmptyString) then Done cpp
               else '(v, _) ← new_var used; Done (cpp +:+ ", " +:+ ty +:+ "& " +:+ v));
        Done (Ok (cpp +:+ "));" +:+ nl, sets))
      end
    end
  end.

(** ** The interface *)
Inductive Expr := EInt (n : Z) | ELit | EOther.
Record ExportOptions := {
  input_file : string; output_file : string; opt_name : option string; opt_protocol : option Z; opt_includes : gset string;
}.
Definition sorted (s : gset string) : list string := merge_sort str_le (elements s).
Fixpoint gen_methods (ms : list IfaceMethod) (cpp : string) (rpcs : list string) (sets : Sets) :
    exec (Result (string * list string * Sets)) :=
  match ms with
  | [] => Done (Ok (cpp, rpcs, sets))
  | m :: ms =>
    r ← gen_cpp_rpc_method (inner_ref m) sets;
    match r with
    | Err e => Done (Err e)
    | Ok (s, sets) => gen_methods ms (cpp +:+ s) (rpcs ++ [ident (inner_ref m)]) sets
    end
  end.
Definition choose_protocol (iface : Iface (Expr := Expr)) (opts : ExportOptions) : Result Z :=
  match opt_protocol opts with
  | Some x => Ok x
  | None =>
    match protocol iface with
    | EInt n => Ok n
    | ELit => err "Protocol literal is not an integer"
    | EOther => err "No protocol specified and no protocol literal in interface definition."
    end
  end.
Definition gen_cpp_interface (iface : Iface (Expr := Expr)) (opts : ExportOptions) : exec (Result string) :=
  match choose_protocol iface opts with
  | Err e => Done (Err e)
  | Ok protocol =>
    let name := default (name iface) (opt_name opts) in
    let demand := if demand iface =? 0 then EmptyString else ", L4::Type_info::Demand_t<" +:+ pretty (demand iface) +:+ ">" in
    let sets := (∅, opt_includes opts ∪ {[ "l4/sys/capability"; "l4/sys/cxx/ipc_iface" ]}) in
    let cpp := "struct " +:+ name +:+ ": L4::Kobject_t<" +:+ name +:+ ", L4::Kobject, " +:+ pretty protocol
                 +:+ demand +:+ "> {" +:+ nl in
    r ← gen_methods (methods iface) cpp [] sets;
    match r with
    | Err e => Done (Err e)
    | Ok (cpp, rpcs, (namespaces, includes)) =>
      let cpp := cpp +:+ "  typedef L4::Typeid::Rpcs<" in
      let cpp := foldl (fun cpp n => cpp +:+ n +:+ "_t, ") cpp rpcs in
      let cpp := drop_comma cpp +:+ "> Rpcs;" +:+ nl +:+ "};" +:+ nl in
      let preamble := foldl (fun p x => p +:+ "#include <" +:+ x +:+ ">" +:+ nl) EmptyString (sorted includes) in
      let preamble := if (0 <? length (sorted namespaces))%nat then preamble +:+ nl else preamble in
      let preamble := foldl (fun p x => p +:+ "using " +:+ x +:+ ";" +:+ nl) preamble (sorted namespaces) in
      Done (Ok (if bool_decide (strip preamble = EmptyString) then cpp else preamble +:+ nl +:+ cpp))
    end
  end.
End Cpp.
End CppExport.

(** * Theorems: the numbering of methods *)
Section Numbering.
Context {B : Build}.
Import Iface.

Definition opcode (x : IfaceMethod) : option Z := match x with Numbered n _ => Some n | Unnumbered _ => None end.
(** The methods, numbered from [n] on. *)
Definition numbered (n : Z) (ms : list Method) : list IfaceMethod :=
  imap (fun i m => Numbered (n + Z.of_nat i) (normalise m)) ms.
(** The first complaint about a method. *)
Definition complaint (m : Method) : option string := match check_method m with Ok _ => None | Err e => Some e end.

Lemma numbered_cons n m ms : numbered n (m :: ms) = Numbered n (normalise m) :: numbered (n + 1) ms.
Proof.
  unfold numbered. cbn [imap]. rewrite Z.add_0_r. f_equal. apply imap_ext. intros i x _. cbn. f_equal. lia.
Qed.

Lemma enumerate_loop_spec ms : forall n, 0 <= n -> n + zlen ms < 2 ^ 31 ->
  enumerate_loop n (Unnumbered <$> ms) =
  Done (match omap complaint ms with e :: _ => Err e | [] => Ok (numbered n ms) end).
Proof.
  induction ms as [|m ms IH]; intros n Hn Hl; [done|]. rewrite zlen_cons in Hl. pose proof (zlen_nonneg ms).
  cbn [fmap list_fmap enumerate_loop inner_ref omap list_omap].
  destruct (check_method m) as [[]|e] eqn:E; unfold complaint at 1; rewrite E; [|done].
  cbn [inner_mut set_opcode_if_unnumbered]. unfold sadd. change (2 ^ (32 - 1)) with (2 ^ 31). do 2 zif_true. cbn [andb]. estep.
  rewrite IH by lia. estep. rewrite numbered_cons. by destruct (omap complaint ms).
Qed.

Lemma same_type_unnumbered m ms : forallb (same_type (Unnumbered m)) (Unnumbered <$> ms) = true.
Proof. induction ms; [done|]. cbn. done. Qed.

Lemma enumerate_spec ms : zlen ms < 2 ^ 31 ->
  enumerate_iface_methods (Unnumbered <$> ms) =
  Done (match ms with
        | [] => err "Empty interfaces not allowed"
        | _ => match omap complaint ms with e :: _ => Err e | [] => Ok (numbered 0 ms) end
        end).
Proof.
  intros Hl. destruct ms as [|m ms]; [done|]. unfold enumerate_iface_methods. cbn [fmap list_fmap].
  change (Unnumbered m :: (Unnumbered <$> ms)) with (Unnumbered <$> (m :: ms)).
  rewrite same_type_unnumbered. cbn [negb]. apply enumerate_loop_spec; lia.
Qed.

Lemma numbered_opcodes n ms : opcode <$> numbered n ms = Some <$> ((fun i => n + i) <$> seqZ 0 (zlen ms)).
Proof.
  revert n. induction ms as [|m ms IH]; intros n; [done|]. rewrite numbered_cons. rewrite zlen_cons. cbn [fmap list_fmap opcode].
  rewrite seqZ_cons by (pose proof (zlen_nonneg ms); lia). cbn [fmap list_fmap]. rewrite Z.add_0_r. f_equal.
  change (opcode <$> numbered (n + 1) ms = Some <$> ((fun i => n + i) <$> seqZ (Z.succ 0) (Z.pred (1 + zlen ms)))).
  rewrite IH. replace (Z.pred (1 + zlen ms)) with (zlen ms) by lia. rewrite <- (fmap_add_seqZ 1 0), <- !list_fmap_compose.
  apply list_fmap_ext. intros i x _. cbn. f_equal. lia.
Qed.

(** The slot demand counts the capabilities among the arguments. *)
Definition caps_of (m : Method) : Z := zlen (List.filter is_cap_arg (inputs m)).
Definition total_caps (ms : list IfaceMethod) : Z := foldr (fun x n => caps_of (inner_ref x) + n) 0 ms.
Lemma caps_nonneg m : 0 <= caps_of m.
Proof. apply zlen_nonneg. Qed.
Lemma total_caps_nonneg ms : 0 <= total_caps ms.
Proof. induction ms as [|x ms IH]; cbn; [lia|]. pose proof (caps_nonneg (inner_ref x)). unfold total_caps in *. lia. Qed.
Lemma count_demand_from ms : forall n, 0 <= n -> n + total_caps ms < 256 ->
  foldl (fun count x => c ← count; uadd 8 c (wrap 8 (caps_of (inner_ref x)))) (Done n) ms = Done (n + total_caps ms).
Proof.
  induction ms as [|x ms IH]; intros n Hn Hl; [cbn; f_equal; lia|]. cbn [foldl].
  assert (total_caps (x :: ms) = caps_of (inner_ref x) + total_caps ms) as Ht by done.
  pose proof (caps_nonneg (inner_ref x)). pose proof (total_caps_nonneg ms).
  estep. rewrite wrap_id, uadd_small by (try unfold uint; lia). rewrite IH by lia. f_equal. lia.
Qed.
Lemma count_demand_total ms : total_caps ms < 256 -> count_demand ms = Done (total_caps ms).
Proof. intros Hl. apply (count_demand_from ms 0); lia. Qed.

(** The methods an interface declares, in order. *)
Definition declared {Expr} (items : list (TraitItem (Expr := Expr))) : list Method :=
  omap (fun it => match it with MethodItem m => Some m | _ => None end) items.
Lemma sort_items_methods {Expr} (items : list (TraitItem (Expr := Expr))) a m :
  sort_items items = Ok (a, m) -> m = Unnumbered <$> declared items.
Proof.
  revert a m. induction items as [|[| |f|] items IH]; intros a m; cbn; try by intros [= <- <-].
  all: destruct (sort_items items) as [[a' m']|e]; cbn; intros [= <- <-]; by rewrite (IH a' m' eq_refl).
Qed.
Lemma total_caps_numbered n ms : total_caps (numbered n ms) = total_caps (Unnumbered <$> ms).
Proof.
  revert n. induction ms as [|m ms IH]; intros n; [done|]. rewrite numbered_cons. cbn. fold (total_caps (numbered (n + 1) ms)).
  by rewrite IH.
Qed.

(** Distinct numbers: the first match on an opcode is the method itself. *)
Lemma find_numbered {A} (op : A -> Z) (l : list A) : forall n, op <$> l = (fun i => n + i) <$> seqZ 0 (zlen l) ->
  forall k h, l !! k = Some h -> List.find (fun h' => op h' =? op h) l = Some h.
Proof.
  intros n Hl. assert (forall i x, l !! i = Some x -> op x = n + Z.of_nat i) as Hop.
  { intros i x Hx. assert ((op <$> l) !! i = Some (op x)) as H by by rewrite list_lookup_fmap, Hx.
    rewrite Hl, list_lookup_fmap, lookup_seqZ_lt in H; [cbn in H; simplify_eq; lia|].
    apply lookup_lt_Some in Hx. unfold zlen. lia. }
  intros k h Hk. destruct (List.find _ l) as [h'|] eqn:E.
  - apply find_some in E as [Hin Heq]. apply list_elem_of_In, list_elem_of_lookup in Hin as [j Hj]. zb.
    rewrite (Hop _ _ Hj), (Hop _ _ Hk) in Heq. assert (j = k) as -> by lia. congruence.
  - apply (find_none _ _) with (x := h) in E; [|apply list_elem_of_In; by eapply list_elem_of_lookup_2]. zb. done.
Qed.

(** An interface whose items are allowed and whose attributes are complete is
    parsed to its methods in the order of declaration, numbered from zero,
    without doc comments and with an explicit return type, and to a slot demand
    that is the number of capability arguments of all methods - or, if there is
    no method or a method is not of the required form, to the error of the first
    one. So implementations of the methods are never confused: the dispatcher's
    search for a method's opcode finds that method. *)
Theorem iface_parse_numbers {Expr} nm (items : list (TraitItem (Expr := Expr))) a m p oa ot :
  sort_items items = Ok (a, m) -> parse_iface_attributes a = Ok (p, oa, ot) ->
  zlen (declared items) < 2 ^ 31 -> total_caps m < 256 ->
  parse nm items = Done
    match declared items, omap complaint (declared items) with
    | [], _ => err "Empty interfaces not allowed"
    | _, e :: _ => Err e
    | ms, [] => Ok {| name := nm; protocol := p; opattrs := oa; optype := ot; demand := total_caps m; methods := numbered 0 ms |}
    end
  /\ forall Ob (hs : list (Rpc.Handler Ob)) k h,
       (fun h => Some (m_op (h_method h))) <$> hs = opcode <$> numbered 0 (declared items) -> hs !! k = Some h ->
       List.find (fun h' => m_op (h_method h') =? m_op (h_method h)) hs = Some h.
Proof.
  intros Hs Ha Hl Hc. pose proof (sort_items_methods _ _ _ Hs) as ->. split.
  - unfold parse. rewrite Hs, Ha, enumerate_spec by done. estep. destruct (declared items) as [|m ms] eqn:Hd; [done|].
    destruct (omap complaint (m :: ms)); [|done].
    by rewrite count_demand_total, total_caps_numbered by by rewrite total_caps_numbered.
  - intros Ob hs k h Hop. apply (find_numbered (fun h : Rpc.Handler Ob => m_op (h_method h)) hs 0). rewrite numbered_opcodes in Hop.
    assert (zlen hs = zlen (declared items)) as ->.
    { apply (f_equal length) in Hop. rewrite !length_fmap, length_seqZ in Hop. unfold zlen in *. lia. }
    apply (inj (fmap (M := list) (@Some Z))). rewrite <- Hop. symmetry.
    apply (list_fmap_compose (fun h : Rpc.Handler Ob => m_op (h_method h)) Some).
Qed.
End Numbering.

(** ** The exported text *)
Section Exported.
Context {B : Build}.
Import CppExport.

Definition ascii_text : list Z -> Prop := Forall (fun c => 0 <= c < 128).
(** Brace depth after a text, if it never falls to zero. *)
Fixpoint depth (n : Z) (s : list Z) : option Z :=
  match s with
  | [] => Some n
  | c :: s => let n := if c =? OPEN then n + 1 else if c =? CLOSE then n - 1 else n in
              if n =? 0 then None else depth n s
  end.

Lemma char_len_ascii c : 0 <= c < 128 -> char_len c = 1.
Proof. intros. unfold char_len. by zif_true. Qed.
Lemma byte_len_ascii s : ascii_text s -> byte_len s = zlen s.
Proof. induction 1 as [|c s Hc Hs IH]; [done|]. unfold byte_len in *. cbn. by rewrite IH, char_len_ascii, zlen_cons. Qed.
Lemma slice_from_app a b : ascii_text a -> slice_from (zlen a) (a ++ b) = Done b.
Proof.
  induction 1 as [|c a Hc Ha IH]; [by destruct b|]. pose proof (zlen_nonneg a). rewrite zlen_cons. cbn [app slice_from].
  rewrite char_len_ascii by done. zif_false. zif_true. by replace (1 + zlen a - 1) with (zlen a) by lia.
Qed.
Lemma slice_to_app a b : ascii_text a -> slice_to (zlen a) (a ++ b) = Done a.
Proof.
  induction 1 as [|c a Hc Ha IH]; [by destruct b|]. pose proof (zlen_nonneg a). rewrite zlen_cons. cbn [app slice_to].
  rewrite char_len_ascii by done. zif_false. zif_true. replace (1 + zlen a - 1) with (zlen a) by lia. by rewrite IH.
Qed.
Lemma slice_app a b c n k : ascii_text a -> ascii_text b -> n = zlen a -> k = zlen a + zlen b ->
  slice n k (a ++ b ++ c) = Done b.
Proof.
  intros Ha Hb -> ->. pose proof (zlen_nonneg b). unfold slice. zif_false. rewrite slice_from_app by done. estep.
  replace (zlen a + zlen b - zlen a) with (zlen b) by lia. by apply slice_to_app.
Qed.
Lemma find_open mid s : ascii_text mid -> OPEN ∉ mid -> find [OPEN] (mid ++ OPEN :: s) = Some (zlen mid).
Proof.
  induction 1 as [|c mid Hc Hm IH]; intros Hno; [done|]. rewrite not_elem_of_cons in Hno. destruct Hno as [Hne Hno].
  cbn [app find starts_with]. zif_false. cbn [andb]. rewrite IH by done. cbn. by rewrite char_len_ascii, zlen_cons.
Qed.
Lemma scan_depth s : ascii_text s -> forall n idx rest e, 0 < n -> n + zlen s < 2 ^ 31 -> depth n s = Some e ->
  scan n idx (s ++ rest) = scan e (idx + zlen s) rest /\ 0 < e <= n + zlen s.
Proof.
  induction 1 as [|c s Hc Hs IH]; intros n idx rest e Hn Hl Hd.
  { cbn [app depth] in *. simplify_eq. change (zlen (@nil Z)) with 0 in *. split; [by rewrite Z.add_0_r | lia]. }
  rewrite zlen_cons in *. pose proof (zlen_nonneg s). cbn [app scan depth] in *. unfold sadd. change (2 ^ (32 - 1)) with (2 ^ 31).
  set (n' := if c =? OPEN then n + 1 else if c =? CLOSE then n - 1 else n) in Hd.
  assert ((if c =? OPEN then if (- 2 ^ 31 <=? n + 1) && (n + 1 <? 2 ^ 31) then Done (n + 1) else if overflow_checks then Panics else Done (swrap 32 (n + 1))
     else if c =? CLOSE then if (- 2 ^ 31 <=? n + -1) && (n + -1 <? 2 ^ 31) then Done (n + -1) else if overflow_checks then Panics else Done (swrap 32 (n + -1))
     else Done n) = Done n' /\ 0 <= n' <= n + 1) as [-> Hn'].
  { unfold n'. destruct (c =? OPEN); [|destruct (c =? CLOSE)]; do 2 try zif_true; (split; [done | lia]). }
  estep. destruct (n' =? 0) eqn:E; [done|]. zb.
  edestruct (IH n' (idx + 1) rest e) as [-> ?]; [lia | lia | exact Hd |]. split; [f_equal; lia | lia].
Qed.

(** From the opening brace on. *)
Lemma export_tail {I} (parse_tokens : list Z -> Result I) P c body d post :
  let contents := P ++ c :: body ++ d :: CLOSE :: post in
  ascii_text contents -> zlen contents < 2 ^ 31 -> depth 1 (body ++ [d]) = Some 1 ->
  (last ← usub 64 (byte_len contents) 1;
   chars ← slice (zlen P + 1) last contents;
   index ← scan 1 0 chars;
   match index with
   | None => Done (err "Unterminated IPC interface definition")
   | Some index => text ← slice (zlen P) (zlen P + index) contents; Done (parse_tokens text)
   end)
  = Done (match post with [] => err "Unterminated IPC interface definition" | _ => parse_tokens (c :: body) end).
Proof.
  intros contents Ha Hl Hd. pose proof (zlen_nonneg P). pose proof (zlen_nonneg body). pose proof (zlen_nonneg post).
  assert (zlen contents = zlen P + zlen body + zlen post + 3) as Hz
    by (unfold contents; rewrite zlen_app, !zlen_cons, zlen_app, !zlen_cons; lia).
  rewrite byte_len_ascii, usub_small by (done || lia). estep. rewrite Hz.
  unfold contents, ascii_text in Ha. rewrite Forall_app, Forall_cons, Forall_app, !Forall_cons in Ha.
  destruct Ha as (HP & Hc & Hb & Hd' & Hcl & Hpost).
  assert (ascii_text (P ++ [c])) as HPc by (apply Forall_app_2; [done | by apply Forall_singleton]).
  assert (ascii_text (body ++ [d])) as Hbd by (apply Forall_app_2; [done | by apply Forall_singleton]).
  assert (zlen (P ++ [c]) = zlen P + 1) as HPl by by rewrite zlen_app.
  assert (zlen (body ++ [d]) = zlen body + 1) as Hbl by by rewrite zlen_app.
  destruct post as [|p post _] using rev_ind.
  - change (zlen (@nil Z)) with 0 in *. assert (contents = (P ++ [c]) ++ (body ++ [d]) ++ [CLOSE]) as -> by by rewrite <- !app_assoc.
    rewrite slice_app by (done || lia). estep.
    destruct (scan_depth (body ++ [d]) Hbd 1 0 [] 1) as [Hs _]; [lia | lia | done |]. rewrite app_nil_r in Hs.
    rewrite Hs. done.
  - rewrite (zlen_app post) in *. change (zlen [p]) with 1 in *. apply Forall_app in Hpost as [Hpost Hp].
    assert (contents = (P ++ [c]) ++ ((body ++ [d]) ++ CLOSE :: post) ++ [p]) as Hcs by (unfold contents; by rewrite <- !app_assoc).
    rewrite Hcs at 1. rewrite slice_app; [| done | apply Forall_app_2; [done | by constructor] | lia | rewrite HPl, zlen_app, Hbl, zlen_cons; lia].
    estep. destruct (scan_depth (body ++ [d]) Hbd 1 0 (CLOSE :: post) 1) as [-> _]; [lia | lia | done |].
    cbn [scan]. change (CLOSE =? OPEN) with false. change (CLOSE =? CLOSE) with true. cbv iota.
    change (sadd 32 1 (-1)) with (Done 0). estep. change (0 =? 0) with true. cbv iota. estep.
    assert (contents = P ++ (c :: body) ++ d :: CLOSE :: post ++ [p]) as -> by done.
    rewrite slice_app; [| done | by constructor | done | rewrite zlen_cons; lia]. estep.
    destruct (post ++ [p]) eqn:E; [by apply app_nil in E as [_ ?] | done].
Qed.

(** Exporting an interface drops its last character: of the text between the
    braces of [iface! … { … }] in a source file the parser gets all but the
    character before the closing brace - a semicolon, if the method list is not
    followed by white space; and when the closing brace is the last character of
    the file, the interface counts as unterminated. *)
Theorem export_drops_last {I} (parse_tokens : list Z -> Result I) pre mid c body d post :
  let contents := pre ++ IFACE ++ mid ++ OPEN :: c :: body ++ d :: CLOSE :: post in
  ascii_text contents -> zlen contents < 2 ^ 31 -> find IFACE contents = Some (zlen pre) -> OPEN ∉ mid ->
  depth 1 (body ++ [d]) = Some 1 ->
  parse_external_iface parse_tokens (Ok contents)
  = Done (match post with [] => err "Unterminated IPC interface definition" | _ => parse_tokens (c :: body) end).
Proof.
  intros contents Ha Hl Hf Hm Hd. pose proof Ha as Ha'. unfold contents, ascii_text in Ha'. rewrite !Forall_app in Ha'.
  destruct Ha' as (Hpre & Hif & Hmid & _).
  set (P := pre ++ (IFACE ++ mid) ++ [OPEN]).
  assert (zlen P = zlen pre + zlen (IFACE ++ mid) + 1) as HP.
  { unfold P. rewrite !zlen_app. change (zlen [OPEN]) with 1. lia. }
  assert (contents = P ++ c :: body ++ d :: CLOSE :: post) as Hc by (unfold contents, P; by rewrite <- !app_assoc).
  unfold parse_external_iface. rewrite Hf.
  assert (slice_from (zlen pre) contents = Done ((IFACE ++ mid) ++ OPEN :: c :: body ++ d :: CLOSE :: post)) as ->.
  { rewrite <- app_assoc. by apply slice_from_app. }
  estep. rewrite find_open.
  - rewrite <- HP, Hc. apply export_tail; by rewrite <- ?Hc.
  - by apply Forall_app_2.
  - rewrite not_elem_of_app. split; [|done]. apply (bool_decide_unpack _). by vm_compute.
Qed.
End Exported.

(** ** Invented names *)
Section Names.
Context {B : Build}.
Import Iface CppExport.

Lemma name_of_inj a b : 0 <= a < 256 -> 0 <= b < 256 -> name_of a = name_of b -> a = b.
Proof.
  unfold name_of. intros Ha Hb [= Hn]. apply (f_equal Ascii.N_of_ascii) in Hn. rewrite !Ascii.N_ascii_embedding in Hn by lia. lia.
Qed.
Lemma first_unused_spec used k fuel : forall n, 0 <= n <= k -> k < 255 -> k - n < Z.of_nat fuel -> name_of k ∉ used ->
  exists j, first_unused fuel n used = Done (name_of j) /\ n <= j <= k /\ name_of j ∉ used.
Proof.
  induction fuel as [|fuel IH]; intros n Hn Hk Hf Hu; [lia|]. cbn [first_unused]. rewrite uadd_small by lia. estep.
  destruct (bool_decide (name_of n ∈ used)) eqn:E.
  - apply bool_decide_eq_true in E. assert (n <> k) by (intros ->; done).
    destruct (IH (n + 1)) as (j & -> & Hj & Hju); [lia.. | done |]. exists j. split; [done|]. split; [lia | done].
  - apply bool_decide_eq_false in E. exists n. split; [done|]. split; [lia | done].
Qed.
(** 158 one-letter names, so one of them is free. *)
Lemma some_unused used : (length used < 158)%nat -> exists k, 97 <= k < 255 /\ name_of k ∉ used.
Proof.
  intros Hl. destruct (decide (Forall (.∈ used) (name_of <$> seqZ 97 158))) as [Hall|Hno].
  - exfalso. assert (NoDup (name_of <$> seqZ 97 158)) as Hnd.
    { apply NoDup_fmap_2_strong; [|apply NoDup_seqZ]. intros a b Ha%elem_of_seqZ Hb%elem_of_seqZ. apply name_of_inj; lia. }
    rewrite Forall_forall in Hall. pose proof (submseteq_length _ _ (NoDup_submseteq _ _ Hnd Hall)) as Hs.
    rewrite length_fmap, length_seqZ in Hs. lia.
  - apply not_Forall_Exists in Hno; [|intros x; apply _]. apply Exists_exists in Hno as (x & (k & -> & Hk%elem_of_seqZ)%list_elem_of_fmap & Hx).
    exists k. split; [lia | done].
Qed.
Lemma new_var_spec used : (length used < 158)%nat ->
  exists j, new_var used = Done (name_of j, used ++ [name_of j]) /\ 97 <= j < 255 /\ name_of j ∉ used.
Proof.
  intros Hl. destruct (some_unused used Hl) as (k & Hk & Hu). unfold new_var.
  destruct (first_unused_spec used k 256 97) as (j & -> & Hj & Hju); [lia.. | done |]. exists j. split; [done|]. split; [lia | done].
Qed.

Context (to_tokens : Type_ -> string) (parse_type : string -> Result Type_) (additional : TypeMappings).
Lemma gen_args_total args : forall idx cpp used sets, (length used + length args < 158)%nat ->
  exists r, gen_args to_tokens parse_type additional idx args cpp used sets = Done r
    /\ match r with Ok (_, used', _) => (length used' <= length used + length args)%nat | Err _ => True end.
Proof.
  induction args as [|a args IH]; intros idx cpp used sets Hl; cbn [gen_args length] in *; [eexists; split; [done | cbn; lia]|].
  destruct (arg_type parse_type a) as [[[nm ty]|e]|]; [| by eexists |].
  - assert (exists nm' used', (if bool_decide (nm = EmptyString) then new_var used else Done (nm, used ++ [nm])) = Done (nm', used')
      /\ length used' = S (length used)) as (nm' & used' & -> & Hu).
    { destruct (bool_decide _).
      - destruct (new_var_spec used) as (j & -> & _); [lia|]. eexists _, _. split; [done|]. rewrite length_app. cbn. lia.
      - eexists _, _. split; [done|]. rewrite length_app. cbn. lia. }
    estep. destruct (translate_type _ _ _ _ _) as [[t sets']|e]; [|by eexists].
    edestruct (IH (idx + 1)) as (r & -> & Hr); [|exists r; split; [done|]; destruct r as [[[? ?] ?]|]; [|done]]; lia.
  - edestruct (IH (idx + 1) cpp used sets) as (r & -> & Hr); [lia|]. exists r. split; [done|]. destruct r as [[[? ?] ?]|]; [lia | done].
Qed.

(** Generating the C++ declaration of a method ends with a result or an
    error, never with an overflow of the counter of names, as long as the method has
    fewer than 157 parameters; and a name that is invented for a parameter or a
    result without one is a single character from [a] on that none of the names before it
    uses (those after it may: see [later_name]). *)
Theorem export_names_fresh m sets used :
  zlen (inputs m) < 157 ->
  (exists r, gen_cpp_rpc_method to_tokens parse_type additional m sets = Done r)
  /\ (zlen used < 158 -> exists j, new_var used = Done (name_of j, used ++ [name_of j]) /\ 97 <= j < 255 /\ name_of j ∉ used).
Proof.
  intros Hl. unfold zlen in *. split; [|intros Hu; apply new_var_spec; lia]. unfold gen_cpp_rpc_method.
  edestruct (gen_args_total (inputs m) 0) as (r & -> & Hr); [cbn; lia|]. estep.
  destruct r as [[[cpp used'] sets']|e]; [|by eexists]. destruct (output m) as [ty|]; [|by eexists].
  destruct (translate_type _ _ _ _ _) as [[t sets2]|e]; [|by eexists]. destruct (bool_decide _); [by eexists|].
  destruct (new_var_spec used') as (j & -> & _); [cbn in Hr; lia|]. by eexists.
Qed.
End Names.

Module Examples.
Import Iface CppExport.
#[local] Instance checked_build : Build := {| overflow_checks := true |}.
Definition u32 : Type_ := TPath [("u32"%string, ANone)].
Definition cap_ty : Type_ := TPath [("l4"%string, ANone); ("Cap"%string, AAngle [GType u32])].
Definition method (nm : string) (args : list FnArg) (out : option Type_) : Method :=
  {| ident := nm; constness := false; inputs := SelfRef true :: args; output := out; default_body := false; attrs := ["doc"%string] |}.
Definition get : Method := method "get" [] (Some u32).
Definition put : Method := method "put" [Captured (Some "c"%string) cap_ty; Ignored u32] None.
Definition items : list (TraitItem (Expr := Expr)) := [Const "PROTOCOL_ID" (Some (EInt 7)); MethodItem get; MethodItem put].
Definition other_protocol : TraitItem (Expr := Expr) := Const "PROTOCOL" (Some (EInt 7)).

Lemma iface_parse_numbers_witness :
  parse "Store" items = Done (Ok {| name := "Store"; protocol := EInt 7; opattrs := []; optype := TOther "i32"; demand := 1;
    methods := [Numbered 0 (normalise get); Numbered 1 (normalise put)] |}).
Proof.
  apply (proj1 (iface_parse_numbers "Store" items [AttrConst "PROTOCOL_ID" (Some (EInt 7))] [Unnumbered get; Unnumbered put]
    (EInt 7) [] (TOther "i32") eq_refl eq_refl ltac:(done) ltac:(done))).
Defined.

(** [x iface!{a;b;}] and a newline: the parser gets [a;b]. *)
Definition source (post : list Z) : list Z := [120; 32] ++ IFACE ++ [] ++ OPEN :: 97 :: [59; 98] ++ 59 :: CLOSE :: post.
Lemma export_drops_last_witness :
  parse_external_iface (fun t => Ok t) (Ok (source [10])) = Done (Ok [97; 59; 98])
  /\ parse_external_iface (fun t => Ok t) (Ok (source [])) = Done (Err "Unterminated IPC interface definition"%string).
Proof.
  split.
  - apply (export_drops_last (fun t => Ok t) [120; 32] [] 97 [59; 98] 59 [10]); try done; [|by apply not_elem_of_nil].
    apply (bool_decide_unpack _). by vm_compute.
  - apply (export_drops_last (fun t => Ok t) [120; 32] [] 97 [59; 98] 59 []); try done; [|by apply not_elem_of_nil].
    apply (bool_decide_unpack _). by vm_compute.
Defined.

(** What is generated for a method without arguments that returns a value, and
    for a type with a lifetime and a type argument: neither is C++. *)
Definition text (m : Method) : exec (Result string) :=
  r ← gen_cpp_rpc_method (fun _ => EmptyString) (fun s => Ok (TPath [(s, ANone)])) ∅ m (∅, ∅);
  Done ('(s, _) ← r; Ok s).
Example method_without_arguments : text get = Done (Ok ("  L4_INLINE_RPC(int, get, (, l4_uint32_t& a));" +:+ nl)).
Proof. by vm_compute. Qed.
Lemma export_names_fresh_witness :
  (exists r, gen_cpp_rpc_method (fun _ => EmptyString) (fun s => Ok (TPath [(s, ANone)])) ∅ put (∅, ∅) = Done r)
  /\ exists j, new_var ["a"; "c"]%string = Done (name_of j, ["a"; "c"]%string ++ [name_of j]) /\ 97 <= j < 255 /\ name_of j ∉ ["a"; "c"]%string.
Proof.
  destruct (export_names_fresh (fun _ => EmptyString) (fun s => Ok (TPath [(s, ANone)])) ∅ put (∅, ∅) ["a"; "c"]%string) as [H1 H2]; [done|].
  split; [exact H1 | apply H2; done].
Defined.
(** An invented name is not kept free of the names behind it: [f(&mut self, _: u32, a: u32)]. *)
Example later_name :
  text (method "f" [Ignored u32; Captured (Some "a"%string) u32] None)
  = Done (Ok ("  L4_INLINE_RPC(int, f, (l4_uint32_t a, l4_uint32_t a));" +:+ nl)).
Proof. by vm_compute. Qed.
Example lifetime_argument :
  text (method "f" [Captured (Some "x"%string) (TPath [("Array"%string, AAngle [GLifetime; GType u32])])] None)
  = Done (Ok ("  L4_INLINE_RPC(int, f, (Array<, l4_uint32_t> x));" +:+ nl)).
Proof. by vm_compute. Qed.
End Examples.
