(* ===== verification/Exporter.v ===== *)
(** The exporter's command line ([l4_derive/export.rs], [ExportOptions]) and the
    macro [iface_export] ([l4_derive/lib.rs]) that composes it with the reading
    and the translation of an interface, both in [Derive].

    Token trees are the [proc_macro] crate's; of the [syn] parser the model has
    which tree each [parse] call takes and with which complaint it refuses
    another one.  Lists of expressions in parentheses are [syn]'s own business
    ([SynExprs]), as are the syntax trees of [Derive], and the file system is
    an argument.

    Shown: the options are read back from the tokens they are written with
    ([options_roundtrip]), and where the header goes ([iface_export_overwrites]):
    next to the source if its name has [.rs] in it, over the source otherwise. *)
From S2P Require Import Prelude Derive.
From Stdlib Require Import ZArith Lia.
From stdpp Require Import base list gmap strings.
Open Scope Z_scope.

Module Exporter.
Import Meta Iface CppExport.

#[local] Abbreviation Result := (result string).
#[local] Instance result_mbind : MBind (result string) := fun A B f r =>
  match r with Ok a => f a | Err e => Err e end.
#[local] Instance result_mret : MRet (result string) := fun A a => Ok a.

(** ** Tokens *)
(** [TIdent] is an identifier that is no keyword; [TOther] every other tree. *)
Inductive Tok :=
| TIdent (s : string) | TLit (l : Lit) | TColon | TComma | TArrow
| TParen (content : list Tok) | TBrace (content : list Tok) | TBracket (content : list Tok) | TOther.

(** A refusal of the next tree, or of the end of the input. *)
Definition expected {A} (what : string) (input : list Tok) : Result A :=
  err (match input with [] => "unexpected end of input, expected " | _ => "expected " end +:+ what).

(** [parse_terminated(Expr::parse)]. *)
Inductive SynExpr := ExprLit (l : Lit) | ExprOther.
Class SynExprs := {
  parse_terminated : list Tok -> Result (list SynExpr);
  parse_terminated_strings : forall a b,
    parse_terminated [TLit (LStr a); TComma; TLit (LStr b)] = Ok [ExprLit (LStr a); ExprLit (LStr b)];
}.

(** ** [str::replace] *)
Fixpoint replace_from (skip : nat) (from to s : string) : string :=
  match s with
  | EmptyString => EmptyString
  | String.String c s' =>
    match skip with
    | S skip => replace_from skip from to s'
    | O =>
      if String.prefix from s then to +:+ replace_from (String.length from - 1) from to s'
      else String.String c (replace_from 0 from to s')
    end
  end.
(** For a pattern that is not empty. *)
Definition replace (from to s : string) : string := replace_from 0 from to s.
Fixpoint contains (pat s : string) : bool :=
  String.prefix pat s || match s with EmptyString => false | String.String _ s => contains pat s end.

(** ** [ExportOptions::parse] *)
Section Options.
Context {SX : SynExprs}.

Definition string_literal (elem : SynExpr) : Result string :=
  match elem with
  | ExprLit (LStr s) => Ok s
  | ExprLit _ => err "Expected a literal string"
  | ExprOther => err "Expected literal string"
  end.
(** The loop of [parse_ty_mappings]: nothing is taken between two mappings. *)
Fixpoint parse_ty_mappings (content : list Tok) (mappings : TypeMappings) : Result TypeMappings :=
  match content with
  | [] => Ok mappings
  | TLit (LStr key) :: content =>
    match content with
    | TArrow :: content =>
      match content with
      | TParen tpl_content :: content =>
        tuple_expr ← parse_terminated tpl_content;
        match string_literal <$> tuple_expr with
        | [a; b] => a ← a; b ← b; parse_ty_mappings content (<[ key := (a, b) ]> mappings)
        | _ => err "Required tuple of two literal strings as value"
        end
      | _ => expected "parentheses" content
      end
    | _ => expected "`=>`" content
    end
  | _ => expected "string literal" content
  end.
Fixpoint parse_includes (content : list Tok) (includes : gset string) : Result (gset string) :=
  match content with
  | [] => Ok includes
  | TLit (LStr include) :: content =>
    match content with
    | [] => Ok ({[ include ]} ∪ includes)
    | TComma :: content => parse_includes content ({[ include ]} ∪ includes)
    | _ => expected "`,`" content
    end
  | _ => expected "string literal" content
  end.

Record Collected := { lit_opts : gmap string Lit; ty_map : TypeMappings; includes : gset string }.
(** The value of an option, from the rest of the input. *)
Definition parse_value (key : string) (input : list Tok) (o : Collected) : Result Collected :=
  if bool_decide (key = "add_types"%string) then
    match input with
    | TBrace content :: _ =>
      m ← parse_ty_mappings content ∅;
      Ok {| lit_opts := lit_opts o; ty_map := m ∪ ty_map o; includes := includes o |}
    | _ => expected "curly braces" input
    end
  else if bool_decide (key = "add_includes"%string) then
    match input with
    | TBracket content :: _ =>
      s ← parse_includes content ∅;
      Ok {| lit_opts := lit_opts o; ty_map := ty_map o; includes := includes o ∪ s |}
    | _ => expected "square brackets" input
    end
  else
    match input with
    | TLit val :: _ => Ok {| lit_opts := <[ key := val ]> (lit_opts o); ty_map := ty_map o; includes := includes o |}
    | _ => expected "literal" input
    end.
Fixpoint parse_options (input : list Tok) (o : Collected) : Result Collected :=
  match input with
  | [] => Ok o
  | TIdent key :: input =>
    match input with
    | TColon :: input =>
      o ← parse_value key input o;
      match input with
      | [] | [_] => Ok o
      | _ :: TComma :: input => parse_options input o
      | _ :: input => expected "`,`" input
      end
    | _ => expected "`:`" input
    end
  | _ => expected "identifier" input
  end.

(** [map(…).transpose()?] of an option that is looked up. *)
Definition literal {A} (read : Lit -> Result A) (key : string) (o : Collected) : Result (option A) :=
  match lit_opts o !! key with
  | Some l => v ← read l; Ok (Some v)
  | None => Ok None
  end.
Definition lit_str (msg : string) (l : Lit) : Result string := match l with LStr x => Ok x | _ => err msg end.
Definition lit_int (msg : string) (l : Lit) : Result Z := match l with LInt n => Ok n | _ => err msg end.
(** The type mappings beside the options that [Derive] knows. *)
Definition parse (input : list Tok) : Result (ExportOptions * TypeMappings) :=
  o ← parse_options input {| lit_opts := ∅; ty_map := ∅; includes := ∅ |};
  input_file ← literal (lit_str "Invalid input_file") "input_file" o;
  match input_file with
  | None => err "No input file specified"
  | Some input_file =>
    output_file ← literal (lit_str "Only string literals allowed") "output_file" o;
    name ← literal (lit_str "Invalid input_file") "name" o;
    protocol ← literal (lit_int "Only (positive) integers allowed") "protocol" o;
    Ok ({| input_file := input_file; output_file := default (replace ".rs" ".h" input_file) output_file;
           opt_name := name; opt_protocol := protocol; opt_includes := includes o |}, ty_map o)
  end.
End Options.

(** ** [iface_export] *)
Section Macro.
Context {SX : SynExprs} {B : Build}.
Context (to_tokens : Type_ -> string) (parse_type : string -> Result Type_).
(** [TokenStream::from_str] and [syn]'s reading of a trait's name and items. *)
Variable parse_trait : list Z -> Result (string * list (TraitItem (Expr := Expr))).
Context {FS : Type} (read_to_string : FS -> string -> Result (list Z)).
Context (create : FS -> string -> Result unit * FS) (write_all : FS -> string -> string -> Result unit * FS).

Definition iface_export (input : list Tok) (fs : FS) : exec (Result unit * FS) :=
  match parse input with
  | Err e => Done (Err e, fs)
  | Ok (opts, type_mappings) =>
    r ← parse_external_iface parse_trait (read_to_string fs (input_file opts));
    match r with
    | Err e => Done (Err e, fs)
    | Ok (name, items) =>
      r ← Iface.parse name items;
      match r with
      | Err e => Done (Err e, fs)
      | Ok iface =>
        r ← gen_cpp_interface to_tokens parse_type type_mappings iface opts;
        match r with
        | Err e => Done (Err e, fs)
        | Ok cpp =>
          match create fs (output_file opts) with
          | (Err e, fs) => Done (Err e, fs)
          | (Ok _, fs) => Done (write_all fs (output_file opts) cpp)
          end
        end
      end
    end
  end.
End Macro.

(** * Theorems *)

(** ** Names of headers *)
Lemma replace_absent from to s : contains from s = false -> replace from to s = s.
Proof.
  unfold replace. induction s as [|c s IH]; intros Hs; [done|]. cbn [contains replace_from] in *.
  apply orb_false_iff in Hs as [-> Hs]. by rewrite IH.
Qed.
Lemma replace_extension stem : contains ".rs" stem = false -> replace ".rs" ".h" (stem +:+ ".rs") = stem +:+ ".h".
Proof.
  unfold replace. induction stem as [|c stem IH]; intros Hs; [done|].
  apply orb_false_iff in Hs as [Hp Hs]. change (String.String c stem +:+ ?t) with (String.String c (stem +:+ t)).
  cbn [replace_from]. assert (String.prefix ".rs" (String.String c (stem +:+ ".rs")) = false) as ->; [|by rewrite IH].
  cbn [String.prefix] in *. destruct (Ascii.ascii_dec _ c); [|done]. destruct stem as [|c1 stem]; [by vm_compute|].
  unfold String.append in *; cbn [String.prefix] in *. destruct (Ascii.ascii_dec _ c1); [|done]. destruct stem as [|c2 stem]; [by vm_compute|].
  unfold String.append in *; cbn [String.prefix] in *. by destruct (Ascii.ascii_dec _ c2), stem.
Qed.

(** ** Options as tokens *)
Section Options_as_tokens.
Context {SX : SynExprs}.

(** An option, and the options of a record: with or without an output file. *)
Abbreviation Entry := (string * Tok)%type.
Definition line (e : Entry) : list Tok := [TIdent e.1; TColon; e.2; TComma].
Definition mapping (e : string * (string * string)) : list Tok :=
  [TLit (LStr e.1); TArrow; TParen [TLit (LStr e.2.1); TComma; TLit (LStr e.2.2)]].
Definition optional {A} (key : string) (tok : A -> Tok) (v : option A) : list Entry :=
  match v with Some v => [(key, tok v)] | None => [] end.
Definition lits (out : option string) (o : ExportOptions) : list Entry :=
  ("input_file", TLit (LStr (input_file o))) :: optional "output_file" (fun s => TLit (LStr s)) out
  ++ optional "name" (fun s => TLit (LStr s)) (opt_name o) ++ optional "protocol" (fun n => TLit (LInt n)) (opt_protocol o).
Definition entries (out : option string) (o : ExportOptions) (m : TypeMappings) : list Entry :=
  ("add_types", TBrace (map_to_list m ≫= mapping))
  :: ("add_includes", TBracket (elements (opt_includes o) ≫= fun i => [TLit (LStr i); TComma])) :: lits out o.
(** What is read back: the name of the output file is filled in. *)
Definition filled (out : option string) (o : ExportOptions) : ExportOptions :=
  {| input_file := input_file o; output_file := default (replace ".rs" ".h" (input_file o)) out;
     opt_name := opt_name o; opt_protocol := opt_protocol o; opt_includes := opt_includes o |}.

Lemma parse_mappings l acc : NoDup l.*1 -> parse_ty_mappings (l ≫= mapping) acc = Ok (list_to_map l ∪ acc).
Proof.
  revert acc. induction l as [|[k [a b]] l IH]; intros acc Hnd; cbn; [by rewrite map_empty_union|].
  apply NoDup_cons in Hnd as [Hk Hnd]. rewrite parse_terminated_strings. cbn. rewrite IH by done. f_equal.
  rewrite <- insert_union_r by by apply not_elem_of_list_to_map. by rewrite insert_union_l.
Qed.
Lemma parse_include_list l acc :
  parse_includes (l ≫= fun i => [TLit (LStr i); TComma]) acc = Ok (list_to_set l ∪ acc).
Proof. revert acc. induction l as [|i l IH]; intros acc; cbn; [|rewrite IH]; f_equal; set_solver. Qed.

(** The entries as steps on what is collected. *)
Definition step (o : Result Collected) (e : Entry) : Result Collected := o ← o; parse_value e.1 [e.2] o.
Lemma parse_value_head key v input o : parse_value key (v :: input) o = parse_value key [v] o.
Proof. unfold parse_value. by repeat case_match. Qed.
Lemma foldl_step_err es e : foldl step (Err e) es = Err e.
Proof. by induction es. Qed.
Lemma parse_options_steps es : forall o, parse_options (es ≫= line) o = foldl step (Ok o) es.
Proof.
  induction es as [|[k v] es IH]; intros o; [done|]. cbn. rewrite parse_value_head.
  destruct (parse_value k [v] o) as [o'|e]; cbn; [apply IH | by rewrite foldl_step_err].
Qed.

(** An entry that is read whatever was read before, by what it is for. *)
Inductive reads : Entry -> Prop :=
| reads_types content m : parse_ty_mappings content ∅ = Ok m -> reads ("add_types", TBrace content)
| reads_includes content s : parse_includes content ∅ = Ok s -> reads ("add_includes", TBracket content)
| reads_literal key l : key <> "add_types"%string -> key <> "add_includes"%string -> reads (key, TLit l).
Lemma value_types content m o : parse_ty_mappings content ∅ = Ok m ->
  parse_value "add_types" [TBrace content] o
  = Ok {| lit_opts := lit_opts o; ty_map := m ∪ ty_map o; includes := includes o |}.
Proof. intros Hm. unfold parse_value. cbn. by rewrite Hm. Qed.
Lemma value_includes content s o : parse_includes content ∅ = Ok s ->
  parse_value "add_includes" [TBracket content] o
  = Ok {| lit_opts := lit_opts o; ty_map := ty_map o; includes := includes o ∪ s |}.
Proof. intros Hs. unfold parse_value. cbn. by rewrite Hs. Qed.
Lemma value_literal key l o : key <> "add_types"%string -> key <> "add_includes"%string ->
  parse_value key [TLit l] o = Ok {| lit_opts := <[ key := l ]> (lit_opts o); ty_map := ty_map o; includes := includes o |}.
Proof. intros Ht Hi. unfold parse_value. by rewrite !bool_decide_false. Qed.
Lemma step_comm x y o : reads x -> reads y -> x.1 <> y.1 -> step (step o x) y = step (step o y) x.
Proof.
  intros Hx Hy Hne. destruct o as [o|e]; [|done]. unfold step. cbn.
  destruct Hx, Hy; cbn in *; try done;
    repeat (first [erewrite value_types by done | erewrite value_includes by done | rewrite value_literal by done]; cbn); try done.
  by rewrite insert_insert_ne by done.
Qed.
Lemma steps_permute es es' : es ≡ₚ es' -> Forall reads es -> NoDup es.*1 ->
  forall o, foldl step o es = foldl step o es'.
Proof.
  induction 1 as [|x l l' Hl IH|x y l|l l' l'' H1 IH1 H2 IH2]; intros Hr Hnd o; [done| | |].
  - cbn. apply Forall_cons in Hr as [_ Hr]. apply NoDup_cons in Hnd as [_ Hnd]. by apply IH.
  - rewrite !Forall_cons in Hr. destruct Hr as (Hy & Hx & _). cbn. rewrite step_comm; [done.. |].
    cbn in Hnd. rewrite NoDup_cons, not_elem_of_cons in Hnd. destruct Hnd as [[Hne _] _]. congruence.
  - rewrite (IH1 Hr Hnd). apply IH2; by rewrite <- H1.
Qed.

Lemma entries_read out o m : Forall reads (entries out o m).
Proof.
  unfold entries, lits, optional. constructor; [|constructor].
  - eapply reads_types, parse_mappings, NoDup_fst_map_to_list.
  - eapply reads_includes, parse_include_list.
  - constructor; [by constructor|]. repeat case_match; cbn; repeat (constructor; [by constructor|]); constructor.
Qed.
Lemma entries_NoDup out o m : NoDup (entries out o m).*1.
Proof.
  unfold entries, lits, optional. repeat case_match; cbn; apply (bool_decide_unpack _); by vm_compute.
Qed.
Lemma parse_entries out o m : parse (entries out o m ≫= line) = Ok (filled out o, m).
Proof.
  unfold parse. rewrite parse_options_steps. unfold entries. cbn [foldl]. unfold step at 2 3. cbn [fst snd mbind result_mbind].
  erewrite value_types by apply parse_mappings, NoDup_fst_map_to_list. cbn [mbind result_mbind lit_opts ty_map includes].
  erewrite value_includes by apply parse_include_list. cbn [lit_opts ty_map includes].
  rewrite list_to_map_to_list, list_to_set_elements_L, !map_union_empty, union_empty_l_L, union_empty_r_L.
  unfold lits, filled, optional. destruct out, (opt_name o), (opt_protocol o); cbn; unfold literal; cbn; simplify_map_eq; done.
Qed.

Lemma parse_permute es es' : es ≡ₚ es' -> Forall reads es' -> NoDup es'.*1 -> parse (es ≫= line) = parse (es' ≫= line).
Proof. intros Hp Hr Hn. unfold parse. by rewrite !parse_options_steps, (steps_permute es es') by by rewrite ?Hp. Qed.

End Options_as_tokens.

(** ** Where the header goes *)
Section Target.
Context {SX : SynExprs} {B : Build} (to_tokens : Type_ -> string) (parse_type : string -> Result Type_).
Context (parse_trait : list Z -> Result (string * list (TraitItem (Expr := Expr)))).
Context {FS : Type} (read_to_string : FS -> string -> Result (list Z)).
Context (create : FS -> string -> Result unit * FS) (write_all : FS -> string -> string -> Result unit * FS).
#[local] Abbreviation run := (iface_export to_tokens parse_type parse_trait read_to_string create write_all).

(** Only a complete header gets as far as the file system. *)
Lemma iface_export_touches input fs r fs' : run input fs = Done (r, fs') ->
  (fs' = fs /\ exists e, r = Err e) \/ exists o m, parse input = Ok (o, m) /\
    ((exists e, create fs (output_file o) = (Err e, fs')) \/
     exists u fs1 cpp, create fs (output_file o) = (Ok u, fs1) /\ write_all fs1 (output_file o) cpp = (r, fs')).
Proof.
  unfold iface_export. destruct (parse input) as [[o m]|e]; [|intros [= <- <-]; eauto].
  destruct (parse_external_iface _ _) as [[[nm items]|e]| | |]; cbn; [|intros [= <- <-]; eauto | done..].
  destruct (Iface.parse nm items) as [[i|e]| | |]; cbn; [|intros [= <- <-]; eauto | done..].
  destruct (gen_cpp_interface _ _ _ _ _) as [[cpp|e]| | |]; cbn; [|intros [= <- <-]; eauto | done..].
  destruct (create fs (output_file o)) as [[u|e] fs1] eqn:Ec; intros [= Hr]; right; exists o, m; split; [done| |done|];
    [right; exists u, fs1, cpp; by rewrite Hr | left; exists e; by rewrite Ec; simplify_eq].
Qed.

(** An interface that can be read and translated is written to one file:
    the output file, if the options name one; for an input file with the
    extension [.rs] the file of the same name with [.h]; and for an input file
    without [.rs] in its name the input file itself, whose contents the creation
    of the header discards. *)
Theorem iface_export_overwrites es out o m name items i cpp fs :
  es ≡ₚ entries out o m ->
  parse_external_iface parse_trait (read_to_string fs (input_file o)) = Done (Ok (name, items)) ->
  Iface.parse name items = Done (Ok i) ->
  gen_cpp_interface to_tokens parse_type m i (filled out o) = Done (Ok cpp) ->
  exists file,
    run (es ≫= line) fs = Done (match create fs file with
                                | (Err e, fs) => (Err e, fs)
                                | (Ok _, fs) => write_all fs file cpp
                                end)
    /\ (forall f, out = Some f -> file = f)
    /\ (forall stem, out = None -> input_file o = stem +:+ ".rs" -> contains ".rs" stem = false -> file = stem +:+ ".h")
    /\ (out = None -> contains ".rs" (input_file o) = false -> file = input_file o).
Proof.
  intros Hp Hs Hi Hg. exists (output_file (filled out o)). split; [|split; [|split]].
  - unfold iface_export. rewrite (parse_permute es _ Hp (entries_read out o m) (entries_NoDup out o m)), parse_entries. cbn [input_file filled]. rewrite Hs. cbn. rewrite Hi. cbn.
    rewrite Hg. cbn. by destruct (create fs _) as [[u|e] fs1].
  - by intros f ->.
  - intros stem -> Hf Hc. cbn. rewrite Hf. by apply replace_extension.
  - intros -> Hc. by apply replace_absent.
Qed.
End Target.

(** ** Concrete instances *)
Module Concrete.
Fixpoint exprs (content : list Tok) : Result (list SynExpr) :=
  match content with
  | [] => Ok []
  | [TLit l] => Ok [ExprLit l]
  | TLit l :: TComma :: content => es ← exprs content; Ok (ExprLit l :: es)
  | _ => err "expected expression"
  end.
#[local] Instance syn_exprs : SynExprs := {| parse_terminated := exprs; parse_terminated_strings a b := eq_refl |}.
#[local] Instance checked_build : Build := {| overflow_checks := true |}.

(** A store of texts. *)
Definition files : Type := gmap string (list Z).
Definition read_to_string (fs : files) (file : string) : Result (list Z) := from_option Ok (err "not found") (fs !! file).
Definition create (fs : files) (file : string) : Result unit * files := (Ok tt, <[ file := [] ]> fs).
Definition bytes (s : string) : list Z := (fun c => Z.of_N (Ascii.N_of_ascii c)) <$> String.list_ascii_of_string s.
Definition write_all (fs : files) (file s : string) : Result unit * files :=
  (Ok tt, <[ file := default [] (fs !! file) ++ bytes s ]> fs).

Definition opts (file : string) : ExportOptions :=
  {| input_file := file; output_file := EmptyString; opt_name := Some "Store"%string; opt_protocol := None;
     opt_includes := {[ "l4/re/dataspace"%string ]} |}.
Definition types : TypeMappings := {[ "Ds"%string := ("L4Re"%string, "Dataspace"%string) ]}.
Definition parse_trait (text : list Z) : Result (string * list (TraitItem (Expr := Expr))) :=
  if bool_decide (text = [97; 59; 98]) then Ok ("Store"%string, Derive.Examples.items) else err "expected identifier".
Definition export : list Tok -> files -> exec (Result unit * files) :=
  iface_export (fun _ => EmptyString) (fun s => Ok (TPath [(s, ANone)])) parse_trait read_to_string create write_all.


(** A mapping must not be followed by a comma, though the comment on the
    function shows one between mappings. *)
Example mappings_with_comma :
  parse_ty_mappings (mapping ("A", ("", "B"))%string ++ TComma :: mapping ("C", ("", "D"))%string) ∅
  = Err "expected string literal"%string.
Proof. by vm_compute. Qed.
(** An option no one knows is read and forgotten. *)
Example unknown_option :
  parse (line ("input_file", TLit (LStr "a.rs"))%string ++ line ("protocoll", TLit LOther)%string)
  = Ok ({| input_file := "a.rs"; output_file := "a.h"; opt_name := None; opt_protocol := None; opt_includes := ∅ |}, ∅).
Proof. by vm_compute. Qed.
(** Not only the extension is replaced. *)
Example replaced_directory : replace ".rs" ".h" "a.rsrc/b.rs" = "a.hrc/b.h"%string.
Proof. done. Qed.

Definition disk (file : string) : files := {[ file := Derive.Examples.source [10] ]}.
Definition store : Iface.Iface (Expr := Expr) :=
  {| name := "Store"; protocol := EInt 7; opattrs := []; optype := Iface.TOther "i32"; demand := 1;
     methods := [Numbered 0 (normalise Derive.Examples.get); Numbered 1 (normalise Derive.Examples.put)] |}.
Definition header (file : string) : string :=
  match gen_cpp_interface (fun _ => EmptyString) (fun s => Ok (TPath [(s, ANone)])) types store (filled None (opts file)) with
  | Done (Ok s) => s
  | _ => EmptyString
  end.
(** From [store.rs] the header goes to [store.h]; from [store.idl] it replaces
    the source. *)
Lemma iface_export_overwrites_witness :
  export (entries None (opts "store.rs") types ≫= line) (disk "store.rs")
    = Done (Ok tt, <[ "store.h"%string := bytes (header "store.rs") ]> (disk "store.rs"))
  /\ export (entries None (opts "store.idl") types ≫= line) (disk "store.idl")
    = Done (Ok tt, {[ "store.idl"%string := bytes (header "store.idl") ]}).
Proof.
  split.
  - destruct (iface_export_overwrites (fun _ => EmptyString) (fun s => Ok (TPath [(s, ANone)])) parse_trait read_to_string create
      write_all (entries None (opts "store.rs") types) None (opts "store.rs") types "Store" Derive.Examples.items store (header "store.rs")
      (disk "store.rs")) as (file & Hr & _ & Hf & _); [done | by vm_compute.. |].
    unfold export. rewrite Hr, (Hf "store"%string) by done. vm_compute. reflexivity.
  - destruct (iface_export_overwrites (fun _ => EmptyString) (fun s => Ok (TPath [(s, ANone)])) parse_trait read_to_string create
      write_all (entries None (opts "store.idl") types) None (opts "store.idl") types "Store" Derive.Examples.items store
      (header "store.idl") (disk "store.idl")) as (file & Hr & _ & _ & Hf); [done | by vm_compute.. |].
    unfold export. rewrite Hr, Hf by done. vm_compute. reflexivity.
Defined.
End Concrete.
End Exporter.
