(* ===== verification/Server.v ===== *)
(** The server loop: [crates/l4/ipc/server.rs].

    Incoming messages carry as label the address of the server object that was
    registered for the gate; [callbacks] is the memory the label points into: the
    object's dispatch function, if there is an object at that address.  The two
    blocking system calls are arguments on a kernel state [W]. *)
From S2P Require Import Prelude Utf8 Error MsgTag Cap Utcb BufferMgr Serialise Rpc.
From Stdlib Require Import ZArith Lia.
From stdpp Require Import base list strings.
Open Scope Z_scope.

Inductive LoopAction := ReplyAndWait (t : MsgTag) | Break.

(** The fields of [Loop]; its UTCB is the message registers and the buffer
    descriptor and registers. *)
Record Loop (H P : Type) := {
  thread : Z;
  loop_mr : list Z;
  loop_br : Z * list Z;
  hooks : option H;
  buf_mgr : P;
}.
Arguments thread {H P} l. Arguments loop_mr {H P} l. Arguments loop_br {H P} l.
Arguments hooks {H P} l. Arguments buf_mgr {H P} l.

Section Server.
Context {EC : ErrConsts} {TC : TagConsts} {CC : CapConsts} {CA : CapAlloc} {UC : UtcbConsts} {B : Build}.

(** [LoopHook]: both hooks get the loop and themselves mutably. *)
Class LoopHook (H : Type) := {
  ipc_error : forall P, H -> Loop H P -> Z -> MsgTag -> exec (LoopAction * H * Loop H P);
  application_error : forall P, H -> Loop H P -> Error -> exec (LoopAction * H * Loop H P);
}.

(** The default methods; [tcr] is the thread's IPC error register. *)
Definition default_ipc_error {H P} (h : H) (l : Loop H P) (tcr : Z) (tag : MsgTag)
  : exec (LoopAction * H * Loop H P) :=
  r ← Tag.result tcr tag;
  match r with
  | Ok _ => Panics
  | Err e =>
    code ← match e with
           | Generic e => Done (generic_code e)
           | Tcr e => Done (tcr_code e)
           | Unknown e => Done e
           | _ => Panics
           end;
    n ← smul 64 code (-1);
    Done (ReplyAndWait (Tag.new n 0 0 0), h, l)
  end.
Definition default_application_error {H P} (h : H) (l : Loop H P) (e : Error)
  : exec (LoopAction * H * Loop H P) :=
  n ← into_ipc_err e;
  Done (ReplyAndWait (Tag.new n 0 0 0), h, l).

Inductive DefaultHooks := DefaultHooksMk.
#[global] Instance default_hooks : LoopHook DefaultHooks := {|
  ipc_error := fun P => default_ipc_error;
  application_error := fun P => default_application_error;
|}.

Section Loops.
Context {H : Type} `{!LoopHook H} {P : Type} `{!CapProvider P} {Ob W : Type}.
(** The registered objects' dispatch functions by address, on the state [Ob] of
    all objects. *)
Variable callbacks : Z -> option (MsgTag -> RM (UtcbMr * BufferAccess * Ob) Error MsgTag).
(** Kernel: label, tag and message registers received. *)
Variable l4_ipc_wait : W -> list Z -> Z * list Z -> Z * Z * list Z * W.
Variable l4_ipc_reply_and_wait : W -> Z -> list Z -> Z * list Z -> Z * Z * list Z * W.
Variable l4_rcv_ep_bind_thread : W -> Z -> Z -> Z -> Z * W.
Variable l4_ipc_error : W -> Z.

Abbreviation L := (Loop H P).

Definition new (thread : Z) (mr : list Z) (br : Z * list Z) (h : H) (b : P) : L :=
  {| thread := thread; loop_mr := mr; loop_br := br; hooks := Some h; buf_mgr := b |}.
Definition set_mr (l : L) (m : list Z) : L :=
  {| thread := thread l; loop_mr := m; loop_br := loop_br l; hooks := hooks l; buf_mgr := buf_mgr l |}.
Definition set_br (l : L) (b : Z * list Z) : L :=
  {| thread := thread l; loop_mr := loop_mr l; loop_br := b; hooks := hooks l; buf_mgr := buf_mgr l |}.
Definition set_hooks (l : L) (h : option H) : L :=
  {| thread := thread l; loop_mr := loop_mr l; loop_br := loop_br l; hooks := h; buf_mgr := buf_mgr l |}.
Definition set_mgr (l : L) (b : P) : L :=
  {| thread := thread l; loop_mr := loop_mr l; loop_br := loop_br l; hooks := hooks l; buf_mgr := b |}.

(** [register]: slots for the object's demand, then the gate is bound to it. *)
Definition register (cap_demand inst_cap inst_addr : Z) (l : L) (a : alloc_state) (w : W)
  : exec (Result unit * L * alloc_state * W) :=
  '(res, p, a) ← alloc_capslots (buf_mgr l) cap_demand a;
  let l := set_mgr l p in
  match res with
  | Err e => Done (Err e, l, a, w)
  | Ok _ =>
    let '(tag, w) := l4_rcv_ep_bind_thread w inst_cap (thread l) inst_addr in
    r ← Tag.result (l4_ipc_error w) (Tag.from tag);
    match r with
    | Err e => Done (Err e, l, a, w)
    | Ok _ => Done (Ok tt, l, a, w)
    end
  end.

Definition reply_and_wait (l : L) (replytag : MsgTag) (w : W) : exec (Z * MsgTag * L * W) :=
  br ← setup_wait (buf_mgr l) (loop_br l);
  let l := set_br l br in
  let '(label, tag, m, w) := l4_ipc_reply_and_wait w (Tag.raw replytag) (loop_mr l) (loop_br l) in
  let l := set_mr l m in
  (* avoid broken IPC to kill the loop *)
  if (label =? 0) && Tag.has_error (Tag.from tag) then
    let '(label, tag, m, w) := l4_ipc_wait w (loop_mr l) (loop_br l) in
    Done (label, Tag.from tag, set_mr l m, w)
  else Done (label, Tag.from tag, l, w).

(** [borrow!]: the hooks are taken out for the call and put back. *)
Definition borrow (l : L) (f : H -> L -> exec (LoopAction * H * L)) : exec (LoopAction * L) :=
  h ← unwrap (hooks l);
  '(act, h, l) ← f h (set_hooks l None);
  Done (act, set_hooks l (Some h)).

Definition dispatch (l : L) (tag : MsgTag) (ipc_label : Z) (o : Ob) : exec (LoopAction * L * Ob) :=
  let bufs := access_buffers (buf_mgr l) in
  match callbacks ipc_label with
  | None => UB
  | Some callable =>
    '(result, (mr, _, o)) ← callable tag (Mr.from_mr (loop_mr l), bufs, o);
    let l := set_mr l (regs_mem (mr_regs mr)) in
    match result with
    | Err e => '(act, l) ← borrow l (fun h l => application_error P h l e); Done (act, l, o)
    | Ok tag => Done (ReplyAndWait tag, l, o)
    end
  end.

(** One iteration of [loop]: [inr] continues with the next label and tag. *)
Definition loop_body (label : Z) (tag : MsgTag) (l : L) (o : Ob) (w : W)
  : exec (L * Ob * W + Z * MsgTag * L * Ob * W) :=
  '(act, l, o) ←
    (if Tag.has_error tag then
       '(act, l) ← borrow l (fun h l => ipc_error P h l (l4_ipc_error w) tag); Done (act, l, o)
     else dispatch l tag label o);
  match act with
  | Break => Done (inl (l, o, w))
  | ReplyAndWait replytag =>
    '(label, tag, l, w) ← reply_and_wait l replytag w;
    Done (inr (label, tag, l, o, w))
  end.

(** The loop is infinite unless a hook breaks it: [NoFuel] after [n] rounds. *)
Fixpoint loop_run (n : nat) (label : Z) (tag : MsgTag) (l : L) (o : Ob) (w : W) : exec (L * Ob * W) :=
  match n with
  | O => NoFuel
  | S n =>
    st ← loop_body label tag l o w;
    match st with
    | inl fin => Done fin
    | inr (label, tag, l, o, w) => loop_run n label tag l o w
    end
  end.

Definition start (n : nat) (l : L) (o : Ob) (w : W) : exec (L * Ob * W) :=
  br ← setup_wait (buf_mgr l) (loop_br l);
  let l := set_br l br in
  let '(label, tag, m, w) := l4_ipc_wait w (loop_mr l) (loop_br l) in
  loop_run n label (Tag.from tag) (set_mr l m) o w.
End Loops.

(** [server_impl_callback]: the object's dispatch method through the address. *)
Definition server_impl_callback {T} (dispatch : MsgTag -> RM (UtcbMr * BufferAccess * T) Error MsgTag)
  : MsgTag -> RM (UtcbMr * BufferAccess * T) Error MsgTag := fun tag st => dispatch tag st.

(** [LoopBuilder]. *)
Record LoopBuilder (H P : Type) := {
  lb_thread : Z; lb_mr : list Z; lb_br : Z * list Z; lb_buf_mgr : P; lb_hooks : H;
}.
Definition new_at (thcap : Z) (mr : list Z) (br : Z * list Z) : LoopBuilder DefaultHooks BufferManager :=
  {| lb_thread := thcap; lb_mr := mr; lb_br := br;
     lb_buf_mgr := Manager.new L4_UTCB_GENERIC_BUFFERS_SIZE; lb_hooks := DefaultHooksMk |}.
Definition custom_hooks {H P I} (b : LoopBuilder H P) (h : I) : LoopBuilder I P :=
  {| lb_thread := lb_thread _ _ b; lb_mr := lb_mr _ _ b; lb_br := lb_br _ _ b;
     lb_buf_mgr := lb_buf_mgr _ _ b; lb_hooks := h |}.
Definition no_buffers {H P} (b : LoopBuilder H P) : LoopBuilder H Bufferless :=
  {| lb_thread := lb_thread _ _ b; lb_mr := lb_mr _ _ b; lb_br := lb_br _ _ b;
     lb_buf_mgr := BufferlessMk; lb_hooks := lb_hooks _ _ b |}.
Definition new_at_bufferless (thread : Z) (mr : list Z) (br : Z * list Z) : LoopBuilder DefaultHooks Bufferless :=
  {| lb_thread := thread; lb_mr := mr; lb_br := br; lb_buf_mgr := BufferlessMk; lb_hooks := DefaultHooksMk |}.
Definition build {H P} (b : LoopBuilder H P) : Loop H P :=
  new (lb_thread _ _ b) (lb_mr _ _ b) (lb_br _ _ b) (lb_hooks _ _ b) (lb_buf_mgr _ _ b).
End Server.
