(* ===== verification/RpcSpec.v ===== *)
(** A remote call is a local call: the client stub of an interface, the
    transport of the message registers, the server loop's [dispatch] and
    [op_dispatch] together refine the direct call of the server object's
    method.  The proof uses the types' [SerLaws], not their representation. *)
From S2P Require Import Prelude Utf8 Error MsgTag Cap Utcb BufferMgr Serialise Rpc Server.
From Stdlib Require Import ZArith Lia.
From stdpp Require Import base list strings.
Open Scope Z_scope.

Section Args.
Context {UC : UtcbConsts} {B : Build}.

Fixpoint ArgsLaws (l : list Ser) : Type :=
  match l with [] => unit | s :: l => (SerLaws s * ArgsLaws l)%type end.

Lemma write_args_total l (La : ArgsLaws l) a mr : mr_ok mr ->
  exists res mr', write_args l a mr = Done (res, mr') /\ mr_ext mr mr'.
Proof.
  revert La a mr. induction l as [|s l IH]; intros La a mr Hmr.
  - eexists _, mr. split; [done|]. by apply mr_ext_refl.
  - destruct La as [Ls La], a as [v vs]. cbn [write_args].
    apply rbind_total; [done | by apply ser_write_total |]. intros. by apply IH.
Qed.

Lemma read_write_args l (La : ArgsLaws l) a mr mr' m n bufs :
  mr_ok mr -> args_ok l a -> write_args l a mr = Done (Ok tt, mr') -> agree mr' m ->
  read_args l (at_off m mr n, bufs) = Done (Ok a, (at_off m mr' n, bufs)).
Proof.
  revert La a mr. induction l as [|s l IH]; intros La a mr Hmr Ha Hw Hag.
  - destruct a. cbn in *. unfold rok in *. by simplify_eq.
  - destruct La as [Ls La], a as [v vs], Ha as [Hv Hvs]. cbn [write_args] in Hw.
    destruct (rbind_ok_inv _ _ _ _ Hw) as (mr1 & Hw1 & Hw2).
    pose proof (ser_write_ext s v mr mr1 _ Hmr Hw1) as Hx1.
    destruct (write_args_total l La vs mr1 ltac:(apply Hx1)) as (r2 & m2 & Hw2' & Hx2).
    rewrite Hw2 in Hw2'. simplify_eq. cbn [read_args]. unfold rbind.
    rewrite (ser_roundtrip v mr mr1 m n bufs Hmr Hv Hw1 (agree_ext _ _ _ Hx2 Hag)).
    rewrite (IH La vs mr1 ltac:(apply Hx1) Hvs Hw2 Hag). done.
Qed.
End Args.

Section Refine.
Context {EC : ErrConsts} {TC : TagConsts} {CC : CapConsts} {CA : CapAlloc} {UC : UtcbConsts} {B : Build}.

(** * The transport

    The kernel copies the words and items a tag announces from the sender's
    message registers to the receiver's and leaves the rest alone. *)
Definition transfer_bytes (tag : MsgTag) : Z := 8 * (Tag.words tag + 2 * Tag.items tag).
Definition transfer (tag : MsgTag) (dst src : list Z) : list Z :=
  take (Z.to_nat (transfer_bytes tag)) src ++ drop (Z.to_nat (transfer_bytes tag)) dst.

(** The tag a sender makes of its registers. *)
Definition tag_of (label : Z) (mr : UtcbMr) : MsgTag :=
  Tag.new label ((regs_offset (mr_regs mr) + 7) `div` 8 - 2 * mr_items mr) (mr_items mr) 0.

Lemma tag_of_counts label mr : mr_ok mr ->
  Tag.words (tag_of label mr) + 2 * Tag.items (tag_of label mr) = (regs_offset (mr_regs mr) + 7) `div` 8
  /\ 0 <= Tag.words (tag_of label mr) <= L4_UTCB_GENERIC_DATA_SIZE
  /\ Tag.items (tag_of label mr) = mr_items mr
  /\ (regs_offset (mr_regs mr) + 7) `div` 8 <= L4_UTCB_GENERIC_DATA_SIZE.
Proof.
  intros ((Ho & _ & _ & _) & Hi & Hb). pose proof generic_data_range. unfold MR_SIZE in *.
  assert ((regs_offset (mr_regs mr) + 7) `div` 8 <= L4_UTCB_GENERIC_DATA_SIZE)
    by (apply Z.lt_succ_r, Z.div_lt_upper_bound; lia).
  assert (2 * mr_items mr <= (regs_offset (mr_regs mr) + 7) `div` 8)
    by (apply Z.div_le_lower_bound; lia).
  unfold tag_of. rewrite Tag.words_new, Tag.items_new. rewrite six_bits, !Tag.land_low by lia. lia.
Qed.

Lemma transfer_fresh tag dst src : mr_fresh dst -> mr_fresh src -> transfer_bytes tag <= MR_SIZE ->
  mr_fresh (transfer tag dst src).
Proof.
  intros [Hd Hdb] [Hs Hsb] Ht. unfold transfer, mr_fresh, zlen in *.
  rewrite length_app, length_take, length_drop. split; [lia|].
  apply Forall_app_2; auto using Forall_take, Forall_drop.
Qed.

(** What a sender wrote arrives. *)
Lemma transfer_agree label mr dst : mr_ok mr -> mr_fresh dst ->
  agree mr (transfer (tag_of label mr) dst (regs_mem (mr_regs mr))).
Proof.
  intros Hmr Hdst. destruct (tag_of_counts label mr Hmr) as (Hc & _ & _ & Hle).
  destruct Hmr as ((Ho & Hl & Hb & Hs) & Hi & _).
  assert (transfer_bytes (tag_of label mr) <= MR_SIZE) by (unfold transfer_bytes, MR_SIZE; lia).
  split; [by apply transfer_fresh|]. unfold transfer.
  assert (regs_offset (mr_regs mr) <= transfer_bytes (tag_of label mr)).
  { unfold transfer_bytes. rewrite Hc. pose proof (Z.div_mod (regs_offset (mr_regs mr) + 7) 8).
    pose proof (Z.mod_pos_bound (regs_offset (mr_regs mr) + 7) 8). lia. }
  unfold zlen in *. rewrite take_app_le by (rewrite length_take; lia).
  rewrite take_take. f_equal. lia.
Qed.

Lemma transfer_from_raw t dst src : transfer (Tag.from (Tag.raw t)) dst src = transfer t dst src.
Proof. unfold transfer, transfer_bytes. by rewrite Tag.from_raw_words, Tag.from_raw_items. Qed.

(** * A client and a server object *)
Context {Ob : Type}.
Variable proto : Z.
Hypothesis proto_range : sint 48 proto.
Variable handlers : list (Handler Ob).

Abbreviation dispatcher := (op_dispatch proto i32 id handlers).

Lemma from_mr_at m : Mr.from_mr m = at_off m (Mr.from_mr m) 0.
Proof. done. Qed.

(** The message of a call: the opcode, then the arguments. *)
Definition call_message (m : Method) (args : args_t (m_args m)) : RM UtcbMr Error unit :=
  (Mr.write i32 (m_op m) ;? write_args (m_args m) args)%rust.

Lemma call_message_ext m (La : ArgsLaws (m_args m)) args mr res mr' :
  mr_ok mr -> call_message m args mr = Done (res, mr') -> mr_ext mr mr'.
Proof.
  intros Hmr Hw. destruct (rbind_total (Mr.write i32 (m_op m)) (write_args (m_args m) args) mr Hmr)
    as (r & m2 & Hw' & Hx); [by apply mr_write_total | intros; by apply write_args_total |].
  unfold call_message in Hw. rewrite Hw in Hw'. by simplify_eq.
Qed.

(** A client whose slots suffice and whose arguments fit sends its message,
    whatever the kernel does with it. *)
Lemma ipc_method_sends {P} `{!CapProvider P} {W} (kernel : W -> Z -> Z -> list Z -> Z * list Z * W) tcr cap_demand m args
    (c : Client (P := P) (W := W)) p a mr :
  ArgsLaws (m_args m) -> mr_fresh (cl_mr c) ->
  alloc_capslots (cl_slots c) cap_demand (cl_alloc c) = Done (Ok tt, p, a) ->
  call_message m args (Mr.from_mr (cl_mr c)) = Done (Ok tt, mr) ->
  ipc_method kernel tcr proto cap_demand m args c =
    let '(restag, m', w') := kernel (cl_world c) (cl_cap c) (Tag.raw (tag_of proto mr)) (regs_mem (mr_regs mr)) in
    let c := {| cl_cap := cl_cap c; cl_slots := p; cl_alloc := a; cl_mr := m'; cl_world := w' |} in
    r ← Tag.result (tcr w') (Tag.from restag);
    match r with
    | Err e => Done (Err e, c)
    | Ok _ => '(ret, (mr, _)) ← ser_read (m_ret m) (Mr.from_mr m', access_buffers p); Done (ret, c)
    end.
Proof.
  intros La Hc Ha Hw. pose proof (call_message_ext _ La _ _ _ _ (from_mr_ok _ Hc) Hw) as Hx.
  unfold call_message in Hw. unfold ipc_method, rbind at 1. unfold ensure_slots. rewrite Ha. estep.
  cbn [cl_mr]. rewrite Hw. estep. rewrite mr_words_spec by apply Hx. estep. done.
Qed.

(** [op_dispatch] on a well-formed message of a method is the call of its
    function. *)
Lemma op_dispatch_call h args cm sm bufs s mr :
  ArgsLaws (m_args (h_method h)) -> args_ok _ args -> sint 32 (m_op (h_method h)) ->
  List.find (fun h' => m_op (h_method h') =? m_op (h_method h)) handlers = Some h ->
  mr_fresh cm -> mr_fresh sm ->
  call_message (h_method h) args (Mr.from_mr cm) = Done (Ok tt, mr) ->
  exists m', mr_fresh m' /\
  dispatcher (Tag.from (Tag.raw (tag_of proto mr)))
    (Mr.from_mr (transfer (tag_of proto mr) sm (regs_mem (mr_regs mr))), bufs, s)
  = ('(a, st) ← srv_call (h_fn h args) (at_off m' mr 0, bufs, s);
     match a with
     | Err e => Done (Err e, st)
     | Ok v => (srv_reset ;?
                srv_write (ser_write (m_ret (h_method h)) v) ;?
                fun '(mr, bufs, s) =>
                  w ← Mr.words mr;
                  Done (Ok (Tag.new 0 w (Mr.items mr) 0), (mr, bufs, s)))%rust st
     end).
Proof.
  intros La Hargs Hop Hfind Hcm Hsm Hw. pose proof (from_mr_ok cm Hcm) as Hok0.
  pose proof (call_message_ext _ La _ _ _ _ Hok0 Hw) as Hx.
  destruct (rbind_ok_inv _ _ _ _ Hw) as (mr1 & Hw1 & Hw2).
  destruct (mr_write_inv _ _ _ _ Hok0 Hw1) as (Hx1 & _).
  destruct (write_args_total _ La args mr1 ltac:(apply Hx1)) as (r2 & m2 & Hw2' & Hx2).
  assert (m2 = mr) as -> by congruence.
  destruct (tag_of_counts proto mr ltac:(apply Hx)) as (Hc & _ & _ & Hle).
  pose proof (transfer_agree proto mr sm ltac:(apply Hx) Hsm) as Hag.
  set (m' := transfer (tag_of proto mr) sm (regs_mem (mr_regs mr))) in *.
  exists m'. split; [apply Hag|]. unfold op_dispatch.
  rewrite Tag.from_raw_words, Tag.from_raw_items, Tag.from_raw_label. unfold tag_of at 3.
  rewrite Tag.label_new. rewrite (swrap_id 48 proto), (swrap_id 48 proto) by (done || lia).
  rewrite Z.eqb_refl. zif_false. cbn [negb].
  unfold srv_read at 1, on_mr, rbind. rewrite from_mr_at.
  change (at_off m' (Mr.from_mr m') 0) with (at_off m' (Mr.from_mr cm) 0).
  rewrite (mr_read_write i32 (m_op (h_method h)) _ mr1 m' 0 Hok0 Hop Hw1 (agree_ext _ _ _ Hx2 Hag)).
  estep. unfold id. rewrite Hfind. unfold dispatch_arm, rbind, srv_read.
  rewrite (read_write_args _ La args mr1 mr m' 0 bufs ltac:(apply Hx1) Hargs Hw2 Hag). estep.
  destruct (srv_call _ _) as [[[] ?]| | |]; done.
Qed.

(** The server: a loop with the default hooks; [label] is what the kernel hands
    over of the capability.  An IPC that the server does not survive is aborted
    with an error tag. *)
Context {P2 : Type} `{!CapProvider P2}.
Abbreviation SrvLoop := (Loop DefaultHooks P2).
Definition serve (callbacks : Z -> option (MsgTag -> RM (UtcbMr * BufferAccess * Ob) Error MsgTag))
    (label : Z) (w : SrvLoop * Ob) (tagraw : Z) (clmr : list Z) : Z * list Z * (SrvLoop * Ob) :=
  let '(l, o) := w in
  let tag := Tag.from tagraw in
  match dispatch callbacks (set_mr l (transfer tag (loop_mr l) clmr)) tag label o with
  | Done (ReplyAndWait t, l', o') => (Tag.raw t, transfer t clmr (loop_mr l'), (l', o'))
  | _ => (L4_MSGTAG_ERROR, clmr, (l, o))
  end.

(** The server whose object at [addr] implements the interface. *)
Variable addr : Z.
Definition object_at (label : Z) : option (MsgTag -> RM (UtcbMr * BufferAccess * Ob) Error MsgTag) :=
  if label =? addr then Some (server_impl_callback dispatcher) else None.
Definition call_server (w : SrvLoop * Ob) (cap tagraw : Z) (clmr : list Z) : Z * list Z * (SrvLoop * Ob) :=
  serve object_at addr w tagraw clmr.
Lemma object_at_addr : object_at addr = Some (server_impl_callback dispatcher).
Proof. unfold object_at. by rewrite Z.eqb_refl. Qed.

(** The server's registers are a UTCB's, its hooks are in place. *)
Definition srv_ok (l : SrvLoop) : Prop := mr_fresh (loop_mr l) /\ hooks l = Some DefaultHooksMk.

(** Errors a client gets to see as generic errors. *)
Definition reported (e : Error) : option GenericErr :=
  match e with
  | Generic EOk => None
  | Generic g => Some g
  | InvalidArg _ _ | InvalidState _ => Some InvalidArg'
  | _ => None
  end.

Lemma reported_reply e g : reported e = Some g ->
  into_ipc_err e = Done (- generic_code g) /\ 0 < generic_code g < 65536.
Proof.
  assert (forall g, g <> EOk -> 0 < generic_code g < 65536) as Hpos.
  { intros g' Hg. pose proof (generic_code_range g').
    destruct (decide (generic_code g' = 0)) as [H0|]; [|lia].
    rewrite <- generic_code_ok in H0. by apply generic_code_inj in H0. }
  assert (smul 64 (-1) (generic_code InvalidArg') = Done (- generic_code InvalidArg')) as Hm.
  { pose proof (generic_code_range InvalidArg'). unfold smul.
    replace (-1 * generic_code InvalidArg') with (- generic_code InvalidArg') by lia.
    zif_true. by zif_true. }
  destruct e as [g'| | |what arg|what| | | ]; cbn; try done.
  - destruct (decide (g' = EOk)) as [->|Hne]; [done|]. intros H.
    assert (g = g') as -> by (destruct g'; congruence).
    split; [|by apply Hpos]. apply into_ipc_err_generic.
  - intros [= <-]. split; [done|]. by apply Hpos.
  - intros [= <-]. split; [done|]. by apply Hpos.
Qed.

Definition ret_fits {m : Method} (v : ser_t (m_ret m)) : Prop :=
  forall b, mr_fresh b -> exists mr, ser_write (m_ret m) v (Mr.from_mr b) = Done (Ok tt, mr).

Lemma mr_fresh_ext mr mr' : mr_ext mr mr' -> mr_fresh (regs_mem (mr_regs mr')).
Proof. intros [((?&?&?&?)&_) _]. done. Qed.

(** The server's answer to a call whose method succeeds, when the label leads to
    the object. *)
Lemma serve_ok callbacks label h args cm mr l s s' v :
  callbacks label = Some (server_impl_callback dispatcher) ->
  ArgsLaws (m_args (h_method h)) -> SerLaws (m_ret (h_method h)) -> args_ok _ args ->
  sint 32 (m_op (h_method h)) ->
  List.find (fun h' => m_op (h_method h') =? m_op (h_method h)) handlers = Some h ->
  mr_fresh cm -> srv_ok l -> call_message (h_method h) args (Mr.from_mr cm) = Done (Ok tt, mr) ->
  h_fn h args s = Done (Ok v, s') -> ret_fits v ->
  exists b mr2 l', mr_fresh b /\ ser_write (m_ret (h_method h)) v (Mr.from_mr b) = Done (Ok tt, mr2)
    /\ srv_ok l'
    /\ serve callbacks label (l, s) (Tag.raw (tag_of proto mr)) (regs_mem (mr_regs mr))
       = (Tag.raw (tag_of 0 mr2), transfer (tag_of 0 mr2) (regs_mem (mr_regs mr)) (regs_mem (mr_regs mr2)),
          (l', s')).
Proof.
  intros Hcb La Lr Hargs Hop Hfind Hcm [Hlm Hh] Hw Hfn Hfit.
  destruct (op_dispatch_call h args cm (loop_mr l) (access_buffers (buf_mgr l)) s mr
              La Hargs Hop Hfind Hcm Hlm Hw) as (b & Hb & Hd).
  destruct (Hfit b Hb) as (mr2 & Hw2). pose proof (from_mr_ok b Hb) as Hb0.
  pose proof (ser_write_ext _ _ _ _ _ Hb0 Hw2) as Hx2.
  exists b, mr2, (set_mr (set_mr l (transfer (tag_of proto mr) (loop_mr l) (regs_mem (mr_regs mr)))) (regs_mem (mr_regs mr2))).
  split; [done|]. split; [done|]. split; [split; [by eapply mr_fresh_ext | done]|].
  unfold serve, dispatch. rewrite Hcb. unfold server_impl_callback.
  rewrite transfer_from_raw. cbn [loop_mr set_mr buf_mgr]. rewrite Hd. unfold srv_call. rewrite Hfn.
  estep. unfold rbind, srv_reset, srv_write. estep.
  change (Mr.reset (at_off b mr 0)) with (Mr.from_mr b). rewrite Hw2. estep.
  rewrite mr_words_spec by apply Hx2. estep. done.
Qed.

(** The server's answer to a call whose method fails. *)
Lemma serve_err callbacks label h args cm mr l s s' e n :
  callbacks label = Some (server_impl_callback dispatcher) ->
  ArgsLaws (m_args (h_method h)) -> args_ok _ args -> sint 32 (m_op (h_method h)) ->
  List.find (fun h' => m_op (h_method h') =? m_op (h_method h)) handlers = Some h ->
  mr_fresh cm -> srv_ok l -> call_message (h_method h) args (Mr.from_mr cm) = Done (Ok tt, mr) ->
  h_fn h args s = Done (Err e, s') -> into_ipc_err e = Done n ->
  exists l', srv_ok l' /\
    serve callbacks label (l, s) (Tag.raw (tag_of proto mr)) (regs_mem (mr_regs mr))
    = (Tag.raw (Tag.new n 0 0 0), regs_mem (mr_regs mr), (l', s')).
Proof.
  intros Hcb La Hargs Hop Hfind Hcm [Hlm Hh] Hw Hfn He1.
  destruct (op_dispatch_call h args cm (loop_mr l) (access_buffers (buf_mgr l)) s mr
              La Hargs Hop Hfind Hcm Hlm Hw) as (b & Hb & Hd).
  unfold serve, dispatch. rewrite Hcb. unfold server_impl_callback.
  rewrite transfer_from_raw. cbn [loop_mr set_mr buf_mgr]. rewrite Hd. unfold srv_call. rewrite Hfn.
  estep. unfold borrow. cbn [hooks set_mr]. rewrite Hh. estep. cbn [unwrap].
  unfold application_error, default_hooks, default_application_error. rewrite He1. estep.
  eexists. split; cycle 1.
  - f_equal. f_equal. unfold transfer, transfer_bytes. rewrite Tag.words_new, Tag.items_new.
    done.
  - split; [exact Hb | done].
Qed.

(** * The client *)
Context {P : Type} `{!CapProvider P}.
Variable cap_demand : Z.
Variable tcr : SrvLoop * Ob -> Z.
Abbreviation Clnt := (Client (P := P) (W := SrvLoop * Ob)).
Abbreviation stub := (ipc_method call_server tcr proto cap_demand).

Lemma tag_of_flags label mr : Tag.flags (tag_of label mr) = 0.
Proof. unfold tag_of. by rewrite Tag.flags_new. Qed.
Lemma tag_of_label label mr : sint 48 label -> Tag.label (tag_of label mr) = label.
Proof. intros. unfold tag_of. rewrite Tag.label_new. by apply swrap_id. Qed.

(** What the client is told of a method's result. *)
Definition seen {A} (res : Result A) : Result A :=
  match res with
  | Ok v => Ok v
  | Err e => match reported e with Some g => Err (Generic g) | None => Err e end
  end.

(** The call, through a kernel that answers this client's message as the server
    does; [R] is what the kernel's new world has of the server's. *)
Lemma stub_refines {W} (kernel : W -> Z -> Z -> list Z -> Z * list Z * W) (tcr' : W -> Z) (R : W -> SrvLoop -> Ob -> list Z -> Prop)
    callbacks label h args (c : Client (P := P) (W := W)) p a mr l s res s' :
  callbacks label = Some (server_impl_callback dispatcher) ->
  ArgsLaws (m_args (h_method h)) -> SerLaws (m_ret (h_method h)) -> args_ok _ args ->
  sint 32 (m_op (h_method h)) ->
  List.find (fun h' => m_op (h_method h') =? m_op (h_method h)) handlers = Some h ->
  alloc_capslots (cl_slots c) cap_demand (cl_alloc c) = Done (Ok tt, p, a) ->
  mr_fresh (cl_mr c) -> srv_ok l ->
  (forall tag regs t m l' o', mr_fresh regs -> serve callbacks label (l, s) tag regs = (t, m, (l', o')) ->
     srv_ok l' -> mr_fresh m -> exists w', kernel (cl_world c) (cl_cap c) tag regs = (t, m, w') /\ R w' l' o' m) ->
  call_message (h_method h) args (Mr.from_mr (cl_mr c)) = Done (Ok tt, mr) ->
  h_fn h args s = Done (res, s') ->
  match res with Ok v => ser_ok _ v /\ ret_fits v | Err e => is_Some (reported e) end ->
  exists l' m' w', ipc_method kernel tcr' proto cap_demand (h_method h) args c
    = Done (seen res, {| cl_cap := cl_cap c; cl_slots := p; cl_alloc := a; cl_mr := m'; cl_world := w' |})
    /\ R w' l' s' m' /\ srv_ok l' /\ mr_fresh m'.
Proof.
  intros Hcb La Lr Hargs Hop Hfind Ha Hc Hl Hk Hw Hfn Hres.
  pose proof (call_message_ext _ La _ _ _ _ (from_mr_ok _ Hc) Hw) as Hx.
  pose proof (mr_fresh_ext _ _ Hx) as Hcm.
  rewrite (ipc_method_sends _ _ _ _ _ _ p a mr La Hc Ha Hw). destruct res as [v|e].
  - destruct Hres as [Hv Hfit].
    destruct (serve_ok callbacks label h args (cl_mr c) mr l s s' v Hcb La Lr Hargs Hop Hfind Hc Hl Hw Hfn Hfit)
      as (b & mr2 & l' & Hb & Hw2 & Hl' & Hs).
    pose proof (ser_write_ext _ _ _ _ _ (from_mr_ok b Hb) Hw2) as Hx2.
    pose proof (transfer_agree 0 mr2 _ ltac:(apply Hx2) Hcm) as Hag.
    set (m' := transfer (tag_of 0 mr2) _ _) in *.
    destruct (Hk _ _ _ _ _ _ Hcm Hs Hl' ltac:(apply Hag)) as (w' & -> & HR).
    exists l', m', w'. split; [|split; [done | split; [done | apply Hag]]].
    estep. rewrite Tag.result_ok.
    + estep. rewrite from_mr_at. change (at_off m' (Mr.from_mr m') 0) with (at_off m' (Mr.from_mr b) 0).
      rewrite (ser_roundtrip v (Mr.from_mr b) mr2 m' 0 _ (from_mr_ok b Hb) Hv Hw2 Hag). done.
    + rewrite Tag.from_raw_flags. apply tag_of_flags.
    + rewrite Tag.from_raw_label, tag_of_label by (unfold sint; cbn; lia). by vm_compute.
  - destruct Hres as [g Hg]. destruct (reported_reply e g Hg) as [He Hgr].
    destruct (serve_err callbacks label h args (cl_mr c) mr l s s' e _ Hcb La Hargs Hop Hfind Hc Hl Hw Hfn He)
      as (l' & Hl' & Hs).
    destruct (Hk _ _ _ _ _ _ Hcm Hs Hl' Hcm) as (w' & -> & HR).
    exists l', (regs_mem (mr_regs mr)), w'. split; [|by split]. estep. unfold seen. rewrite Hg.
    assert (sint 48 (- generic_code g)) as Hsint by (unfold sint; cbn; lia).
    assert (Tag.label (Tag.from (Tag.raw (Tag.new (- generic_code g) 0 0 0))) = - generic_code g) as Hlab.
    { rewrite Tag.from_raw_label, Tag.label_new. by rewrite !swrap_id by (rewrite ?swrap_id; done || lia). }
    rewrite Tag.result_neg.
    + rewrite Hlab, from_ipc_generic. done.
    + rewrite Tag.from_raw_flags, Tag.flags_new. done.
    + rewrite Hlab. lia.
Qed.

(** Through [call_server]. *)
Lemma stub_refines_server h args (c : Clnt) p a mr l s res s' :
  ArgsLaws (m_args (h_method h)) -> SerLaws (m_ret (h_method h)) -> args_ok _ args ->
  sint 32 (m_op (h_method h)) ->
  List.find (fun h' => m_op (h_method h') =? m_op (h_method h)) handlers = Some h ->
  alloc_capslots (cl_slots c) cap_demand (cl_alloc c) = Done (Ok tt, p, a) ->
  mr_fresh (cl_mr c) -> cl_world c = (l, s) -> srv_ok l ->
  call_message (h_method h) args (Mr.from_mr (cl_mr c)) = Done (Ok tt, mr) ->
  h_fn h args s = Done (res, s') ->
  match res with Ok v => ser_ok _ v /\ ret_fits v | Err e => is_Some (reported e) end ->
  exists l' m', stub (h_method h) args c
    = Done (seen res, {| cl_cap := cl_cap c; cl_slots := p; cl_alloc := a; cl_mr := m'; cl_world := (l', s') |})
    /\ srv_ok l' /\ mr_fresh m'.
Proof.
  intros La Lr Hargs Hop Hfind Ha Hc Hcw Hl Hw Hfn Hres.
  destruct (stub_refines call_server tcr (fun w l o _ => w = (l, o)) object_at addr h args c p a mr l s res s'
    object_at_addr La Lr Hargs Hop Hfind Ha Hc Hl) as (l' & m' & w' & Hst & -> & Hl' & Hm'); [|done..|by eauto].
  intros tag regs t m l' o' _ Hs _ _. rewrite Hcw. unfold call_server. eauto.
Qed.

(** A remote call is a local call. Whatever method of an interface a client
    calls - argument and return types as the framework serialises them - with
    arguments that fit the message registers, the stub returns what the server
    object's method returns on those arguments (a failure as the generic error
    it reports), the server object's state becomes the state the method leaves,
    and client and server are ready for the next call. *)
Theorem rpc_refines_call h args (c : Clnt) p a mr l s res s' :
  ArgsLaws (m_args (h_method h)) -> SerLaws (m_ret (h_method h)) -> args_ok _ args ->
  sint 32 (m_op (h_method h)) ->
  List.find (fun h' => m_op (h_method h') =? m_op (h_method h)) handlers = Some h ->
  alloc_capslots (cl_slots c) cap_demand (cl_alloc c) = Done (Ok tt, p, a) ->
  mr_fresh (cl_mr c) -> cl_world c = (l, s) -> srv_ok l ->
  call_message (h_method h) args (Mr.from_mr (cl_mr c)) = Done (Ok tt, mr) ->
  h_fn h args s = Done (res, s') ->
  match res with Ok v => ser_ok _ v /\ ret_fits v | Err e => is_Some (reported e) end ->
  exists l' m', stub (h_method h) args c
    = Done (seen res, {| cl_cap := cl_cap c; cl_slots := p; cl_alloc := a; cl_mr := m'; cl_world := (l', s') |})
    /\ srv_ok l' /\ mr_fresh m'.
Proof. apply stub_refines_server. Qed.


(** C39: a method that fails with [InvalidCap] or [InvalidEncoding] looks like a
    success to its client: [into_ipc_err] gives these two errors a positive
    label, so the stub decodes a return value from registers no value was
    written to, instead of returning an error. *)
Theorem rpc_invalid_cap_looks_ok h args (c : Clnt) p a mr l s s' e :
  ArgsLaws (m_args (h_method h)) -> args_ok _ args -> sint 32 (m_op (h_method h)) ->
  List.find (fun h' => m_op (h_method h') =? m_op (h_method h)) handlers = Some h ->
  alloc_capslots (cl_slots c) cap_demand (cl_alloc c) = Done (Ok tt, p, a) ->
  mr_fresh (cl_mr c) -> cl_world c = (l, s) -> srv_ok l ->
  call_message (h_method h) args (Mr.from_mr (cl_mr c)) = Done (Ok tt, mr) ->
  h_fn h args s = Done (Err e, s') -> e = InvalidCap \/ (exists u, e = InvalidEncoding u) ->
  exists c', stub (h_method h) args c =
    ('(ret, _) ← ser_read (m_ret (h_method h)) (Mr.from_mr (regs_mem (mr_regs mr)), access_buffers p);
     Done (ret, c')).
Proof.
  intros La Hargs Hop Hfind Ha Hc Hcw Hl Hw Hfn He.
  rewrite (ipc_method_sends _ _ _ _ _ _ p a mr La Hc Ha Hw), Hcw.
  assert (exists n, 0 <= n < 2 ^ 47 /\ into_ipc_err e = Done n) as (n & Hn & Hi).
  { destruct He as [-> | [u ->]]; [exists 65540 | exists 65541]; (split; [lia | done]). }
  destruct (serve_err object_at addr h args (cl_mr c) mr l s s' e n object_at_addr La Hargs Hop Hfind Hc Hl Hw Hfn Hi)
    as (l' & Hl' & Hs). unfold call_server. rewrite Hs.
  estep. rewrite Tag.result_ok.
  - estep. eexists. destruct (ser_read _ _) as [[? []]| | |]; done.
  - by rewrite Tag.from_raw_flags, Tag.flags_new.
  - rewrite Tag.from_raw_label, Tag.label_new. assert (sint 48 n) by (unfold sint; lia).
    rewrite !swrap_id by (rewrite ?swrap_id; done || lia). lia.
Qed.

(** C5: [op_dispatch] answers a malformed request with the right error and
    without calling a method: a tag that announces more than the message
    registers hold, a wrong protocol, and an opcode no method has. *)
Theorem op_dispatch_rejects tag (mr : UtcbMr) bufs (s : Ob) :
  (L4_UTCB_GENERIC_DATA_SIZE < Tag.words tag + Tag.items tag * 2 ->
     dispatcher tag (mr, bufs, s) = Done (Err (Generic MsgTooLong), (mr, bufs, s)))
  /\ (Tag.words tag + Tag.items tag * 2 <= L4_UTCB_GENERIC_DATA_SIZE -> Tag.label tag <> proto ->
     dispatcher tag (mr, bufs, s) = Done (Err (Generic InvalidProt), (mr, bufs, s)))
  /\ (Tag.words tag + Tag.items tag * 2 <= L4_UTCB_GENERIC_DATA_SIZE -> Tag.label tag = proto ->
      forall op mr', Mr.read i32 mr = Done (Ok op, mr') ->
      (forall h, h ∈ handlers -> m_op (h_method h) <> op) ->
     dispatcher tag (mr, bufs, s)
     = Done (Err (InvalidArg "unknown opcode received" (Some (swrap 64 op))), (mr', bufs, s))).
Proof.
  unfold op_dispatch. split_and!.
  - intros. by zif_true.
  - intros Hs Hp. zif_false. apply Z.eqb_neq in Hp. by rewrite Hp.
  - intros Hs Hp op mr' Hr Hno. zif_false. apply Z.eqb_eq in Hp. rewrite Hp. cbn [negb].
    unfold rbind, srv_read, on_mr. rewrite Hr. estep. unfold id.
    destruct (List.find _ handlers) as [h|] eqn:Hf; [|done].
    apply List.find_some in Hf as [Hin Heq]. apply list_elem_of_In in Hin. zb. by apply Hno in Hin.
Qed.
End Refine.

(** The opcode is always sent as an [i32] but read as the interface's
    [OpType]: with a 16-bit [OpType], a 16-bit argument is read from the upper
    half of the opcode - zero for every opcode - whatever the client passed. *)
Theorem narrow_optype_loses_argument {UC : UtcbConsts} {B : Build} op v mr mr' m n :
  mr_ok mr -> regs_offset (mr_regs mr) = 0 -> 0 <= op < 2 ^ 16 -> uint 16 v ->
  (Mr.write i32 op ;? Mr.write u16 v)%rust mr = Done (Ok tt, mr') -> agree mr' m ->
  exists mr2, (let? op' := Mr.read u16 in let? v' := Mr.read u16 in rok (op', v'))%rust (at_off m mr n)
    = Done (Ok (op, 0), mr2).
Proof.
  intros Hmr H0 Hop Hv Hw Hag. destruct (rbind_ok_inv _ _ _ _ Hw) as (mr1 & Hw1 & Hw2).
  destruct (mr_write_inv _ _ _ _ Hmr Hw1) as (Hx1 & _ & Hr1).
  destruct (mr_write_inv _ _ _ _ ltac:(apply Hx1) Hw2) as (Hx2 & _ & _).
  pose proof (agree_ext _ _ _ Hx2 Hag) as Hag1. clear Hw Hw2 Hx2 Hag.
  rewrite write_spec in Hr1 by apply Hmr. destruct (MR_SIZE <? _) eqn:E in Hr1; [done|].
  assert (slot_end i32 0 = 4) as Hend by done. rewrite H0, Hend in E, Hr1. zb.
  injection Hr1 as Hr1. destruct Hag1 as [[Hm1 Hm2] Hag]. rewrite <- Hr1 in Hag. cbn in Hag.
  destruct Hmr as ((?&Hl&?&?)&?).
  assert (take 4 m = le_bytes 4 op) as Ht.
  { change (take (Z.to_nat 4) m = le_bytes 4 op). unfold slot_end in Hag. change (Z.to_nat 4) with (Pos.to_nat 4) in *.
    rewrite Hag. apply (mread_mwrite_same (regs_mem (mr_regs mr)) 0 (le_bytes 4 op) 4); rewrite ?zlen_le_bytes; lia. }
  assert (forall off, off = 0 \/ off = 2 ->
    Mr.read u16 {| mr_regs := {| regs_mem := m; regs_offset := off |}; mr_items := n |}
    = Done (Ok (le_num (mread (le_bytes 4 op) off 2)),
            {| mr_regs := {| regs_mem := m; regs_offset := off + 2 |}; mr_items := n |})) as Hread.
  { intros off Hoff. assert (align_up u16 off = off) as Ha by (by destruct Hoff as [-> | ->]).
    assert (slot_end u16 off = off + 2) as He by (unfold slot_end; by rewrite Ha).
    unfold Mr.read, Mr.on_regs. cbn [mr_regs mr_items].
    rewrite read_spec by (unfold regs_ok; cbn [regs_offset regs_mem]; split_and!; (done || lia)).
    cbn [regs_offset regs_mem]. rewrite Ha, He. zif_false. change (size_of u16) with 2.
    rewrite <- Ht. rewrite (mread_take m off 2 4) by lia. done. }
  unfold at_off. rewrite H0. unfold rbind, rok. rewrite (Hread 0) by lia. estep.
  change (0 + 2) with 2. rewrite (Hread 2) by lia.
  assert (0 <= op `div` 256 < 256) as Hq
    by (split; [apply Z.div_pos | apply Z.div_lt_upper_bound]; lia).
  assert (op `div` 256 `div` 256 = 0) as Hq2 by (apply Z.div_small; lia).
  eexists. do 4 f_equal; unfold mread; cbn [le_bytes]; rewrite Hq2, (Z.mod_small (op `div` 256)) by lia.
  - change (op `mod` 256 + 256 * (op `div` 256 + 256 * 0) = op).
    pose proof (Z.div_mod op 256). lia.
  - done.
Qed.

(** A plain value fits into empty registers. *)
Lemma pod_fits {UC : UtcbConsts} {B : Build} T v b : mr_fresh b -> size_of T <= MR_SIZE ->
  exists mr, Mr.write T v (Mr.from_mr b) = Done (Ok tt, mr).
Proof.
  intros Hb Hs. pose proof (from_mr_ok b Hb) as (Hr & _). unfold Mr.write, Mr.on_regs.
  rewrite write_spec by done. change (regs_offset (mr_regs (Mr.from_mr b))) with 0.
  rewrite slot_end_0.
  zif_false. estep. by eexists.
Qed.

(** * A concrete interface: a counter *)
Module Counter.
#[local] Existing Instance l4re_err_consts.
#[local] Existing Instance l4re_tag_consts.
#[local] Existing Instance l4re_cap_consts.
#[local] Existing Instance counter_alloc.
#[local] Existing Instance l4re_utcb_consts.
#[local] Existing Instance debug_build.

Definition add_method : Method := {| m_op := 0; m_args := [pod_ser u32; string_ser]; m_ret := pod_ser u64 |}.
Definition check_method : Method := {| m_op := 1; m_args := []; m_ret := unit_ser |}.
(** [add(n, why)] refuses an empty reason; [check] refuses always. *)
Definition add : Handler Z := {|
  h_method := add_method;
  h_fn := fun '(n, (why, _)) st =>
    if zlen why =? 0 then Done (Err (InvalidArg "no reason" None), st)
    else Done (Ok (st + n), st + n) |}.
Definition check : Handler Z := {|
  h_method := check_method;
  h_fn := fun _ st => Done (Err InvalidCap, st) |}.
Definition handlers : list (Handler Z) := [add; check].

Definition zeros : list Z := replicate 504 0.
Definition noise : list Z := replicate 504 170.
Definition server : Loop DefaultHooks Bufferless := build (new_at_bufferless 7 noise (0, [])).
Definition client (st : Z) : Client (P := Bufferless) (W := Loop DefaultHooks Bufferless * Z) :=
  {| cl_cap := 4096; cl_slots := BufferlessMk; cl_alloc := 0%nat; cl_mr := zeros; cl_world := (server, st) |}.
Definition stub := ipc_method (P := Bufferless) (call_server 42 handlers 64) (fun _ => 0) 42 0.

Lemma zeros_fresh : mr_fresh zeros.
Proof. split; [done|]. apply Forall_replicate. unfold is_byte. lia. Qed.
Lemma server_ok : srv_ok server.
Proof. split; [split; [done|] | done]. apply Forall_replicate. unfold is_byte. lia. Qed.

Definition why : list Z := [79; 75].
Definition message {m} (args : args_t (m_args m)) : UtcbMr :=
  match call_message m args (Mr.from_mr zeros) with Done (_, mr) => mr | _ => Mr.from_mr zeros end.

(** [add(5, "OK")] on a counter at 37, and with an empty reason. *)
Lemma rpc_refines_call_witness :
  (exists l' m', stub add_method (5, (why, tt)) (client 37)
     = Done (Ok 42, {| cl_cap := 4096; cl_slots := BufferlessMk; cl_alloc := 0%nat; cl_mr := m'; cl_world := (l', 42) |})
     /\ srv_ok l' /\ mr_fresh m')
  /\ (exists l' m', stub add_method (5, ([], tt)) (client 37)
     = Done (Err (Generic InvalidArg'), {| cl_cap := 4096; cl_slots := BufferlessMk; cl_alloc := 0%nat; cl_mr := m'; cl_world := (l', 37) |})
     /\ srv_ok l' /\ mr_fresh m').
Proof.
  assert (ArgsLaws (m_args add_method)) as La by exact (pod_laws u32, (string_laws, tt)).
  assert (SerLaws (m_ret add_method)) as Lr by exact (pod_laws u64).
  assert (sint 48 42) as Hp by (unfold sint; lia). assert (sint 32 0) as Ho by (unfold sint; lia).
  assert (pod_ok u32 5) as H5 by (unfold pod_ok, u32, uint_pod, uint; cbn; lia).
  assert (forall w, w = why \/ w = [] -> bytes_ok w) as Hwhy
    by (intros w [-> | ->]; repeat constructor; unfold is_byte; lia).
  split.
  - refine (rpc_refines_call 42 Hp handlers 64 0 (fun _ => 0) add (5, (why, tt)) (client 37) BufferlessMk _
      (message (m := add_method) (5, (why, tt))) server 37 (Ok 42) 42 La Lr
      (conj H5 (conj (conj (Hwhy _ (or_introl eq_refl)) (conj _ _)) I)) Ho _ _ zeros_fresh eq_refl server_ok _ _ _).
    + done.
    + done.
    + reflexivity.
    + reflexivity.
    + by vm_compute.
    + reflexivity.
    + split; [unfold ser_ok; cbn; unfold uint; cbn; lia|]. intros b Hb. by apply pod_fits.
  - refine (rpc_refines_call 42 Hp handlers 64 0 (fun _ => 0) add (5, ([], tt)) (client 37) BufferlessMk _
      (message (m := add_method) (5, ([], tt))) server 37 (Err (InvalidArg "no reason" None)) 37 La Lr
      (conj H5 (conj (conj (Hwhy _ (or_intror eq_refl)) (conj _ _)) I)) Ho _ _ zeros_fresh eq_refl server_ok _ _ _).
    + done.
    + done.
    + reflexivity.
    + reflexivity.
    + by vm_compute.
    + reflexivity.
    + by eexists.
Defined.

(** A string longer than the registers. *)
Definition long : list Z := replicate 600 65.

(** [check] refuses with [InvalidCap]; its client is told [Ok]. *)
Lemma rpc_invalid_cap_looks_ok_witness :
  h_fn check tt 37 = Done (Err InvalidCap, 37)
  /\ exists c', stub check_method tt (client 37) = Done (Ok tt, c').
Proof.
  split; [done|]. assert (sint 48 42) as Hp by (unfold sint; lia). assert (sint 32 1) as Ho by (unfold sint; lia).
  refine (rpc_invalid_cap_looks_ok 42 Hp handlers 64 0 (fun _ => 0) check tt (client 37) BufferlessMk _
      (message (m := check_method) tt) server 37 37 InvalidCap tt I Ho _ _ zeros_fresh eq_refl server_ok _ _ (or_introl eq_refl)).
  - reflexivity.
  - reflexivity.
  - by vm_compute.
  - reflexivity.
Defined.

(** An oversized tag, a wrong protocol, and opcode 9. *)
Lemma op_dispatch_rejects_witness :
  let mr := Mr.from_mr zeros in
  let mr9 := Mr.from_mr (9 :: replicate 503 0) in
  let bufs := {| ba_buf := []; ba_ptr := None |} in
  op_dispatch 42 i32 id handlers (Tag.new 42 60 4 0) (mr, bufs, 1) = Done (Err (Generic MsgTooLong), (mr, bufs, 1))
  /\ op_dispatch 42 i32 id handlers (Tag.new 43 1 0 0) (mr, bufs, 1) = Done (Err (Generic InvalidProt), (mr, bufs, 1))
  /\ exists mr', op_dispatch 42 i32 id handlers (Tag.new 42 1 0 0) (mr9, bufs, 1)
       = Done (Err (InvalidArg "unknown opcode received" (Some 9)), (mr', bufs, 1)).
Proof.
  split; [|split].
  - apply (proj1 (op_dispatch_rejects 42 handlers _ _ _ _)). vm_compute. done.
  - apply (proj1 (proj2 (op_dispatch_rejects 42 handlers _ _ _ _))); vm_compute; done.
  - eexists. refine (proj2 (proj2 (op_dispatch_rejects 42 handlers (Tag.new 42 1 0 0) _ _ _)) _ _ 9 _ _ _).
    + vm_compute. done.
    + done.
    + vm_compute. reflexivity.
    + intros h Hh. apply elem_of_cons in Hh as [->|Hh]; [done|].
      by apply list_elem_of_singleton in Hh as ->.
Defined.

Definition narrow_message : RM UtcbMr Error unit := (Mr.write i32 3 ;? Mr.write u16 7)%rust.
Definition narrow_regs : UtcbMr :=
  match narrow_message (Mr.from_mr zeros) with Done (_, mr) => mr | _ => Mr.from_mr zeros end.
Lemma narrow_optype_loses_argument_witness :
  narrow_message (Mr.from_mr zeros) = Done (Ok tt, narrow_regs) /\
  exists mr2, (let? op' := Mr.read u16 in let? v' := Mr.read u16 in rok (op', v'))%rust
    (at_off (regs_mem (mr_regs narrow_regs)) (Mr.from_mr zeros) 0) = Done (Ok (3, 0), mr2).
Proof.
  assert (narrow_message (Mr.from_mr zeros) = Done (Ok tt, narrow_regs)) as H by (by vm_compute).
  split; [exact H|].
  apply (narrow_optype_loses_argument 3 7 (Mr.from_mr zeros) narrow_regs (regs_mem (mr_regs narrow_regs)) 0).
  - apply from_mr_ok, zeros_fresh.
  - reflexivity.
  - lia.
  - unfold uint. lia.
  - exact H.
  - split; [|done]. split; [by vm_compute|].
    apply bytes_okb_ok. by vm_compute.
Defined.
End Counter.
