(* ===== verification/RpcMemory.v ===== *)
(** The client stub of [derive_ipc_calls!] ([l4/ipc/iface.rs]) on memory.

    In [Rpc.ipc_method] the message registers are a value of the client.  Here is
    the same stub as it runs: [Utcb::current().mr()] is a pointer into the calling
    thread's block, every write goes through it, the kernel gets the block, and
    the result is read through the same pointer.

    Shown: the two agree, whatever the kernel does ([stub_memory_equiv]); so what
    the development proves of calls with registers as values holds of calls
    through memory. *)
From S2P Require Import Prelude Utf8 Error MsgTag Cap Utcb UtcbBlock BufferMgr Serialise Rpc Server RpcSpec.
From Stdlib Require Import ZArith Lia.
From stdpp Require Import base list gmap.
Open Scope Z_scope.

Module RpcMemory.
Import UtcbBlock.UtcbBlock.
Section Stub.
Context {EC : ErrConsts} {TC : TagConsts} {CC : CapConsts} {CA : CapAlloc} {UC : UtcbConsts} {UL : UtcbLayout} {B : Build}.
Context {P : Type} `{!CapProvider P} {W : Type}.
Abbreviation memory := (gmap Z (list Z)).
(** The calling thread's block; the system call, which acts on the memory, and
    the error register. *)
Variable l4_utcb : Z.
Variable l4_ipc_call : W -> Z -> Z -> Z -> memory -> Z * memory * W.
Variable l4_ipc_error : W -> Z.
Variables (proto cap_demand : Z).

Record MemClient := { mc_cap : Z; mc_slots : P; mc_alloc : alloc_state; mc_mem : memory; mc_world : W }.

Fixpoint write_args_mem (l : list Ser) : args_t l -> RM (MrAt * memory) Error unit :=
  match l with
  | [] => fun _ => rok tt
  | s :: l => fun '(v, vs) => (via_mr (ser_write s v) ;? write_args_mem l vs)%rust
  end.
(** Readers look at the memory; [words()] only counts. *)
Definition via_rd {A} (f : RM (UtcbMr * BufferAccess) Error A) (b : MrAt) (bufs : BufferAccess) (mem : memory) : exec (result Error A) :=
  bs ← load (mr_ptr b) MR_SIZE mem;
  '(r, _) ← f ({| mr_regs := {| regs_mem := bs; regs_offset := mr_off b |}; mr_items := mr_cnt b |}, bufs);
  Done r.
Definition words_at (b : MrAt) : exec Z := Mr.words {| mr_regs := {| regs_mem := []; regs_offset := mr_off b |}; mr_items := mr_cnt b |}.
Definition reset_at (b : MrAt) : MrAt := {| mr_ptr := mr_ptr b; mr_off := 0; mr_cnt := 0 |}.

Definition ensure_slots_mem : RM MemClient Error unit := fun c =>
  '(res, p, a) ← alloc_capslots (mc_slots c) cap_demand (mc_alloc c);
  Done (res, {| mc_cap := mc_cap c; mc_slots := p; mc_alloc := a; mc_mem := mc_mem c; mc_world := mc_world c |}).
Definition ipc_method_mem (m : Method) (args : args_t (m_args m)) : RM MemClient Error (ser_t (m_ret m)) :=
  (ensure_slots_mem ;?
   fun c =>
    '(res, (b, mem)) ← (via_mr (Mr.write i32 (m_op m)) ;? write_args_mem (m_args m) args)%rust (mr (current l4_utcb), mc_mem c);
    match res with
    | Err e => Done (Err e, {| mc_cap := mc_cap c; mc_slots := mc_slots c; mc_alloc := mc_alloc c; mc_mem := mem; mc_world := mc_world c |})
    | Ok _ =>
      w ← words_at b;
      let tag := Tag.new proto w (mr_cnt b) 0 in
      let '(restag, mem, w') := l4_ipc_call (mc_world c) (mc_cap c) l4_utcb (Tag.raw tag) mem in
      let c := {| mc_cap := mc_cap c; mc_slots := mc_slots c; mc_alloc := mc_alloc c; mc_mem := mem; mc_world := w' |} in
      r ← Tag.result (l4_ipc_error w') (Tag.from restag);
      match r with
      | Err e => Done (Err e, c)
      | Ok _ => ret ← via_rd (ser_read (m_ret m)) (reset_at b) (access_buffers (mc_slots c)) (mc_mem c); Done (ret, c)
      end
    end)%rust.

(** * Theorems *)
(** The kernel as [Rpc] sees it: registers in, registers out, the memory part of
    the world. *)
Definition registers : Ptr := l4_utcb_mr_u l4_utcb.
Definition call_on_values (w : W * memory) (cap tag : Z) (regs : list Z) : Z * list Z * (W * memory) :=
  let mem := match store registers regs w.2 with Done mem => mem | _ => w.2 end in
  let '(restag, mem, w') := l4_ipc_call w.1 cap l4_utcb tag mem in (restag, part registers MR_SIZE mem, (w', mem)).
Definition view (c : MemClient) : Client (P := P) (W := W * memory) :=
  {| cl_cap := mc_cap c; cl_slots := mc_slots c; cl_alloc := mc_alloc c; cl_mr := part registers MR_SIZE (mc_mem c);
     cl_world := (mc_world c, mc_mem c) |}.
(** The same client: the memory is that of the world with the registers in place. *)
Definition same_client (c : Client (P := P) (W := W * memory)) (mc : MemClient) : Prop :=
  cl_cap c = mc_cap mc /\ cl_slots c = mc_slots mc /\ cl_alloc c = mc_alloc mc /\ (cl_world c).1 = mc_world mc
  /\ cl_mr c = part registers MR_SIZE (mc_mem mc) /\ store registers (cl_mr c) (cl_world c).2 = Done (mc_mem mc).
Definition same_outcome {A} (x : exec (result Error A * Client (P := P) (W := W * memory))) (y : exec (result Error A * MemClient)) : Prop :=
  match x with
  | Done (r, c) => exists mc, y = Done (r, mc) /\ same_client c mc
  | Panics => y = Panics | UB => y = UB | NoFuel => y = NoFuel
  end.

Lemma write_args_shows l (La : ArgsLaws l) : forall args mem0 m b mem, block_ok l4_utcb mem0 -> mr_ok m -> shows l4_utcb mem0 m b mem ->
  exists r m' b' mem', write_args l args m = Done (r, m') /\ mr_ok m'
  /\ write_args_mem l args (b, mem) = Done (r, (b', mem')) /\ shows l4_utcb mem0 m' b' mem'.
Proof.
  revert La. induction l as [|s l IH]; intros La args mem0 m b mem Hu Hm Hs.
  - eexists _, _, _, _. split; [done|]. split; [exact Hm|]. by split.
  - destruct La as [Ls La], args as [v vs]. cbn [write_args write_args_mem]. unfold rbind.
    destruct (ser_write_total v m Hm) as (r & m1 & Hw & Hm1 & _). rewrite Hw.
    destruct (via_mr_shows _ _ _ _ _ _ r m1 Hu Hm Hs Hw Hm1) as (b1 & mem1 & Hv & Hs1). rewrite Hv.
    destruct r as [[]|e]; [by apply IH|]. by eexists _, _, _, _.
Qed.
Lemma message_shows m (La : ArgsLaws (m_args m)) args mem0 : block_ok l4_utcb mem0 ->
  exists r m' b' mem', call_message m args (Mr.from_mr (part registers MR_SIZE mem0)) = Done (r, m') /\ mr_ok m'
  /\ (via_mr (Mr.write i32 (m_op m)) ;? write_args_mem (m_args m) args)%rust (mr (current l4_utcb), mem0) = Done (r, (b', mem'))
  /\ shows l4_utcb mem0 m' b' mem'.
Proof.
  intros Hu. pose proof (from_mr_ok _ (mr_part_fresh _ _ Hu)) as Hm. pose proof (shows_fresh _ _ Hu) as Hs.
  unfold call_message, rbind. destruct (mr_write_total i32 (m_op m) _ Hm) as (r & m1 & Hw & Hm1 & _).
  fold registers in *. rewrite Hw. destruct (via_mr_shows _ _ _ _ _ _ r m1 Hu Hm Hs Hw Hm1) as (b1 & mem1 & Hv & Hs1).
  change (mr (current l4_utcb)) with (from_utcb_mr l4_utcb). rewrite Hv.
  destruct r as [[]|e]; [by apply write_args_shows | by eexists _, _, _, _].
Qed.

(** The stub on memory and on values. *)
Lemma stub_memory_values m (La : ArgsLaws (m_args m)) args c :
  block_ok l4_utcb (mc_mem c) ->
  (forall w cap tag mem, block_ok l4_utcb mem -> block_ok l4_utcb (l4_ipc_call w cap l4_utcb tag mem).1.2) ->
  same_outcome (ipc_method call_on_values (fun w => l4_ipc_error w.1) proto cap_demand m args (view c)) (ipc_method_mem m args c).
Proof.
  intros Hu Hk. unfold ipc_method, ipc_method_mem, rbind at 1 3. unfold ensure_slots, ensure_slots_mem, view.
  cbn [cl_slots cl_alloc cl_cap cl_mr cl_world mc_slots mc_alloc].
  destruct (alloc_capslots (mc_slots c) cap_demand (mc_alloc c)) as [[[[[]|e] p] a]| | |]; [|..]; estep; try done.
  2: { eexists. split; [done|]. split_and!; try done. cbn. apply store_part_same; [done | apply mr_inside]. }
  cbn [cl_mr mc_mem mc_world mc_cap mc_slots mc_alloc].
  destruct (message_shows m La args (mc_mem c) Hu) as (r & m1 & b & mem & Hv & Hm1 & Hmem & Hs).
  unfold call_message in Hv. rewrite Hv, Hmem. estep. destruct (shows_part _ _ _ _ _ Hu Hm1 Hs) as (Hp & Hkeep & _).
  destruct Hs as [Hb Hst]. destruct r as [[]|e].
  2: { eexists. split; [done|]. split_and!; try done. }
  subst b. unfold words_at. cbn [mr_off mr_cnt cl_set_mr cl_world cl_cap cl_mr cl_slots cl_alloc].
  change (Mr.words {| mr_regs := {| regs_mem := []; regs_offset := regs_offset (mr_regs m1) |}; mr_items := mr_items m1 |}) with (Mr.words m1).
  rewrite mr_words_spec by done. estep. unfold call_on_values. cbn [fst snd]. unfold registers at 1. rewrite Hst.
  destruct (l4_ipc_call _ _ _ _ mem) as [[restag mem2] w2] eqn:Hcall.
  assert (block_ok l4_utcb mem2) as Hu2.
  { match type of Hcall with l4_ipc_call ?w ?cap _ ?tag _ = _ => pose proof (Hk w cap tag mem (Hkeep _ Hu)) as H end.
    by rewrite Hcall in H. }
  destruct (load_part registers MR_SIZE mem2 Hu2 (mr_inside l4_utcb)) as (Hld & _).
  assert (store registers (part registers MR_SIZE mem2) mem2 = Done mem2) as Hsame by (apply store_part_same; [done | apply mr_inside]).
  cbn [cl_world cl_slots fst]. destruct (Tag.result _ _) as [[?|e]| | |]; estep; [|by eexists|done..].
  unfold via_rd, reset_at. cbn [mr_ptr mr_off mr_cnt mc_mem mc_slots]. unfold registers in Hld |- *. rewrite Hld. estep.
  unfold Mr.reset, reset. cbn [mr_regs regs_mem].
  destruct (ser_read (m_ret m) _) as [[ret [m3 ?]]| | |]; estep; try done. by eexists.
Qed.

End Stub.

(** ** [add(5, "OK")] from the thread at 0x1000, with a kernel that answers 42 *)
Module Concrete.
#[local] Existing Instance l4re_err_consts.
#[local] Existing Instance l4re_tag_consts.
#[local] Existing Instance l4re_cap_consts.
#[local] Existing Instance counter_alloc.
#[local] Existing Instance l4re_utcb_consts.
#[local] Existing Instance debug_build.
#[local] Existing Instance UtcbBlock.UtcbBlock.Concrete.block_layout.
Definition answer42 (w : unit) (cap u tag : Z) (mem : gmap Z (list Z)) : Z * gmap Z (list Z) * unit :=
  (0, match store (l4_utcb_mr_u u) (le_bytes 8 42) mem with Done mem => mem | _ => mem end, w).
Definition client : MemClient (P := Bufferless) (W := unit) :=
  {| mc_cap := 4096; mc_slots := BufferlessMk; mc_alloc := 0%nat; mc_mem := UtcbBlock.UtcbBlock.Concrete.threads; mc_world := tt |}.
Definition stub := ipc_method_mem (P := Bufferless) 0x1000 answer42 (fun _ => 0) 42 0 Counter.add_method (5, (Counter.why, tt)).

Lemma answer42_keeps w cap tag mem : block_ok 0x1000 mem -> block_ok 0x1000 (answer42 w cap 0x1000 tag mem).1.2.
Proof.
  intros Hb. destruct (store_part (l4_utcb_mr_u 0x1000) (le_bytes 8 42) mem Hb) as (mem' & Hs & _ & Hk & _).
  - unfold inside. split_and!; by vm_compute.
  - apply bytes_okb_ok. done.
  - unfold answer42. rewrite Hs. by apply Hk.
Qed.
Example stub_answers : match stub client with Done (Ok v, _) => v =? 42 | _ => false end = true.
Proof. by vm_compute. Qed.
End Concrete.
End RpcMemory.
