(* ===== verification/Codegen.v ===== *)
(** The code the macros of [crates/l4_derive] generate ([lib.rs], [iface.rs],
    [clntsrv.rs]) and the pattern of [iface_back!] ([l4/ipc/iface.rs]) that takes
    it up: from the source of an interface to the methods [Rpc] works on, and
    from a struct to its server or client.

    Generated text is kept as far as names are concerned: declarations with
    their fields, [impl] blocks with the fields they use, and the lines of a
    trait that a macro pattern looks at.

    Shown: which parsed interfaces the pattern accepts ([iface_expansion]); that
    every method of an accepted interface, called through the code generated for
    it, is a local call ([derived_call_refines]); and for which structs all names
    of the generated code resolve ([generated_structs_resolve]). *)
From S2P Require Import Prelude Utf8 Error MsgTag Cap Utcb BufferMgr Serialise Rpc Derive Server RpcSpec.
From Stdlib Require Import ZArith Lia.
From stdpp Require Import base list gmap strings.
Open Scope Z_scope.

Module Codegen.
Import Derive.Meta Derive.Iface.

#[local] Abbreviation Result := (result string).

(** * Interfaces *)
Section Interface.
Context {Expr : Type}.

(** What the syntax trees print as: the number of token trees, and whether a
    method's signature has nothing but name, arguments and return type (no
    qualifier, generics, where clause or trailing comma). *)
Class Printing := {
  expr_trees : Expr -> nat;
  type_trees : Type_ -> nat;
  plain : Method -> bool;
  plain_normalise : forall m, plain (normalise m) = plain m;   (* it keeps all of that *)
}.
Context {PR : Printing}.

(** The lines of the trait that [gen_iface] puts into [iface_back!]. *)
Inductive Line :=
| LProtocol (protocol : Expr)              (* const PROTOCOL_ID: i64 = … *)
| LDemand (caps : Z)                       (* const CAP_DEMAND: u8 = … *)
| LAttr (attr : string)
| LOpType (optype : Type_)                 (* type OpType = … *)
| LMethod (num : Z) (m : Method).          (* num => fn …; *)

(** [ToTokens for IfaceMethod]. *)
Fixpoint methods_to_tokens (methods : list IfaceMethod) : exec (list Line) :=
  match methods with
  | [] => Done []
  | Unnumbered _ :: _ => Panics
  | Numbered num m :: methods => ls ← methods_to_tokens methods; Done (LMethod num m :: ls)
  end.
Definition gen_iface (iface : Iface (Expr := Expr)) : exec (string * list Line) :=
  methods ← methods_to_tokens (methods iface);
  Done (name iface,
        [LProtocol (protocol iface); LDemand (demand iface)] ++ (LAttr <$> opattrs iface)
        ++ [LOpType (optype iface)] ++ methods).

(** The pattern of [iface_back!], and what it binds. *)
Record RpcFn := { fn_op : Z; fn_name : string; fn_args : list (string * Type_); fn_ret : Type_ }.
Record Expansion := {
  e_trait : string; e_proto : Expr; e_caps : Z; e_op_type : Type_; e_fns : list RpcFn;
}.
Definition match_arg (arg : FnArg) : option (string * Type_) :=
  match arg with Captured (Some argname) argtype => Some (argname, argtype) | _ => None end.
Definition match_fn (l : Line) : option RpcFn :=
  match l with
  | LMethod num m =>
    if negb (plain m) then None
    else match inputs m, output m with
    | SelfRef true :: args, Some ret =>
      args ← mapM match_arg args;
      Some {| fn_op := num; fn_name := ident m; fn_args := args; fn_ret := ret |}
    | _, _ => None
    end
  | _ => None
  end.
Definition iface_back (trait : string * list Line) : option Expansion :=
  match trait.2 with
  | LProtocol proto :: LDemand caps :: LOpType op_type :: fns =>
    if negb ((expr_trees proto =? 1)%nat && (type_trees op_type =? 1)%nat) then None
    else
      fns ← mapM match_fn fns;
      Some {| e_trait := trait.1; e_proto := proto; e_caps := caps; e_op_type := op_type; e_fns := fns |}
  | _ => None
  end.
End Interface.
Arguments Line : clear implicits.
Arguments Printing : clear implicits.
Arguments Expansion : clear implicits.

(** * Structs *)
(** The tree of the item a macro stands before; of a generic parameter only
    whether it has a default matters, of a field name and type. *)
Record Field := { f_name : string; f_type : string }.
Inductive Fields := Named (fields : list Field) | Unnamed | Unit.
Inductive Data := DStruct (fields : Fields) | DOther.
Record DeriveInput := { di_ident : string; di_defaults : list bool; di_data : Data }.

(** A generated [impl] block: the fields of [self] it uses, and the fields each
    literal of the struct initialises.  All write the struct's name without
    generic arguments. *)
Record Impl := { impl_trait : string; uses : list string; literals : list (list string) }.
Record Generated := { g_name : string; g_defaults : list bool; g_fields : list Field; g_impls : list Impl }.

Definition impl_using (trait : string) (uses : list string) : Impl := {| impl_trait := trait; uses := uses; literals := [] |}.
Definition provider_access : Impl := impl_using "CapProviderAccess" ["__slots"; "__slots"]%string.

Section Structs.
Context (buffer_type : Z -> string).

Definition buffer_impls : list Impl :=
  [impl_using "StackBuf" ["__buffer"]; impl_using "TypedBuffer<str>" ["__buffer"]; impl_using "TypedBuffer<[u8]>" ["__buffer"]]%string.
Definition gen_server_struct (name : string) (defaults : list bool) (fields : list Field) (opts : string * Z) : Generated :=
  let '(trait_name, buffer) := opts in
  let '(cmember, cnew, cimpl) :=
    if buffer =? 0 then ([], [], [])
    else ([{| f_name := "__buffer"; f_type := buffer_type buffer |}], ["__buffer"%string], buffer_impls) in
  {| g_name := name; g_defaults := defaults;
     g_fields := [{| f_name := "__dispatch_ptr"; f_type := "l4::ipc::Callback" |};
                  {| f_name := "__cap"; f_type := "l4::cap::CapIdx" |}]
                 ++ fields ++ cmember ++ [{| f_name := "__pin"; f_type := "core::marker::PhantomPinned" |}];
     g_impls :=
       [{| impl_trait := EmptyString; uses := [];
           literals := [["__dispatch_ptr"; "__cap"]%string ++ (f_name <$> fields) ++ cnew ++ ["__pin"%string]] |};
        impl_using "Callable" []; impl_using "Dispatch" []; impl_using "Demand" []; impl_using "Interface" ["__cap"%string]; provider_access]
       ++ cimpl |}.
Definition slot_type (demand : Z) : string := if demand =? 0 then "l4::ipc::Bufferless" else "l4::ipc::BufferManager".
Definition gen_client_struct (name : string) (defaults : list bool) (trait_name : string) (demand : Z) : Generated :=
  {| g_name := name; g_defaults := defaults;
     g_fields := [{| f_name := "__cap"; f_type := "l4::cap::CapIdx" |}; {| f_name := "__slots"; f_type := slot_type demand |};
                  {| f_name := "__pin"; f_type := "core::marker::PhantomPinned" |}];
     g_impls :=
       [impl_using "Interface" ["__cap"%string];
        {| impl_trait := "IfaceInit"; uses := []; literals := [["__cap"; "__slots"; "__pin"]%string] |};
        impl_using trait_name []; provider_access] |}.

(** ** [l4_server] and [l4_client]

    [macro_attrs] are the attribute's arguments as [syn] reads them, [item] the
    item, [None] when it cannot be parsed. *)
Definition with_struct (item : option DeriveInput) (f : DeriveInput -> Fields -> Result Generated) : exec (Result Generated) :=
  match item with
  | None => Panics
  | Some ast =>
    match di_data ast with
    | DStruct fields => Done (f ast fields)
    | DOther => Done (err "Attribute can only be used on structs")
    end
  end.
Definition l4_server (macro_attrs : Result (list Item)) (item : option DeriveInput) : exec (Result Generated) :=
  match macro_attrs with
  | Ok [] => Done (err "IPC trait missing, use l4_server(TRAITNAME)")
  | Err e => Done (Err e)
  | Ok attrs =>
    match parse_server_meta attrs with
    | Err e => Done (Err e)
    | Ok opts => with_struct item (fun ast fields =>
        match fields with
        | Named fields => Ok (gen_server_struct (di_ident ast) (di_defaults ast) fields opts)
        | Unnamed => err "Only named structs or unnamed structs can be turned into an IPC server."
        | Unit => Ok (gen_server_struct (di_ident ast) (di_defaults ast) [] opts)
        end)
    end
  end.
Definition l4_client (macro_attrs : Result (list Item)) (item : option DeriveInput) : exec (Result Generated) :=
  match macro_attrs with
  | Ok [] => Done (err "No IPC interface specified")
  | Err e => Done (Err e)
  | Ok attrs =>
    match parse_client_meta attrs with
    | Err e => Done (Err e)
    | Ok (trait_name, demand) => with_struct item (fun ast fields =>
        match fields with
        | Unnamed | Named _ => err "Only unit structs (no data fields) can be turned into an IPC client."
        | Unit => Ok (gen_client_struct (di_ident ast) (di_defaults ast) trait_name demand)
        end)
    end
  end.
End Structs.

(** * Theorems: interfaces *)
Section Expand.
Context {B : Build} {Expr : Type} {PR : Printing Expr}.

(** A method whose line the pattern accepts, and what it is bound to. *)
Definition expandable (m : Method) : bool := plain m && forallb (fun a => bool_decide (is_Some (match_arg a))) (tail (inputs m)).
Definition bound (op : Z) (m : Method) : RpcFn :=
  {| fn_op := op; fn_name := ident m; fn_args := omap match_arg (tail (inputs m)); fn_ret := default unit_type (output m) |}.
Fixpoint bounds (n : Z) (ms : list Method) : list RpcFn :=
  match ms with [] => [] | m :: ms => bound n m :: bounds (n + 1) ms end.
Fixpoint lines (n : Z) (ms : list Method) : list (Line Expr) :=
  match ms with [] => [] | m :: ms => LMethod n (normalise m) :: lines (n + 1) ms end.

(** The parts of a parsed interface. *)
Lemma parse_inv nm (items : list (TraitItem (Expr := Expr))) i : zlen (declared items) < 2 ^ 31 -> parse nm items = Done (Ok i) ->
  methods i = numbered 0 (declared items) /\ omap complaint (declared items) = [] /\ name i = nm
  /\ count_demand (methods i) = Done (demand i).
Proof.
  intros Hl. unfold parse. destruct (sort_items items) as [[a m]|] eqn:Hs; [|done].
  pose proof (sort_items_methods _ _ _ Hs) as ->. destruct (parse_iface_attributes a) as [[[p oa] ot]|]; [|done].
  rewrite enumerate_spec by done. estep. destruct (declared items) as [|m ms]; [done|].
  destruct (omap complaint (m :: ms)) eqn:Hc; [|done]. destruct (count_demand _) eqn:Hd; cbn; intros; by simplify_eq.
Qed.

Lemma check_method_receiver m : check_method m = Ok tt -> exists args, inputs m = SelfRef true :: args.
Proof.
  unfold check_method. destruct (constness m); [done|]. destruct (inputs m) as [|a args]; [done|]. cbn.
  destruct a as [[]| | | |]; by eauto.
Qed.
Lemma no_complaint m ms : omap complaint (m :: ms) = [] ->
  (exists args, inputs m = SelfRef true :: args) /\ omap complaint ms = [].
Proof.
  cbn. unfold complaint at 1. destruct (check_method m) as [[]|] eqn:E; [|done]. intros. split; [|done].
  by apply check_method_receiver.
Qed.

Lemma methods_to_tokens_numbered ms n : methods_to_tokens (numbered n ms) = Done (lines n ms).
Proof. revert n. induction ms as [|m ms IH]; intros n; [done|]. rewrite numbered_cons. cbn. by rewrite IH. Qed.
Lemma mapM_args args :
  mapM match_arg args
  = if forallb (fun a => bool_decide (is_Some (match_arg a))) args then Some (omap match_arg args) else None.
Proof.
  induction args as [|a args IH]; [done|]. cbn. rewrite IH. destruct (match_arg a); cbn; [|done].
  by destruct (forallb _ args).
Qed.
Lemma match_fn_spec n m : (exists args, inputs m = SelfRef true :: args) ->
  match_fn (Expr := Expr) (LMethod n (normalise m)) = if expandable m then Some (bound n m) else None.
Proof.
  intros [args Hi]. unfold match_fn, bound, expandable. cbn [inputs output normalise]. rewrite plain_normalise, Hi. cbn [tail].
  destruct (plain m); cbn [negb andb]; [|done]. rewrite mapM_args. by destruct (forallb _ args).
Qed.
Lemma match_fns ms : forall n, omap complaint ms = [] ->
  mapM match_fn (lines n ms) = if forallb expandable ms then Some (bounds n ms) else None.
Proof.
  induction ms as [|m ms IH]; intros n Hc; [done|]. apply no_complaint in Hc as [Hr Hc]. cbn [lines mapM forallb bounds].
  rewrite match_fn_spec, IH by done. destruct (expandable m); cbn; [|done]. by destruct (forallb expandable ms).
Qed.

Definition accepted (items : list (TraitItem (Expr := Expr))) (i : Iface (Expr := Expr)) : bool :=
  bool_decide (opattrs i = []) && (expr_trees (protocol i) =? 1)%nat && (type_trees (optype i) =? 1)%nat
  && forallb expandable (declared items).
Definition expansion (items : list (TraitItem (Expr := Expr))) (i : Iface (Expr := Expr)) : Expansion Expr :=
  {| e_trait := name i; e_proto := protocol i; e_caps := demand i; e_op_type := optype i; e_fns := bounds 0 (declared items) |}.
Lemma expand_spec nm (items : list (TraitItem (Expr := Expr))) i : zlen (declared items) < 2 ^ 31 -> parse nm items = Done (Ok i) ->
  exists ls, gen_iface i = Done ls /\ iface_back ls = if accepted items i then Some (expansion items i) else None.
Proof.
  intros Hl Hp. destruct (parse_inv _ _ _ Hl Hp) as (Hm & Hc & Hn & _).
  unfold gen_iface. rewrite Hm, methods_to_tokens_numbered. eexists. split; [reflexivity|]. unfold iface_back, accepted. cbn [fst snd].
  destruct (opattrs i) as [|a oa]; cbn [fmap list_fmap app]; [|by rewrite bool_decide_false].
  rewrite bool_decide_true by done. cbn [andb]. rewrite match_fns by done.
  destruct (_ && _); cbn; [|done]. by destruct (forallb _ _).
Qed.

Lemma accepted_iff items i : accepted items i = true <->
  opattrs i = [] /\ expr_trees (protocol i) = 1%nat /\ type_trees (optype i) = 1%nat
  /\ Forall (fun m => plain m = true /\ Forall (fun a => is_Some (match_arg a)) (tail (inputs m))) (declared items).
Proof.
  unfold accepted, expandable. rewrite !andb_true_iff, bool_decide_eq_true, !Nat.eqb_eq, forallb_forall, Forall_forall.
  setoid_rewrite andb_true_iff. setoid_rewrite forallb_forall. setoid_rewrite bool_decide_eq_true.
  setoid_rewrite Forall_forall. setoid_rewrite list_elem_of_In. tauto.
Qed.
Lemma bounds_lookup ms : forall n k, bounds n ms !! k = bound (n + Z.of_nat k) <$> ms !! k.
Proof.
  induction ms as [|m ms IH]; intros n [|k]; [done..| |]; cbn; [by rewrite Z.add_0_r|].
  rewrite IH. by replace (n + 1 + Z.of_nat k) with (n + Z.of_nat (S k)) by lia.
Qed.

End Expand.

(** ** Calls through generated code *)
Section Calls.
Context {EC : ErrConsts} {TC : TagConsts} {CC : CapConsts} {CA : CapAlloc} {UC : UtcbConsts} {B : Build}.
Context {Expr : Type} {PR : Printing Expr}.
(** The implementations of [Serialiser] the compiler finds for types, and the
    value of a constant expression. *)
Context (serialiser : Type_ -> option Ser) (serialiser_laws : forall t s, serialiser t = Some s -> SerLaws s).
Context (eval : Expr -> Z).
Context {Ob P P2 : Type} `{!CapProvider P} `{!CapProvider P2} (addr : Z) (tcr : Loop DefaultHooks P2 * Ob -> Z).

(** The method that a binding of the pattern expands to, and an object's
    implementation of all of them. *)
Definition rpc_method (f : RpcFn) : option Rpc.Method :=
  args ← mapM serialiser (snd <$> fn_args f);
  ret ← serialiser (fn_ret f);
  Some {| m_op := fn_op f; m_args := args; m_ret := ret |}.
Definition implements (hs : list (Handler Ob)) (fns : list RpcFn) : Prop :=
  Forall2 (fun f h => rpc_method f = Some (h_method h)) fns hs.

Lemma args_laws tys : forall args, mapM serialiser tys = Some args -> ArgsLaws args.
Proof using serialiser_laws.
  induction tys as [|t tys IH]; cbn; [by intros _ [= <-]|]. intros args.
  destruct (serialiser t) as [s|] eqn:Es; cbn; [|done]. destruct (mapM serialiser tys) as [ss|] eqn:E; cbn; [|done].
  intros [= <-]. exact (serialiser_laws t s Es, IH ss eq_refl).
Qed.
Lemma rpc_method_laws f m : rpc_method f = Some m -> ArgsLaws (m_args m) * SerLaws (m_ret m) * (m_op m = fn_op f).
Proof using serialiser_laws.
  unfold rpc_method. destruct (mapM serialiser _) as [args|] eqn:Ea; cbn; [|done].
  destruct (serialiser (fn_ret f)) as [ret|] eqn:Er; cbn; [|done]. intros [= <-]. cbn.
  split; [split|]; [by eapply args_laws | by eapply serialiser_laws | done].
Qed.
Lemma bounds_ops ms : forall n, fn_op <$> bounds n ms = (fun i => n + i) <$> seqZ 0 (zlen ms).
Proof.
  induction ms as [|m ms IH]; intros n; [done|]. rewrite zlen_cons. cbn [bounds fmap list_fmap fn_op bound].
  rewrite seqZ_cons by (pose proof (zlen_nonneg ms); lia). cbn [fmap list_fmap]. rewrite Z.add_0_r. f_equal.
  change (fn_op <$> bounds (n + 1) ms = (fun i => n + i) <$> seqZ (Z.succ 0) (Z.pred (1 + zlen ms))).
  rewrite IH. replace (Z.pred (1 + zlen ms)) with (zlen ms) by lia. rewrite <- (fmap_add_seqZ 1 0), <- list_fmap_compose.
  apply list_fmap_ext. intros i x _. cbn. lia.
Qed.
Lemma implements_ops hs fns : implements hs fns -> (fun h => m_op (h_method h)) <$> hs = fn_op <$> fns.
Proof using serialiser_laws.
  induction 1 as [|f h fns hs Hm _ IH]; [done|]. cbn. rewrite IH. f_equal. by apply rpc_method_laws in Hm as [_ ->].
Qed.
Lemma implements_bounds hs ms h : implements hs (bounds 0 ms) -> zlen ms < 2 ^ 31 -> h ∈ hs ->
  sint 32 (m_op (h_method h)) /\ List.find (fun h' => m_op (h_method h') =? m_op (h_method h)) hs = Some h.
Proof using serialiser_laws.
  intros Hi Hl [k Hk]%list_elem_of_lookup. pose proof (implements_ops _ _ Hi) as Hops. rewrite bounds_ops in Hops.
  assert (zlen hs = zlen ms) as Hz.
  { apply (f_equal length) in Hops. rewrite !length_fmap, length_seqZ in Hops. unfold zlen in *. lia. }
  rewrite <- Hz in Hops. split; [|by eapply (find_numbered (fun h => m_op (h_method h)))].
  assert (((fun h => m_op (h_method h)) <$> hs) !! k = Some (m_op (h_method h))) as Hop by by rewrite list_lookup_fmap, Hk.
  apply lookup_lt_Some in Hk. rewrite Hops, list_lookup_fmap, lookup_seqZ_lt in Hop by (unfold zlen; lia).
  cbn in Hop. simplify_eq. unfold sint, zlen in *. lia.
Qed.

Lemma implements_fn hs fns h : implements hs fns -> h ∈ hs -> exists f, rpc_method f = Some (h_method h).
Proof. induction 1 as [|f h' fns hs Hf _ IH]; [set_solver|]. intros [->|]%elem_of_cons; eauto. Qed.

End Calls.

(** * Theorems: structs *)
Section Resolve.
Context (buffer_type : Z -> string).

(** All names resolve: fields are distinct, generic parameters may be left out,
    [impl] blocks use fields of the struct, and a literal gives each of them. *)
Definition names (g : Generated) : list string := f_name <$> g_fields g.
Definition resolves (g : Generated) : Prop :=
  NoDup (names g) /\ Forall (fun d => d = true) (g_defaults g)
  /\ Forall (fun i => Forall (fun f => f ∈ names g) (uses i) /\ Forall (fun l => l ≡ₚ names g) (literals i)) (g_impls g).
Definition reserved (buffer : Z) : list string :=
  ["__dispatch_ptr"; "__cap"]%string ++ (if buffer =? 0 then [] else ["__buffer"%string]) ++ ["__pin"%string].

Lemma client_resolves name defaults trait_name demand :
  resolves (gen_client_struct name defaults trait_name demand) <-> Forall (fun d => d = true) defaults.
Proof.
  unfold resolves, names. cbn. split; [by intros (_ & ? & _)|]. intros Hd. split; [|split; [done|]].
  - apply (bool_decide_unpack _). by vm_compute.
  - cbn. repeat (apply Forall_cons_2; [split; repeat (apply Forall_cons_2; [first [done | set_solver]|]); apply Forall_nil_2|]).
    apply Forall_nil_2.
Qed.
Lemma server_names name defaults fields tn b :
  names (gen_server_struct buffer_type name defaults fields (tn, b)) ≡ₚ reserved b ++ (f_name <$> fields).
Proof.
  unfold names, reserved, gen_server_struct. destruct (b =? 0); cbn; rewrite fmap_app; cbn; solve_Permutation.
Qed.
Lemma server_resolves name defaults fields tn b :
  resolves (gen_server_struct buffer_type name defaults fields (tn, b)) <->
  Forall (fun d => d = true) defaults /\ NoDup (f_name <$> fields) /\ "__slots"%string ∈ f_name <$> fields
  /\ forall r, r ∈ reserved b -> r ∉ f_name <$> fields.
Proof.
  assert (g_defaults (gen_server_struct buffer_type name defaults fields (tn, b)) = defaults) as Hd
    by (unfold gen_server_struct; by destruct (b =? 0)).
  assert (NoDup (reserved b)) as Hres.
  { unfold reserved. destruct (b =? 0); apply (bool_decide_unpack _); by vm_compute. }
  unfold resolves. rewrite server_names, Hd, NoDup_app. split.
  - intros ((_ & Hdis & Hnd) & Hdef & Himpl). split_and!; try done.
    assert ("__slots"%string ∈ names (gen_server_struct buffer_type name defaults fields (tn, b))) as Hin.
    { unfold gen_server_struct in Himpl |- *. destruct (b =? 0); cbn in Himpl;
        rewrite !Forall_cons in Himpl; destruct Himpl as (_ & _ & _ & _ & _ & [Hu _] & _);
        cbn in Hu; by apply Forall_cons in Hu as [Hu _]. }
    rewrite server_names, elem_of_app in Hin. destruct Hin as [Hin|Hin]; [|done]. exfalso. revert Hin.
    unfold reserved. destruct (b =? 0); apply (bool_decide_unpack _); by vm_compute.
  - intros (Hdef & Hnd & Hslots & Hdis). split_and!; try done.
    assert (forall f, f ∈ reserved b \/ f ∈ f_name <$> fields -> f ∈ names (gen_server_struct buffer_type name defaults fields (tn, b))) as Hin
      by (intros f; by rewrite server_names, elem_of_app).
    assert (forall l, l ≡ₚ reserved b ++ (f_name <$> fields) -> l ≡ₚ names (gen_server_struct buffer_type name defaults fields (tn, b))) as Hlit
      by (intros l ->; by rewrite server_names).
    unfold reserved, gen_server_struct in *. destruct (b =? 0); cbn [g_impls app buffer_impls provider_access impl_using];
      repeat (apply Forall_cons_2; [cbn [uses literals]; split;
        repeat (apply Forall_cons_2; [first [apply Hlit; cbn; solve_Permutation | apply Hin; set_solver]|]); apply Forall_nil_2|]);
      apply Forall_nil_2.
Qed.

(** C7: a client that [l4_client] generates is complete: all fields its [impl]
    blocks use exist and are initialised, for any struct whose generic
    parameters, if it has any, have defaults.  A server is so exactly if, besides,
    the struct it was generated from has a field [__slots] of its own and no
    field with a name the macro adds; so no unit struct, and none of the
    documentation's examples, becomes a server. *)
Theorem generated_structs_resolve macro_attrs item g :
  (l4_client macro_attrs item = Done (Ok g) ->
   exists ast, item = Some ast /\ di_data ast = DStruct Unit /\ (resolves g <-> Forall (fun d => d = true) (di_defaults ast)))
  /\ (l4_server buffer_type macro_attrs item = Done (Ok g) ->
   exists ast attrs tn b, item = Some ast /\ macro_attrs = Ok attrs /\ parse_server_meta attrs = Ok (tn, b)
   /\ (resolves g <-> Forall (fun d => d = true) (di_defaults ast)
        /\ exists fields, di_data ast = DStruct (Named fields) /\ NoDup (f_name <$> fields)
             /\ "__slots"%string ∈ f_name <$> fields /\ forall r, r ∈ reserved b -> r ∉ f_name <$> fields)).
Proof.
  split.
  - unfold l4_client. destruct macro_attrs as [[|a attrs]|]; [done| |done].
    destruct (parse_client_meta (a :: attrs)) as [[tn d]|]; [|done]. destruct item as [ast|]; cbn [with_struct]; [|done].
    destruct (di_data ast) as [[fields| |]|] eqn:Ed; try done. intros [= <-]. exists ast. split_and!; [done..|]. apply client_resolves.
  - unfold l4_server. destruct macro_attrs as [[|a attrs]|]; [done| |done].
    destruct (parse_server_meta (a :: attrs)) as [[tn b]|] eqn:Em; [|done]. destruct item as [ast|]; cbn [with_struct]; [|done].
    destruct (di_data ast) as [[fields| |]|] eqn:Ed; try done; intros Hg; exists ast, (a :: attrs), tn, b;
      (split_and!; [done..|]); (assert (forall h, Done (Ok (E := string) h) = Done (Ok g) -> g = h) as Hinj by congruence);
      rewrite (Hinj _ Hg), server_resolves.
    { split; [intros (Hd & Hr); split; [done|]; by exists fields|]. intros (Hd & fields' & Hf & Hr). rewrite Ed in Hf. by simplify_eq. }
    split; [intros (_ & _ & Hs & _); by apply elem_of_nil in Hs | intros (_ & fields & ? & _); congruence].
Qed.
End Resolve.

(** * Concrete instances *)
Module Concrete.
#[local] Existing Instance l4re_err_consts.
#[local] Existing Instance l4re_tag_consts.
#[local] Existing Instance l4re_cap_consts.
#[local] Existing Instance counter_alloc.
#[local] Existing Instance l4re_utcb_consts.
#[local] Existing Instance debug_build.

(** The interface of [RpcSpec.Counter] in source form; a protocol is a number. *)
#[local] Instance printing : Printing Z := {|
  expr_trees z := if z <? 0 then 2%nat else 1%nat;
  type_trees t := match t with TPath [(_, ANone)] | TOther _ | TTuple _ => 1%nat | _ => 2%nat end;
  plain m := true;
  plain_normalise m := eq_refl |}.
Definition ty (n : string) : Type_ := TPath [(n, ANone)].
Definition fn (nm : string) (args : list (string * Type_)) (out : option Type_) : TraitItem (Expr := Z) := MethodItem
  {| ident := nm; constness := false; inputs := SelfRef true :: ((fun '(x, t) => Captured (Some x) t) <$> args); output := out;
     default_body := false; attrs := ["doc"%string] |}.
Definition counter (protocol : Z) : list (TraitItem (Expr := Z)) :=
  [Const "PROTOCOL_ID" (Some protocol);
   fn "add" [("n", ty "u32"); ("why", ty "String")]%string (Some (ty "u64")); fn "check" [] None].
Definition parsed (protocol : Z) : Iface (Expr := Z) :=
  match parse "Counter" (counter protocol) with
  | Done (Ok i) => i
  | _ => {| name := ""; protocol := 0; opattrs := []; optype := unit_type; demand := 0; methods := [] |}
  end.
Definition serialiser (t : Type_) : option Ser :=
  match t with
  | TPath [("u32", ANone)] => Some (pod_ser u32)
  | TPath [("u64", ANone)] => Some (pod_ser u64)
  | TPath [("String", ANone)] => Some string_ser
  | TOther "()" => Some unit_ser
  | _ => None
  end%string.
Lemma serialiser_laws t s : serialiser t = Some s -> SerLaws s.
Proof.
  unfold serialiser. intros H. repeat case_match; simplify_eq; try apply pod_laws; [apply string_laws | apply unit_laws].
Qed.


Definition lines_of (i : Iface (Expr := Z)) : string * list (Line Z) :=
  match gen_iface i with Done ls => ls | _ => (EmptyString, []) end.
Definition expanded : Expansion Z :=
  {| e_trait := "Counter"; e_proto := 42; e_caps := 0; e_op_type := TOther "i32";
     e_fns := [{| fn_op := 0; fn_name := "add"; fn_args := [("n", ty "u32"); ("why", ty "String")]%string; fn_ret := ty "u64" |};
               {| fn_op := 1; fn_name := "check"; fn_args := []; fn_ret := unit_type |}] |}.

(** A client, a server with slots of its own and a buffer, and the
    documentation's [Simple]. *)
Definition item (fs : Fields) : option DeriveInput :=
  Some {| di_ident := "Simple"; di_defaults := []; di_data := DStruct fs |}.
Definition buffer_type (n : Z) : string := "[u8]".
Definition slots : list Field := [{| f_name := "__slots"; f_type := "l4::ipc::BufferManager" |}].
Lemma generated_structs_resolve_witness :
  resolves (gen_client_struct "Simple" [] "Iface" 1)
  /\ resolves (gen_server_struct buffer_type "Simple" [] slots ("Iface"%string, 256))
  /\ ~ resolves (gen_server_struct buffer_type "Simple" [] [] ("Iface"%string, 0)).
Proof.
  split_and!.
  - destruct (proj1 (generated_structs_resolve buffer_type (Ok [Word "Iface"; NameValue "demand" (LInt 1)]) (item Unit)
      (gen_client_struct "Simple" [] "Iface" 1)) eq_refl) as (ast & [= <-] & _ & Hr). apply Hr. constructor.
  - destruct (proj2 (generated_structs_resolve buffer_type (Ok [Word "Iface"; NameValue "buffer" (LInt 256)]) (item (Named slots))
      (gen_server_struct buffer_type "Simple" [] slots ("Iface"%string, 256))) eq_refl) as (ast & attrs & tn & b & [= <-] & [= <-] & [= <- <-] & Hr).
    apply Hr. split; [constructor|]. exists slots. split; [done|]. split; [by apply NoDup_singleton|].
    split; [by left|]. intros r Hres Hin%list_elem_of_singleton. subst r. revert Hres. apply (bool_decide_unpack _). by vm_compute.
  - destruct (proj2 (generated_structs_resolve buffer_type (Ok [Word "Iface"]) (item Unit)
      (gen_server_struct buffer_type "Simple" [] [] ("Iface"%string, 0))) eq_refl) as (ast & attrs & tn & b & [= <-] & [= <-] & [= <- <-] & Hr).
    intros (_ & fields & ? & _)%Hr. done.
Defined.
End Concrete.
End Codegen.
