(* ===== verification/RpcSystem.v ===== *)
(** Client objects and a server on one memory: whole remote calls.

    [RpcSpec] shows one call from a client to a server with message registers as
    values; [RpcMemory] shows that the client's stub on memory is that stub.  Here
    they are put together.  A system is any number of client objects - each with
    the UTCB block of its thread, several may share one -, a server thread with
    its block, and the server objects its loop has registered, each at an address
    with an interface of its own.  A call runs the stub on the client's block, the
    kernel copies registers from block to block, and the server's loop dispatches
    to the object the capability's gate leads to.

    Shown: whichever calls the clients make and in whichever order, they get the
    answers that the objects' methods give when they are called directly in that
    order, the objects end in the same state, and no memory but the message
    registers of the callers and of the server has changed
    ([system_refines_calls]). *)
From S2P Require Import Prelude Utf8 Error MsgTag Cap Utcb UtcbBlock BufferMgr Serialise Rpc Server RpcSpec RpcMemory Derive Codegen.
From Stdlib Require Import ZArith Lia.
From stdpp Require Import base list gmap strings.
Open Scope Z_scope.

Module RpcSystem.
Import UtcbBlock.UtcbBlock RpcMemory.RpcMemory.

(** ** Message registers in memory *)
Section Registers.
Context {UC : UtcbConsts} {UL : UtcbLayout} {B : Build}.
Abbreviation memory := (gmap Z (list Z)).

(** The kernel fills a block's message registers - with registers. *)
Definition registersb (regs : list Z) : bool := (zlen regs =? MR_SIZE) && bytes_okb regs.
Definition put_regs (u : Z) (regs : list Z) (mem : memory) : memory :=
  if registersb regs then match store (l4_utcb_mr_u u) regs mem with Done mem => mem | _ => mem end else mem.

(** Only the message registers of these blocks have changed. *)
Definition only_regs (us : list Z) (mem mem' : memory) : Prop :=
  (forall v, block_ok v mem -> block_ok v mem')
  /\ forall q k, inside q k -> (forall u, u ∈ us -> apart (l4_utcb_mr_u u) MR_SIZE q k) -> part q k mem' = part q k mem.

Lemma only_regs_refl us mem : only_regs us mem mem.
Proof. done. Qed.
Lemma only_regs_trans us vs mem1 mem2 mem3 : only_regs us mem1 mem2 -> only_regs vs mem2 mem3 -> only_regs (us ++ vs) mem1 mem3.
Proof.
  intros [Hb1 Hp1] [Hb2 Hp2]. split; [by eauto|]. intros q k Hin Hap.
  rewrite Hp2, Hp1; [done | done | | done |]; intros u Hu; apply Hap; rewrite elem_of_app; tauto.
Qed.
Lemma only_regs_sub us vs mem mem' : us ⊆ vs -> only_regs us mem mem' -> only_regs vs mem mem'.
Proof. intros Hs [Hb Hp]. split; [done|]. intros q k Hin Hap. apply Hp; [done|]. intros u Hu. by apply Hap, Hs. Qed.
Lemma only_regs_other us mem mem' u : u ∉ us -> only_regs us mem mem' ->
  part (l4_utcb_mr_u u) MR_SIZE mem' = part (l4_utcb_mr_u u) MR_SIZE mem.
Proof. intros Hu [_ Hp]. apply Hp; [apply mr_inside|]. intros v Hv. left. cbn. by intros ->. Qed.

Lemma registersb_fresh regs : registersb regs = true <-> mr_fresh regs.
Proof.
  unfold registersb, mr_fresh. rewrite andb_true_iff, Z.eqb_eq. split; intros [Hl Hb]; (split; [done|]); [by apply bytes_okb_ok|].
  unfold bytes_okb. apply List.forallb_forall. intros b Hin. rewrite Forall_forall in Hb.
  apply list_elem_of_In, Hb in Hin as [H1 H2]. by rewrite (proj2 (Z.leb_le 0 b)), (proj2 (Z.ltb_lt b 256)).
Qed.
Lemma put_regs_ok u regs mem : mr_fresh regs -> block_ok u mem ->
  store (l4_utcb_mr_u u) regs mem = Done (put_regs u regs mem)
  /\ part (l4_utcb_mr_u u) MR_SIZE (put_regs u regs mem) = regs /\ only_regs [u] mem (put_regs u regs mem).
Proof.
  intros Hr Hu. unfold put_regs. rewrite (proj2 (registersb_fresh regs) Hr). destruct Hr as [Hl Hb].
  destruct (store_part (l4_utcb_mr_u u) regs mem Hu) as (mem' & -> & Hp & Hk & Hf); [rewrite Hl; apply mr_inside | done |].
  rewrite Hl in Hp, Hf. split; [done|]. split; [done|]. split; [done|]. intros q k Hin Hap. apply Hf, Hap; [done|]. by left.
Qed.
Lemma put_regs_keeps u regs mem v : block_ok u mem -> block_ok v mem -> block_ok v (put_regs u regs mem).
Proof.
  intros Hu Hv. destruct (registersb regs) eqn:Hr; [|unfold put_regs; by rewrite Hr].
  destruct (put_regs_ok u regs mem) as (_ & _ & Hk & _); [by apply registersb_fresh | done |]. by apply Hk.
Qed.
Lemma put_regs_other u regs mem v : v <> u -> block_ok v mem -> block_ok v (put_regs u regs mem).
Proof.
  intros Hne (m & Hm & Hv). unfold put_regs. destruct (registersb regs); [|by exists m].
  unfold store. cbn [blk l4_utcb_mr_u]. destruct (mem !! u) as [mu|]; [|by exists m]. destruct (poke mu _ _); [|by exists m..]. cbn.
  exists m. split; [|done]. by rewrite lookup_insert_ne by (cbn; congruence).
Qed.
End Registers.

(** ** The system *)
Section System.
Context {EC : ErrConsts} {TC : TagConsts} {CC : CapConsts} {CA : CapAlloc} {UC : UtcbConsts} {UL : UtcbLayout} {B : Build}.
Context {P : Type} `{!CapProvider P} {P2 : Type} `{!CapProvider P2} {Ob : Type}.
Abbreviation memory := (gmap Z (list Z)).
Abbreviation SrvLoop := (Loop DefaultHooks P2).

(** A registered server object: its address and the interface it implements, by
    functions on the state of all objects. *)
Record Object := { ob_addr : Z; ob_proto : Z; ob_demand : Z; ob_handlers : list (Handler Ob) }.
Variable objects : list Object.
(** The label of the gate a capability of a client names; the server thread's
    block; the error register. *)
Variables (gate : Z -> Z) (us : Z) (l4_ipc_error : SrvLoop * Ob -> Z).

Definition callbacks (label : Z) : option (MsgTag -> RM (UtcbMr * BufferAccess * Ob) Error MsgTag) :=
  o ← List.find (fun o => ob_addr o =? label) objects;
  Some (server_impl_callback (op_dispatch (ob_proto o) i32 id (ob_handlers o))).

(** The IPC system call of the thread with block [u]: the server answers from its
    own registers. *)
Definition ipc_call (w : SrvLoop * Ob) (cap u tag : Z) (mem : memory) : Z * memory * (SrvLoop * Ob) :=
  let l := set_mr w.1 (part (l4_utcb_mr_u us) MR_SIZE mem) in
  let '(t, regs, w') := serve callbacks (gate cap) (l, w.2) tag (part (l4_utcb_mr_u u) MR_SIZE mem) in
  (t, put_regs u regs (put_regs us (loop_mr w'.1) mem), w').

(** A client object: its thread's block, its capability, the interface it was
    generated for, its receive slots. *)
Record ClientObj := { co_utcb : Z; co_cap : Z; co_iface : Object; co_slots : P; co_alloc : alloc_state }.
Record System := { sy_clients : gmap Z ClientObj; sy_mem : memory; sy_server : SrvLoop * Ob }.
Record Call := { ca_client : Z; ca_handler : Handler Ob; ca_args : args_t (m_args (h_method ca_handler)) }.
(** What a call returns, with the method that says of which type. *)
Definition Outcome : Type := { m : Method & Result (ser_t (m_ret m)) }.

Definition remote_call (ca : Call) (sy : System) : exec (Outcome * System) :=
  match sy_clients sy !! ca_client ca with
  | None => UB
  | Some c =>
    '(r, mc) ← ipc_method_mem (co_utcb c) ipc_call l4_ipc_error (ob_proto (co_iface c)) (ob_demand (co_iface c))
        (h_method (ca_handler ca)) (ca_args ca)
        {| mc_cap := co_cap c; mc_slots := co_slots c; mc_alloc := co_alloc c; mc_mem := sy_mem sy; mc_world := sy_server sy |};
    let c := {| co_utcb := co_utcb c; co_cap := mc_cap mc; co_iface := co_iface c; co_slots := mc_slots mc; co_alloc := mc_alloc mc |} in
    Done (existT _ r, {| sy_clients := <[ ca_client ca := c ]> (sy_clients sy); sy_mem := mc_mem mc; sy_server := mc_world mc |})
  end.
(** The same call without a system: of the object's method. *)
Definition local_call (ca : Call) (o : Ob) : exec (Outcome * Ob) :=
  '(r, o) ← h_fn (ca_handler ca) (ca_args ca) o; Done (existT _ r, o).

Fixpoint run_calls {St} (step : Call -> St -> exec (Outcome * St)) (cas : list Call) (st : St) : exec (list Outcome * St) :=
  match cas with
  | [] => Done ([], st)
  | ca :: cas => '(x, st) ← step ca st; '(xs, st) ← run_calls step cas st; Done (x :: xs, st)
  end.

(** * What is registered, and when a system is in order *)
(** Addresses differ; so do an interface's opcodes, and its types serialise. *)
Class Registered : Prop := {
  addresses_differ : NoDup (ob_addr <$> objects);
  proto_fits : forall o, o ∈ objects -> sint 48 (ob_proto o);
  ops_differ : forall o, o ∈ objects -> NoDup ((fun h => m_op (h_method h)) <$> ob_handlers o);
  op_fits : forall o h, o ∈ objects -> h ∈ ob_handlers o -> sint 32 (m_op (h_method h));
  args_lawful : forall o h, o ∈ objects -> h ∈ ob_handlers o -> inhabited (ArgsLaws (m_args (h_method h)));
  ret_lawful : forall o h, o ∈ objects -> h ∈ ob_handlers o -> SerLaws (m_ret (h_method h));
}.

(** A client object whose slots suffice - they are allocated in its first call. *)
Definition slots_ready (c : ClientObj) : Prop :=
  exists p a, alloc_capslots (co_slots c) (ob_demand (co_iface c)) (co_alloc c) = Done (Ok tt, p, a)
  /\ alloc_capslots p (ob_demand (co_iface c)) a = Done (Ok tt, p, a).
Definition client_ok (mem : memory) (c : ClientObj) : Prop :=
  co_iface c ∈ objects /\ gate (co_cap c) = ob_addr (co_iface c) /\ co_utcb c <> us /\ block_ok (co_utcb c) mem /\ slots_ready c.
Definition system_ok (sy : System) : Prop :=
  block_ok us (sy_mem sy) /\ hooks (sy_server sy).1 = Some DefaultHooksMk
  /\ forall i c, sy_clients sy !! i = Some c -> client_ok (sy_mem sy) c.
(** What does not change of a client object. *)
Definition identity (c : ClientObj) : Z * Z * Object := (co_utcb c, co_cap c, co_iface c).
Definition identities (sy : System) : gmap Z (Z * Z * Object) := identity <$> sy_clients sy.

(** A call of a method of the client's interface whose arguments fit. *)
Definition call_fits (ids : gmap Z (Z * Z * Object)) (ca : Call) : Prop :=
  exists u cap o, ids !! ca_client ca = Some (u, cap, o) /\ ca_handler ca ∈ ob_handlers o
  /\ args_ok _ (ca_args ca)
  /\ forall b, mr_fresh b -> exists mr, call_message (h_method (ca_handler ca)) (ca_args ca) (Mr.from_mr b) = Done (Ok tt, mr).
Definition caller (ids : gmap Z (Z * Z * Object)) (ca : Call) : list Z :=
  match ids !! ca_client ca with Some (u, _, _) => [u] | None => [] end.

(** What the client sees of an outcome, and the outcomes it can see. *)
Definition outcome_seen (x : Outcome) : Outcome := existT (projT1 x) (seen (projT2 x)).
Definition outcome_fits (x : Outcome) : Prop :=
  match projT2 x with Ok v => ser_ok _ v /\ ret_fits v | Err e => is_Some (reported e) end.

(** * Theorems *)
Lemma find_key {A} (key : A -> Z) (l : list A) x : NoDup (key <$> l) -> x ∈ l -> List.find (fun y => key y =? key x) l = Some x.
Proof.
  induction l as [|y l IH]; [by intros _ ?%elem_of_nil|]. cbn. intros [Hy Hn]%NoDup_cons [->|Hin]%elem_of_cons; [by rewrite Z.eqb_refl|].
  assert (key y <> key x) by (intros E; apply Hy; rewrite E; by apply list_elem_of_fmap_2). zif_false. by apply IH.
Qed.
Lemma callbacks_object `{!Registered} o : o ∈ objects ->
  callbacks (ob_addr o) = Some (server_impl_callback (op_dispatch (ob_proto o) i32 id (ob_handlers o))).
Proof. intros Ho. unfold callbacks. by rewrite (find_key ob_addr objects o addresses_differ Ho). Qed.

(** The kernel keeps blocks, whatever the server makes of a message. *)
Lemma ipc_call_keeps u w cap tag mem : u <> us -> block_ok u mem -> block_ok u (ipc_call w cap u tag mem).1.2.
Proof.
  intros Hne Hu. unfold ipc_call. destruct (serve _ _ _ _ _) as [[t regs] w']. cbn.
  pose proof (put_regs_other us (loop_mr w'.1) mem u Hne Hu) as H. by apply put_regs_keeps.
Qed.
(** On values: what the server answers is what the client's registers show, and
    nothing but the two threads' registers has changed. *)
Lemma ipc_call_values u (l : SrvLoop) (o : Ob) mem cap tag regs t m l' o' :
  u <> us -> block_ok u mem -> block_ok us mem -> mr_fresh regs ->
  serve callbacks (gate cap) (set_mr l (part (l4_utcb_mr_u us) MR_SIZE mem), o) tag regs = (t, m, (l', o')) ->
  mr_fresh (loop_mr l') -> mr_fresh m ->
  exists mem', call_on_values u ipc_call ((l, o), mem) cap tag regs = (t, m, ((l', o'), mem'))
    /\ only_regs [u; us] mem mem' /\ part (l4_utcb_mr_u u) MR_SIZE mem' = m.
Proof.
  intros Hne Hu Hs Hr Hserve Hl Hm. destruct (put_regs_ok u regs mem Hr Hu) as (Hst & Hp1 & Ho1). set (mem1 := put_regs u regs mem) in *.
  assert (part (l4_utcb_mr_u us) MR_SIZE mem1 = part (l4_utcb_mr_u us) MR_SIZE mem) as Hps
    by (apply (only_regs_other [u]); [set_solver | done]).
  destruct (put_regs_ok us (loop_mr l') mem1 Hl ltac:(by apply Ho1)) as (_ & _ & Ho2). set (mem2 := put_regs us (loop_mr l') mem1) in *.
  destruct (put_regs_ok u m mem2 Hm ltac:(by apply Ho2, Ho1)) as (_ & Hp3 & Ho3).
  exists (put_regs u m mem2). split_and!; [|by refine (only_regs_sub _ _ _ _ _ (only_regs_trans _ _ _ _ _ (only_regs_trans _ _ _ _ _ Ho1 Ho2) Ho3)); set_solver | done].
  unfold call_on_values, registers. cbn [fst snd]. rewrite Hst. unfold ipc_call. cbn [fst snd]. rewrite Hps, Hp1, Hserve.
  cbn [fst]. fold mem2. by rewrite Hp3.
Qed.

Lemma client_ok_mem us' mem mem' c : only_regs us' mem mem' -> client_ok mem c -> client_ok mem' c.
Proof. intros [Hk _] (? & ? & ? & Hb & ?). unfold client_ok. split_and!; by try apply Hk. Qed.

(** The call of one client object, on its thread's block. *)
Lemma stub_on_system `{!Registered} h args (c : ClientObj) mem (l : SrvLoop) (o : Ob) res o' :
  client_ok mem c -> block_ok us mem -> hooks l = Some DefaultHooksMk -> h ∈ ob_handlers (co_iface c) -> args_ok _ args ->
  (forall b, mr_fresh b -> exists mr, call_message (h_method h) args (Mr.from_mr b) = Done (Ok tt, mr)) ->
  h_fn h args o = Done (res, o') -> match res with Ok v => ser_ok _ v /\ ret_fits v | Err e => is_Some (reported e) end ->
  exists mc, ipc_method_mem (co_utcb c) ipc_call l4_ipc_error (ob_proto (co_iface c)) (ob_demand (co_iface c)) (h_method h) args
      {| mc_cap := co_cap c; mc_slots := co_slots c; mc_alloc := co_alloc c; mc_mem := mem; mc_world := (l, o) |} = Done (seen res, mc)
    /\ mc_cap mc = co_cap c
    /\ alloc_capslots (mc_slots mc) (ob_demand (co_iface c)) (mc_alloc mc) = Done (Ok tt, mc_slots mc, mc_alloc mc)
    /\ (mc_world mc).2 = o' /\ hooks (mc_world mc).1 = Some DefaultHooksMk /\ only_regs [co_utcb c; us] mem (mc_mem mc).
Proof.
  intros (Hi & Hg & Hne & Hu & p & a & Ha & Hp) Hus Hh Hin Hargs Hfit Hfn Hres. set (u := co_utcb c) in *.
  set (mc := {| mc_cap := co_cap c; mc_slots := co_slots c; mc_alloc := co_alloc c; mc_mem := mem; mc_world := (l, o) |}).
  destruct (args_lawful _ _ Hi Hin) as [La]. pose proof (mr_part_fresh u mem Hu) as Hfresh.
  pose proof (stub_memory_values u ipc_call l4_ipc_error (ob_proto (co_iface c)) (ob_demand (co_iface c)) (h_method h) La args mc Hu
    (fun w cap tag m => ipc_call_keeps u w cap tag m Hne)) as Heq.
  destruct (Hfit _ Hfresh) as [mr Hmr].
  destruct (stub_refines (ob_proto (co_iface c)) (proto_fits _ Hi) (ob_handlers (co_iface c)) (ob_demand (co_iface c))
      (call_on_values u ipc_call) (fun w => l4_ipc_error w.1)
      (fun w l' o' m => w.1 = (l', o') /\ only_regs [u; us] mem w.2 /\ part (l4_utcb_mr_u u) MR_SIZE w.2 = m)
      callbacks (ob_addr (co_iface c)) h args (view u mc) p a mr (set_mr l (part (l4_utcb_mr_u us) MR_SIZE mem)) o res o')
    as (l' & m' & w' & Hst & (Hw1 & Ho & Hpm) & [_ Hh'] & _).
  - by apply callbacks_object.
  - done.
  - by apply (ret_lawful _ _ Hi).
  - done.
  - by apply (op_fits _ _ Hi).
  - apply (find_key (fun h => m_op (h_method h))); [by apply ops_differ | done].
  - done.
  - done.
  - split; [by apply mr_part_fresh | done].
  - intros tag regs t m l' o2 Hregs Hserve [Hl' _] Hm. rewrite <- Hg in Hserve.
    destruct (ipc_call_values u l o mem (co_cap c) tag regs t m l' o2 Hne Hu Hus Hregs Hserve Hl' Hm) as (mem' & Hcall & Hrest).
    eexists. split; [exact Hcall | by cbn].
  - done.
  - done.
  - done.
  - rewrite Hst in Heq. destruct Heq as (mc' & -> & Hc & Hs & Hal & Hw & Hpart & Hstore). cbn in *. exists mc'. split; [done|].
    rewrite <- Hpm, store_part_same in Hstore by (by apply Ho || apply mr_inside). injection Hstore as Hm.
    rewrite <- Hw, Hw1, <- Hs, <- Hal, <- Hc, <- Hm. done.
Qed.

(** One call of the system. *)
Lemma remote_call_refines `{!Registered} ca sy x o' :
  system_ok sy -> call_fits (identities sy) ca -> local_call ca (sy_server sy).2 = Done (x, o') -> outcome_fits x ->
  exists sy', remote_call ca sy = Done (outcome_seen x, sy') /\ (sy_server sy').2 = o' /\ system_ok sy'
    /\ identities sy' = identities sy /\ only_regs (us :: caller (identities sy) ca) (sy_mem sy) (sy_mem sy').
Proof.
  intros (Hus & Hh & Hcl) (u & cap & o & Hid & Hin & Hargs & Hfit) Hloc Hout. unfold identities in Hid.
  rewrite lookup_fmap in Hid. destruct (sy_clients sy !! ca_client ca) as [c|] eqn:Hc; [|done]. cbn in Hid. injection Hid as <- <- <-.
  pose proof (Hcl _ _ Hc) as Hok. unfold local_call in Hloc.
  destruct (h_fn _ _ _) as [[r o2]| | |] eqn:Hfn; try done. cbn in Hloc. injection Hloc as <- <-.
  destruct (sy_server sy) as [l ob] eqn:Hsv. cbn [fst snd] in *.
  destruct (stub_on_system _ _ c _ l ob r o2 Hok Hus Hh Hin Hargs Hfit Hfn Hout) as (mc & Hrun & Hcap & Hsl & Ho & Hhk & Honly).
  unfold remote_call. rewrite Hc, Hsv, Hrun. estep. eexists. split; [done|]. cbn. split; [done|].
  assert (forall i d, <[ ca_client ca := {| co_utcb := co_utcb c; co_cap := mc_cap mc; co_iface := co_iface c; co_slots := mc_slots mc; co_alloc := mc_alloc mc |} ]>
      (sy_clients sy) !! i = Some d -> client_ok (mc_mem mc) d) as Hall.
  { intros i d [[_ <-]|[_ Hd]]%lookup_insert_Some; [|by apply (client_ok_mem _ _ _ _ Honly), (Hcl i)].
    destruct Hok as (? & ? & ? & ? & _). unfold client_ok, slots_ready. cbn. rewrite Hcap. split_and!; try done; [by apply Honly | eauto]. }
  split; [split_and!; [by apply Honly | done | exact Hall]|]. split.
  - unfold identities. cbn. rewrite fmap_insert. apply insert_id. rewrite lookup_fmap, Hc. cbn. unfold identity. cbn. by rewrite Hcap.
  - refine (only_regs_sub _ _ _ _ _ Honly). unfold caller, identities. rewrite lookup_fmap, Hc. cbn. set_solver.
Qed.

End System.

(** ** Objects of generated interfaces *)
Section Derived.
Import Derive.Meta Derive.Iface Codegen.Codegen.
Context {UC : UtcbConsts} {B : Build} {Expr : Type} {PR : Printing Expr} {Ob : Type}.
Context (serialiser : Type_ -> option Ser) (serialiser_laws : forall t s, serialiser t = Some s -> SerLaws s).
Context (eval : Expr -> Z).

(** An object that implements what the macros make of an interface's source. *)
Definition derived (o : Object (Ob := Ob)) : Prop :=
  exists nm (items : list (TraitItem (Expr := Expr))) i ls e,
    zlen (declared items) < 2 ^ 31 /\ parse nm items = Done (Ok i) /\ gen_iface i = Done ls /\ iface_back ls = Some e
    /\ sint 48 (eval (e_proto e)) /\ ob_proto o = eval (e_proto e) /\ ob_demand o = e_caps e
    /\ implements serialiser (ob_handlers o) (e_fns e).

(** They are what the loop needs: the numbering keeps opcodes apart. *)
Lemma derived_registered (objects : list (Object (Ob := Ob))) :
  NoDup (ob_addr <$> objects) -> (forall o, o ∈ objects -> derived o) -> Registered objects.
Proof using serialiser_laws.
  intros Hnd Hd.
  assert (forall o, o ∈ objects -> sint 48 (ob_proto o) /\ exists ms, zlen ms < 2 ^ 31 /\ implements serialiser (ob_handlers o) (bounds 0 ms)) as Hi.
  { intros o Ho. destruct (Hd o Ho) as (nm & items & i & ls & e & Hl & Hp & Hg & Hb & Hpr & -> & _ & Himp). split; [done|].
    destruct (expand_spec _ _ _ Hl Hp) as (ls' & Hg' & Hb'). rewrite Hg in Hg'. simplify_eq. rewrite Hb in Hb'.
    destruct (accepted items i); simplify_eq. by exists (declared items). }
  split; [done | | | | |].
  - intros o Ho. by apply Hi.
  - intros o Ho. destruct (Hi o Ho) as (_ & ms & Hl & Him). erewrite implements_ops, bounds_ops by done.
    apply NoDup_fmap_2; [intros x y; lia | apply NoDup_seqZ].
  - intros o h Ho Hh. destruct (Hi o Ho) as (_ & ms & Hl & Him). by eapply implements_bounds.
  - intros o h Ho Hh. destruct (Hi o Ho) as (_ & ms & _ & Him). destruct (implements_fn serialiser serialiser_laws _ _ h Him Hh) as [f Hf].
    constructor. by eapply (rpc_method_laws serialiser serialiser_laws).
  - intros o h Ho Hh. destruct (Hi o Ho) as (_ & ms & _ & Him). destruct (implements_fn serialiser serialiser_laws _ _ h Him Hh) as [f Hf].
    by eapply (rpc_method_laws serialiser serialiser_laws).
Qed.
End Derived.

(** ** A counter and a lamp, used from two threads

    The server's thread has its block at 0x2000; two client objects of different
    interfaces share the thread at 0x1000, a third one is used from 0x3000. *)
Module Concrete.
#[local] Existing Instance l4re_err_consts.
#[local] Existing Instance l4re_tag_consts.
#[local] Existing Instance l4re_cap_consts.
#[local] Existing Instance counter_alloc.
#[local] Existing Instance l4re_utcb_consts.
#[local] Existing Instance debug_build.
#[local] Existing Instance UtcbBlock.UtcbBlock.Concrete.block_layout.

Definition add : Handler (Z * Z) := {|
  h_method := {| m_op := 0; m_args := [pod_ser u32]; m_ret := pod_ser u64 |};
  h_fn := fun '(n, _) '(count, lamp) =>
    if n =? 0 then Done (Err (InvalidArg "nothing to add" None), (count, lamp)) else Done (Ok (count + n), (count + n, lamp)) |}.
Definition switch : Handler (Z * Z) := {|
  h_method := {| m_op := 0; m_args := [pod_ser u32]; m_ret := unit_ser |};
  h_fn := fun '(n, _) '(count, lamp) => Done (Ok tt, (count, n)) |}.
Definition counter : Object := {| ob_addr := 0x100; ob_proto := 42; ob_demand := 0; ob_handlers := [add] |}.
Definition lamp : Object := {| ob_addr := 0x200; ob_proto := 43; ob_demand := 0; ob_handlers := [switch] |}.
Definition objects : list Object := [counter; lamp].
Definition gate (cap : Z) : Z := if cap =? 4096 then 0x100 else 0x200.
#[local] Ltac each_object := intros ? [->|[->|[]%elem_of_nil]%elem_of_cons]%elem_of_cons.
#[local] Instance objects_registered : Registered objects.
Proof.
  assert (forall h, h ∈ ob_handlers counter -> h = add) as H1 by (by intros h ->%list_elem_of_singleton).
  assert (forall h, h ∈ ob_handlers lamp -> h = switch) as H2 by (by intros h ->%list_elem_of_singleton).
  split; [apply (bool_decide_unpack _); by vm_compute | | | intros o h Ho; revert h; revert o Ho ..]; each_object.
  - unfold sint. cbn. lia.
  - unfold sint. cbn. lia.
  - apply NoDup_singleton.
  - apply NoDup_singleton.
  - intros h ->%H1. unfold sint. cbn. lia.
  - intros h ->%H2. unfold sint. cbn. lia.
  - intros h ->%H1. exact (inhabits (pod_laws u32, tt)).
  - intros h ->%H2. exact (inhabits (pod_laws u32, tt)).
  - intros h ->%H1. apply (pod_laws u64).
  - intros h ->%H2. apply unit_laws.
Qed.

Definition object_of (utcb cap : Z) (o : Object) : ClientObj (P := Bufferless) (Ob := Z * Z) :=
  {| co_utcb := utcb; co_cap := cap; co_iface := o; co_slots := BufferlessMk; co_alloc := 0%nat |}.
Definition clients : gmap Z (ClientObj (P := Bufferless) (Ob := Z * Z)) :=
  <[ 1 := object_of 0x1000 4096 counter ]> (<[ 2 := object_of 0x1000 8192 lamp ]> {[ 3 := object_of 0x3000 8192 lamp ]}).
Definition blocks : gmap Z (list Z) :=
  <[ 0x1000 := replicate 1024 7 ]> (<[ 0x2000 := replicate 1024 9 ]> {[ 0x3000 := replicate 1024 0 ]}).
Definition system : System := {| sy_clients := clients; sy_mem := blocks; sy_server := (Counter.server, (37, 0)) |}.
Definition calls : list Call :=
  [ {| ca_client := 1; ca_handler := add; ca_args := (5, tt) |}; {| ca_client := 3; ca_handler := switch; ca_args := (1, tt) |};
    {| ca_client := 1; ca_handler := add; ca_args := (0, tt) |}; {| ca_client := 2; ca_handler := switch; ca_args := (9, tt) |} ].
Definition run := run_calls (remote_call (P := Bufferless) (Ob := Z * Z) objects gate 0x2000 (fun _ => 0)).
Definition add_says (r : Result Z) : Outcome := existT (h_method add) r.
Definition switch_says (r : Result unit) : Outcome := existT (h_method switch) r.

Lemma block_of u b : 0 <= b < 256 -> blocks !! u = Some (replicate 1024 b) -> block_ok u blocks.
Proof. intros Hb Hu. eexists. split; [exact Hu|]. split; [done|]. by apply Forall_replicate. Qed.
Lemma system_in_order : system_ok objects gate 0x2000 system.
Proof.
  assert (block_ok 0x1000 blocks) as H1 by (by apply (block_of _ 7)). assert (block_ok 0x2000 blocks) as H2 by (by apply (block_of _ 9)).
  assert (block_ok 0x3000 blocks) as H3 by (by apply (block_of _ 0)).
  split; [done|]. split; [done|]. intros i c Hi.
  assert (forall u cap o, o ∈ objects -> gate cap = ob_addr o -> ob_demand o = 0 -> u <> 0x2000 -> block_ok u blocks ->
    client_ok objects gate 0x2000 blocks (object_of u cap o)) as Hok.
  { intros u cap o ? ? Hd ? ?. unfold client_ok, slots_ready. cbn. rewrite Hd. split_and!; try done. by exists BufferlessMk, 0%nat. }
  cbn in Hi. unfold clients in Hi. rewrite !lookup_insert_Some, lookup_singleton_Some in Hi.
  destruct Hi as [[_ <-] | [_ [[_ <-] | [_ [_ <-]]]]]; apply Hok; try done; unfold objects; set_solver.
Qed.
Lemma u32_fits n b : mr_fresh b ->
  exists mr, (Mr.write i32 0 ;? write_args [pod_ser u32] (n, tt))%rust (Mr.from_mr b) = Done (Ok tt, mr).
Proof.
  intros Hb. pose proof (from_mr_ok b Hb) as Hok.
  destruct (mr_write_fits i32 0 _ Hok) as (m1 & Hw1 & Hok1 & Ho1); [by vm_compute|].
  destruct (mr_write_fits u32 n _ Hok1) as (m2 & Hw2 & _); [rewrite Ho1; by vm_compute|].
  exists m2. unfold rbind. rewrite Hw1. cbn [write_args pod_ser ser_write]. unfold rbind. by rewrite Hw2.
Qed.
End Concrete.
End RpcSystem.
