(* ===== verification/Runqueue.v ===== *)
(** Run queues: vectors of task ids kept in the order of a key by
    [binary_search_by_key] and [Vec::insert], as both scheduler policies of
    [crates/l4/scheduler] do.

    The standard library does not say which of several equal keys a binary
    search finds, nor anything about unsorted slices; the class [BinarySearch] is
    its documented behaviour, [linear_search] one function with it. *)
From S2P Require Import Prelude.
From Stdlib Require Import ZArith Lia Sorted.
From stdpp Require Import base list gmap sorting.
Open Scope Z_scope.

(** [slice::binary_search_by_key] on the slice's keys: [inl] for [Ok]. *)
Class BinarySearch := {
  binary_search : list Z -> Z -> nat + nat;
  binary_search_bound : forall l k,
    match binary_search l k with inl i => (i < length l)%nat | inr i => (i <= length l)%nat end;
  binary_search_sorted : forall l k, StronglySorted Z.le l ->
    match binary_search l k with
    | inl i => l !! i = Some k
    | inr i => Forall (fun x => x < k) (take i l) /\ Forall (fun x => k < x) (drop i l)
    end;
}.

(** [.unwrap_or_else(|e| e)]. *)
Definition position `{BinarySearch} (keys : list Z) (k : Z) : nat :=
  match binary_search keys k with inl i => i | inr i => i end.
(** [Vec::insert]: panics behind the end. *)
Definition vec_insert {A} (l : list A) (i : nat) (x : A) : exec (list A) :=
  if decide (i <= length l)%nat then Done (take i l ++ x :: drop i l) else Panics.
(** The keys of the elements. (The search only evaluates those it visits; a
    key that panics is one of an id that is not in the table.) *)
Fixpoint keys_of (key : Z -> exec Z) (l : list Z) : exec (list Z) :=
  match l with
  | [] => Done []
  | x :: l => k ← key x; ks ← keys_of key l; Done (k :: ks)
  end.
Definition insert_sorted `{BinarySearch} (key : Z -> exec Z) (l : list Z) (k id : Z) : exec (list Z) :=
  ks ← keys_of key l;
  vec_insert l (position ks k) id.

(** [retain(|&tid| tid != x)]. *)
Definition retain_ne (x : Z) (l : list Z) : list Z := filter (fun y => y <> x) l.

Lemma keys_of_ok key f l : (forall x, x ∈ l -> key x = Done (f x)) -> keys_of key l = Done (f <$> l).
Proof.
  induction l as [|x l IH]; intros Hk; [done|]. cbn.
  rewrite Hk by set_solver. cbn. rewrite IH by set_solver. done.
Qed.

Section WithSearch.
Context `{BinarySearch}.

Lemma position_bound ks k : (position ks k <= length ks)%nat.
Proof.
  pose proof (binary_search_bound ks k). unfold position. destruct (binary_search ks k); lia.
Qed.

(** On a sorted slice the position splits it around the key. *)
Lemma position_sorted ks k : StronglySorted Z.le ks ->
  Forall (fun x => x <= k) (take (position ks k) ks) /\ Forall (fun x => k <= x) (drop (position ks k) ks).
Proof.
  intros Hs. pose proof (binary_search_sorted ks k Hs) as Hb. unfold position.
  destruct (binary_search ks k) as [i|i].
  - pose proof Hb as Hsp. apply list_elem_of_split_length in Hsp as (l1 & l2 & -> & ->).
    rewrite take_app_length, drop_app_length. apply StronglySorted_app in Hs as (H1 & H2 & H3).
    split; apply Forall_forall; intros x Hx.
    + apply H1; set_solver.
    + apply elem_of_cons in Hx as [-> | Hx]; [lia|].
      inversion H3 as [|? ? ? Hf]; subst. rewrite Forall_forall in Hf. by apply Hf.
  - destruct Hb as [H1 H2]. split; eapply Forall_impl; [exact H1 | cbn; lia | exact H2 | cbn; lia].
Qed.

(** [insert_sorted] puts the new id somewhere, in order if the queue was. *)
Lemma insert_sorted_spec key f l k id :
  (forall x, x ∈ l -> key x = Done (f x)) -> f id = k ->
  exists l1 l2, l = l1 ++ l2 /\ insert_sorted key l k id = Done (l1 ++ id :: l2)
    /\ (StronglySorted (fun a b => f a <= f b) l -> StronglySorted (fun a b => f a <= f b) (l1 ++ id :: l2)).
Proof.
  intros Hk Hid. unfold insert_sorted. rewrite (keys_of_ok _ _ _ Hk). cbn.
  set (i := position (f <$> l) k). pose proof (position_bound (f <$> l) k) as Hb. rewrite length_fmap in Hb.
  exists (take i l), (drop i l). split; [by rewrite take_drop|]. split.
  { unfold vec_insert. by rewrite decide_True by done. }
  intros Hs. assert (StronglySorted Z.le (f <$> l)) as Hsf.
  { clear -Hs. induction Hs; cbn; constructor; [done|].
    apply Forall_fmap. eapply Forall_impl; [eassumption|]. done. }
  destruct (position_sorted _ k Hsf) as [H1 H2]. fold i in H1, H2.
  rewrite <- fmap_take in H1. rewrite <- fmap_drop in H2. rewrite Forall_fmap in H1, H2.
  rewrite Forall_forall in H1, H2. cbn in H1, H2.
  rewrite <- (take_drop i l) in Hs. apply StronglySorted_app in Hs as (H3 & H4 & H5).
  apply StronglySorted_app. split_and!; [|done|].
  - intros x y Hx Hy. apply elem_of_cons in Hy as [-> | Hy]; [rewrite Hid; by apply H1 | by apply H3].
  - constructor; [done|]. apply Forall_forall. intros y Hy. rewrite Hid. by apply H2.
Qed.
End WithSearch.

Lemma retain_ne_elem x y l : y ∈ retain_ne x l <-> y ∈ l /\ y <> x.
Proof. unfold retain_ne. rewrite list_elem_of_filter. tauto. Qed.
Lemma retain_ne_id x l : x ∉ l -> retain_ne x l = l.
Proof.
  unfold retain_ne. induction l as [|y l IH]; intros Hx; [done|].
  rewrite filter_cons_True by set_solver. by rewrite IH by set_solver.
Qed.
Lemma retain_ne_NoDup x l : NoDup l -> NoDup (retain_ne x l).
Proof. apply NoDup_filter. Qed.
Lemma filter_sorted {A} (R : A -> A -> Prop) (Q : A -> Prop) `{!forall x, Decision (Q x)} l :
  StronglySorted R l -> StronglySorted R (filter Q l).
Proof.
  induction 1 as [|x l Hl IH Hx]; [constructor|].
  rewrite filter_cons. destruct (decide (Q x)); [|done]. constructor; [done|].
  apply Forall_forall. intros y Hy. rewrite Forall_forall in Hx.
  apply Hx. by apply list_elem_of_filter in Hy as [_ ?].
Qed.

(** Keys that only change outside the list do not matter. *)
Lemma sorted_ext (f g : Z -> Z) l : (forall x, x ∈ l -> f x = g x) ->
  StronglySorted (fun a b => f a <= f b) l -> StronglySorted (fun a b => g a <= g b) l.
Proof.
  intros He Hs. induction Hs as [|x l Hl IH Hx]; constructor; [apply IH; set_solver|].
  rewrite Forall_forall in Hx |- *. intros y Hy. rewrite <- (He x), <- (He y) by set_solver. by apply Hx.
Qed.

(** A search with the documented behaviour: the first key not below [k]. *)
Fixpoint first_not_below (l : list Z) (k : Z) : nat :=
  match l with [] => O | x :: l => if x <? k then S (first_not_below l k) else O end.
Definition linear_search : BinarySearch.
Proof.
  refine {| binary_search := fun l k =>
    let i := first_not_below l k in
    match l !! i with Some x => if x =? k then inl i else inr i | None => inr i end |}.
  - intros l k. cbv zeta. assert (first_not_below l k <= length l)%nat.
    { induction l as [|x l IH]; cbn; [lia|]. destruct (x <? k); lia. }
    destruct (l !! _) as [x|] eqn:E; [|done]. apply lookup_lt_Some in E. by destruct (x =? k); lia.
  - intros l k Hs. cbv zeta. set (i := first_not_below l k).
    assert (Forall (fun x => x < k) (take i l)) as Hlt.
    { subst i. clear Hs. induction l as [|x l IH]; cbn; [constructor|].
      destruct (x <? k) eqn:E; cbn; zb; constructor; done. }
    assert (forall x, l !! i = Some x -> k <= x) as Hge.
    { subst i. clear -l. induction l as [|x l IH]; cbn; [done|]. intros y.
      destruct (x <? k) eqn:E; cbn; zb; [apply IH | intros [= <-]; lia]. }
    destruct (l !! i) as [x|] eqn:E.
    + destruct (x =? k) eqn:Ek; zb; [by subst|]. split; [done|].
      rewrite <- (take_drop_middle _ _ _ E) in Hs. apply StronglySorted_app in Hs as (_ & _ & Hs).
      inversion Hs as [|? ? ? Hf]; subst. rewrite (drop_S _ _ _ E). specialize (Hge x eq_refl).
      constructor; [lia|]. eapply Forall_impl; [exact Hf | cbn; lia].
    + split; [done|]. apply lookup_ge_None in E. by rewrite drop_ge by done.
Defined.
