(* ===== verification/Autosar.v ===== *)
(** The AUTOSAR-like scheduler policy, [crates/l4/scheduler/autosar.rs]: fixed
    priorities (a lower number is more urgent), preemption, and mutexes with
    priority inheritance.

    The state is the struct's, and the list of [run_thread] calls made, in
    order.  A map index that panics in the source panics here. *)
From S2P Require Import Prelude Runqueue.
From Stdlib Require Import ZArith Lia Sorted.
From stdpp Require Import base list gmap sorting.
Open Scope Z_scope.

Module Autosar.

Record Task := {
  period : Z;
  base_priority : Z;
  current_priority : Z;
  thread_cap : Z;
  owned_mutexes : gset Z;
}.
Record MutexState := { owner : option Z; waiters : list Z }.
Record AutosarScheduler := {
  scheduler_cap : Z;
  tasks : gmap Z Task;
  ready : list Z;
  current : option Z;
  mutexes : gmap Z MutexState;
  (** the calls [run_thread(scheduler_cap, thread_cap, null)] *)
  runs : list (Z * Z);
}.

Definition set_tasks (s : AutosarScheduler) (ts : gmap Z Task) : AutosarScheduler :=
  {| scheduler_cap := scheduler_cap s; tasks := ts; ready := ready s; current := current s;
     mutexes := mutexes s; runs := runs s |}.
Definition set_ready (s : AutosarScheduler) (r : list Z) : AutosarScheduler :=
  {| scheduler_cap := scheduler_cap s; tasks := tasks s; ready := r; current := current s;
     mutexes := mutexes s; runs := runs s |}.
Definition set_current (s : AutosarScheduler) (c : option Z) : AutosarScheduler :=
  {| scheduler_cap := scheduler_cap s; tasks := tasks s; ready := ready s; current := c;
     mutexes := mutexes s; runs := runs s |}.
Definition set_mutexes (s : AutosarScheduler) (m : gmap Z MutexState) : AutosarScheduler :=
  {| scheduler_cap := scheduler_cap s; tasks := tasks s; ready := ready s; current := current s;
     mutexes := m; runs := runs s |}.
Definition add_run (s : AutosarScheduler) (r : Z * Z) : AutosarScheduler :=
  {| scheduler_cap := scheduler_cap s; tasks := tasks s; ready := ready s; current := current s;
     mutexes := mutexes s; runs := runs s ++ [r] |}.
Definition set_prio (t : Task) (p : Z) : Task :=
  {| period := period t; base_priority := base_priority t; current_priority := p;
     thread_cap := thread_cap t; owned_mutexes := owned_mutexes t |}.
Definition set_owned (t : Task) (o : gset Z) : Task :=
  {| period := period t; base_priority := base_priority t; current_priority := current_priority t;
     thread_cap := thread_cap t; owned_mutexes := o |}.

Section Ops.
Context {BS : BinarySearch}.

(** [self.tasks[&id].current_priority]. *)
Definition prio_of (ts : gmap Z Task) (id : Z) : exec Z :=
  t ← unwrap (ts !! id); Done (current_priority t).

Definition new (cap : Z) : AutosarScheduler :=
  {| scheduler_cap := cap; tasks := ∅; ready := []; current := None; mutexes := ∅; runs := [] |}.

Definition add_task (id period thread_cap : Z) (s : AutosarScheduler) : AutosarScheduler :=
  set_tasks s (<[id := {| period := period; base_priority := period; current_priority := period;
                          thread_cap := thread_cap; owned_mutexes := ∅ |}]> (tasks s)).

Definition insert_ready_sorted (id : Z) (s : AutosarScheduler) : exec AutosarScheduler :=
  prio ← prio_of (tasks s) id;
  r ← insert_sorted (prio_of (tasks s)) (ready s) prio id;
  Done (set_ready s r).

Definition run_next (s : AutosarScheduler) : exec AutosarScheduler :=
  match ready s with
  | [] => Done s
  | next_id :: rest =>
    let s := set_current (set_ready s rest) (Some next_id) in
    t ← unwrap (tasks s !! next_id);
    Done (add_run s (scheduler_cap s, thread_cap t))
  end.

Definition preempt (s : AutosarScheduler) : exec AutosarScheduler :=
  s ← match current s with
      | Some cur => insert_ready_sorted cur (set_current s None)
      | None => Done s
      end;
  run_next s.

Definition make_ready (id : Z) (s : AutosarScheduler) : exec AutosarScheduler :=
  if bool_decide (current s = Some id) || bool_decide (id ∈ ready s) then Done s
  else
    s ← insert_ready_sorted id s;
    match current s with
    | Some cur =>
      cur_prio ← prio_of (tasks s) cur;
      new_prio ← prio_of (tasks s) id;
      if new_prio <? cur_prio then preempt s else Done s
    | None => run_next s
    end.

Definition lock_mutex (task mutex : Z) (s : AutosarScheduler) : exec AutosarScheduler :=
  (* [entry(mutex).or_insert(..)] *)
  let m := default {| owner := None; waiters := [] |} (mutexes s !! mutex) in
  let s := set_mutexes s (<[mutex := m]> (mutexes s)) in
  match owner m with
  | None =>
    let s := set_mutexes s (<[mutex := {| owner := Some task; waiters := waiters m |}]> (mutexes s)) in
    t ← unwrap (tasks s !! task);
    Done (set_tasks s (<[task := set_owned t ({[mutex]} ∪ owned_mutexes t)]> (tasks s)))
  | Some own =>
    let s := set_ready s (retain_ne task (ready s)) in
    prio ← prio_of (tasks s) task;
    w ← insert_sorted (prio_of (tasks s)) (waiters m) prio task;
    let s := set_mutexes s (<[mutex := {| owner := Some own; waiters := w |}]> (mutexes s)) in
    owner_task ← unwrap (tasks s !! own);
    let s := set_tasks s (<[own := set_prio owner_task (Z.min (current_priority owner_task) prio)]> (tasks s)) in
    s ← (if bool_decide (own ∈ ready s) then
           insert_ready_sorted own (set_ready s (retain_ne own (ready s)))
         else Done s);
    if bool_decide (current s = Some task) then run_next (set_current s None) else Done s
  end.

(** The priority a task falls back to: its own, or that of the first waiter of
    a mutex it still holds. *)
Definition inherited (ms : gmap Z MutexState) (ts : gmap Z Task) (p m_id : Z) : exec Z :=
  match ms !! m_id with
  | Some mstate =>
    match waiters mstate with
    | waiter :: _ => wp ← prio_of ts waiter; Done (Z.min p wp)
    | [] => Done p
    end
  | None => Done p
  end.
Fixpoint fold_inherited (ms : gmap Z MutexState) (ts : gmap Z Task) (p : Z) (l : list Z) : exec Z :=
  match l with
  | [] => Done p
  | m_id :: l => p ← inherited ms ts p m_id; fold_inherited ms ts p l
  end.

(** The end of [unlock_mutex]: the task, now at [new_prio], is re-queued, or
    preempted if it runs and is no longer the most urgent. *)
Definition requeue (task new_prio : Z) (s : AutosarScheduler) : exec AutosarScheduler :=
  if bool_decide (task ∈ ready s) then
    insert_ready_sorted task (set_ready s (retain_ne task (ready s)))
  else if bool_decide (current s = Some task) then
    match ready s with
    | next_id :: _ =>
      next_prio ← prio_of (tasks s) next_id;
      if next_prio <? new_prio then preempt s else Done s
    | [] => Done s
    end
  else Done s.

Definition unlock_mutex (task mutex : Z) (s : AutosarScheduler) : exec AutosarScheduler :=
  match mutexes s !! mutex with
  | None => Done s
  | Some m =>
    if bool_decide (owner m = Some task) then
      s ← match waiters m with
          | next :: rest =>
            let s := set_mutexes s (<[mutex := {| owner := Some next; waiters := rest |}]> (mutexes s)) in
            t ← unwrap (tasks s !! next);
            make_ready next (set_tasks s (<[next := set_owned t ({[mutex]} ∪ owned_mutexes t)]> (tasks s)))
          | [] => Done (set_mutexes s (<[mutex := {| owner := None; waiters := [] |}]> (mutexes s)))
          end;
      t ← unwrap (tasks s !! task);
      let t := set_owned t (owned_mutexes t ∖ {[mutex]}) in
      let s := set_tasks s (<[task := t]> (tasks s)) in
      (* the mutexes in the order of the set *)
      new_prio ← fold_inherited (mutexes s) (tasks s) (base_priority t) (elements (owned_mutexes t));
      let s := set_tasks s (<[task := set_prio t new_prio]> (tasks s)) in
      requeue task new_prio s
    else Done s
  end.

Definition current_task (s : AutosarScheduler) : option Z := current s.
Definition task_priority (id : Z) (s : AutosarScheduler) : exec Z := prio_of (tasks s) id.

(** * The API as a transition system

    The callers' discipline: a new id is added once; a task that waits for a
    mutex is not made ready; only the running task locks and unlocks; and a task
    that blocks does not block on a task that is itself blocked. *)
Definition blocked (s : AutosarScheduler) (id : Z) : Prop :=
  exists m st, mutexes s !! m = Some st /\ id ∈ waiters st.

Inductive call := AddTask (id period cap : Z) | MakeReady (id : Z) | Lock (task m : Z) | Unlock (task m : Z).
Definition exec_call (c : call) (s : AutosarScheduler) : exec AutosarScheduler :=
  match c with
  | AddTask id p cap => Done (add_task id p cap s)
  | MakeReady id => make_ready id s
  | Lock t m => lock_mutex t m s
  | Unlock t m => unlock_mutex t m s
  end.
Definition allowed (c : call) (s : AutosarScheduler) : Prop :=
  match c with
  | AddTask id _ _ => tasks s !! id = None
  | MakeReady id => is_Some (tasks s !! id) /\ ~ blocked s id
  | Lock t m => current s = Some t /\
      (forall st o, mutexes s !! m = Some st -> owner st = Some o -> o <> t /\ ~ blocked s o)
  | Unlock t m => current s = Some t
  end.

Inductive reachable (cap : Z) : AutosarScheduler -> Prop :=
| reach_new : reachable cap (new cap)
| reach_step s c s' : reachable cap s -> allowed c s -> exec_call c s = Done s' -> reachable cap s'.
End Ops.

(** * Invariant *)
Section Invariant.
Context {BS : BinarySearch}.

Definition pr (ts : gmap Z Task) (id : Z) : Z :=
  match ts !! id with Some t => current_priority t | None => 0 end.
Definition known (ts : gmap Z Task) (id : Z) : Prop := is_Some (ts !! id).
Definition runnable (s : AutosarScheduler) (x : Z) : Prop := x ∈ ready s \/ current s = Some x.

(** The ready queue: known tasks, once each, most urgent first. *)
Definition Queue (f : Z -> Z) (K : Z -> Prop) (r : list Z) : Prop :=
  NoDup r /\ (forall x, x ∈ r -> K x) /\ StronglySorted (fun a b => f a <= f b) r.
(** The processor is never left to a task less urgent than a ready one, nor
    idle while a task is ready. *)
Definition RunInv (f : Z -> Z) (K : Z -> Prop) (r : list Z) (c : option Z) : Prop :=
  Queue f K r /\
  match c with
  | Some c => K c /\ c ∉ r /\ (forall x, x ∈ r -> f c <= f x)
  | None => r = []
  end.
Abbreviation run_inv s := (RunInv (pr (tasks s)) (known (tasks s)) (ready s) (current s)).
Abbreviation queue_ok s := (Queue (pr (tasks s)) (known (tasks s)) (ready s)).
Definition same (s s' : AutosarScheduler) : Prop :=
  tasks s' = tasks s /\ mutexes s' = mutexes s /\ scheduler_cap s' = scheduler_cap s.

Lemma prio_of_known ts id : known ts id -> prio_of ts id = Done (pr ts id).
Proof. intros [t Ht]. unfold prio_of, pr. rewrite Ht. done. Qed.

Lemma queue_ext f g K r : (forall x, x ∈ r -> f x = g x) -> Queue f K r -> Queue g K r.
Proof. intros He (?&?&?). split_and!; [done | done |]. by eapply sorted_ext. Qed.
Lemma queue_known f (K K' : Z -> Prop) r : (forall x, K x -> K' x) -> Queue f K r -> Queue f K' r.
Proof. intros He (?&?&?). split_and!; auto. Qed.
Lemma queue_retain f K r x : Queue f K r -> Queue f K (retain_ne x r).
Proof.
  intros (?&Hk&?). split_and!; [by apply retain_ne_NoDup | | by apply filter_sorted].
  intros y Hy. apply Hk. by apply retain_ne_elem in Hy as [? _].
Qed.
Lemma queue_tail f K x r : Queue f K (x :: r) -> RunInv f K r (Some x).
Proof.
  intros (Hn & Hk & Hs). apply NoDup_cons in Hn as [? ?]. inversion Hs as [|? ? ? Hf]; subst.
  rewrite Forall_forall in Hf. split; split_and!; try done; intros; apply Hk; set_solver.
Qed.

Lemma insert_ready_spec s id : queue_ok s -> known (tasks s) id -> id ∉ ready s ->
  exists r, insert_ready_sorted id s = Done (set_ready s r) /\ Queue (pr (tasks s)) (known (tasks s)) r
    /\ forall x, x ∈ r <-> x = id \/ x ∈ ready s.
Proof.
  intros (Hn & Hk & Hs) Hid Hni. unfold insert_ready_sorted. rewrite prio_of_known by done. cbn.
  destruct (insert_sorted_spec (prio_of (tasks s)) (pr (tasks s)) (ready s) (pr (tasks s) id) id)
    as (l1 & l2 & Hr & -> & Hsort); [|done|].
  { intros x Hx. by apply prio_of_known, Hk. }
  cbn. exists (l1 ++ id :: l2). split; [done|]. split; [split_and!|].
  - rewrite Hr in Hn, Hni. rewrite <- (Permutation_middle l1 l2 id).
    constructor; [set_solver|]. done.
  - intros x Hx. destruct (decide (x = id)) as [->|]; [done|]. apply Hk. rewrite Hr. set_solver.
  - by apply Hsort.
  - intros x. rewrite Hr. set_solver.
Qed.

Lemma run_next_spec s : queue_ok s -> current s = None ->
  exists s', run_next s = Done s' /\ run_inv s' /\ same s s' /\ forall x, runnable s' x <-> x ∈ ready s.
Proof.
  intros Hq Hc. unfold run_next. destruct (ready s) as [|id rest] eqn:Hr.
  - exists s. split; [done|]. rewrite Hr, Hc. split_and!; try done. unfold runnable. rewrite Hr, Hc. set_solver.
  - pose proof Hq as (_ & Hk & _). destruct (Hk id ltac:(set_solver)) as [t Ht]. cbn. rewrite Ht. cbn.
    eexists. split; [done|]. split; [|split].
    + apply (queue_tail _ _ _ _ Hq).
    + done.
    + intros x. unfold runnable. cbn. rewrite elem_of_cons. naive_solver.
Qed.

Lemma preempt_spec s c : queue_ok s -> current s = Some c -> known (tasks s) c -> c ∉ ready s ->
  exists s', preempt s = Done s' /\ run_inv s' /\ same s s' /\ forall x, runnable s' x <-> runnable s x.
Proof.
  intros Hq Hc Hk Hn. unfold preempt. rewrite Hc.
  destruct (insert_ready_spec (set_current s None) c Hq Hk Hn) as (r & -> & Hq' & Hel). estep.
  destruct (run_next_spec (set_ready (set_current s None) r) Hq' eq_refl) as (s' & -> & Hi & Hs & Hr).
  exists s'. split_and!; try done. intros x. rewrite Hr. cbn. rewrite Hel. cbn. unfold runnable. rewrite Hc.
  naive_solver.
Qed.

Lemma make_ready_spec s id : run_inv s -> known (tasks s) id ->
  exists s', make_ready id s = Done s' /\ run_inv s' /\ same s s'
    /\ forall x, runnable s' x <-> runnable s x \/ x = id.
Proof.
  intros [Hq Hc] Hid. unfold make_ready.
  destruct (bool_decide (current s = Some id)) eqn:E1; cbn [orb].
  { apply bool_decide_eq_true in E1. exists s. split_and!; try done. intros x. unfold runnable. naive_solver. }
  destruct (bool_decide (id ∈ ready s)) eqn:E2.
  { apply bool_decide_eq_true in E2. exists s. split_and!; try done. intros x. unfold runnable. naive_solver. }
  apply bool_decide_eq_false in E1, E2.
  destruct (insert_ready_spec s id Hq Hid E2) as (r & -> & Hq' & Hel). estep. cbn [current tasks set_ready].
  destruct (current s) as [c|] eqn:Ec.
  - destruct Hc as (Hck & Hcn & Hcp). rewrite !prio_of_known by done. estep.
    destruct (_ <? _) eqn:Elt; zb.
    + destruct (preempt_spec (set_ready s r) c Hq' Ec Hck) as (s' & -> & Hi & Hs & Hr).
      { cbn. rewrite Hel. naive_solver. }
      exists s'. split_and!; try done; try apply Hs. intros x. rewrite Hr. unfold runnable. cbn. rewrite Hel.
      naive_solver.
    + eexists. split; [done|]. split; [|split]; [|done|].
      * split; [done|]. cbn. rewrite Ec. split_and!; [done | rewrite Hel; naive_solver |].
        intros x Hx. apply Hel in Hx as [-> | Hx]; [lia | by apply Hcp].
      * intros x. unfold runnable. cbn. rewrite Hel. naive_solver.
  - destruct (run_next_spec (set_ready s r) Hq' Ec) as (s' & -> & Hi & Hs & Hr).
    exists s'. split_and!; try done; try apply Hs. intros x. rewrite Hr. cbn. rewrite Hel. unfold runnable.
    rewrite Ec. naive_solver.
Qed.

(** ** Mutexes *)
(** A mutex's waiters are blocked, distinct, most urgent first; its owner holds
    it and has inherited the urgency of every waiter. *)
Definition MutexOk (ts : gmap Z Task) (R : Z -> Prop) (m : Z) (st : MutexState) : Prop :=
  (owner st = None -> waiters st = [])
  /\ NoDup (waiters st)
  /\ (forall w, w ∈ waiters st -> known ts w /\ ~ R w)
  /\ StronglySorted (fun a b => pr ts a <= pr ts b) (waiters st)
  /\ (forall o, owner st = Some o -> exists t, ts !! o = Some t /\ m ∈ owned_mutexes t
        /\ o ∉ waiters st /\ forall w, w ∈ waiters st -> pr ts o <= pr ts w).
Record MutInv (ts : gmap Z Task) (ms : gmap Z MutexState) (R : Z -> Prop) : Prop := {
  mut_ok : forall m st, ms !! m = Some st -> MutexOk ts R m st;
  mut_owned : forall o t m, ts !! o = Some t -> m ∈ owned_mutexes t ->
    exists st, ms !! m = Some st /\ owner st = Some o;
  mut_base : forall id t, ts !! id = Some t -> current_priority t <= base_priority t;
  mut_once : forall m1 st1 m2 st2 w, ms !! m1 = Some st1 -> ms !! m2 = Some st2 ->
    w ∈ waiters st1 -> w ∈ waiters st2 -> m1 = m2;
}.
Definition Inv (s : AutosarScheduler) : Prop :=
  run_inv s /\ MutInv (tasks s) (mutexes s) (runnable s).

Lemma mut_runnable ts ms (R R' : Z -> Prop) :
  (forall x, R' x -> R x) -> MutInv ts ms R -> MutInv ts ms R'.
Proof.
  intros HR [H1 H2 H3 H4]. split; [|done..]. intros m st Hm. destruct (H1 m st Hm) as (?&?&Hw&?&?).
  split_and!; try done; try (by apply Hw). intros w Hin. destruct (Hw w Hin). split; [done | naive_solver].
Qed.

Lemma pr_set_owned ts i t o x : ts !! i = Some t -> pr (<[i := set_owned t o]> ts) x = pr ts x.
Proof.
  intros Hi. unfold pr. destruct (decide (x = i)) as [->|].
  - by rewrite lookup_insert_eq, Hi.
  - by rewrite lookup_insert_ne.
Qed.
Lemma pr_set_prio ts i t p x : pr (<[i := set_prio t p]> ts) x = if decide (x = i) then p else pr ts x.
Proof.
  unfold pr. destruct (decide (x = i)) as [->|]; [by rewrite lookup_insert_eq | by rewrite lookup_insert_ne].
Qed.
Lemma known_insert ts i t x : known ts i -> known (<[i := t]> ts) x <-> known ts x.
Proof.
  unfold known. intros Hi. destruct (decide (x = i)) as [->|].
  - rewrite lookup_insert_eq. by split.
  - by rewrite lookup_insert_ne.
Qed.
Lemma run_ext f g (K K' : Z -> Prop) r c :
  (forall x, x ∈ r \/ c = Some x -> f x = g x) -> (forall x, K x -> K' x) ->
  RunInv f K r c -> RunInv g K' r c.
Proof.
  intros Hf HK [Hq Hc]. split; [apply (queue_known g K); [done|]; apply (queue_ext f); naive_solver|].
  destruct c as [c|]; [|done]. destruct Hc as (?&?&Hp). split_and!; auto.
  intros x Hx. rewrite <- !Hf by naive_solver. by apply Hp.
Qed.

(** [lock_mutex] on a free mutex. *)
Lemma lock_free_spec s task mutex :
  Inv s -> current s = Some task ->
  (forall st, mutexes s !! mutex = Some st -> owner st = None) ->
  exists s', lock_mutex task mutex s = Done s' /\ Inv s'
    /\ mutexes s' !! mutex = Some {| owner := Some task; waiters := [] |}
    /\ ready s' = ready s /\ current s' = Some task.
Proof.
  intros [Hrun [Hok Howned Hbase Honce]] Hcur Hfree. unfold lock_mutex.
  set (m := default {| owner := None; waiters := [] |} (mutexes s !! mutex)).
  assert (owner m = None /\ waiters m = []) as [Ho Hw].
  { subst m. destruct (mutexes s !! mutex) as [st|] eqn:E; [|done]. cbn.
    split; [by apply Hfree|]. apply (Hok _ _ E). by apply Hfree. }
  assert (exists t, tasks s !! task = Some t) as [t Ht].
  { destruct Hrun as [_ Hc]. rewrite Hcur in Hc. apply Hc. }
  rewrite Ho. cbn [tasks set_mutexes]. rewrite Ht. cbn [unwrap]. estep. eexists. split; [done|].
  cbn. rewrite insert_insert_eq, Hw. split; [|split_and!; [by rewrite lookup_insert_eq | done | done]].
  assert (known (tasks s) task) as Hk by (by exists t).
  split; [eapply run_ext; [| |exact Hrun]; cbn|].
  - intros x _. by rewrite pr_set_owned.
  - intros x. by rewrite known_insert.
  - cbn. change (runnable _) with (runnable s). split.
    + intros m' st Hm. destruct (decide (m' = mutex)) as [->|Hne].
      * rewrite lookup_insert_eq in Hm. simplify_eq. unfold MutexOk. cbn. split; [done|]. split; [apply NoDup_nil_2|]. split; [by intros w ?%not_elem_of_nil|]. split; [constructor|].
        intros o [= <-]. eexists. rewrite lookup_insert_eq. split; [done|]. cbn. split_and!; set_solver.
      * rewrite lookup_insert_ne in Hm by done. destruct (Hok m' st Hm) as (H1&H2&H3&H4&H5).
        split_and!; [done | done | | |].
        -- intros w Hin. rewrite known_insert by done. by apply H3.
        -- eapply sorted_ext; [|exact H4]. intros. by rewrite pr_set_owned.
        -- intros o Hos. destruct (H5 o Hos) as (to & Hto & Hin & Hnw & Hp).
           destruct (decide (o = task)) as [->|].
           ++ assert (to = t) as -> by congruence.
              eexists. rewrite lookup_insert_eq. split; [done|]. cbn. split_and!; [set_solver | done |].
              intros w Hwin. rewrite !pr_set_owned by done. by apply Hp.
           ++ exists to. rewrite lookup_insert_ne by done. split_and!; try done.
              intros w Hwin. rewrite !pr_set_owned by done. by apply Hp.
    + intros o to m' Hto Hin. destruct (decide (o = task)) as [->|].
      * rewrite lookup_insert_eq in Hto. simplify_eq. cbn in Hin.
        destruct (decide (m' = mutex)) as [->|]; [rewrite lookup_insert_eq; by eexists|].
        rewrite lookup_insert_ne by done. apply (Howned _ _ _ Ht). set_solver.
      * rewrite lookup_insert_ne in Hto by done. destruct (Howned _ _ _ Hto Hin) as (st & Hst & Hos).
        destruct (decide (m' = mutex)) as [->|].
        { apply Hfree in Hst as Hn. congruence. }
        exists st. by rewrite lookup_insert_ne.
    + intros id ti Hi. destruct (decide (id = task)) as [->|].
      * rewrite lookup_insert_eq in Hi. simplify_eq. by apply (Hbase _ _ Ht).
      * rewrite lookup_insert_ne in Hi by done. by apply (Hbase _ _ Hi).
    + intros m1 st1 m2 st2 w. destruct (decide (m1 = mutex)) as [->|].
      { rewrite lookup_insert_eq. intros [= <-]. cbn. set_solver. }
      destruct (decide (m2 = mutex)) as [->|].
      { rewrite lookup_insert_eq. intros ? [= <-]. cbn. set_solver. }
      rewrite !lookup_insert_ne by done. apply Honce.
Qed.

(** Blocking [task] on a mutex of [o], who inherits its urgency. *)
Lemma mut_block ts ms (R R' : Z -> Prop) m st o to task l1 l2 :
  MutInv ts ms R -> ms !! m = Some st -> owner st = Some o -> ts !! o = Some to ->
  known ts task -> R task -> task <> o ->
  (forall m' st', ms !! m' = Some st' -> o ∉ waiters st') ->
  waiters st = l1 ++ l2 ->
  StronglySorted (fun a b => pr ts a <= pr ts b) (l1 ++ task :: l2) ->
  (forall x, R' x -> R x /\ x <> task) ->
  MutInv (<[o := set_prio to (Z.min (current_priority to) (pr ts task))]> ts)
         (<[m := {| owner := Some o; waiters := l1 ++ task :: l2 |}]> ms) R'.
Proof.
  intros [Hok Howned Hbase Honce] Hm Hos Hto Hkt HRt Hne Hnb Hw Hsort HR'.
  remember (Z.min _ _) as np eqn:Enp. remember (<[o := set_prio to np]> ts) as ts' eqn:Ets.
  assert (forall x, x <> o -> pr ts' x = pr ts x) as Hpr
    by (intros x Hx; rewrite Ets, pr_set_prio; by rewrite decide_False).
  assert (pr ts' o = np) as Hpo by (rewrite Ets, pr_set_prio; by rewrite decide_True).
  assert (np <= pr ts o) as Hnp by (unfold pr; rewrite Hto; lia).
  assert (forall x, known ts' x <-> known ts x) as Hkn by (intros; rewrite Ets; apply known_insert; by exists to).
  assert (forall x t, ts !! x = Some t -> exists t', ts' !! x = Some t' /\ owned_mutexes t' = owned_mutexes t) as Hts.
  { intros x t Hx. rewrite Ets. destruct (decide (x = o)) as [->|].
    - rewrite lookup_insert_eq. eexists. split; [done|]. cbn. congruence.
    - rewrite lookup_insert_ne by done. by exists t. }
  assert (task ∉ waiters st) as Htw by (intros Hin; by apply (Hok _ _ Hm) in Hin as [_ []]).
  destruct (Hok _ _ Hm) as (_ & Hnd & Hwk & _ & Hown). specialize (Hown o Hos) as (to' & Hto' & Hmo & How & Hop).
  split.
  - intros m' st' Hm'. destruct (decide (m' = m)) as [->|Hmne].
    + rewrite lookup_insert_eq in Hm'. simplify_eq. unfold MutexOk. cbn. rewrite Hw in *.
      assert (o ∉ l1 ++ task :: l2) as Ho by set_solver.
      split_and!; [done | | | |].
      * rewrite <- (Permutation_middle l1 l2 task). constructor; [set_solver | done].
      * intros w Hin. rewrite Hkn. destruct (decide (w = task)) as [->|].
        { split; [done|]. intros Hr. by apply HR' in Hr as [_ ?]. }
        destruct (Hwk w ltac:(set_solver)). split; [done|]. intros Hr. apply HR' in Hr as [? _]. done.
      * eapply sorted_ext; [|exact Hsort]. intros x Hx. symmetry. apply Hpr. set_solver.
      * intros o' [= <-]. destruct (Hts _ _ Hto) as (t' & Ht' & Hot). exists t'.
        split_and!; [done | rewrite Hot; congruence | done |].
        intros w Hin. rewrite Hpo, Hpr by set_solver. destruct (decide (w = task)) as [->|]; [lia|].
        transitivity (pr ts o); [done|]. apply Hop. set_solver.
    + rewrite lookup_insert_ne in Hm' by done. destruct (Hok m' st' Hm') as (H1&H2&H3&H4&H5).
      pose proof (Hnb m' st' Hm') as Ho. split_and!; [done | done | | |].
      * intros w Hin. rewrite Hkn. destruct (H3 w Hin). split; [done|]. intros Hr. apply HR' in Hr as [? _]. done.
      * eapply sorted_ext; [|exact H4]. intros x Hx. symmetry. apply Hpr. set_solver.
      * intros o' Ho'. destruct (H5 o' Ho') as (t' & Ht' & Hin & Hnw & Hp).
        destruct (Hts _ _ Ht') as (t2 & Ht2 & Hot). exists t2. split_and!; [done | by rewrite Hot | done |].
        intros w Hwin. rewrite (Hpr w) by set_solver. destruct (decide (o' = o)) as [->|].
        -- rewrite Hpo. transitivity (pr ts o); [done|]. by apply Hp.
        -- rewrite Hpr by done. by apply Hp.
  - intros x t m' Hx Hin. assert (exists t0, ts !! x = Some t0 /\ m' ∈ owned_mutexes t0) as (t0 & Hx0 & Hin0).
    { rewrite Ets in Hx. destruct (decide (x = o)) as [->|].
      - rewrite lookup_insert_eq in Hx. simplify_eq. by exists to.
      - rewrite lookup_insert_ne in Hx by done. by exists t. }
    destruct (Howned _ _ _ Hx0 Hin0) as (st' & Hst' & Hos'). destruct (decide (m' = m)) as [->|].
    + rewrite lookup_insert_eq. eexists. split; [done|]. cbn. congruence.
    + rewrite lookup_insert_ne by done. by exists st'.
  - intros id t Hi. rewrite Ets in Hi. destruct (decide (id = o)) as [->|].
    + rewrite lookup_insert_eq in Hi. simplify_eq. cbn. pose proof (Hbase _ _ Hto). lia.
    + rewrite lookup_insert_ne in Hi by done. by apply (Hbase _ _ Hi).
  - assert (forall m' st' x, (<[m := {| owner := Some o; waiters := l1 ++ task :: l2 |}]> ms) !! m' = Some st' ->
      x ∈ waiters st' -> (m' = m /\ x = task) \/ exists st0, ms !! m' = Some st0 /\ x ∈ waiters st0) as Hback.
    { intros m' st' x Hm' Hx. destruct (decide (m' = m)) as [->|].
      - rewrite lookup_insert_eq in Hm'. simplify_eq. cbn in Hx. destruct (decide (x = task)); [by left|].
        right. exists st. rewrite Hw. set_solver.
      - rewrite lookup_insert_ne in Hm' by done. right. by exists st'. }
    intros m1 st1 m2 st2 w H1 H2 Hw1 Hw2.
    assert (forall m' st', ms !! m' = Some st' -> task ∉ waiters st') as Htn.
    { intros m' st' Hm' Hin. by apply (Hok _ _ Hm') in Hin as [_ []]. }
    destruct (Hback _ _ _ H1 Hw1) as [[Ha Hb] | (s1 & Hs1 & Hi1)];
      destruct (Hback _ _ _ H2 Hw2) as [[Ha2 Hb2] | (s2 & Hs2 & Hi2)]; [congruence | | |].
    + rewrite Hb in Hi2. by destruct (Htn _ _ Hs2).
    + rewrite Hb2 in Hi1. by destruct (Htn _ _ Hs1).
    + by eapply (Honce m1 s1 m2 s2 w).
Qed.

(** The scheduling part of blocking: the owner is boosted and re-queued, then
    the next task runs. *)
Lemma lock_contended_spec s task mutex st o :
  Inv s -> current s = Some task -> mutexes s !! mutex = Some st -> owner st = Some o ->
  o <> task -> ~ blocked s o ->
  exists s', lock_mutex task mutex s = Done s' /\ Inv s'
    /\ (forall x, runnable s' x <-> x ∈ ready s) /\ blocked s' task
    /\ pr (tasks s') o <= pr (tasks s') task.
Proof.
  intros [Hrun Hmut] Hcur Hst Ho Hne Hnb. pose proof (mut_ok _ _ _ Hmut _ _ Hst) as (Hw0 & Hnd & Hwk & Hws & Hown).
  destruct (Hown o Ho) as (to & Hto & Hin & How & Hop).
  destruct Hrun as [Hq Hc]. rewrite Hcur in Hc. destruct Hc as (Hkt & Htr & Hmin).
  unfold lock_mutex. cbv zeta. rewrite Hst. cbn [from_option]. unfold id. rewrite Ho. cbn [tasks set_mutexes set_ready ready].
  rewrite (retain_ne_id task (ready s)) by done. rewrite prio_of_known by done. estep.
  destruct (insert_sorted_spec (prio_of (tasks s)) (pr (tasks s)) (waiters st) (pr (tasks s) task) task)
    as (l1 & l2 & Hl & Heq & Hsort); [|done|].
  { intros x Hx. apply prio_of_known. by apply Hwk. }
  rewrite Heq. estep. cbn [tasks set_mutexes set_ready]. rewrite Hto. cbn [unwrap]. estep.
  pose (ts' := <[o := set_prio to (Z.min (current_priority to) (pr (tasks s) task))]> (tasks s)).
  pose (ms' := <[mutex := {| owner := Some o; waiters := l1 ++ task :: l2 |}]> (<[mutex := st]> (mutexes s))).
  pose (s1 := {| scheduler_cap := scheduler_cap s; tasks := ts'; ready := ready s; current := current s;
                 mutexes := ms'; runs := runs s |}).
  match goal with |- context [mbind _ ?X] =>
    change X with (if bool_decide (o ∈ ready s1) then insert_ready_sorted o (set_ready s1 (retain_ne o (ready s1)))
                   else Done s1) end.
  assert (forall x, x <> o -> pr ts' x = pr (tasks s) x) as Hpr
    by (intros x Hx; unfold ts'; rewrite pr_set_prio; by rewrite decide_False).
  assert (forall x, known ts' x <-> known (tasks s) x) as Hkn by (intros; apply known_insert; by exists to).
  assert (exists r, (if bool_decide (o ∈ ready s1) then insert_ready_sorted o (set_ready s1 (retain_ne o (ready s1)))
                     else Done s1) = Done (set_ready s1 r)
     /\ Queue (pr ts') (known ts') r /\ forall x, x ∈ r <-> x ∈ ready s) as (r & -> & Hqr & Hel).
  { destruct (bool_decide (o ∈ ready s1)) eqn:E.
    - apply bool_decide_eq_true in E. cbn in E.
      destruct (insert_ready_spec (set_ready s1 (retain_ne o (ready s1))) o) as (r & -> & Hq' & Hel); cbn.
      + apply (queue_known _ (known (tasks s))); [intros; by apply Hkn|].
        apply (queue_ext (pr (tasks s))); [|by apply queue_retain].
        intros x Hx. apply retain_ne_elem in Hx as [_ ?]. symmetry. by apply Hpr.
      + apply Hkn. by exists to.
      + intros Hin'. by apply retain_ne_elem in Hin' as [_ ?].
      + exists r. split; [done|]. split; [done|]. intros x. rewrite Hel.
        pose proof (retain_ne_elem o x (ready s)) as Hre. cbn [ready set_ready s1] in *.
        destruct (decide (x = o)); naive_solver.
    - apply bool_decide_eq_false in E. cbn in E. exists (ready s). split; [done|]. split; [|done].
      apply (queue_known _ (known (tasks s))); [intros; by apply Hkn|].
      apply (queue_ext (pr (tasks s))); [|done]. intros x Hx. symmetry. apply Hpr. set_solver. }
  estep. cbn [current set_ready s1]. rewrite bool_decide_eq_true_2 by done.
  destruct (run_next_spec (set_current (set_ready s1 r) None) Hqr eq_refl) as (s' & -> & Hi & (Ht' & Hm' & _) & Hrun').
  cbn in Ht', Hm', Hrun'. assert (ms' = <[mutex := {| owner := Some o; waiters := l1 ++ task :: l2 |}]> (mutexes s)) as Hms
    by apply insert_insert_eq.
  assert (Inv s') as HI.
  { split; [done|]. rewrite Ht', Hm', Hms. eapply (mut_block _ _ (runnable s)); try done.
    - by right.
    - intros m0 st0 Hms0 Hin0. apply Hnb. by exists m0, st0.
    - by apply Hsort.
    - intros x Hx. apply Hrun', Hel in Hx. split; [by left|]. by intros ->. }
  exists s'. split; [done|]. split; [done|]. split_and!.
  - intros x. by rewrite Hrun', Hel.
  - exists mutex. eexists. rewrite Hm', Hms, lookup_insert_eq. split; [done|]. cbn. set_solver.
  - rewrite Ht'. rewrite (Hpr task) by done. unfold ts'. rewrite pr_set_prio, decide_True by done. lia.
Qed.

(** ** Unlocking *)
Lemma fold_inherited_spec ms ts p l :
  (forall m st w, m ∈ l -> ms !! m = Some st -> w ∈ waiters st -> known ts w) ->
  exists q, fold_inherited ms ts p l = Done q /\ q <= p
    /\ (forall m st w rest, m ∈ l -> ms !! m = Some st -> waiters st = w :: rest -> q <= pr ts w)
    /\ (forall b, b <= p ->
        (forall m st w rest, m ∈ l -> ms !! m = Some st -> waiters st = w :: rest -> b <= pr ts w) -> b <= q).
Proof.
  revert p. induction l as [|m l IH]; intros p Hk.
  - exists p. split_and!; [done | lia | set_solver | done].
  - assert (exists p', inherited ms ts p m = Done p' /\ p' <= p
      /\ (forall st w rest, ms !! m = Some st -> waiters st = w :: rest -> p' <= pr ts w)
      /\ (forall b, b <= p -> (forall st w rest, ms !! m = Some st -> waiters st = w :: rest -> b <= pr ts w) -> b <= p'))
      as (p' & Hp' & Hle & Hw & Hb).
    { unfold inherited. destruct (ms !! m) as [st|] eqn:Hm;
        [|exists p; split_and!; [done | lia | done | auto]].
      destruct (waiters st) as [|w rest] eqn:Hws.
      - exists p. split_and!; [done | lia | intros ? ? ? [= <-] ?; congruence | auto].
      - rewrite prio_of_known by (apply (Hk m st); [set_solver | done | rewrite Hws; set_solver]). cbn.
        eexists. split; [done|]. split_and!; [lia | |].
        + intros st' w' rest' [= <-] Hw'. rewrite Hw' in Hws. simplify_eq. lia.
        + intros b Hb Hall. specialize (Hall st w rest eq_refl Hws). lia. }
    destruct (IH p') as (q & Hq & Hqle & Hqw & Hqb).
    { intros m' st w Hin. apply Hk. set_solver. }
    exists q. cbn. rewrite Hp'. cbn. split_and!; [done | lia | |].
    + intros m' st w rest Hin Hm' Hws. apply elem_of_cons in Hin as [->|Hin]; [|by eapply Hqw].
      specialize (Hw st w rest Hm' Hws). lia.
    + intros b Hbp Hall. apply Hqb.
      * apply Hb; [done|]. intros st w rest Hm' Hws. apply (Hall m st w rest); [set_solver | done | done].
      * intros m' st w rest Hin. apply Hall. set_solver.
Qed.

Lemma requeue_spec s f task :
  RunInv f (known (tasks s)) (ready s) (current s) -> runnable s task ->
  (forall x, x <> task -> pr (tasks s) x = f x) -> f task <= pr (tasks s) task ->
  exists s', requeue task (pr (tasks s) task) s = Done s' /\ run_inv s' /\ same s s'
    /\ forall x, runnable s' x <-> runnable s x.
Proof.
  intros [Hq Hc] Hrun Hf Hle. unfold requeue. destruct (bool_decide (task ∈ ready s)) eqn:E.
  - apply bool_decide_eq_true in E.
    destruct (insert_ready_spec (set_ready s (retain_ne task (ready s))) task) as (r & -> & Hq' & Hel).
    + apply (queue_ext f); [|by apply queue_retain]. intros x Hx.
      apply retain_ne_elem in Hx as [_ ?]. symmetry. by apply Hf.
    + by apply Hq.
    + intros Hin. by apply retain_ne_elem in Hin as [_ ?].
    + assert (forall x, x ∈ r <-> x ∈ ready s) as Hel'.
      { intros x. rewrite Hel. pose proof (retain_ne_elem task x (ready s)). cbn [ready set_ready].
        destruct (decide (x = task)); naive_solver. }
      eexists. split; [done|]. split; [|split; [done|]].
      * split; [done|]. cbn. destruct (current s) as [c|]; [|exfalso; rewrite Hc in E; set_solver].
        destruct Hc as (Hck & Hcn & Hcp). split_and!; [done | by rewrite Hel' |].
        intros x Hx. apply Hel' in Hx. assert (c <> task) by naive_solver. rewrite (Hf c) by done.
        specialize (Hcp x Hx). destruct (decide (x = task)) as [->|]; [lia|]. by rewrite Hf.
      * intros x. unfold runnable. cbn. by rewrite Hel'.
  - apply bool_decide_eq_false in E. destruct Hrun as [?|Hcur]; [done|].
    rewrite bool_decide_eq_true_2 by done. rewrite Hcur in Hc. destruct Hc as (Hck & Hcn & Hcp).
    assert (Queue (pr (tasks s)) (known (tasks s)) (ready s)) as Hq'.
    { apply (queue_ext f); [|done]. intros x Hx. symmetry. apply Hf. by intros ->. }
    destruct (ready s) as [|h rest] eqn:Hr.
    + exists s. split; [done|]. rewrite Hr, Hcur. split; [split; [done | split_and!; [done | set_solver | set_solver]] | done].
    + destruct Hq as (_ & Hk & _). rewrite prio_of_known by (apply Hk; set_solver). cbn.
      destruct (_ <? _) eqn:Elt; zb.
      * destruct (preempt_spec s task) as (s' & -> & Hi & Hs & Hx); rewrite ?Hr; try done. eauto.
      * exists s. split; [done|]. rewrite Hr, Hcur. split; [|done]. split; [done|]. split_and!; [done | done |].
        intros x Hx. destruct Hq' as (_ & _ & Hs). inversion Hs as [|? ? ? Hall]; subst.
        rewrite Forall_forall in Hall. apply elem_of_cons in Hx as [->|Hx]; [lia|]. specialize (Hall x Hx). cbn in Hall. lia.
Qed.

(** The tables after [task] gave mutex [m] to its first waiter, if any. *)
Definition hand_over (ts : gmap Z Task) (m : Z) (nxt : option Z) : gmap Z Task :=
  match nxt with
  | Some n => match ts !! n with
              | Some t => <[n := set_owned t ({[m]} ∪ owned_mutexes t)]> ts
              | None => ts
              end
  | None => ts
  end.
Lemma pr_hand_over ts m nxt x : pr (hand_over ts m nxt) x = pr ts x.
Proof.
  destruct nxt as [n|]; [|done]. cbn. destruct (ts !! n) as [t|] eqn:E; [|done]. by apply pr_set_owned.
Qed.
Lemma known_hand_over ts m nxt x : known (hand_over ts m nxt) x <-> known ts x.
Proof.
  destruct nxt as [n|]; [|done]. cbn. destruct (ts !! n) as [t|] eqn:E; [|done].
  apply known_insert. by exists t.
Qed.
Lemma hand_over_owned ts m nxt x t : ts !! x = Some t ->
  exists t', hand_over ts m nxt !! x = Some t' /\ base_priority t' = base_priority t
    /\ current_priority t' = current_priority t
    /\ forall m', m' ∈ owned_mutexes t' <-> m' ∈ owned_mutexes t \/ (nxt = Some x /\ m' = m).
Proof.
  intros Hx. destruct nxt as [n|]; [|exists t; naive_solver]. cbn.
  destruct (ts !! n) as [tn|] eqn:E; [|exists t; split_and!; [done..|]; intros; naive_solver].
  destruct (decide (x = n)) as [->|].
  - rewrite lookup_insert_eq. eexists. split_and!; [done | cbn; congruence | cbn; congruence |]. cbn.
    assert (tn = t) as -> by congruence. intros m'. rewrite elem_of_union, elem_of_singleton. naive_solver.
  - rewrite lookup_insert_ne by done. exists t. split_and!; [done..|]. naive_solver.
Qed.
Lemma hand_over_back ts m nxt x t' : hand_over ts m nxt !! x = Some t' -> exists t, ts !! x = Some t.
Proof.
  intros H. assert (known (hand_over ts m nxt) x) as Hk by (by exists t').
  apply known_hand_over in Hk. by destruct Hk as [t Ht]; exists t.
Qed.

(** The first waiter now owns the mutex; the releasing task's urgency is what
    it still inherits. *)
Lemma mut_unlock ts ms (R R' : Z -> Prop) task t m st nxt rest np :
  MutInv ts ms R -> ms !! m = Some st -> owner st = Some task -> ts !! task = Some t -> R task ->
  waiters st = match nxt with Some n => n :: rest | None => [] end -> (nxt = None -> rest = []) ->
  np <= base_priority t ->
  (forall m' st' w, m' ∈ owned_mutexes t ∖ {[m]} -> ms !! m' = Some st' -> w ∈ waiters st' -> np <= pr ts w) ->
  (forall x, R' x -> R x \/ nxt = Some x) ->
  MutInv (<[task := set_prio (set_owned t (owned_mutexes t ∖ {[m]})) np]> (hand_over ts m nxt))
         (<[m := {| owner := nxt; waiters := rest |}]> ms) R'.
Proof.
  intros [Hok Howned Hbase Honce] Hm Hos Ht HRt Hws Hrest Hnpb Hnpw HR'.
  remember (<[task := set_prio (set_owned t (owned_mutexes t ∖ {[m]})) np]> (hand_over ts m nxt)) as ts' eqn:Ets.
  assert (forall x, x <> task -> pr ts' x = pr ts x) as Hpr.
  { intros x Hx. rewrite Ets. unfold pr. rewrite lookup_insert_ne by done. apply (pr_hand_over ts m nxt x). }
  assert (pr ts' task = np) as Hpt by (rewrite Ets; unfold pr; by rewrite lookup_insert_eq).
  assert (forall x, known ts' x <-> known ts x) as Hkn.
  { intros x. rewrite Ets. destruct (decide (x = task)) as [->|].
    - unfold known. rewrite lookup_insert_eq, Ht. by split.
    - unfold known at 1. rewrite lookup_insert_ne by done. apply (known_hand_over ts m nxt x). }
  assert (forall m' st', ms !! m' = Some st' -> task ∉ waiters st') as Htn
    by (intros m' st' Hm' Hin; by apply (Hok _ _ Hm') in Hin as [_ []]).
  destruct (Hok _ _ Hm) as (_ & Hnd & Hwk & Hsort & Hown).
  assert (forall n, nxt = Some n -> n ∈ waiters st /\ n ∉ rest /\ n <> task /\ known ts n
    /\ forall w, w ∈ rest -> pr ts n <= pr ts w) as Hnxt.
  { intros n ->. rewrite Hws in *. apply NoDup_cons in Hnd as [? ?]. inversion Hsort as [|? ? ? Hall]; subst.
    rewrite Forall_forall in Hall. split_and!; [set_solver | done | | apply Hwk; set_solver | done].
    intros ->. apply (Htn _ _ Hm). rewrite Hws. set_solver. }
  assert (forall w, w ∈ rest -> w ∈ waiters st) as Hsub
    by (rewrite Hws; destruct nxt; [set_solver | by rewrite Hrest]).
  assert (forall x t0, x <> task -> ts !! x = Some t0 -> exists t', ts' !! x = Some t'
    /\ base_priority t' = base_priority t0 /\ current_priority t' = current_priority t0
    /\ forall m', m' ∈ owned_mutexes t' <-> m' ∈ owned_mutexes t0 \/ (nxt = Some x /\ m' = m)) as Hot.
  { intros x t0 Hx Ht0. rewrite Ets. rewrite lookup_insert_ne by done. by apply hand_over_owned. }
  split.
  - intros m' st' Hm'. destruct (decide (m' = m)) as [->|Hne].
    + rewrite lookup_insert_eq in Hm'. simplify_eq. unfold MutexOk. cbn. split_and!.
      * done.
      * rewrite Hws in Hnd. destruct nxt; [by apply NoDup_cons in Hnd as [_ ?] | rewrite Hrest; [constructor | done]].
      * intros w Hw. rewrite Hkn. destruct (Hwk w (Hsub w Hw)). split; [done|].
        intros Hr. apply HR' in Hr as [?|Hn]; [done|]. apply Hnxt in Hn. naive_solver.
      * assert (StronglySorted (fun a b => pr ts a <= pr ts b) rest) as Hsr.
        { rewrite Hws in Hsort. destruct nxt; [by inversion Hsort | rewrite Hrest; [constructor | done]]. }
        eapply sorted_ext; [|exact Hsr]. intros w Hw. symmetry. apply Hpr. intros ->.
        by apply (Htn _ _ Hm), Hsub.
      * intros n Hn. destruct (Hnxt n Hn) as (Hnw & Hnr & Hnt & [tn Htn'] & Hmin).
        destruct (Hot n tn Hnt Htn') as (t' & Ht' & _ & _ & Ho'). exists t'.
        split_and!; [done | apply Ho'; by right | done |].
        intros w Hw. rewrite !Hpr; [by apply Hmin | | done]. intros ->. by apply (Htn _ _ Hm), Hsub.
    + rewrite lookup_insert_ne in Hm' by done. destruct (Hok m' st' Hm') as (H1&H2&H3&H4&H5).
      assert (forall w, w ∈ waiters st' -> w <> task) as Hwt by (intros w Hw ->; by eapply Htn).
      split_and!; [done | done | | |].
      * intros w Hw. rewrite Hkn. destruct (H3 w Hw). split; [done|]. intros Hr.
        apply HR' in Hr as [?|Hn]; [done|]. apply Hnxt in Hn as [Hn _]. apply Hne.
        by apply (Honce m' st' m st w).
      * eapply sorted_ext; [|exact H4]. intros w Hw. symmetry. by apply Hpr, Hwt.
      * intros o Ho. destruct (H5 o Ho) as (t0 & Ht0 & Hin & Hnw & Hp).
        destruct (decide (o = task)) as [->|Hot0].
        -- assert (t0 = t) as -> by congruence. rewrite Ets. rewrite lookup_insert_eq. eexists.
           split; [done|]. cbn. split_and!; [set_solver | done |]. rewrite <- Ets. intros w Hw.
           rewrite Hpt, Hpr by (by apply Hwt). eapply Hnpw; [|exact Hm' | done]. set_solver.
        -- destruct (Hot o t0 Hot0 Ht0) as (t' & Ht' & _ & _ & Ho'). exists t'.
           split_and!; [done | apply Ho'; by left | done |].
           intros w Hw. rewrite !Hpr; [by apply Hp | by apply Hwt | done].
  - intros o t0 m' Hto Hin. destruct (decide (o = task)) as [->|Hno].
    + rewrite Ets in Hto. rewrite lookup_insert_eq in Hto. simplify_eq. cbn in Hin.
      rewrite lookup_insert_ne by set_solver. apply (Howned _ _ _ Ht). set_solver.
    + assert (exists tb, ts !! o = Some tb) as [tb Htb].
      { rewrite Ets in Hto. rewrite lookup_insert_ne in Hto by done. by apply hand_over_back in Hto. }
      destruct (Hot o tb Hno Htb) as (t' & Ht' & _ & _ & Ho'). assert (t' = t0) as -> by congruence.
      apply Ho' in Hin as [Hin | [Hn ->]]; [|rewrite lookup_insert_eq; eexists; split; [done|]; done].
      destruct (Howned _ _ _ Htb Hin) as (st' & Hst' & Hos').
      exists st'. rewrite lookup_insert_ne; [done|]. intros ->. congruence.
  - intros id ti Hi. destruct (decide (id = task)) as [->|Hne].
    + rewrite Ets in Hi. rewrite lookup_insert_eq in Hi. simplify_eq. done.
    + assert (exists tb, ts !! id = Some tb) as [tb Htb].
      { rewrite Ets in Hi. rewrite lookup_insert_ne in Hi by done. by apply hand_over_back in Hi. }
      destruct (Hot id tb Hne Htb) as (t' & Ht' & Hb & Hc & _). assert (t' = ti) as -> by congruence.
      rewrite Hb, Hc. by apply (Hbase _ _ Htb).
  - assert (forall m' st' w, <[m := {| owner := nxt; waiters := rest |}]> ms !! m' = Some st' -> w ∈ waiters st' ->
      exists s0, ms !! m' = Some s0 /\ w ∈ waiters s0) as Hback.
    { intros m' st' w Hm' Hw. destruct (decide (m' = m)) as [->|].
      - rewrite lookup_insert_eq in Hm'. simplify_eq. exists st. split; [done|]. by apply Hsub.
      - rewrite lookup_insert_ne in Hm' by done. by exists st'. }
    intros m1 st1 m2 st2 w H1 H2 Hw1 Hw2. destruct (Hback _ _ _ H1 Hw1) as (s1 & ? & ?).
    destruct (Hback _ _ _ H2 Hw2) as (s2 & ? & ?). by apply (Honce m1 s1 m2 s2 w).
Qed.

(** The first half of [unlock_mutex]: the mutex goes to its first waiter, who
    becomes ready. *)
Definition pass_on (task mutex : Z) (m : MutexState) (s : AutosarScheduler) : exec AutosarScheduler :=
  match waiters m with
  | next :: rest =>
    let s := set_mutexes s (<[mutex := {| owner := Some next; waiters := rest |}]> (mutexes s)) in
    t ← unwrap (tasks s !! next);
    make_ready next (set_tasks s (<[next := set_owned t ({[mutex]} ∪ owned_mutexes t)]> (tasks s)))
  | [] => Done (set_mutexes s (<[mutex := {| owner := None; waiters := [] |}]> (mutexes s)))
  end.

Lemma pass_on_spec s task mutex m :
  Inv s -> current s = Some task -> mutexes s !! mutex = Some m -> owner m = Some task ->
  exists nxt rest s', waiters m = match nxt with Some n => n :: rest | None => [] end
    /\ (nxt = None -> rest = [])
    /\ pass_on task mutex m s = Done s' /\ run_inv s'
    /\ tasks s' = hand_over (tasks s) mutex nxt
    /\ mutexes s' = <[mutex := {| owner := nxt; waiters := rest |}]> (mutexes s)
    /\ (forall x, runnable s' x <-> runnable s x \/ nxt = Some x).
Proof.
  intros [Hrun Hmut] Hcur Hm Ho. unfold pass_on.
  destruct (waiters m) as [|n rest] eqn:Hws.
  - exists None, []. eexists. split_and!; try done. intros x. cbn. naive_solver.
  - destruct (mut_ok _ _ _ Hmut _ _ Hm) as (_ & _ & Hwk & _).
    destruct (Hwk n) as [[t Ht] Hnr]; [rewrite Hws; set_solver|].
    cbn [tasks set_mutexes]. rewrite Ht. cbn [unwrap]. estep.
    set (s1 := set_tasks _ _).
    destruct (make_ready_spec s1 n) as (s' & Hmk & Hi & (Ht' & Hm' & _) & Hr).
    + eapply run_ext; [| |exact Hrun]; cbn.
      * intros x _. by rewrite pr_set_owned.
      * intros x. rewrite known_insert; [done | by exists t].
    + cbn. apply known_insert; by exists t.
    + exists (Some n), rest, s'. rewrite Ht', Hm'. cbn [hand_over]. rewrite Ht.
      do 2 (split; [done|]). split; [exact Hmk|]. split; [by rewrite Ht' in Hi|]. do 2 (split; [done|]).
      intros x. rewrite Hr. change (runnable s1 x) with (runnable s x). naive_solver.
Qed.

Lemma unlock_spec s task mutex :
  Inv s -> current s = Some task ->
  exists s', unlock_mutex task mutex s = Done s' /\ Inv s'
    /\ (forall m, mutexes s !! mutex = Some m -> owner m = Some task ->
        exists nxt rest, waiters m = match nxt with Some n => n :: rest | None => [] end
          /\ mutexes s' !! mutex = Some {| owner := nxt; waiters := rest |}
          /\ forall x, runnable s' x <-> runnable s x \/ nxt = Some x).
Proof.
  intros HI Hcur. pose proof HI as [Hrun Hmut]. unfold unlock_mutex.
  destruct (mutexes s !! mutex) as [m|] eqn:Hm; [|by exists s].
  destruct (bool_decide (owner m = Some task)) eqn:Eo;
    [|exists s; apply bool_decide_eq_false in Eo; (split; [done|split; [done|]]); intros ? Hx Hx2; congruence].
  apply bool_decide_eq_true in Eo. fold (pass_on task mutex m s).
  destruct (pass_on_spec s task mutex m HI Hcur Hm Eo) as (nxt & rest & s1 & Hws & Hrest & -> & Hr1 & Ht1 & Hm1 & Hx1).
  estep. assert (exists t, tasks s !! task = Some t) as [t Ht].
  { destruct Hrun as [_ Hc]. rewrite Hcur in Hc. apply Hc. }
  assert (runnable s task) as Hrt by (by right).
  assert (task ∉ waiters m) as Htm by (intros Hin; by apply (mut_ok _ _ _ Hmut _ _ Hm) in Hin as [_ []]).
  assert (nxt <> Some task) as Hnt.
  { intros ->. apply Htm. rewrite Hws. set_solver. }
  assert (tasks s1 !! task = Some t) as Ht1t.
  { rewrite Ht1. unfold hand_over. destruct nxt as [n|]; [|done]. destruct (tasks s !! n); [|done].
    rewrite lookup_insert_ne by congruence. done. }
  rewrite Ht1t. cbn [unwrap]. estep. cbn [tasks mutexes set_tasks owned_mutexes set_owned base_priority].
  set (t' := set_owned t _). set (ts2 := <[task := t']> (tasks s1)).
  assert (forall x, pr ts2 x = pr (tasks s) x) as Hpr2.
  { intros x. unfold ts2, t'. rewrite pr_set_owned by done. rewrite Ht1. apply pr_hand_over. }
  assert (forall x, known (tasks s) x <-> known ts2 x) as Hk2.
  { intros x. unfold ts2. rewrite known_insert by (by exists t). rewrite Ht1. symmetry. apply known_hand_over. }
  assert (forall m' st w, m' ∈ elements (owned_mutexes t ∖ {[mutex]}) -> mutexes s1 !! m' = Some st ->
    w ∈ waiters st -> mutexes s !! m' = Some st /\ known ts2 w /\ pr (tasks s) task <= pr (tasks s) w) as Hold.
  { intros m' st w Hin Hst Hw. apply elem_of_elements in Hin. rewrite Hm1, lookup_insert_ne in Hst by set_solver.
    destruct (mut_owned _ _ _ Hmut task t m' Ht) as (st' & Hst' & Hos); [set_solver|].
    assert (st' = st) as -> by congruence. destruct (mut_ok _ _ _ Hmut _ _ Hst) as (_ & _ & Hk & _ & Hown).
    split; [done|]. split; [apply Hk2; by apply Hk|]. destruct (Hown task Hos) as (_ & _ & _ & _ & Hp). by apply Hp. }
  destruct (fold_inherited_spec (mutexes s1) ts2 (base_priority t) (elements (owned_mutexes t ∖ {[mutex]})))
    as (np & -> & Hnpb & Hnpw & Hnpl).
  { intros m' st w Hin Hst Hw. by apply (Hold m' st w). }
  estep. cbn [set_tasks tasks]. assert (pr (tasks s) task <= np) as Hge.
  { apply Hnpl; [unfold pr; rewrite Ht; by apply (mut_base _ _ _ Hmut _ _ Ht)|].
    intros m' st w rest' Hin Hst Hws'. rewrite Hpr2. apply (Hold m' st w); [done | done | rewrite Hws'; set_solver]. }
  set (ts3 := <[task := set_prio t' np]> ts2). set (s3 := set_tasks (set_tasks s1 ts2) ts3).
  assert (pr ts3 task = np) as Hp3 by (unfold ts3, pr; by rewrite lookup_insert_eq).
  destruct (requeue_spec s3 (pr (tasks s)) task) as (s' & Hs' & Hi' & (Ht' & Hm' & _) & Hx').
  - eapply run_ext; [| |exact Hr1]; cbn.
    + intros x _. rewrite Ht1. apply pr_hand_over.
    + intros x Hx. unfold ts3. apply known_insert; [apply Hk2; by exists t|].
      apply Hk2. apply (known_hand_over (tasks s) mutex nxt). by rewrite <- Ht1.
  - apply Hx1. by left.
  - intros x Hx. unfold s3. cbn [tasks set_tasks]. unfold ts3. rewrite pr_set_prio, decide_False by done. apply Hpr2.
  - unfold s3. cbn [tasks set_tasks]. by rewrite Hp3.
  - replace (pr (tasks s3) task) with np in Hs' by (symmetry; exact Hp3).
    exists s'. split; [exact Hs'|]. assert (mutexes s' = <[mutex := {| owner := nxt; waiters := rest |}]> (mutexes s)) as Hms
      by (rewrite Hm'; exact Hm1).
    assert (forall x, runnable s' x <-> runnable s x \/ nxt = Some x) as Hrs
      by (intros x; rewrite Hx'; apply Hx1).
    split; [split; [exact Hi'|]|].
    + rewrite Hms, Ht'. unfold s3, ts3, ts2. cbn [tasks set_tasks]. rewrite insert_insert_eq, Ht1.
      apply (mut_unlock _ _ (runnable s) _ task t mutex m); try done; [|by apply Hrs].
      intros m' st' w Hin Hst Hw. assert (m' <> mutex) as Hmne by set_solver.
      destruct (mut_ok _ _ _ Hmut _ _ Hst) as (_ & _ & _ & Hsort & _).
      destruct (waiters st') as [|w0 rest0] eqn:Ews; [set_solver|].
      assert (np <= pr (tasks s) w0) as H0.
      { rewrite <- Hpr2. eapply (Hnpw m' st' w0 rest0); [by apply elem_of_elements | | done].
        by rewrite Hm1, lookup_insert_ne. }
      apply elem_of_cons in Hw as [->|Hw]; [done|]. apply StronglySorted_inv in Hsort as [_ Hall].
      rewrite Forall_forall in Hall. specialize (Hall w Hw). cbn in Hall. lia.
    + intros m0 [= <-] _. exists nxt, rest. split; [done|]. split; [by rewrite Hms, lookup_insert_eq | done].
Qed.

Lemma new_inv cap : Inv (new cap).
Proof.
  split; [split; [split_and!; [constructor | set_solver | constructor] | done]|].
  split; cbn.
  - intros m st H. by rewrite lookup_empty in H.
  - intros o t m H. by rewrite lookup_empty in H.
  - intros id t H. by rewrite lookup_empty in H.
  - intros m1 st1 m2 st2 w H. by rewrite lookup_empty in H.
Qed.

Lemma add_task_inv id p cap s : Inv s -> tasks s !! id = None -> Inv (add_task id p cap s).
Proof.
  intros [Hrun [Hok Howned Hbase Honce]] Hid. unfold add_task. set (t := {| period := p |}).
  assert (forall x, known (tasks s) x -> x <> id) as Hne by (intros x [tx Hx] ->; congruence).
  assert (forall x, known (tasks s) x -> pr (<[id := t]> (tasks s)) x = pr (tasks s) x) as Hpr.
  { intros x Hx. unfold pr. rewrite lookup_insert_ne by (symmetry; by apply Hne). done. }
  assert (forall x, known (tasks s) x -> known (<[id := t]> (tasks s)) x) as Hkn.
  { intros x Hx. unfold known. rewrite lookup_insert_ne by (symmetry; by apply Hne). done. }
  assert (forall x, runnable s x -> known (tasks s) x) as Hrk.
  { destruct Hrun as [(_ & Hk & _) Hc]. intros x [Hx|Hx]; [by apply Hk|]. rewrite Hx in Hc. apply Hc. }
  split; [eapply run_ext; [| |exact Hrun]; cbn|]; [| exact Hkn |].
  - intros x Hx. symmetry. apply Hpr, Hrk. destruct Hx; [by left | by right].
  - cbn. change (runnable _) with (runnable s). split.
    + intros m st Hm. destruct (Hok m st Hm) as (H1&H2&H3&H4&H5). split_and!; [done | done | | |].
      * intros w Hw. destruct (H3 w Hw). split; [by apply Hkn | done].
      * eapply sorted_ext; [|exact H4]. intros w Hw. symmetry. by apply Hpr, H3.
      * intros o Ho. destruct (H5 o Ho) as (to & Hto & Hin & Hnw & Hp). exists to.
        assert (known (tasks s) o) as Hko by (by exists to).
        rewrite lookup_insert_ne by (symmetry; by apply Hne). split_and!; try done.
        intros w Hw. rewrite !Hpr; [by apply Hp | by apply H3 | done].
    + intros o to m Ho Hin. destruct (decide (o = id)) as [->|].
      * rewrite lookup_insert_eq in Ho. injection Ho as <-. cbn in Hin. set_solver.
      * rewrite lookup_insert_ne in Ho by done. by apply (Howned o to).
    + intros x tx Hx. destruct (decide (x = id)) as [->|].
      * rewrite lookup_insert_eq in Hx. injection Hx as <-. cbn. lia.
      * rewrite lookup_insert_ne in Hx by done. by apply (Hbase x).
    + exact Honce.
Qed.

(** Every allowed call returns, and keeps the invariant. *)
Lemma call_inv c s : Inv s -> allowed c s -> exists s', exec_call c s = Done s' /\ Inv s'.
Proof.
  intros HI Ha. destruct c as [id p cap|id|t m|t m]; cbn in Ha |- *.
  - eexists. split; [done|]. by apply add_task_inv.
  - destruct Ha as [Hk Hnb]. destruct HI as [Hrun Hmut].
    destruct (make_ready_spec s id Hrun Hk) as (s' & Hs' & Hi & (Ht & Hm & _) & Hr).
    exists s'. split; [done|]. split; [done|]. rewrite Ht, Hm. destruct Hmut as [Hok Howned Hbase Honce].
    split; try done. intros m st Hst. destruct (Hok m st Hst) as (H1&H2&H3&H4&H5).
    split_and!; try done. intros w Hw. destruct (H3 w Hw) as [Hkw Hnr]. split; [done|].
    rewrite Hr. intros [?| ->]; [done|]. apply Hnb. by exists m, st.
  - destruct Ha as [Hcur Ho]. destruct (mutexes s !! m) as [st|] eqn:Hm.
    + destruct (owner st) as [o|] eqn:Hos.
      * destruct (Ho st o eq_refl Hos) as [Hne Hnb].
        destruct (lock_contended_spec s t m st o HI Hcur Hm Hos Hne Hnb) as (s' & ? & ? & _). by exists s'.
      * destruct (lock_free_spec s t m HI Hcur) as (s' & ? & ? & _); [|by exists s'].
        rewrite Hm. by intros ? [= <-].
    + destruct (lock_free_spec s t m HI Hcur) as (s' & ? & ? & _); [|by exists s']. by rewrite Hm.
  - destruct (unlock_spec s t m HI Ha) as (s' & ? & ? & _). by exists s'.
Qed.

Lemma reachable_inv cap s : reachable cap s -> Inv s.
Proof.
  induction 1 as [|s c s' Hr IH Ha He]; [apply new_inv|].
  destruct (call_inv c s IH Ha) as (s2 & Hs2 & ?). congruence.
Qed.

(** C33: in every state the scheduler reaches when its callers keep to the API's
    discipline, the ready queue holds known tasks once each and most urgent
    first, the running task is at least as urgent as every ready one, the
    processor idles only when no task is ready, every mutex's owner has
    inherited the urgency of its waiters; and no further allowed call panics or
    breaks this. *)
Theorem autosar_schedules_most_urgent cap s :
  reachable cap s ->
  Inv s /\ forall c, allowed c s -> exists s', exec_call c s = Done s' /\ Inv s'.
Proof. intros Hr. pose proof (reachable_inv cap s Hr). split; [done|]. intros c. by apply call_inv. Qed.

(** C34: a task that locks a mutex held by another blocks and the owner becomes
    at least as urgent as it; when the owner unlocks, the mutex goes to the most
    urgent waiter, which becomes runnable, and the task that then runs is at
    least as urgent as that waiter. *)
Theorem autosar_mutex_hand_over cap s task mutex st :
  reachable cap s -> current s = Some task -> mutexes s !! mutex = Some st ->
  (forall o, owner st = Some o -> o <> task -> ~ blocked s o ->
    exists s', lock_mutex task mutex s = Done s' /\ blocked s' task
      /\ pr (tasks s') o <= pr (tasks s') task /\ (forall x, runnable s' x <-> x ∈ ready s))
  /\ (forall w rest, owner st = Some task -> waiters st = w :: rest ->
    exists s' c, unlock_mutex task mutex s = Done s'
      /\ mutexes s' !! mutex = Some {| owner := Some w; waiters := rest |}
      /\ (forall w', w' ∈ rest -> pr (tasks s) w <= pr (tasks s) w')
      /\ runnable s' w /\ current s' = Some c /\ pr (tasks s') c <= pr (tasks s') w).
Proof.
  intros Hr Hcur Hm. pose proof (reachable_inv cap s Hr) as HI. split.
  - intros o Ho Hne Hnb. destruct (lock_contended_spec s task mutex st o HI Hcur Hm Ho Hne Hnb)
      as (s' & ? & ? & ? & ? & ?). by exists s'.
  - intros w rest Ho Hws. destruct (unlock_spec s task mutex HI Hcur) as (s' & Hs' & [[Hq Hc] _] & Hh).
    destruct (Hh st Hm Ho) as (nxt & rest' & Hws' & Hm' & Hx).
    assert (nxt = Some w /\ rest' = rest) as [-> ->] by (rewrite Hws in Hws'; destruct nxt; naive_solver).
    destruct HI as [_ Hmut]. destruct (mut_ok _ _ _ Hmut _ _ Hm) as (_ & _ & _ & Hsort & _).
    rewrite Hws in Hsort. apply StronglySorted_inv in Hsort as [_ Hall]. rewrite Forall_forall in Hall.
    assert (runnable s' w) as Hw by (apply Hx; by right).
    destruct (current s') as [c|] eqn:Ec.
    + exists s', c. split_and!; try done. destruct Hc as (_ & _ & Hp).
      destruct Hw as [Hin|Hin]; [by apply Hp|]. assert (c = w) as -> by congruence. lia.
    + destruct Hw as [Hin|]; [|congruence]. rewrite Hc in Hin. set_solver.
Qed.
End Invariant.

(** * Concrete runs *)
Fixpoint run_calls `{BinarySearch} (l : list call) (s : AutosarScheduler) : exec AutosarScheduler :=
  match l with [] => Done s | c :: l => s ← exec_call c s; run_calls l s end.
Definition state_after (l : list call) : AutosarScheduler :=
  match run_calls (H := linear_search) l (new 7) with Done s => s | _ => new 7 end.

(** Inheritance is not transitive, which is why the discipline forbids
    blocking on a blocked task: the low-priority task 1 holds mutex 1, task 2
    waits for it holding mutex 2, and task 3 (the most urgent) blocks on mutex 2.
    Task 2 is boosted to task 3's priority but task 1, on which both depend, is
    not, so that task 4, less urgent than task 3, runs instead of it. *)
Theorem inheritance_not_transitive :
  exists s, run_calls (H := linear_search)
    [AddTask 1 300 11; AddTask 2 200 12; AddTask 3 100 13; AddTask 4 150 14;
     MakeReady 1; Lock 1 1; MakeReady 2; Lock 2 2; Lock 2 1; MakeReady 3; Lock 3 2; MakeReady 4] (new 7) = Done s
  /\ current s = Some 4 /\ ready s = [1]
  /\ mutexes s !! 2 = Some {| owner := Some 2; waiters := [3] |}
  /\ mutexes s !! 1 = Some {| owner := Some 1; waiters := [2] |}
  /\ pr (tasks s) 3 = 100 /\ pr (tasks s) 2 = 100 /\ pr (tasks s) 4 = 150 /\ pr (tasks s) 1 = 200.
Proof. eexists. split; [vm_compute; reflexivity|]. by vm_compute. Qed.

(** The scenario of the crate's [priority_inheritance] test, up to the lock. *)
Definition inherit_calls : list call :=
  [AddTask 1 200 0; AddTask 2 100 0; MakeReady 1; Lock 1 1; MakeReady 2].

Lemma inherit_reachable : @reachable linear_search 7 (state_after inherit_calls).
Proof.
  assert (forall s, state_after inherit_calls = s -> @reachable linear_search 7 s) as Hs; [|by apply Hs].
  intros s <-. apply (@reach_step linear_search 7 (state_after (take 4 inherit_calls)) (MakeReady 2)); [| |by vm_compute].
  2:{ split; [by vm_compute; eexists|]. intros (m & st & H & Hin).
      assert (mutexes (state_after (take 4 inherit_calls)) = {[1 := {| owner := Some 1; waiters := [] |}]}) as Hm by (by vm_compute).
      rewrite Hm in H. apply lookup_singleton_Some in H as [_ <-]. cbn in Hin. set_solver. }
  apply (@reach_step linear_search 7 (state_after (take 3 inherit_calls)) (Lock 1 1)); [| |by vm_compute].
  2:{ split; [by vm_compute|]. intros st o H. vm_compute in H. discriminate H. }
  apply (@reach_step linear_search 7 (state_after (take 2 inherit_calls)) (MakeReady 1)); [| |by vm_compute].
  2:{ split; [by vm_compute; eexists|]. intros (m & st & H & Hin).
      assert (mutexes (state_after (take 2 inherit_calls)) = ∅) as Hm by (by vm_compute).
      rewrite Hm in H. by rewrite lookup_empty in H. }
  apply (@reach_step linear_search 7 (state_after (take 1 inherit_calls)) (AddTask 2 100 0)); [| |by vm_compute].
  2:{ by vm_compute. }
  apply (@reach_step linear_search 7 (new 7) (AddTask 1 200 0)); [constructor | by vm_compute | by vm_compute].
Qed.

(** Locking the mutex of the preempted task 1 is allowed. *)
Lemma inherit_lock_allowed : allowed (Lock 2 1) (state_after inherit_calls).
Proof.
  split; [by vm_compute|]. intros st o Hst Ho.
  assert (mutexes (state_after inherit_calls) = {[1 := {| owner := Some 1; waiters := [] |}]}) as Hm by (by vm_compute).
  rewrite Hm in Hst. apply lookup_singleton_Some in Hst as [_ <-]. cbn in Ho. injection Ho as <-.
  split; [done|]. intros (m & st & H & Hin). rewrite Hm in H.
  apply lookup_singleton_Some in H as [_ <-]. cbn in Hin. set_solver.
Qed.

Lemma autosar_schedules_most_urgent_witness :
  Inv (state_after inherit_calls) /\
  exists s', @exec_call linear_search (Lock 2 1) (state_after inherit_calls) = Done s' /\ Inv s'.
Proof.
  destruct (@autosar_schedules_most_urgent linear_search 7 _ inherit_reachable) as [HI Hstep].
  split; [exact HI | exact (Hstep _ inherit_lock_allowed)].
Defined.

(** Task 2 now waits for task 1, which runs with its priority. *)
Definition locked_calls : list call := inherit_calls ++ [Lock 2 1].
Lemma locked_reachable : @reachable linear_search 7 (state_after locked_calls).
Proof.
  apply (@reach_step linear_search 7 (state_after inherit_calls) (Lock 2 1));
    [apply inherit_reachable | apply inherit_lock_allowed | by vm_compute].
Qed.

Lemma autosar_mutex_hand_over_witness :
  (exists s', @lock_mutex linear_search 2 1 (state_after inherit_calls) = Done s' /\ blocked s' 2
     /\ pr (tasks s') 1 <= pr (tasks s') 2 /\ (forall x, runnable s' x <-> x ∈ ready (state_after inherit_calls)))
  /\ exists s' c, @unlock_mutex linear_search 1 1 (state_after locked_calls) = Done s'
     /\ mutexes s' !! 1 = Some {| owner := Some 2; waiters := [] |}
     /\ (forall w', w' ∈ [] -> pr (tasks (state_after locked_calls)) 2 <= pr (tasks (state_after locked_calls)) w')
     /\ runnable s' 2 /\ current s' = Some c /\ pr (tasks s') c <= pr (tasks s') 2.
Proof.
  split.
  - apply (proj1 (@autosar_mutex_hand_over linear_search 7 _ 2 1 {| owner := Some 1; waiters := [] |}
      inherit_reachable eq_refl eq_refl) 1 eq_refl).
    + done.
    + apply (proj2 inherit_lock_allowed _ 1 eq_refl eq_refl).
  - exact (proj2 (@autosar_mutex_hand_over linear_search 7 _ 1 1 {| owner := Some 1; waiters := [2] |}
      locked_reachable eq_refl eq_refl) 2 [] eq_refl eq_refl).
Defined.
End Autosar.
