(* ===== verification/LinuxLike.v ===== *)
(** The Linux-like scheduler policy, [crates/l4/scheduler/linux_like.rs]: time
    slices by weight, and the task with the least virtual run time next. *)
From S2P Require Import Prelude Error Runqueue.
From Stdlib Require Import ZArith Lia Sorted.
From stdpp Require Import base list gmap sorting.
Open Scope Z_scope.

Module LinuxLike.

Definition BASE_SLICE : Z := 5.

Record Task := {
  weight : Z;
  vruntime : Z;
  runtime : Z;
  thread_cap : Z;
  slice : Z;
  remaining : Z;
}.
Record LinuxLikeScheduler := {
  scheduler_cap : Z;
  tasks : gmap Z Task;
  ready : list Z;
  current : option Z;
  (** the calls [run_thread(scheduler_cap, thread_cap, null)] *)
  runs : list (Z * Z);
}.
Definition set_tasks (s : LinuxLikeScheduler) (ts : gmap Z Task) : LinuxLikeScheduler :=
  {| scheduler_cap := scheduler_cap s; tasks := ts; ready := ready s; current := current s; runs := runs s |}.
Definition set_ready (s : LinuxLikeScheduler) (r : list Z) : LinuxLikeScheduler :=
  {| scheduler_cap := scheduler_cap s; tasks := tasks s; ready := r; current := current s; runs := runs s |}.
Definition set_current (s : LinuxLikeScheduler) (c : option Z) : LinuxLikeScheduler :=
  {| scheduler_cap := scheduler_cap s; tasks := tasks s; ready := ready s; current := c; runs := runs s |}.
Definition add_run (s : LinuxLikeScheduler) (r : Z * Z) : LinuxLikeScheduler :=
  {| scheduler_cap := scheduler_cap s; tasks := tasks s; ready := ready s; current := current s;
     runs := runs s ++ [r] |}.
Definition set_remaining (t : Task) (r : Z) : Task :=
  {| weight := weight t; vruntime := vruntime t; runtime := runtime t; thread_cap := thread_cap t;
     slice := slice t; remaining := r |}.

Section Ops.
Context {BS : BinarySearch} {B : Build}.

Definition vr_of (ts : gmap Z Task) (id : Z) : exec Z := t ← unwrap (ts !! id); Done (vruntime t).

Definition new (cap : Z) : LinuxLikeScheduler :=
  {| scheduler_cap := cap; tasks := ∅; ready := []; current := None; runs := [] |}.

Definition add_task (id weight thread_cap : Z) (s : LinuxLikeScheduler) : exec LinuxLikeScheduler :=
  bw ← umul 64 BASE_SLICE weight;
  slice ← udiv bw 1024;
  Done (set_tasks s (<[id := {| weight := weight; vruntime := 0; runtime := 0; thread_cap := thread_cap;
                                slice := slice; remaining := slice |}]> (tasks s))).

Definition insert_ready_sorted (id : Z) (s : LinuxLikeScheduler) : exec LinuxLikeScheduler :=
  vr ← vr_of (tasks s) id;
  r ← insert_sorted (vr_of (tasks s)) (ready s) vr id;
  Done (set_ready s r).

Definition run_next (s : LinuxLikeScheduler) : exec LinuxLikeScheduler :=
  match ready s with
  | [] => Done s
  | next :: rest =>
    t ← unwrap (tasks s !! next);
    let s := set_tasks (set_ready s rest) (<[next := set_remaining t (slice t)]> (tasks s)) in
    Done (add_run (set_current s (Some next)) (scheduler_cap s, thread_cap t))
  end.

Definition preempt (s : LinuxLikeScheduler) : exec LinuxLikeScheduler :=
  s ← match current s with
      | Some cur => insert_ready_sorted cur (set_current s None)
      | None => Done s
      end;
  run_next s.

Definition make_ready (id : Z) (s : LinuxLikeScheduler) : exec LinuxLikeScheduler :=
  if bool_decide (current s = Some id) || bool_decide (id ∈ ready s) then Done s
  else
    s ← insert_ready_sorted id s;
    match current s with
    | Some cur =>
      vi ← vr_of (tasks s) id;
      vc ← vr_of (tasks s) cur;
      if vi <? vc then preempt s else Done s
    | None => run_next s
    end.

Definition tick (s : LinuxLikeScheduler) : exec LinuxLikeScheduler :=
  match current s with
  | Some cur =>
    t ← unwrap (tasks s !! cur);
    rt ← uadd 64 (runtime t) 1;
    q ← udiv 1024 (weight t);
    let inc := Z.max 1 q in
    vr ← uadd 64 (vruntime t) inc;
    rem ← usub 64 (remaining t) 1;
    let s := set_tasks s (<[cur := {| weight := weight t; vruntime := vr; runtime := rt;
                                      thread_cap := thread_cap t; slice := slice t; remaining := rem |}]> (tasks s)) in
    if rem =? 0 then preempt s else Done s
  | None => run_next s
  end.

Definition task_runtime (id : Z) (s : LinuxLikeScheduler) : exec Z :=
  t ← unwrap (tasks s !! id); Done (runtime t).

Fixpoint ticks (n : nat) (s : LinuxLikeScheduler) : exec LinuxLikeScheduler :=
  match n with O => Done s | S n => s ← tick s; ticks n s end.

(** Tasks added and then made ready, in the order of the list. *)
Fixpoint add_all (l : list (Z * Z * Z)) (s : LinuxLikeScheduler) : exec LinuxLikeScheduler :=
  match l with [] => Done s | (id, w, cap) :: l => s ← add_task id w cap s; add_all l s end.
Fixpoint make_all_ready (l : list Z) (s : LinuxLikeScheduler) : exec LinuxLikeScheduler :=
  match l with [] => Done s | id :: l => s ← make_ready id s; make_all_ready l s end.
Definition start_all (cap : Z) (l : list (Z * Z * Z)) : exec LinuxLikeScheduler :=
  s ← add_all l (new cap); make_all_ready ((fun x => x.1.1) <$> l) s.
End Ops.

(** * Invariant *)
Section Invariant.
Context {BS : BinarySearch} {B : Build}.
(** Whatever is known of all weights. *)
Variable W : Z -> Prop.

Definition vr (ts : gmap Z Task) (id : Z) : Z := match ts !! id with Some t => vruntime t | None => 0 end.
Definition rt (ts : gmap Z Task) (id : Z) : Z := match ts !! id with Some t => runtime t | None => 0 end.
Definition known (ts : gmap Z Task) (id : Z) : Prop := is_Some (ts !! id).
Definition runnable (s : LinuxLikeScheduler) (x : Z) : Prop := x ∈ ready s \/ current s = Some x.
(** A tick's charge: [max(1, 1024 / weight)]. *)
Definition charge (w : Z) : Z := Z.max 1 (1024 `div` w).

(** A task as [add_task] makes it, of a weight whose slice is not zero: its
    virtual run time is its run time at its charge per tick. *)
Definition task_ok (t : Task) : Prop :=
  205 <= weight t < 2 ^ 61 /\ slice t = (5 * weight t) `div` 1024
  /\ vruntime t = charge (weight t) * runtime t /\ 0 <= runtime t /\ W (weight t).
(** The queue holds known tasks once each, least virtual run time first; the
    running task is not in it and has part of its slice left; the processor idles
    only if nothing is ready. *)
Definition RunInv (ts : gmap Z Task) (r : list Z) (c : option Z) : Prop :=
  NoDup r /\ (forall x, x ∈ r -> known ts x)
  /\ StronglySorted (fun a b => vr ts a <= vr ts b) r
  /\ match c with
     | Some c => c ∉ r /\ exists t, ts !! c = Some t /\ 1 <= remaining t <= slice t
     | None => r = []
     end.
(** Since its slice began the running task has had [slice - remaining] ticks;
    then it had the least virtual run time, and no other was more than [D] ahead. *)
Definition Spread (D : Z) (ts : gmap Z Task) (r : list Z) (c : option Z) : Prop :=
  forall c' t, c = Some c' -> ts !! c' = Some t ->
    let began := vruntime t - (slice t - remaining t) * charge (weight t) in
    forall x, x ∈ r -> began <= vr ts x <= began + D.
Record Inv (n D : Z) (s : LinuxLikeScheduler) : Prop := {
  inv_tasks : forall id t, tasks s !! id = Some t ->
    task_ok t /\ runtime t <= n /\ slice t * charge (weight t) <= D;
  inv_run : RunInv (tasks s) (ready s) (current s);
  inv_spread : Spread D (tasks s) (ready s) (current s);
}.

Lemma vr_of_known ts id : known ts id -> vr_of ts id = Done (vr ts id).
Proof. intros [t Ht]. unfold vr_of, vr. rewrite Ht. done. Qed.

Lemma ll_insert_ready_spec s id :
  NoDup (ready s) -> (forall x, x ∈ ready s -> known (tasks s) x) ->
  StronglySorted (fun a b => vr (tasks s) a <= vr (tasks s) b) (ready s) ->
  known (tasks s) id -> id ∉ ready s ->
  exists r, insert_ready_sorted id s = Done (set_ready s r)
    /\ NoDup r /\ StronglySorted (fun a b => vr (tasks s) a <= vr (tasks s) b) r
    /\ forall x, x ∈ r <-> x = id \/ x ∈ ready s.
Proof.
  intros Hn Hk Hs Hid Hni. unfold insert_ready_sorted. rewrite vr_of_known by done. cbn.
  destruct (insert_sorted_spec (vr_of (tasks s)) (vr (tasks s)) (ready s) (vr (tasks s) id) id)
    as (l1 & l2 & Hr & -> & Hsort); [|done|].
  { intros x Hx. by apply vr_of_known, Hk. }
  cbn. exists (l1 ++ id :: l2). split; [done|]. split; [|split].
  - rewrite Hr in Hn, Hni. rewrite <- (Permutation_middle l1 l2 id). constructor; [set_solver | done].
  - by apply Hsort.
  - intros x. rewrite Hr. set_solver.
Qed.

Lemma vr_set_remaining ts i t r x : ts !! i = Some t -> vr (<[i := set_remaining t r]> ts) x = vr ts x.
Proof.
  intros Hi. unfold vr. destruct (decide (x = i)) as [->|].
  - by rewrite lookup_insert_eq, Hi.
  - by rewrite lookup_insert_ne.
Qed.
Lemma slice_pos t : task_ok t -> 1 <= slice t.
Proof. intros (Hw & -> & _). apply Z.div_le_lower_bound; lia. Qed.

(** Starting the next task: it has the least virtual run time. *)
Lemma ll_run_next_spec n D s lo :
  NoDup (ready s) -> (forall x, x ∈ ready s -> known (tasks s) x) ->
  StronglySorted (fun a b => vr (tasks s) a <= vr (tasks s) b) (ready s) -> current s = None ->
  (forall id t, tasks s !! id = Some t -> task_ok t /\ runtime t <= n /\ slice t * charge (weight t) <= D) ->
  (forall x, x ∈ ready s -> lo <= vr (tasks s) x <= lo + D) ->
  exists s', run_next s = Done s' /\ Inv n D s' /\ (forall x, runnable s' x <-> x ∈ ready s)
    /\ (forall x, vr (tasks s') x = vr (tasks s) x) /\ (forall x, rt (tasks s') x = rt (tasks s) x)
    /\ (forall x, known (tasks s') x <-> known (tasks s) x).
Proof.
  intros Hn Hk Hs Hc Ht Hlo. unfold run_next. destruct (ready s) as [|next rest] eqn:Hr.
  - exists s. split; [done|]. split; [|unfold runnable; rewrite Hr, Hc; split_and!; try done; set_solver].
    split; [done | |]; rewrite ?Hr, Hc; [split_and!; try done; rewrite Hr; constructor | by intros ? ?].
  - destruct (Hk next ltac:(set_solver)) as [t Hnext]. rewrite Hnext. cbn [unwrap]. estep.
    destruct (Ht next t Hnext) as (Hok & Hrt & HD). pose proof (slice_pos t Hok) as Hsl.
    eexists. split; [done|]. set (ts' := <[next := set_remaining t (slice t)]> (tasks s)).
    assert (forall x, vr ts' x = vr (tasks s) x) as Hvr by (intros; by apply vr_set_remaining).
    assert (forall x, rt ts' x = rt (tasks s) x) as Hrts.
    { intros x. unfold rt, ts'. destruct (decide (x = next)) as [->|].
      - by rewrite lookup_insert_eq, Hnext.
      - by rewrite lookup_insert_ne. }
    assert (forall x, known ts' x <-> known (tasks s) x) as Hkn.
    { intros x. unfold known, ts'. destruct (decide (x = next)) as [->|].
      - rewrite lookup_insert_eq, Hnext. by split.
      - by rewrite lookup_insert_ne. }
    apply NoDup_cons in Hn as [Hnr Hnd]. apply StronglySorted_inv in Hs as [Hs Hmin]. rewrite Forall_forall in Hmin.
    split; [|split_and!; [|done..]].
    + split; cbn; fold ts'.
      * intros id t0 Hi. unfold ts' in Hi. destruct (decide (id = next)) as [->|].
        -- rewrite lookup_insert_eq in Hi. injection Hi as <-. done.
        -- rewrite lookup_insert_ne in Hi by done. by apply (Ht id).
      * split_and!; [done | intros; apply Hkn, Hk; set_solver | |done|].
        -- eapply sorted_ext; [|exact Hs]. intros. symmetry. apply Hvr.
        -- exists (set_remaining t (slice t)). split; [by apply lookup_insert_eq|]. cbn. lia.
      * intros c' t0 [= <-] Hi. cbv zeta. intros x Hx. unfold ts' in Hi.
        rewrite lookup_insert_eq in Hi. injection Hi as <-. cbn.
        rewrite Hvr. specialize (Hmin x Hx). cbn in Hmin. unfold vr at 1 in Hmin. rewrite Hnext in Hmin.
        assert (lo <= vr (tasks s) next) as Hl by (apply Hlo; set_solver). unfold vr in Hl. rewrite Hnext in Hl.
        assert (vr (tasks s) x <= lo + D) by (apply Hlo; set_solver). lia.
    + intros x. unfold runnable. cbn. rewrite elem_of_cons. naive_solver.
Qed.

(** Every runnable task's virtual run time is within [D] of every other's. *)
Lemma spread_bound n D s x y : Inv n D s -> runnable s x -> runnable s y ->
  vr (tasks s) x <= vr (tasks s) y + D.
Proof.
  intros [Ht (_ & Hk & _ & Hc) Hsp] Hx Hy. destruct (current s) as [c|] eqn:Ec;
    [|unfold runnable in *; rewrite Hc, Ec in *; set_solver].
  destruct Hc as (Hcn & t & Htc & Hrem). destruct (Ht c t Htc) as ((Hw & Hs & Hv & Hr0 & HW) & Hr & HD).
  specialize (Hsp c t eq_refl Htc). cbv zeta in Hsp.
  assert (1 <= charge (weight t)) as Hch by (unfold charge; lia).
  set (b := vruntime t - (slice t - remaining t) * charge (weight t)) in *.
  assert (forall z, runnable s z -> b <= vr (tasks s) z <= b + D) as Hall.
  { intros z [Hz|Hz]; [by apply Hsp|]. assert (z = c) as -> by congruence.
    unfold vr. rewrite Htc. subst b. nia. }
  pose proof (Hall x Hx). pose proof (Hall y Hy). lia.
Qed.

(** A tick neither panics nor overflows while the clocks are below [n < 2^61]. *)
Lemma tick_inv n D s : Inv n D s -> 0 <= n < 2 ^ 60 -> 0 <= D ->
  exists s', tick s = Done s' /\ Inv (n + 1) D s' /\ (forall x, runnable s' x <-> runnable s x)
    /\ (forall x, known (tasks s') x <-> known (tasks s) x)
    /\ (forall x, rt (tasks s') x = rt (tasks s) x + if decide (current s = Some x) then 1 else 0).
Proof.
  intros HI Hn HD0. pose proof HI as [Ht (Hnd & Hk & Hsort & Hc) Hsp]. unfold tick.
  destruct (current s) as [c|] eqn:Ec.
  2:{ unfold run_next. rewrite Hc. exists s. split; [done|]. split; [|split_and!; try done].
      - split; [|by rewrite Ec, Hc in *; apply inv_run in HI; rewrite Ec, Hc in HI | by rewrite Ec].
        intros id t Hi. destruct (Ht id t Hi) as (?&?&?). split_and!; [done | lia | done].
      - intros x. rewrite decide_False by done. lia. }
  destruct Hc as (Hcn & t & Htc & Hrem). destruct (Ht c t Htc) as ((Hw & Hs & Hv & Hr0 & HW) & Hr & HD).
  rewrite Htc. cbn [unwrap]. estep. rewrite uadd_small by lia. estep.
  unfold udiv. zif_false. estep. fold (charge (weight t)).
  assert (1 <= charge (weight t) <= 4) as Hch.
  { unfold charge. assert (1024 `div` weight t < 5) by (apply Z.div_lt_upper_bound; lia). lia. }
  rewrite uadd_small by (rewrite Hv; nia). estep. rewrite usub_small by lia. estep.
  set (t' := {| weight := weight t; vruntime := vruntime t + charge (weight t); runtime := runtime t + 1;
                thread_cap := thread_cap t; slice := slice t; remaining := remaining t - 1 |}).
  set (ts' := <[c := t']> (tasks s)).
  assert (forall x, x <> c -> vr ts' x = vr (tasks s) x) as Hvr
    by (intros x Hx; unfold vr, ts'; by rewrite lookup_insert_ne).
  assert (vr ts' c = vruntime t + charge (weight t)) as Hvc by (unfold vr, ts'; by rewrite lookup_insert_eq).
  assert (forall x, rt ts' x = rt (tasks s) x + if decide (Some c = Some x) then 1 else 0) as Hrts.
  { intros x. unfold rt, ts'. destruct (decide (Some c = Some x)) as [[= <-]|Hne].
    - by rewrite lookup_insert_eq, Htc.
    - rewrite lookup_insert_ne by congruence. lia. }
  assert (forall x, known ts' x <-> known (tasks s) x) as Hkn.
  { intros x. unfold known, ts'. destruct (decide (x = c)) as [->|].
    - rewrite lookup_insert_eq, Htc. by split.
    - by rewrite lookup_insert_ne. }
  assert (forall id t0, ts' !! id = Some t0 -> task_ok t0 /\ runtime t0 <= n + 1 /\ slice t0 * charge (weight t0) <= D) as Ht'.
  { intros id t0 Hi. unfold ts' in Hi. destruct (decide (id = c)) as [->|].
    - rewrite lookup_insert_eq in Hi. injection Hi as <-. unfold task_ok. cbn. rewrite Hv. split_and!; try done; try lia.
    - rewrite lookup_insert_ne in Hi by done. destruct (Ht id t0 Hi) as (?&?&?). split_and!; [done | lia | done]. }
  assert (StronglySorted (fun a b => vr ts' a <= vr ts' b) (ready s)) as Hsort'.
  { eapply sorted_ext; [|exact Hsort]. intros x Hx. symmetry. apply Hvr. by intros ->. }
  specialize (Hsp c t eq_refl Htc). cbv zeta in Hsp.
  destruct (remaining t - 1 =? 0) eqn:E; zb.
  - unfold preempt. cbn [current set_tasks]. rewrite Ec.
    destruct (ll_insert_ready_spec (set_current (set_tasks s ts') None) c) as (r & -> & Hndr & Hsr & Hel); try done.
    { intros x Hx. by apply Hkn, Hk. } { apply Hkn. by exists t. } estep.
    destruct (ll_run_next_spec (n + 1) D (set_ready (set_current (set_tasks s ts') None) r)
      (vruntime t - (slice t - remaining t) * charge (weight t))) as (s' & -> & HI' & Hrun & Hv' & Hr' & Hk'); cbn; try done.
    + intros x Hx. apply Hel in Hx as [->|Hx]; [apply Hkn; by exists t | by apply Hkn, Hk].
    + intros x Hx. apply Hel in Hx as [->|Hx].
      * rewrite Hvc. nia.
      * rewrite Hvr by (by intros ->). by apply Hsp.
    + exists s'. split; [done|]. split; [done|]. split_and!.
      * intros x. rewrite Hrun. cbn. rewrite Hel. unfold runnable. cbn. rewrite Ec. naive_solver.
      * intros x. rewrite Hk'. cbn. apply Hkn.
      * intros x. rewrite Hr'. cbn. apply Hrts.
  - eexists. split; [done|]. cbn [tasks set_tasks current ready]. split; [|split_and!; [|exact Hkn | exact Hrts]].
    + split; cbn [tasks set_tasks current ready]; rewrite ?Ec.
      * exact Ht'.
      * split_and!; [done | intros x Hx; by apply Hkn, Hk | done | done |].
        exists t'. split; [by apply lookup_insert_eq|]. cbn. lia.
      * intros c' t0 [= <-] Hi. cbv zeta. intros x Hx. unfold ts' in Hi. rewrite lookup_insert_eq in Hi.
        injection Hi as <-. cbn. fold ts'. rewrite Hvr by (by intros ->). specialize (Hsp x Hx). lia.
    + done.
Qed.

(** The run times of a list of tasks, added up. *)
Definition total (l : list Z) (s : LinuxLikeScheduler) : Z :=
  foldr (fun x a => rt (tasks s) x + a) 0 l.
Lemma total_tick l s s' c : NoDup l -> c ∈ l ->
  (forall x, rt (tasks s') x = rt (tasks s) x + if decide (Some c = Some x) then 1 else 0) ->
  total l s' = total l s + 1.
Proof.
  unfold total. intros Hn Hc Hrt. induction l as [|x l IH]; [set_solver|]. apply NoDup_cons in Hn as [Hx Hn].
  cbn. rewrite Hrt. destruct (decide (Some c = Some x)) as [[= <-]|Hne].
  - assert (foldr (fun x a => rt (tasks s') x + a) 0 l = foldr (fun x a => rt (tasks s) x + a) 0 l) as ->; [|lia].
    clear -Hx Hrt. induction l as [|y l IH]; [done|]. cbn. rewrite Hrt, decide_False by set_solver.
    rewrite IH by set_solver. lia.
  - rewrite IH by (done || set_solver). lia.
Qed.

Lemma ticks_inv k n D s : Inv n D s -> 0 <= n -> n + Z.of_nat k < 2 ^ 60 -> 0 <= D ->
  exists s', ticks k s = Done s' /\ Inv (n + Z.of_nat k) D s' /\ (forall x, runnable s' x <-> runnable s x)
    /\ (forall x, known (tasks s') x <-> known (tasks s) x)
    /\ (forall l, NoDup l -> (forall x, runnable s x -> x ∈ l) -> (exists x, runnable s x) ->
        total l s' = total l s + Z.of_nat k).
Proof.
  revert n s. induction k as [|k IH]; intros n s HI Hn Hk HD.
  - exists s. split; [done|]. replace (n + Z.of_nat 0) with n by lia. split_and!; try done. intros; lia.
  - cbn [ticks]. destruct (tick_inv n D s HI ltac:(lia) HD) as (s1 & -> & HI1 & Hr1 & Hk1 & Ht1). estep.
    destruct (IH (n + 1) s1 HI1 ltac:(lia) ltac:(lia) HD) as (s' & -> & HI' & Hr' & Hk' & Ht').
    exists s'. split; [done|]. replace (n + Z.of_nat (S k)) with (n + 1 + Z.of_nat k) by lia. split; [done|].
    split; [intros x; by rewrite Hr', Hr1|]. split; [intros x; by rewrite Hk', Hk1|].
    intros l Hnd Hall Hex.
    rewrite Ht'; [|done | intros x Hx; by apply Hall, Hr1 | destruct Hex as [x Hx]; exists x; by apply Hr1].
    destruct (current s) as [c|] eqn:Ec.
    + rewrite (total_tick l s s1 c Hnd) by (try exact Ht1; apply Hall; by right). lia.
    + destruct (inv_run _ _ _ HI) as (_ & _ & _ & Hc). rewrite Ec in Hc. destruct Hex as [x [Hx|Hx]]; [|congruence].
      rewrite Hc in Hx. set_solver.
Qed.

(** ** Set-up: everything added, then made ready, before the first tick *)
Definition weight_ok (D w : Z) : Prop := 205 <= w < 2 ^ 61 /\ ((5 * w) `div` 1024) * charge w <= D /\ W w.
Definition ids (l : list (Z * Z * Z)) : list Z := (fun x => x.1.1) <$> l.

(** No task has run yet. *)
Record Fresh (D : Z) (s : LinuxLikeScheduler) : Prop := {
  fresh_tasks : forall id t, tasks s !! id = Some t ->
    task_ok t /\ slice t * charge (weight t) <= D /\ runtime t = 0 /\ remaining t = slice t;
  fresh_nodup : NoDup (ready s);
  fresh_known : forall x, runnable s x -> known (tasks s) x;
  fresh_current : match current s with Some c => c ∉ ready s | None => ready s = [] end;
}.
Lemma fresh_vr D s x : Fresh D s -> vr (tasks s) x = 0.
Proof.
  intros HF. unfold vr. destruct (tasks s !! x) as [t|] eqn:E; [|done].
  destruct (fresh_tasks _ _ HF x t E) as ((_ & _ & -> & _) & _ & -> & _). lia.
Qed.
Lemma all_zero_sorted (f : Z -> Z) l : (forall x, f x = 0) -> StronglySorted (fun a b => f a <= f b) l.
Proof. intros Hf. induction l; constructor; [done|]. apply Forall_forall. intros. rewrite !Hf. lia. Qed.

Lemma fresh_inv D s : Fresh D s -> 0 <= D -> Inv 0 D s.
Proof.
  intros HF HD. pose proof (fun x => fresh_vr D s x HF) as Hz. destruct HF as [Ht Hn Hk Hc]. split.
  - intros id t Hi. destruct (Ht id t Hi) as (?&?&?&?). split_and!; [done | lia | done].
  - split_and!; [done | intros x Hx; apply Hk; by left | by apply all_zero_sorted |].
    destruct (current s) as [c|] eqn:Ec; [|done]. split; [done|].
    destruct (Hk c ltac:(by right)) as [t Htc]. exists t. destruct (Ht c t Htc) as (Hok & _ & _ & Hr).
    pose proof (slice_pos t Hok). split; [done|]. lia.
  - intros c t Ec Htc. cbv zeta. intros x Hx. rewrite Hz. destruct (Ht c t Htc) as (Hok & _ & Hrt & Hr).
    destruct Hok as (_ & _ & Hv & _). rewrite Hv, Hrt, Hr. lia.
Qed.

Lemma make_ready_fresh D s id : Fresh D s -> known (tasks s) id ->
  exists s', make_ready id s = Done s' /\ Fresh D s' /\ (forall x, known (tasks s') x <-> known (tasks s) x)
    /\ forall x, runnable s' x <-> runnable s x \/ x = id.
Proof.
  intros HF Hid. pose proof (fun x => fresh_vr D s x HF) as Hz. pose proof HF as [Ht Hn Hk Hc]. unfold make_ready.
  destruct (bool_decide (current s = Some id)) eqn:E1; cbn [orb].
  { apply bool_decide_eq_true in E1. exists s. split_and!; try done. intros x. unfold runnable. naive_solver. }
  destruct (bool_decide (id ∈ ready s)) eqn:E2.
  { apply bool_decide_eq_true in E2. exists s. split_and!; try done. intros x. unfold runnable. naive_solver. }
  apply bool_decide_eq_false in E1, E2.
  destruct (ll_insert_ready_spec s id Hn ltac:(intros x Hx; apply Hk; by left) (all_zero_sorted _ _ Hz) Hid E2)
    as (r & -> & Hnr & _ & Hel). estep. cbn [current tasks set_ready].
  destruct (current s) as [c|] eqn:Ec.
  - rewrite !vr_of_known by (done || apply Hk; by right). estep. rewrite !Hz. cbn.
    eexists. split; [done|]. split; [|split; [done|intros x; unfold runnable; cbn; rewrite Hel; naive_solver]].
    split; cbn; [done | done | |].
    + intros x [Hx|Hx]; cbn in Hx; [apply Hel in Hx as [->|Hx]; [done | apply Hk; by left] | apply Hk; by right].
    + rewrite Ec, Hel. naive_solver.
  - assert (r = [id]) as ->.
    { rewrite Hc in Hel. destruct r as [|a [|b r]].
      - exfalso. assert (id ∈ []) by (apply Hel; by left). set_solver.
      - f_equal. assert (a ∈ [a]) as Ha by set_solver. apply Hel in Ha. set_solver.
      - exfalso. assert (a = id) by (assert (a ∈ a :: b :: r) as H by set_solver; apply Hel in H; set_solver).
        assert (b = id) by (assert (b ∈ a :: b :: r) as H' by set_solver; apply Hel in H'; set_solver).
        subst. apply NoDup_cons in Hnr as [Hnr _]. set_solver. }
    destruct Hid as [t Hid]. unfold run_next. cbn [ready set_ready tasks]. rewrite Hid. cbn [unwrap]. estep.
    eexists. split; [done|]. split; [split; cbn|split; cbn].
    + intros i t0 Hi. destruct (decide (i = id)) as [->|].
      * rewrite lookup_insert_eq in Hi. injection Hi as <-. cbn. destruct (Ht id t Hid) as (?&?&?&?). done.
      * rewrite lookup_insert_ne in Hi by done. by apply (Ht i).
    + constructor.
    + intros x [Hx|Hx]; cbn in Hx; [set_solver|]. injection Hx as <-. unfold known. rewrite lookup_insert_eq. done.
    + set_solver.
    + intros x. unfold known. destruct (decide (x = id)) as [->|].
      * rewrite lookup_insert_eq, Hid. by split.
      * by rewrite lookup_insert_ne.
    + intros x. unfold runnable. cbn. rewrite Hc, Ec. set_solver.
Qed.

Lemma make_all_ready_fresh D l s : Fresh D s -> (forall x, x ∈ l -> known (tasks s) x) ->
  exists s', make_all_ready l s = Done s' /\ Fresh D s' /\ (forall x, known (tasks s') x <-> known (tasks s) x)
    /\ forall x, runnable s' x <-> runnable s x \/ x ∈ l.
Proof.
  revert s. induction l as [|id l IH]; intros s HF Hk.
  - exists s. split_and!; try done. set_solver.
  - cbn. destruct (make_ready_fresh D s id HF ltac:(apply Hk; set_solver)) as (s1 & -> & HF1 & Hk1 & Hr1). estep.
    destruct (IH s1 HF1) as (s' & -> & HF' & Hk' & Hr').
    { intros x Hx. apply Hk1, Hk. set_solver. }
    exists s'. split_and!; try done; intros x; [by rewrite Hk', Hk1 | rewrite Hr', Hr1; set_solver].
Qed.

Lemma add_all_fresh D l s : Fresh D s -> NoDup (ids l) -> Forall (fun x => weight_ok D x.1.2) l ->
  (forall x, x ∈ ids l -> ~ known (tasks s) x) ->
  exists s', add_all l s = Done s' /\ Fresh D s' /\ (forall x, runnable s' x <-> runnable s x)
    /\ forall x, known (tasks s') x <-> known (tasks s) x \/ x ∈ ids l.
Proof.
  revert s. induction l as [|[[id w] cap] l IH]; intros s HF Hn Hw Hnew.
  - exists s. split_and!; try done. set_solver.
  - apply Forall_cons in Hw as [(Hw & HwD & HwW) Hws]. cbn in Hn. apply NoDup_cons in Hn as [Hid Hn]. cbn [fst snd] in *.
    cbn [add_all]. unfold add_task, BASE_SLICE. rewrite umul_small by lia. estep. unfold udiv. zif_false. estep.
    set (t := {| weight := w |}). set (s1 := set_tasks s (<[id := t]> (tasks s))).
    assert (forall x, known (tasks s1) x <-> known (tasks s) x \/ x = id) as Hk1.
    { intros x. unfold known, s1. cbn. destruct (decide (x = id)) as [->|].
      - rewrite lookup_insert_eq. split; [by right | by eexists].
      - rewrite lookup_insert_ne by done. naive_solver. }
    destruct (IH s1) as (s' & -> & HF' & Hr' & Hk'); [|done|done| |].
    + destruct HF as [Ht Hnd Hkn Hc]. split; [| done | | done].
      * intros i t0 Hi. unfold s1 in Hi. cbn in Hi. destruct (decide (i = id)) as [->|].
        -- rewrite lookup_insert_eq in Hi. injection Hi as <-. unfold task_ok. cbn. split_and!; (done || lia).
        -- rewrite lookup_insert_ne in Hi by done. by apply (Ht i).
      * intros x Hx. apply Hk1. left. by apply Hkn.
    + intros x Hx Hkx. apply Hk1 in Hkx as [Hkx | ->]; [|done]. apply (Hnew x); [set_solver | done].
    + exists s'. split_and!; try done. intros x. rewrite Hk', Hk1. cbn. set_solver.
Qed.

Lemma start_all_fresh D cap l : NoDup (ids l) -> Forall (fun x => weight_ok D x.1.2) l ->
  exists s, start_all cap l = Done s /\ Fresh D s /\ forall x, runnable s x <-> x ∈ ids l.
Proof.
  intros Hn Hw. unfold start_all.
  destruct (add_all_fresh D l (new cap)) as (s1 & -> & HF1 & Hr1 & Hk1); try done.
  { split; cbn; [intros id t H; by rewrite lookup_empty in H | constructor | | done].
    intros x [Hx|Hx]; [set_solver | discriminate Hx]. }
  { intros x _ [t Ht]. cbn in Ht. by rewrite lookup_empty in Ht. }
  estep. destruct (make_all_ready_fresh D (ids l) s1 HF1) as (s & Hs & HF & _ & Hr).
  { intros x Hx. apply Hk1. by right. }
  exists s. split_and!; [done | done |]. intros x. rewrite Hr, Hr1.
  split; [intros [[Hx|Hx]|?]; [set_solver | discriminate Hx | done] | by right].
Qed.

(** The whole run: set-up and [k] ticks. *)
Lemma run_inv D cap l k : NoDup (ids l) -> Forall (fun x => weight_ok D x.1.2) l -> 0 <= D ->
  Z.of_nat k < 2 ^ 60 ->
  exists s0 s, start_all cap l = Done s0 /\ ticks k s0 = Done s /\ Inv (Z.of_nat k) D s
    /\ (forall x, runnable s x <-> x ∈ ids l) /\ (ids l <> [] -> total (ids l) s = Z.of_nat k).
Proof.
  intros Hn Hw HD Hk. destruct (start_all_fresh D cap l Hn Hw) as (s0 & H0 & HF & Hr0).
  destruct (ticks_inv k 0 D s0 (fresh_inv D s0 HF HD) ltac:(lia) ltac:(lia) HD) as (s & Hs & HI & Hr & _ & Ht).
  exists s0, s. split_and!; try done; [intros x; by rewrite Hr, Hr0|]. intros Hne.
  rewrite Ht; [|done | intros x; apply Hr0 | destruct (ids l) as [|x ?]; [done|]; exists x; apply Hr0; set_solver].
  assert (total (ids l) s0 = 0) as ->; [|lia]. clear -HF. unfold total.
  induction (ids l) as [|x l' IH]; [done|]. cbn. rewrite IH. unfold rt.
  destruct (tasks s0 !! x) as [t|] eqn:E; [|done]. by destruct (fresh_tasks _ _ HF x t E) as (_ & _ & -> & _).
Qed.
End Invariant.


(** Tasks of equal weight get equal time: after any number of ticks their run
    times differ by at most one slice. *)
Theorem linux_like_equal_share `{BinarySearch} {B : Build} cap l k w :
  NoDup (ids l) -> 205 <= w < 2 ^ 61 -> Forall (fun x => x.1.2 = w) l -> Z.of_nat k < 2 ^ 60 ->
  exists s0 s, start_all cap l = Done s0 /\ ticks k s0 = Done s
    /\ forall x y, x ∈ ids l -> y ∈ ids l -> rt (tasks s) x <= rt (tasks s) y + (5 * w) `div` 1024.
Proof.
  intros Hn Hw Hl Hk. assert (0 <= (5 * w) `div` 1024) by (apply Z.div_pos; lia).
  assert (1 <= charge w) by (unfold charge; lia).
  destruct (run_inv (eq w) ((5 * w) `div` 1024 * charge w) cap l k Hn) as (s0 & s & Hs0 & Hs & HI & Hr & _); [|nia|done|].
  { eapply Forall_impl; [exact Hl|]. intros x Hx. cbn in Hx. rewrite Hx. unfold weight_ok. cbn. split_and!; (done || lia). }
  exists s0, s. split; [done|]. split; [done|]. intros x y Hx Hy.
  pose proof (spread_bound _ _ _ _ x y HI ltac:(by apply Hr) ltac:(by apply Hr)) as Hb.
  assert (forall z, z ∈ ids l -> vr (tasks s) z = charge w * rt (tasks s) z) as Hv.
  { intros z Hz. apply Hr in Hz. unfold vr, rt. destruct (tasks s !! z) as [t|] eqn:E; [|lia].
    destruct (inv_tasks _ _ _ _ HI z t E) as ((_ & _ & -> & _ & <-) & _). done. }
  rewrite !Hv in Hb by done. nia.
Qed.


(** Three tasks of weights 1024, 2048 and 512 for 100 ticks. *)
Definition three : list (Z * Z * Z) := [(1, 1024, 11); (2, 2048, 12); (3, 512, 13)].

(** The crate's [fairness_between_equal_tasks] test, in both builds. *)
Lemma linux_like_equal_share_witness :
  exists s0 s, @start_all linear_search release_build 0 [(1, 1024, 0); (2, 1024, 0)] = Done s0
    /\ @ticks linear_search release_build 100 s0 = Done s
    /\ forall x y, x ∈ ids [(1, 1024, 0); (2, 1024, 0)] -> y ∈ ids [(1, 1024, 0); (2, 1024, 0)] ->
         rt (tasks s) x <= rt (tasks s) y + (5 * 1024) `div` 1024.
Proof.
  apply (@linux_like_equal_share linear_search release_build 0 [(1, 1024, 0); (2, 1024, 0)] 100 1024).
  - by apply (bool_decide_eq_true_1 (NoDup [1; 2])).
  - lia.
  - repeat constructor.
  - cbn. lia.
Defined.

End LinuxLike.
