(* ===== verification/Host.v ===== *)
(** What the Linux-side servers (fd, aio, epoll, fs) share: the [slab] crate,
    the Linux system calls, and the thread's UTCB as these servers use it (whole
    message-register words, and a length-prefixed payload in the buffer
    registers).

    [Slab] is a class with the crate's documented behaviour (a map from keys it
    chooses, small as long as the table is not huge); [Linux] is a class of system calls on an abstract kernel state,
    with what the manual pages promise about descriptors, lengths and [errno].
    Both have a concrete instance at the end. *)
From S2P Require Import Prelude Error Utcb.
From Stdlib Require Import ZArith Lia.
From stdpp Require Import base list gmap sets.
Open Scope Z_scope.

(** * [slab::Slab] *)
Class Slab := {
  slab : Type -> Type;
  slab_map : forall {A}, slab A -> gmap Z A;
  slab_new : forall {A}, slab A;
  slab_insert : forall {A}, slab A -> A -> Z * slab A;
  slab_remove : forall {A}, slab A -> Z -> slab A;
  slab_set : forall {A}, slab A -> Z -> A -> slab A;
  slab_new_map : forall A, slab_map (slab_new (A := A)) = ∅;
  slab_insert_spec : forall A (s : slab A) x,
    (Z.of_nat (size (slab_map s)) < 2 ^ 62 -> uint 63 (slab_insert s x).1)
    /\ slab_map s !! (slab_insert s x).1 = None
    /\ slab_map (slab_insert s x).2 = <[(slab_insert s x).1 := x]> (slab_map s);
  slab_remove_spec : forall A (s : slab A) k x, slab_map s !! k = Some x ->
    slab_map (slab_remove s k) = delete k (slab_map s);
  slab_set_spec : forall A (s : slab A) k x y, slab_map s !! k = Some x ->
    slab_map (slab_set s k y) = <[k := y]> (slab_map s);
}.
(** [get], [contains]; [slab_set] is a write through [get_mut]. *)
Definition slab_get `{Slab} {A} (s : slab A) (k : Z) : option A := slab_map s !! k.
Definition slab_contains `{Slab} {A} (s : slab A) (k : Z) : bool := bool_decide (is_Some (slab_map s !! k)).

(** * Linux *)
Class LinuxConsts := {
  EBADF : Z; EINVAL : Z; ENOSYS : Z; EIO : Z; EOVERFLOW : Z; ENOENT : Z;
  errno_consts : Forall (fun e => 0 < e < 4096) [EBADF; EINVAL; ENOSYS; EIO; EOVERFLOW; ENOENT];
  EPOLL_CTL_DEL : Z;
  AIO_ALLDONE : Z;
  O_DSYNC : Z;
  SIZE_itimerspec : Z; size_itimerspec_range : 0 < SIZE_itimerspec <= 56;
  SIZE_epoll_event : Z; size_epoll_event_range : 0 < SIZE_epoll_event <= 56;
  SIZE_aiocb : Z; size_aiocb_range : 0 < SIZE_aiocb < 2 ^ 16;
}.

(** Calls that make a new descriptor. *)
Inductive create_call :=
| EventfdNew (initval flags : Z)
| TimerfdCreate (clockid flags : Z)
| Signalfd4New (mask : list Z) (size flags : Z)
| InotifyInit1 (flags : Z)
| EpollCreate1 (flags : Z).
(** Calls on descriptors: result and the bytes the kernel stored. *)
Inductive fd_call :=
| Read (fd count : Z)
| Write (fd : Z) (data : list Z)
| TimerfdSettime (fd flags : Z) (new_value : list Z) (want_old : bool)
| TimerfdGettime (fd : Z)
| Signalfd4Set (fd : Z) (mask : list Z) (size flags : Z)
| InotifyAddWatch (fd : Z) (path : list Z) (mask : Z)
| InotifyRmWatch (fd wd : Z)
| EpollCtl (fd op target : Z) (event : option (list Z))
| EpollWait (fd maxevents timeout : Z)
| Pread (fd count offset : Z)
| Pwrite (fd : Z) (data : list Z) (offset : Z)
| Fsync (fd : Z)
| Fdatasync (fd : Z).

(** How many bytes a call stores in the caller's buffer, given its result. *)
Definition out_len `{LinuxConsts} (c : fd_call) (res : Z) : Z :=
  match c with
  | Read _ _ | Pread _ _ _ => Z.max 0 res
  | TimerfdSettime _ _ _ true => if res <? 0 then 0 else SIZE_itimerspec
  | TimerfdGettime _ => if res <? 0 then 0 else SIZE_itimerspec
  | EpollWait _ _ _ => Z.max 0 res * SIZE_epoll_event
  | _ => 0
  end.
(** The largest result. *)
Definition res_max (c : fd_call) : Z :=
  match c with
  | Read _ n | Pread _ n _ => n
  | Write _ d | Pwrite _ d _ => zlen d
  | EpollWait _ n _ => n
  | _ => 2 ^ 31 - 1
  end.

Class Linux := {
  linux_consts :: LinuxConsts;
  os : Type;
  open_fds : os -> gset Z;
  (** [errno] of the last failed call *)
  errno : os -> Z;
  sys_create : create_call -> os -> Z * os;
  sys_fd : fd_call -> os -> Z * list Z * os;
  sys_close : Z -> os -> os;
  sys_create_spec : forall c o r o', sys_create c o = (r, o') ->
    (-1 <= r < 0 /\ open_fds o' = open_fds o /\ 0 < errno o' < 4096)
    \/ (0 <= r < 2 ^ 31 /\ r ∉ open_fds o /\ open_fds o' = {[ r ]} ∪ open_fds o);
  sys_fd_open : forall c o, open_fds (sys_fd c o).2 = open_fds o;
  sys_fd_result : forall c o, -1 <= (sys_fd c o).1.1 <= Z.max 0 (res_max c);
  sys_fd_out : forall c o, zlen (sys_fd c o).1.2 = out_len c (sys_fd c o).1.1 /\ bytes_ok (sys_fd c o).1.2;
  sys_fd_errno : forall c o, (sys_fd c o).1.1 < 0 -> 0 < errno (sys_fd c o).2 < 4096;
  sys_close_open : forall fd o, open_fds (sys_close fd o) = open_fds o ∖ {[ fd ]};
  open_fds_range : forall o x, x ∈ open_fds o -> 0 <= x < 2 ^ 31;
}.

(** [(-(e as i64)) as u64]. *)
Definition neg_errno (e : Z) : Z := wrap 64 (- e).

(** ** Ownership of descriptors

    [Owns F m O]: the open descriptors [O] are those of the frame [F] and,
    disjointly and each once, those the table [m] holds. *)
Definition Owns (F : Z -> Prop) (m : gmap Z Z) (O : gset Z) : Prop :=
  (forall x, x ∈ O <-> F x \/ exists i, m !! i = Some x)
  /\ (forall i x, m !! i = Some x -> ~ F x)
  /\ (forall i j x, m !! i = Some x -> m !! j = Some x -> i = j).

Lemma owns_insert F m O i x : Owns F m O -> x ∉ O -> m !! i = None -> Owns F (<[i := x]> m) ({[ x ]} ∪ O).
Proof.
  intros (H1 & H2 & H3) Hx Hi.
  assert (forall j y, <[i := x]> m !! j = Some y <-> (j = i /\ y = x) \/ m !! j = Some y) as Hl.
  { intros j y. destruct (decide (j = i)) as [->|].
    - rewrite lookup_insert_eq. split; [intros [= ->]; auto | intros [[_ ->]|?]; congruence].
    - rewrite lookup_insert_ne by done. naive_solver. }
  split; [|split].
  - intros y. rewrite elem_of_union, elem_of_singleton, H1. setoid_rewrite Hl. naive_solver.
  - intros j y. rewrite Hl. intros [[-> ->]|Hj]; [|by eapply H2]. intros Hf. apply Hx, H1. by left.
  - intros j k y. rewrite !Hl. intros [[-> ->]|Hj] [[-> ?]|Hk]; try done.
    + exfalso. apply Hx, H1. right. by exists k.
    + subst. exfalso. apply Hx, H1. right. by exists j.
    + by eapply H3.
Qed.

Lemma owns_delete F m O i x : Owns F m O -> m !! i = Some x -> Owns F (delete i m) (O ∖ {[ x ]}).
Proof.
  intros (H1 & H2 & H3) Hi. split; [|split].
  - intros y. rewrite elem_of_difference, elem_of_singleton, H1. setoid_rewrite lookup_delete_Some. split.
    + intros [[Hf | [j Hj]] Hne]; [by left|]. right. exists j. split; [|done]. intros ->. congruence.
    + intros [Hf | (j & Hne & Hj)].
      * split; [by left|]. intros ->. by eapply H2.
      * split; [right; by exists j|]. intros ->. apply Hne. by eapply H3.
  - intros j y [_ Hj]%lookup_delete_Some. by eapply H2.
  - intros j k y [_ Hj]%lookup_delete_Some [_ Hk]%lookup_delete_Some. by eapply H3.
Qed.

Lemma owns_frame F G m O : (forall x, F x <-> G x) -> Owns F m O -> Owns G m O.
Proof. intros HFG (H1 & H2 & H3). split_and!; [|by intros; rewrite <- HFG; eapply H2 | done]. intros x. by rewrite H1, HFG. Qed.

(** ** Several tables

    [Owned B T O] is the same for a family of tables [T]; an operation on one
    table may be proved with the other tables in its frame. *)
Definition Owned {K} (B : Z -> Prop) (T : K -> gmap Z Z) (O : gset Z) : Prop :=
  (forall x, x ∈ O <-> B x \/ exists k i, T k !! i = Some x)
  /\ (forall k i x, T k !! i = Some x -> ~ B x)
  /\ (forall k i l j x, T k !! i = Some x -> T l !! j = Some x -> k = l /\ i = j).

Definition others {K} (B : Z -> Prop) (T : K -> gmap Z Z) (k : K) (x : Z) : Prop :=
  B x \/ exists l i, l <> k /\ T l !! i = Some x.

Lemma owned_focus {K} `{EqDecision K} B (T : K -> gmap Z Z) O k :
  Owned B T O -> Owns (others B T k) (T k) O.
Proof.
  intros (H1 & H2 & H3). unfold others. split; [|split].
  - intros x. rewrite H1. split; [|naive_solver]. intros [?|(l & i & Hl)]; [by do 2 left|].
    destruct (decide (l = k)) as [->|]; [right; eauto | left; right; eauto].
  - intros i x Hi [Hb|(l & j & Hne & Hj)]; [by eapply H2|]. by destruct (H3 _ _ _ _ _ Hi Hj) as [-> _].
  - intros i j x Hi Hj. by destruct (H3 _ _ _ _ _ Hi Hj).
Qed.

Lemma owned_refocus {K} `{EqDecision K} B (T T' : K -> gmap Z Z) O O' k :
  Owned B T O -> (forall l, l <> k -> T' l = T l) -> Owns (others B T k) (T' k) O' -> Owned B T' O'.
Proof.
  intros (_ & H2 & H3) Heq (G1 & G2 & G3). unfold others in *. split; [|split].
  - intros x. rewrite G1. split.
    + intros [[?|(l & i & Hne & Hl)]|[i Hi]]; [by left | right; exists l, i; by rewrite Heq | right; eauto].
    + intros [?|(l & i & Hl)]; [by do 2 left|]. destruct (decide (l = k)) as [->|]; [right; eauto|].
      rewrite Heq in Hl by done. left; right; eauto.
  - intros l i x Hl Hb. destruct (decide (l = k)) as [->|].
    + eapply G2; [done | by left].
    + rewrite Heq in Hl by done. by eapply H2.
  - intros l i l' j x Hl Hl'. destruct (decide (l = k)) as [->|], (decide (l' = k)) as [->|].
    + split; [done | by eapply G3].
    + rewrite Heq in Hl' by done. exfalso. eapply G2; [exact Hl|]. right. eauto.
    + rewrite Heq in Hl by done. exfalso. eapply G2; [exact Hl'|]. right. eauto.
    + rewrite Heq in Hl by done. rewrite Heq in Hl' by done. by eapply H3.
Qed.

(** Distinct numbers below [n] are at most [n] many. *)
Lemma distinct_below (l : list Z) (n : Z) : 0 <= n -> NoDup l -> Forall (fun x => 0 <= x < n) l -> zlen l <= n.
Proof.
  intros Hn Hnd Hl. unfold zlen.
  assert (l ⊆+ seqZ 0 n) as Hs%submseteq_length.
  { apply NoDup_submseteq; [done|]. intros x Hx. rewrite Forall_forall in Hl. apply elem_of_seqZ. apply Hl in Hx. lia. }
  rewrite length_seqZ in Hs. lia.
Qed.

(** A table that owns descriptors is no larger than there are descriptors. *)
Lemma owns_size `{Linux} F m (o : os) : Owns F m (open_fds o) -> Z.of_nat (size m) <= 2 ^ 31.
Proof.
  intros (H1 & _ & H3). rewrite <- length_map_to_list, <- (length_fmap snd).
  apply (distinct_below (_.*2)); [lia | |].
  - apply NoDup_fmap_2_strong; [|apply NoDup_map_to_list].
    intros [i x] [j y] Hi%elem_of_map_to_list Hj%elem_of_map_to_list [= ->]. f_equal. by eapply H3.
  - apply Forall_forall. intros x ([i y] & -> & Hi%elem_of_map_to_list)%list_elem_of_fmap.
    apply (open_fds_range o). apply H1. right. by exists i.
Qed.

(** * The UTCB of a server thread *)
Record Utcb := { mr : list Z; br : list Z }.

Section UtcbOps.
Context {UC : UtcbConsts}.
Definition BR_WORDS : Z := L4_UTCB_GENERIC_BUFFERS_SIZE.

Definition utcb_ok (u : Utcb) : Prop :=
  zlen (mr u) = L4_UTCB_GENERIC_DATA_SIZE /\ Forall (uint 64) (mr u)
  /\ zlen (br u) = 8 * BR_WORDS /\ bytes_ok (br u).

(** [mr[i]] on the register array. *)
Definition mr_get (u : Utcb) (i : Z) : exec Z :=
  if (0 <=? i) && (i <? zlen (mr u)) then unwrap (mr u !! Z.to_nat i) else Panics.
Definition mr_set (i v : Z) (u : Utcb) : exec Utcb :=
  if (0 <=? i) && (i <? zlen (mr u)) then Done {| mr := <[Z.to_nat i := v]> (mr u); br := br u |} else Panics.
(** [br[0]], and raw copies behind it. *)
Definition br_len (u : Utcb) : Z := load64 (br u) 0.
Definition br_set_len (n : Z) (u : Utcb) : Utcb := {| mr := mr u; br := store64 (br u) 0 n |}.
Definition br_store (bs : list Z) (u : Utcb) : exec Utcb := m ← poke (br u) 8 bs; Done {| mr := mr u; br := m |}.
Definition br_load (u : Utcb) (n : Z) : exec (list Z) := peek (br u) 8 n.

Lemma mr_get_lookup u i v : mr u !! Z.to_nat i = Some v -> 0 <= i -> mr_get u i = Done v.
Proof.
  intros Hv Hi. pose proof (lookup_lt_Some _ _ _ Hv). unfold mr_get, zlen. do 2 zif_true. cbn. by rewrite Hv.
Qed.
Lemma br_words_range : 8 <= BR_WORDS < 256.
Proof. apply generic_buffers_range. Qed.

Lemma mr_get_ok u i : utcb_ok u -> 0 <= i < 4 -> exists v, mr_get u i = Done v /\ uint 64 v.
Proof.
  intros (Hl & Hw & _) Hi. pose proof generic_data_range. unfold mr_get, zlen in *. do 2 zif_true. cbn.
  destruct (lookup_lt_is_Some_2 (mr u) (Z.to_nat i)) as [v Hv]; [lia|]. exists v. rewrite Hv.
  split; [done|]. rewrite Forall_lookup in Hw. by eapply Hw.
Qed.
Lemma mr_set_ok u i v : utcb_ok u -> 0 <= i < 4 -> uint 64 v ->
  exists u', mr_set i v u = Done u' /\ utcb_ok u' /\ mr u' = <[Z.to_nat i := v]> (mr u) /\ br u' = br u.
Proof.
  intros (Hl & Hw & Hb & Hbb) Hi Hv. pose proof generic_data_range. unfold mr_set, zlen in *. do 2 zif_true. cbn.
  eexists. split; [done|]. split; [|done]. split_and!; cbn; [unfold zlen; by rewrite length_insert | by apply Forall_insert | done | done].
Qed.
Lemma br_set_len_ok u n : utcb_ok u -> utcb_ok (br_set_len n u) /\ mr (br_set_len n u) = mr u.
Proof.
  intros (Hl & Hw & Hb & Hbb). pose proof br_words_range. split; [|done]. split_and!; cbn; [done | done | | auto with rust].
  rewrite zlen_store64; lia.
Qed.
Lemma br_store_ok u bs : utcb_ok u -> bytes_ok bs -> 8 + zlen bs <= 8 * BR_WORDS ->
  exists u', br_store bs u = Done u' /\ utcb_ok u' /\ mr u' = mr u /\ br u' = mwrite (br u) 8 bs.
Proof.
  intros (Hl & Hw & Hb & Hbb) Hbs Hlen. unfold br_store. rewrite poke_inside by lia. cbn.
  eexists. split; [done|]. split; [|done]. split_and!; cbn; [done | done | | auto with rust].
  rewrite zlen_mwrite; lia.
Qed.
Lemma br_load_ok u n : utcb_ok u -> 0 <= n -> 8 + n <= 8 * BR_WORDS ->
  br_load u n = Done (mread (br u) 8 n) /\ zlen (mread (br u) 8 n) = n /\ bytes_ok (mread (br u) 8 n).
Proof.
  intros (Hl & Hw & Hb & Hbb) Hn Hlen. unfold br_load. rewrite peek_inside by lia.
  split_and!; [done | apply zlen_mread; lia | auto with rust].
Qed.
Lemma br_len_range u : utcb_ok u -> uint 64 (br_len u).
Proof.
  intros (_ & _ & Hb & Hbb). pose proof br_words_range. unfold br_len, load64.
  pose proof (le_num_range (mread (br u) (8 * 0) 8) ltac:(auto with rust)) as Hrg.
  rewrite zlen_mread in Hrg by lia. exact Hrg.
Qed.
End UtcbOps.

(** A UTCB with the given first registers and an empty payload. *)
Definition mk_utcb (l : list Z) : Utcb := {| mr := take 63 (l ++ replicate 63 0); br := replicate 464 0 |}.
Lemma mk_utcb_ok l : forallb (fun x => (0 <=? x) && (x <? 2 ^ 64)) l = true -> utcb_ok (UC := l4re_utcb_consts) (mk_utcb l).
Proof.
  intros Hl. rewrite forallb_forall in Hl. split_and!; cbn -[take app replicate].
  - unfold zlen. rewrite length_take, length_app, length_replicate. lia.
  - apply Forall_take, Forall_app_2; [|apply Forall_replicate; unfold uint; lia].
    apply Forall_forall. intros x Hx%list_elem_of_In%Hl. zb. done.
  - done.
  - by apply bytes_okb_ok.
Qed.

Lemma neg_errno_range e : uint 64 (neg_errno e).
Proof. apply wrap_range. lia. Qed.
(** A client that reads the word as [i64] gets the negative error number. *)
Lemma neg_errno_signed e : 0 < e < 4096 -> swrap 64 (neg_errno e) = - e.
Proof. intros. unfold neg_errno. apply swrap_wrap_id; [lia|]. unfold sint. lia. Qed.
#[export] Hint Resolve neg_errno_range : rust.

(** * Concrete instances *)

(** The least key that is not in use. *)
Definition first_free (m : gset Z) : Z :=
  default 0 (head (filter (.∉ m) (seqZ 0 (Z.of_nat (size m) + 1)))).
Lemma first_free_spec m : first_free m ∉ m /\ 0 <= first_free m <= Z.of_nat (size m).
Proof.
  unfold first_free. set (l := filter _ _). assert (l <> []) as Hl.
  { subst l. intros Hl. assert (list_to_set (seqZ 0 (Z.of_nat (size m) + 1)) ⊆ m) as Hs.
    { intros x Hx%elem_of_list_to_set. destruct (decide (x ∈ m)) as [|Hn]; [done|].
      assert (x ∈ filter (.∉ m) (seqZ 0 (Z.of_nat (size m) + 1))) as Hin by (by apply list_elem_of_filter).
      rewrite Hl in Hin. by apply not_elem_of_nil in Hin. }
    apply subseteq_size in Hs. rewrite size_list_to_set in Hs by apply NoDup_seqZ.
    rewrite length_seqZ in Hs. lia. }
  destruct l as [|x l'] eqn:E; [done|]. cbn.
  assert (x ∈ filter (.∉ m) (seqZ 0 (Z.of_nat (size m) + 1))) as Hin by (subst l; rewrite E; left).
  apply list_elem_of_filter in Hin as [? Hr%elem_of_seqZ]. split; [done | lia].
Qed.

(** A slab that hands out the least free key. *)
Definition map_slab : Slab.
Proof.
  refine {|
    slab := gmap Z; slab_map := fun _ m => m; slab_new := fun _ => ∅;
    slab_insert := fun _ m x => (first_free (dom m), <[first_free (dom m) := x]> m);
    slab_remove := fun _ m k => delete k m;
    slab_set := fun _ m k x => <[k := x]> m |}.
  - done.
  - intros A m x. cbn. pose proof (first_free_spec (dom m)) as [Hf Hr]. rewrite size_dom in Hr.
    split; [intros; unfold uint; lia|]. split; [by apply not_elem_of_dom | done].
  - done.
  - done.
Defined.

Definition linux_consts_arm64 : LinuxConsts.
Proof.
  refine {| EBADF := 9; EINVAL := 22; ENOSYS := 38; EIO := 5; EOVERFLOW := 75; ENOENT := 2;
    EPOLL_CTL_DEL := 2; AIO_ALLDONE := 2; O_DSYNC := 4096;
    SIZE_itimerspec := 32; SIZE_epoll_event := 16; SIZE_aiocb := 168 |}; [|lia..].
  repeat constructor; lia.
Defined.

(** A small kernel: descriptors from the least free one, reads that fill the
    buffer with ones, writes that take everything. *)
Definition small_res (c : fd_call) : Z :=
  match c with
  | Read _ n | Pread _ n _ => Z.max 0 n
  | Write _ d | Pwrite _ d _ => zlen d
  | EpollWait _ n _ => Z.max 0 (Z.min 1 n)
  | _ => 0
  end.
Definition valid_fd (x : Z) : Prop := 0 <= x < 2 ^ 31.
#[export] Instance valid_fd_dec x : Decision (valid_fd x).
Proof. unfold valid_fd. apply _. Defined.
Definition small_linux : Linux.
Proof.
  refine (let LC := linux_consts_arm64 in {|
    linux_consts := LC;
    os := gset Z; open_fds := filter valid_fd; errno := fun _ => 22;
    sys_create := fun _ o => let fd := first_free o in if fd <? 2 ^ 31 then (fd, {[ fd ]} ∪ o) else (-1, o);
    sys_fd := fun c o => (small_res c, replicate (Z.to_nat (out_len c (small_res c))) 1, o);
    sys_close := fun fd o => o ∖ {[ fd ]} |}).
  - intros _ o r o'. pose proof (first_free_spec o) as [Hf Hr]. cbn zeta.
    destruct (_ <? _) eqn:E; zb; intros [= <- <-]; [right | left; split_and!; [lia.. | done | lia | lia]].
    split; [lia|]. split; [rewrite elem_of_filter; tauto|].
    apply set_eq. intros x. rewrite elem_of_filter, !elem_of_union, elem_of_filter, elem_of_singleton.
    split; [tauto | intros [->|?]; [|tauto]]. split; [unfold valid_fd; lia | by left].
  - done.
  - intros c o. cbn. pose proof (zlen_nonneg (A := Z)). destruct c; cbn; try lia; match goal with |- context [zlen ?d] => specialize (H d); lia end.
  - intros c o. cbn [fst snd]. split; [|by apply Forall_replicate; unfold is_byte; lia].
    rewrite zlen_replicate, Z2Nat.id; [done|]. destruct c; cbn -[Z.mul]; repeat case_match; cbn; lia.
  - intros. cbn. lia.
  - intros fd o. apply set_eq. intros x. rewrite elem_of_filter, !elem_of_difference, elem_of_filter. tauto.
  - intros o x [Hx _]%elem_of_filter. exact Hx.
Defined.
