(* ===== verification/L4re.v ===== *)
(** The L4Re crate: the environment's capability table
    ([crates/l4re/sys.rs], [env.rs], with [l4-sys/helpers.rs]), capability slots
    owned by a value ([cap.rs]), and the interfaces of memory allocator and
    data spaces ([mem.rs]) as the derive macros see them.

    Shown: a lookup finds the first entry of a name ([env_get_cap_finds]); an owned
    slot is freed exactly when its construction fails or it is dropped
    ([owned_from_keeps_slots]); and what the clients of the two interfaces do:
    every call on a data space is refused before a message is sent
    ([dataspace_calls_refused]), and an allocation returns the null capability
    whatever the allocator sent ([mem_alloc_null_cap]). *)
From S2P Require Import Prelude Utf8 Error MsgTag Cap Utcb BufferMgr Serialise Rpc RpcSpec Derive Host.
From Stdlib Require Import ZArith Lia.
From stdpp Require Import base list gmap strings.
Open Scope Z_scope.

(** * The environment *)
Module Env.

(** [*in_name] is read from the bytes of a C string; behind their end is
    undefined behaviour. *)
Fixpoint eq_str_cstr (name in_name : list Z) : exec bool :=
  match in_name with
  | [] => UB
  | n :: rest =>
    match name with
    | [] => Done (n =? 0)
    | byte :: name =>
      if n =? 0 then Done false else if negb (n =? byte) then Done false else eq_str_cstr name rest
    end
  end.

(** [l4re_env_cap_entry_t], and the table behind [caps] ([None] is a null
    pointer); advancing past its last entry is undefined behaviour. *)
Record Entry := { cap : Z; flags : Z; name : list Z }.
Definition TERMINATOR : Z := 2 ^ 64 - 1.
Fixpoint find_entry (nm : list Z) (table : list Entry) : exec (option Entry) :=
  match table with
  | [] => UB
  | e :: rest =>
    if negb (flags e =? TERMINATOR) then
      found ← eq_str_cstr nm (name e);
      if found : bool then Done (Some e) else find_entry nm rest
    else Done None
  end.
(** [env] is [None] when [l4re_global_env] is null. *)
Definition l4re_env_get_cap_l (nm : list Z) (env : option (option (list Entry))) : exec (option Entry) :=
  match env with
  | None => Done None
  | Some None => Done None
  | Some (Some table) => find_entry nm table
  end.
Definition l4re_env_get_cap (nm : list Z) (env : option (option (list Entry))) : exec (option Z) :=
  r ← l4re_env_get_cap_l nm env; Done (option_map cap r).
Definition get_cap {T} `{IfaceInit T} (nm : list Z) (env : option (option (list Entry))) : exec (option (Cap T)) :=
  r ← l4re_env_get_cap nm env; Done (option_map Caps.new r).

(** ** Theorems *)

(** The string in a name field: the bytes before the first zero. *)
Fixpoint c_str (l : list Z) : list Z :=
  match l with [] => [] | n :: l => if n =? 0 then [] else n :: c_str l end.
Definition entry_ok (e : Entry) : Prop := 0 ∈ name e /\ flags e <> TERMINATOR.

Lemma eq_str_cstr_spec nm other : 0 ∈ other -> 0 ∉ nm -> eq_str_cstr nm other = Done (bool_decide (c_str other = nm)).
Proof.
  revert nm. induction other as [|n other IH]; intros nm H0 Hn; [by apply not_elem_of_nil in H0|].
  destruct nm as [|b nm]; cbn [eq_str_cstr c_str].
  - destruct (n =? 0); [done|]. done.
  - apply not_elem_of_cons in Hn as [Hb Hn]. destruct (n =? 0) eqn:E; zb; [done|].
    apply elem_of_cons in H0 as [<-|H0]; [done|]. destruct (n =? b) eqn:Eb; zb; cbn [negb].
    + subst. rewrite IH by done. f_equal. apply bool_decide_ext. naive_solver.
    + symmetry. f_equal. apply bool_decide_eq_false. naive_solver.
Qed.

(** A lookup in the environment returns the capability of the first entry,
    before the terminating one, whose name is the requested string, and [None] if
    there is no such entry; it reads neither behind the table nor behind a name. *)
Theorem env_get_cap_finds nm entries last rest :
  0 ∉ nm -> Forall entry_ok entries -> flags last = TERMINATOR ->
  l4re_env_get_cap nm (Some (Some (entries ++ last :: rest)))
  = Done (option_map cap (List.find (fun e => bool_decide (c_str (name e) = nm)) entries)).
Proof.
  intros Hn He Hl. unfold l4re_env_get_cap, l4re_env_get_cap_l.
  assert (find_entry nm (entries ++ last :: rest) = Done (List.find (fun e => bool_decide (c_str (name e) = nm)) entries)) as ->; [|done].
  induction He as [|e entries [H0 Hf] He IH]; cbn [app find_entry List.find].
  - by rewrite Hl.
  - zif_false. cbn [negb]. rewrite eq_str_cstr_spec by done. estep. by destruct (bool_decide _).
Qed.
End Env.

(** * [OwnedCap] *)
(** [l4re_util_cap_free] of a slot in use. *)
Class CapFree `{CA : CapAlloc} := {
  l4re_util_cap_free : Z -> alloc_state -> alloc_state;
  cap_free_ok : forall a c, c ∈ slots_used a -> slots_used (l4re_util_cap_free c a) = slots_used a ∖ {[ c ]};
}.

Module Owned.
Section Owned.
Context {CC : CapConsts} {CA : CapAlloc} {CF : CapFree} {T : Type} `{IfaceInit T}.
(** A value that owns its slot; the kernel's mapping call acts on [K]. *)
Record OwnedCap := { owned : Cap T }.
Context {K : Type}.
Variable l4_task_map : K -> Z -> Z -> Z -> Z -> K.

Definition alloc (a : alloc_state) : OwnedCap * alloc_state :=
  let '(c, a) := l4re_util_cap_alloc a in ({| owned := Caps.new c |}, a).
Definition drop (self : OwnedCap) (a : alloc_state) : alloc_state := l4re_util_cap_free (Caps.raw (owned self)) a.
(** Both error returns drop the local [cap]. *)
Definition from (src : Cap T) (k : K) (a : alloc_state) : Result OwnedCap * K * alloc_state :=
  let '(cap, a) := alloc a in
  match Caps.transfer l4_task_map k (owned cap) src with
  | (Err e, k) => (Err e, k, drop cap a)
  | (Ok _, k) => if Caps.is_valid (owned cap) then (Ok cap, k, a) else (Err InvalidCap, k, drop cap a)
  end.
Definition copy (self : OwnedCap) : Cap T := Caps.new (Caps.raw (owned self)).

(** C11: taking over a capability either succeeds, with a slot that was not in
    use before and one mapping call for it, or it fails with [InvalidCap] and
    without a mapping; a failure because of the source leaves the slots in use as they were.
    Dropping a value so obtained gives its slot back, and only that one. *)
Theorem owned_from_keeps_slots src k a :
  match from src k a with
  | (Ok o, k', a') =>
      Caps.raw (owned o) ∉ slots_used a /\ slots_used a' = {[ Caps.raw (owned o) ]} ∪ slots_used a
      /\ Caps.is_valid src = true /\ slots_used (drop o a') = slots_used a
      /\ k' = l4_task_map k L4_BASE_TASK_CAP L4_BASE_TASK_CAP (l4_obj_fpage (Caps.raw src) 0 (wrap 8 L4_CAP_FPAGE_RWSD))
                (Z.lor (Caps.send_base (owned o) L4_MAP_ITEM_GRANT None) 0xe0)
  | (Err e, k', a') => e = InvalidCap /\ k' = k /\
      (Z.land (l4re_util_cap_alloc a).1 L4_INVALID_CAP_BIT = 0 -> slots_used a' = slots_used a)
  end.
Proof.
  unfold from, alloc. destruct (l4re_util_cap_alloc a) as [c a'] eqn:Ea. cbn [owned].
  assert (Z.land c L4_INVALID_CAP_BIT = 0 -> c ∉ slots_used a /\ slots_used a' = {[ c ]} ∪ slots_used a
    /\ slots_used (l4re_util_cap_free c a') = slots_used a) as Hok.
  { intros Hc. destruct (cap_alloc_ok a c a' Ea Hc) as (Hn & Hu & _). split; [done|]. split; [done|].
    rewrite cap_free_ok by (rewrite Hu; set_solver). rewrite Hu. set_solver. }
  unfold Caps.transfer. destruct (Caps.is_valid (Caps.new c : Cap T)) eqn:Ev, (Caps.is_valid src) eqn:Es; cbn [negb orb].
  1: { cbn [owned]. rewrite Caps.raw_new. unfold Caps.is_valid in Ev. rewrite Caps.raw_new in Ev. apply Z.eqb_eq in Ev.
    destruct (Hok Ev) as (? & ? & ?). unfold drop. cbn [owned]. by rewrite Caps.raw_new. }
  all: split; [done|]; split; [done|]; intros Hc; unfold drop; cbn [owned]; rewrite Caps.raw_new; by apply Hok.
Qed.
End Owned.
End Owned.

(** * Memory: [mem.rs] *)
Module Mem.
Import Derive.Iface.

(** Structs of two words, [repr(C)]. *)
Record DsStats := { size : Z; ds_flags : Z }.
Record DeprecatedPhys := { phys_addr : Z; phys_size : Z }.
Definition ds_stats_pod : Pod.
Proof.
  refine {| pod_t := DsStats; size_of := 16; align_of := 8;
            pod_ok := fun s => uint 64 (size s) /\ uint 64 (ds_flags s);
            pod_enc := fun s => le_bytes 8 (size s) ++ le_bytes 8 (ds_flags s);
            pod_dec := fun bs => Some {| size := le_num (take 8 bs); ds_flags := le_num (drop 8 bs) |} |}.
  - lia.
  - exists 3. lia.
  - intros v. by rewrite zlen_app, !zlen_le_bytes.
  - intros v. apply Forall_app_2; apply le_bytes_ok.
  - intros [d f] [Hd Hf]. cbn in Hd, Hf. rewrite take_app_length', drop_app_length' by (by rewrite length_le_bytes).
    cbn [size ds_flags]. by rewrite !le_num_bytes, !wrap_id.
Defined.
Definition phys_pod : Pod.
Proof.
  refine {| pod_t := DeprecatedPhys; size_of := 16; align_of := 8;
            pod_ok := fun s => uint 64 (phys_addr s) /\ uint 64 (phys_size s);
            pod_enc := fun s => le_bytes 8 (phys_addr s) ++ le_bytes 8 (phys_size s);
            pod_dec := fun bs => Some {| phys_addr := le_num (take 8 bs); phys_size := le_num (drop 8 bs) |} |}.
  - lia.
  - exists 3. lia.
  - intros v. by rewrite zlen_app, !zlen_le_bytes.
  - intros v. apply Forall_app_2; apply le_bytes_ok.
  - intros [d f] [Hd Hf]. cbn in Hd, Hf. rewrite take_app_length', drop_app_length' by (by rewrite length_le_bytes).
    cbn [phys_addr phys_size]. by rewrite !le_num_bytes, !wrap_id.
Defined.

(** A client object, as an interface: the structs [#[l4_client]] generates. *)
Record Dataspace := { ds_cap : Z }.
#[global] Instance dataspace_interface : Interface Dataspace := {| iface_raw := ds_cap |}.
#[global] Instance dataspace_init : IfaceInit Dataspace.
Proof. refine {| iface_new := fun c => {| ds_cap := c |} |}. done. Defined.

(** ** The interfaces as [iface!] reads them *)
Section Items.
Context {Expr : Type}.
Definition ty (s : string) : Type_ := TPath [(s, ANone)].
Definition ty1 (s : string) (t : Type_) : Type_ := TPath [(s, AAngle [GType t])].
Definition arg (n : string) (t : Type_) : FnArg := Captured (Some n) t.
Definition unit_ty : Type_ := TTuple [].
Definition fn (n : string) (args : list FnArg) (ret : Type_) : TraitItem (Expr := Expr) :=
  MethodItem {| ident := n; constness := false; inputs := SelfRef true :: args; output := Some ret;
                default_body := false; attrs := ["doc"%string] |}.
Definition DataspaceProvider (proto : Expr) : list (TraitItem (Expr := Expr)) :=
  let addr := ty "l4_addr_t" in
  [Const "PROTOCOL_ID" (Some proto);
   fn "map" [arg "offset" addr; arg "spot" addr; arg "flags" (ty "u64"); arg "r" (ty "FlexPage")] (ty "FlexPage");
   fn "clear" [arg "offset" (ty "usize"); arg "size" (ty "usize")] unit_ty;
   fn "info" [] (ty "DsStats");
   fn "copy_in" [arg "dst_offset" addr; arg "src" (ty1 "Cap" (ty "Dataspace")); arg "src_offset" addr; arg "size" addr] unit_ty;
   fn "take" [arg "flags" (ty "i32")] unit_ty;
   fn "release" [arg "flags" (ty "i32")] unit_ty;
   fn "phys" [arg "offset" addr] (ty "DeprecatedPhys");
   fn "allocate" [arg "offset" addr; arg "size" (ty "l4_size_t")] unit_ty]%string.
Definition MemoryAllocator (proto : Expr) : list (TraitItem (Expr := Expr)) :=
  [Const "PROTOCOL_ID" (Some proto);
   fn "alloc" [arg "size" (ty "isize"); arg "flags" (ty "u64"); arg "align" (ty1 "Option" (ty "u64"))]
     (ty1 "Cap" (ty "Dataspace"))]%string.
End Items.

(** The attributes [#[l4_client(DataspaceProvider)]] and
    [#[l4_client(MemoryAllocator, demand = 1)]]. *)
Definition dataspace_client : list Derive.Meta.Item := [Derive.Meta.Word "DataspaceProvider"].
Definition mem_alloc_client : list Derive.Meta.Item :=
  [Derive.Meta.Word "MemoryAllocator"; Derive.Meta.NameValue "demand" (Derive.Meta.LInt 1)].
(** [gen_client_struct]: the type of [__slots]. *)
Definition slot_type (demand : Z) : Type := if demand =? 0 then Bufferless else BufferManager.

Section Methods.
Context {CC : CapConsts} {UC : UtcbConsts} {B : Build}.
(** The methods with the types' serialisers, under the opcodes of the
    expansion. *)
Definition dataspace_methods : list Rpc.Method :=
  [{| m_op := 0; m_args := [pod_ser u64; pod_ser u64; pod_ser u64; flexpage_ser]; m_ret := flexpage_ser |};
   {| m_op := 1; m_args := [pod_ser usize; pod_ser usize]; m_ret := unit_ser |};
   {| m_op := 2; m_args := []; m_ret := pod_ser ds_stats_pod |};
   {| m_op := 3; m_args := [pod_ser u64; cap_ser (I := Dataspace); pod_ser u64; pod_ser u64]; m_ret := unit_ser |};
   {| m_op := 4; m_args := [pod_ser i32]; m_ret := unit_ser |};
   {| m_op := 5; m_args := [pod_ser i32]; m_ret := unit_ser |};
   {| m_op := 6; m_args := [pod_ser u64]; m_ret := pod_ser phys_pod |};
   {| m_op := 7; m_args := [pod_ser u64; pod_ser u64]; m_ret := unit_ser |}].
Definition alloc_method : Rpc.Method :=
  {| m_op := 0; m_args := [pod_ser isize; pod_ser u64; option_ser u64]; m_ret := cap_ser (I := Dataspace) |}.
End Methods.

(** ** Theorems *)
Section Clients.
Context {EC : ErrConsts} {TC : TagConsts} {CC : CapConsts} {CA : CapAlloc} {UC : UtcbConsts} {B : Build}.

(** C10: no call on a data space ever reaches the kernel. The interface's demand
    is one slot, because [copy_in] takes a capability, while the client
    [#[l4_client(DataspaceProvider)]] generates has no buffers: whatever method
    is called, with whatever arguments, the stub returns an error about buffer
    allocation and nothing else happens. *)
Theorem dataspace_calls_refused {Expr} (proto_expr : Expr) :
  exists i, parse "DataspaceProvider" (DataspaceProvider proto_expr) = Done (Ok i)
    /\ opcode <$> methods i = (fun m => Some (m_op m)) <$> dataspace_methods
    /\ demand i = 1
    /\ Derive.Meta.parse_client_meta dataspace_client = Ok ("DataspaceProvider"%string, 0) /\ slot_type 0 = Bufferless
    /\ forall W (kernel : W -> Z -> Z -> list Z -> Z * list Z * W) tcr proto m args (c : Client (P := Bufferless) (W := W)),
         ipc_method kernel tcr proto (demand i) m args c
         = Done (Err (InvalidArg "buffer allocation not permitted" None), c).
Proof.
  eexists. split; [vm_compute; reflexivity|]. split; [vm_compute; reflexivity|]. split; [reflexivity|].
  split; [reflexivity|]. split; [reflexivity|]. intros W kernel tcr proto m args c.
  unfold ipc_method, rbind at 1, ensure_slots. cbn. destruct c as [? [] ? ? ?]. reflexivity.
Qed.

Lemma skip_fits T mr : mr_ok mr -> slot_end T (regs_offset (mr_regs mr)) <= MR_SIZE ->
  exists mr', Mr.skip T mr = Done (Ok tt, mr') /\ mr_ok mr' /\ regs_offset (mr_regs mr') = slot_end T (regs_offset (mr_regs mr)).
Proof.
  intros Hmr Hs. destruct (mr_skip_total T mr Hmr) as (res & mr' & Hw & Hx). unfold Mr.skip, Mr.on_regs in *.
  rewrite skip_spec in * by apply Hmr. assert (MR_SIZE <? slot_end T (regs_offset (mr_regs mr)) = false) as E by (apply Z.ltb_ge; lia).
  rewrite E in *. cbn in *. injection Hw as <- <-. eexists. split; [done|]. split; [apply Hx | done].
Qed.

(** The message of an allocation: five values in 33 bytes. *)
Lemma alloc_message_fits sz fl al m : mr_fresh m ->
  exists mr, call_message alloc_method (sz, (fl, (al, tt))) (Mr.from_mr m) = Done (Ok tt, mr).
Proof.
  intros Hm. pose proof generic_data_range. pose proof (from_mr_ok m Hm) as H0. unfold MR_SIZE in *.
  assert (forall o, o <= 33 -> o <= L4_UTCB_GENERIC_DATA_SIZE * 8) as Hle by lia.
  destruct (mr_write_fits i32 (0 : i32) (Mr.from_mr m) H0) as (m1 & H1 & Hm1 & O1); [apply Hle; by vm_compute|].
  destruct (mr_write_fits isize sz m1 Hm1) as (m2 & H3 & Hm2 & O2); [rewrite O1; apply Hle; by vm_compute|].
  destruct (mr_write_fits u64 fl m2 Hm2) as (m3 & H4 & Hm3 & O3); [rewrite O2, O1; apply Hle; by vm_compute|].
  assert (exists m4, (match al with Some v => Mr.write u64 v | None => Mr.skip u64 end) m3 = Done (Ok tt, m4) /\ mr_ok m4
    /\ regs_offset (mr_regs m4) = slot_end u64 (regs_offset (mr_regs m3))) as (m4 & H5 & Hm4 & O4).
  { destruct al; [apply mr_write_fits | apply skip_fits]; try done; rewrite O3, O2, O1; apply Hle; by vm_compute. }
  destruct (mr_write_fits bool_pod (match al with Some _ => true | None => false end : bool_pod) m4 Hm4) as (m5 & H6 & _); [rewrite O4, O3, O2, O1; apply Hle; by vm_compute|].
  exists m5. unfold call_message, rbind at 1. cbn [m_op alloc_method]. rewrite H1. cbn [m_args alloc_method write_args].
  unfold rbind at 1. cbn [ser_write pod_ser]. rewrite H3. unfold rbind at 1. cbn [ser_write pod_ser]. rewrite H4.
  unfold rbind at 1. cbn [ser_write option_ser]. unfold option_write. destruct al; unfold rbind; rewrite H5; by rewrite H6.
Qed.

(** An allocation never returns the data space. The interface's demand is
    zero, because only parameters are counted and the capability is the result;
    so no slot is allocated for it, and whatever the allocator's answer, a call
    that succeeds returns the capability with index 0, read from a register block that
    was never filled. *)
Theorem mem_alloc_null_cap {Expr} (proto_expr : Expr) proto N sz fl al {W} (kernel : W -> Z -> Z -> list Z -> Z * list Z * W) tcr
    (c : Client (P := BufferManager) (W := W)) :
  3 < N < 256 -> mr_fresh (cl_mr c) -> cl_slots c = Manager.new N ->
  (forall w cap tag m, exists t, Tag.result (tcr (kernel w cap tag m).2) (Tag.from (kernel w cap tag m).1.1) = Done (Ok t)) ->
  exists i, parse "MemoryAllocator" (MemoryAllocator proto_expr) = Done (Ok i)
    /\ opcode <$> methods i = [Some (m_op alloc_method)] /\ demand i = 0
    /\ Derive.Meta.parse_client_meta mem_alloc_client = Ok ("MemoryAllocator"%string, 1) /\ slot_type 1 = BufferManager
    /\ exists c', ipc_method (CapProvider0 := Manager.manager_provider N) kernel tcr proto (demand i) alloc_method (sz, (fl, (al, tt))) c
         = Done (Ok (Caps.new 0), c') /\ cl_alloc c' = cl_alloc c /\ cl_slots c' = Manager.new N.
Proof.
  intros HN Hm Hs Hk. eexists. split; [vm_compute; reflexivity|]. split; [vm_compute; reflexivity|]. split; [reflexivity|].
  split; [reflexivity|]. split; [reflexivity|]. cbn [demand].
  destruct (alloc_message_fits sz fl al (cl_mr c) Hm) as [mr Hw].
  assert (alloc_capslots (CapProvider := Manager.manager_provider N) (cl_slots c) 0 (cl_alloc c) = Done (Ok tt, Manager.new N, cl_alloc c)) as Ha.
  { cbn. unfold Manager.alloc_capslots. rewrite uadd_small by lia. estep. rewrite wrap_id by (unfold uint; lia). rewrite Hs. zif_false.
    cbn [Manager.alloc_loop caps Manager.new]. change (0 <? 0) with false. estep. unfold index_set, Manager.new. cbn [BufferMgr.br caps cap_flags].
    unfold zlen. rewrite length_replicate. do 2 zif_true. cbn [andb]. estep. rewrite list_insert_id; [done|].
    apply lookup_replicate_2. lia. }
  rewrite (ipc_method_sends proto kernel tcr 0 alloc_method (sz, (fl, (al, tt))) c _ _ mr) by (done || exact (pod_laws _, (pod_laws _, (option_laws _, tt)))).
  destruct (Hk (cl_world c) (cl_cap c) (Tag.raw (tag_of proto mr)) (regs_mem (mr_regs mr))) as [t Ht].
  destruct (kernel _ _ _ _) as [[restag m'] w']. cbn [fst snd] in Ht. rewrite Ht. estep.
  cbn [m_ret alloc_method ser_read cap_ser]. unfold cap_read, Access.rcv_cap_unchecked, Access.deref. cbn.
  unfold zlen. rewrite length_replicate. zif_true. rewrite lookup_replicate_2 by lia. cbn. by eexists.
Qed.
End Clients.
End Mem.

(** * Witnesses *)
Module Concrete.
#[local] Existing Instance l4re_cap_consts.
#[local] Existing Instance l4re_utcb_consts.
#[local] Existing Instance l4re_err_consts.
#[local] Existing Instance l4re_tag_consts.
#[local] Existing Instance debug_build.

(** An allocator that takes the first free slot, 4096 apart, and can free one. *)
Definition set_alloc : @CapAlloc l4re_cap_consts.
Proof.
  refine {| alloc_state := gset Z; slots_used := fun a => set_map (fun k => k * 4096) a;
            l4re_util_cap_alloc := fun a =>
              if first_free a <? 2 ^ 20 then (first_free a * 4096, {[ first_free a ]} ∪ a) else (0xfffffffffffff800, a) |}.
  - intros a. pose proof (first_free_spec a). destruct (_ <? _) eqn:E; unfold uint; cbn [fst]; zb; lia.
  - intros a c a' Ha Hv. pose proof (first_free_spec a) as [Hn Hr]. destruct (_ <? _) eqn:E; [|by simplify_eq]. simplify_eq. zb. split_and!.
    + rewrite elem_of_map. intros (k & Hk & Hin). assert (k = first_free a) by lia. congruence.
    + by rewrite set_map_union_L, set_map_singleton_L.
    + change L4_CAP_MASK with 0xfffffffffffff800. assert (0xfffffffffffff800 = Z.shiftl (Z.ones 53) 11) as -> by done.
      replace (first_free a * 4096) with (Z.shiftl (first_free a) 12) by (rewrite Z.shiftl_mul_pow2; lia).
      rewrite <- (wrap_id 52 (first_free a)), wrap_land by (unfold uint; lia). apply Z.bits_inj'. intros i Hi.
      rewrite Z.land_spec, !Z.shiftl_spec, Z.land_spec, !Z.testbit_ones by lia.
      destruct (decide (12 <= i)) as [Hge|Hlt].
      * replace (0 <=? i - 11) with true by (symmetry; apply Z.leb_le; lia). destruct (i - 12 <? 52) eqn:E2; zb.
        -- replace (i - 11 <? 53) with true by (symmetry; apply Z.ltb_lt; lia). by rewrite !andb_true_r.
        -- by rewrite !andb_false_r.
      * by rewrite Z.testbit_neg_r by lia.
  - intros a c a' Ha Hv. destruct (_ <? _) eqn:E; [|by simplify_eq]. exfalso. simplify_eq. apply Hv.
    change L4_INVALID_CAP_BIT with (2 ^ 11). apply Z.bits_inj'. intros i Hi. rewrite Z.land_spec, Z.bits_0, Z.pow2_bits_eqb by lia.
    destruct (11 =? i) eqn:E2; [|by rewrite andb_false_r]. zb. subst i.
    replace (first_free a * 4096) with (Z.shiftl (first_free a) 12) by (rewrite Z.shiftl_mul_pow2; lia).
    by rewrite Z.shiftl_spec, Z.testbit_neg_r by lia.
Defined.
#[local] Existing Instance set_alloc.
#[local] Instance set_free : CapFree.
Proof.
  refine {| l4re_util_cap_free := fun c (a : alloc_state (CapAlloc := set_alloc)) => (a : gset Z) ∖ {[ c `div` 4096 ]} |}.
  intros a c (k & -> & Hk)%elem_of_map. cbn [slots_used set_alloc]. rewrite Z.div_mul by done.
  apply set_eq. intros x. rewrite elem_of_difference, !elem_of_map, elem_of_singleton. split.
  - intros (j & -> & [Hj Hn]%elem_of_difference). split; [eauto|]. intros Heq. apply Hn. apply elem_of_singleton. lia.
  - intros [(j & -> & Hj) Hn]. exists j. split; [done|]. apply elem_of_difference. split; [done|].
    intros ->%elem_of_singleton. done.
Defined.

(** [rom] and [icu] in the table; a name is padded with zeros. *)
Definition rom : Env.Entry := {| Env.cap := 7; Env.flags := 0; Env.name := [114; 111; 109; 0; 0] |}.
Definition icu : Env.Entry := {| Env.cap := 9; Env.flags := 0; Env.name := [105; 99; 117; 0; 0] |}.
Definition last : Env.Entry := {| Env.cap := 0; Env.flags := 2 ^ 64 - 1; Env.name := [0] |}.
Lemma env_get_cap_finds_witness :
  Env.l4re_env_get_cap [105; 99; 117] (Some (Some ([rom; icu] ++ last :: []))) = Done (Some 9)
  /\ Env.l4re_env_get_cap [105; 99] (Some (Some ([rom; icu] ++ last :: []))) = Done None.
Proof.
  assert (Forall Env.entry_ok [rom; icu]) as Hok.
  { apply Forall_cons_2; [|apply Forall_cons_2; [|apply Forall_nil_2]]; (split; [apply (bool_decide_unpack _); by vm_compute | done]). }
  split.
  - apply (Env.env_get_cap_finds [105; 99; 117] [rom; icu] last []); [apply (bool_decide_unpack _); by vm_compute | exact Hok | done].
  - apply (Env.env_get_cap_finds [105; 99] [rom; icu] last []); [apply (bool_decide_unpack _); by vm_compute | exact Hok | done].
Defined.

(** Slot 0 is in use: the new owner gets slot 1. *)
Example owned_slot :
  Owned.from (fun (k : nat) _ _ _ _ => S k) (MkCap (UntypedCap 0x5000)) 0%nat ({[ 0 ]} : gset Z)
  = (Ok {| Owned.owned := MkCap (UntypedCap 4096) |}, 1%nat, ({[ 1 ]} ∪ {[ 0 ]} : gset Z)).
Proof. by vm_compute. Qed.

(** An allocator that answers with a tag without an error. *)
Definition granting (w : unit) (cap tag : Z) (m : list Z) : Z * list Z * unit := (l4_msgtag 0 0 1 0, m, w).
Definition fresh_client : Client (P := BufferManager) (W := unit) :=
  {| cl_cap := 3; cl_slots := Manager.new 58; cl_alloc := (∅ : gset Z) : alloc_state (CapAlloc := set_alloc);
     cl_mr := replicate 504 0; cl_world := tt |}.
Lemma granting_ok w cap tag m : exists t, Tag.result 0 (Tag.from (granting w cap tag m).1.1) = Done (Ok t).
Proof. by eexists. Qed.
Lemma cleared_fresh : mr_fresh (replicate 504 0).
Proof. split; [done | by apply bytes_okb_ok]. Qed.
Lemma mem_alloc_null_cap_witness :
  exists i, Derive.Iface.parse "MemoryAllocator" (Mem.MemoryAllocator (-19)) = Done (Ok i)
    /\ opcode <$> Derive.Iface.methods i = [Some (m_op Mem.alloc_method)] /\ Derive.Iface.demand i = 0
    /\ Derive.Meta.parse_client_meta Mem.mem_alloc_client = Ok ("MemoryAllocator"%string, 1) /\ Mem.slot_type 1 = BufferManager
    /\ exists c', ipc_method (CapProvider0 := Manager.manager_provider 58) granting (fun _ => 0) (-19) (Derive.Iface.demand i)
         Mem.alloc_method (4096, (0, (None, tt))) fresh_client
         = Done (Ok (Caps.new 0), c') /\ cl_alloc c' = cl_alloc fresh_client /\ cl_slots c' = Manager.new 58.
Proof.
  apply (Mem.mem_alloc_null_cap (-19) (-19) 58 4096 0 None granting (fun _ => 0) fresh_client ltac:(lia) cleared_fresh eq_refl granting_ok).
Defined.
End Concrete.
