(* ===== verification/Runtime.v ===== *)
(** What a program without Rust's standard library runs on: printing and the
    panic handler ([l4/nostd_helper.rs], [l4/print.rs]), the texts of errors
    ([l4/error.rs]), C strings ([core-ffi-helpers/lib.rs]) and the choice of a
    scheduler by name ([l4/scheduler/mod.rs]).

    Shown: what is printed, where it differs from the standard library's [print!]
    and that the buffer is never left ([nostd_print]); that the panic handler ends
    in its loop with the message on the console ([panic_spins]); that the two
    comparisons with C strings are one ([ffi_eq_str_cstr_same]); that the names of
    schedulers are read back ([scheduler_names]). *)
From S2P Require Import Prelude Utf8 Error L4re.
From Stdlib Require Import ZArith Lia.
From stdpp Require Import base list strings pretty.
Open Scope Z_scope.

Definition str_bytes (s : string) : list Z := (fun c => Z.of_N (Ascii.N_of_ascii c)) <$> String.list_ascii_of_string s.

(** * Printing *)
Module Print.
(** Format arguments: literal pieces, and what an argument writes. *)
Inductive Piece := Lit (s : list Z) | Arg (writes : list (list Z)).
Definition writes (args : list Piece) : list (list Z) :=
  concat ((fun p => match p with Lit s => [s] | Arg w => w end) <$> args).
(** [concat!($fmt_str, "\n")]. *)
Fixpoint with_newline (args : list Piece) : list Piece :=
  match args with
  | [] => [Lit [10]]
  | [Lit s] => [Lit (s ++ [10])]
  | p :: args => p :: with_newline args
  end.

(** [fmt::Write::write_fmt]. *)
Fixpoint write_fmt {W} (write_str : W -> list Z -> result unit unit * W) (w : W) (l : list (list Z)) : result unit unit * W :=
  match l with
  | [] => (Ok tt, w)
  | s :: l => match write_str w s with (Ok _, w) => write_fmt write_str w l | (Err e, w) => (Err e, w) end
  end.

(** ** [nostd_helper.rs] *)
Record PrintfBuffer := { buf : list Z; console : list Z }.
Definition new : PrintfBuffer := {| buf := replicate 256 0; console := [] |}.
(** The C library writes the string up to its end, and a line feed. *)
Definition puts (p : PrintfBuffer) : PrintfBuffer := {| buf := buf p; console := console p ++ Env.c_str (buf p) ++ [10] |}.
Definition write_str (p : PrintfBuffer) (s : list Z) : result unit unit * PrintfBuffer :=
  if 255 <=? zlen s then (Err tt, p)
  else
    let b := mwrite (buf p) 0 s in
    let b := mwrite b (zlen s) [0] in
    (Ok tt, puts {| buf := b; console := console p |}).
(** [write!(PRINT_BUFFER, …)], and its [unwrap]. *)
Definition try_print (args : list Piece) (p : PrintfBuffer) : result unit unit * PrintfBuffer := write_fmt write_str p (writes args).
Definition print (args : list Piece) (p : PrintfBuffer) : exec PrintfBuffer :=
  match try_print args p with (Ok _, p) => Done p | (Err _, _) => Panics end.
Definition println (args : list Piece) (p : PrintfBuffer) : exec PrintfBuffer := print (with_newline args) p.

(** The panic handler: a failure to print is a panic in turn, with the message
    of [unwrap]. [Done] is the state in which it spins. *)
Definition SPINNING : list Z := str_bytes "Spinning...".
Fixpoint l4re_panic (fuel : nat) (unwrap_info p_i : list (list Z)) (p : PrintfBuffer) : exec PrintfBuffer :=
  match fuel with
  | O => NoFuel
  | S fuel =>
    match try_print (with_newline [Arg p_i]) p with
    | (Err _, p) => l4re_panic fuel unwrap_info unwrap_info p
    | (Ok _, p) =>
      match try_print (with_newline [Lit SPINNING]) p with
      | (Err _, p) => l4re_panic fuel unwrap_info unwrap_info p
      | (Ok _, p) => Done p
      end
    end
  end.

(** ** [print.rs]: a byte at a time; the state is the console *)
Definition putchar (console : list Z) (b : Z) : list Z := console ++ [b].
Definition write_str_nostd (console s : list Z) : result unit unit * list Z := (Ok tt, foldl putchar console s).
Definition print_nostd (args : list Piece) (console : list Z) : exec (list Z) :=
  match write_fmt write_str_nostd console (writes args) with (Ok _, c) => Done c | (Err _, _) => Panics end.

(** ** Theorems *)
Definition ready (p : PrintfBuffer) : Prop := zlen (buf p) = 256.
Definition short (s : list Z) : Prop := zlen s < 255.
#[export] Instance short_dec s : Decision (short s).
Proof. unfold short. apply _. Defined.
(** What one write shows. *)
Definition shown (s : list Z) : list Z := Env.c_str s ++ [10].

Lemma c_str_app s rest : Env.c_str (s ++ 0 :: rest) = Env.c_str s.
Proof. induction s as [|b s IH]; [done|]. cbn. by destruct (b =? 0); [|rewrite IH]. Qed.
Lemma write_str_short p s : ready p -> short s ->
  exists p', write_str p s = (Ok tt, p') /\ ready p' /\ console p' = console p ++ shown s.
Proof.
  unfold ready, short. intros Hr Hs. pose proof (zlen_nonneg s). unfold write_str. zif_false.
  assert (zlen (mwrite (buf p) 0 s) = 256) as H1 by (rewrite zlen_mwrite; lia).
  assert (mwrite (mwrite (buf p) 0 s) (zlen s) [0] = s ++ 0 :: drop (Z.to_nat (zlen s + 1)) (mwrite (buf p) 0 s)) as Hb.
  { assert (mwrite (buf p) 0 s = s ++ drop (length s) (buf p)) as -> by (unfold mwrite, zlen; by replace (Z.to_nat (0 + Z.of_nat (length s))) with (length s) by lia).
    unfold mwrite, zlen. rewrite Nat2Z.id, take_app_length. done. }
  rewrite Hb. eexists. split; [done|]. cbn. unfold shown. rewrite c_str_app. split; [|done].
  rewrite <- Hb. rewrite zlen_mwrite; rewrite ?H1; change (zlen [0]) with 1; lia.
Qed.
Lemma write_fmt_short l : forall p, ready p -> Forall short l ->
  exists p', write_fmt write_str p l = (Ok tt, p') /\ ready p' /\ console p' = console p ++ concat (shown <$> l).
Proof.
  induction l as [|s l IH]; intros p Hp Hl; [exists p; by rewrite app_nil_r|].
  apply Forall_cons in Hl as [Hs Hl]. destruct (write_str_short p s Hp Hs) as (p1 & E & Hp1 & Hc1). cbn [write_fmt].
  rewrite E. destruct (IH p1 Hp1 Hl) as (p2 & -> & Hp2 & Hc2). exists p2. split; [done|]. split; [done|].
  by rewrite Hc2, Hc1, <- app_assoc.
Qed.
Lemma write_fmt_long l s l' : forall p, ready p -> Forall short l -> ~ short s ->
  exists p', write_fmt write_str p (l ++ s :: l') = (Err tt, p') /\ ready p' /\ console p' = console p ++ concat (shown <$> l).
Proof.
  induction l as [|a l IH]; intros p Hp Hl Hs.
  - cbn. unfold write_str. unfold short in Hs. zif_true. exists p. by rewrite app_nil_r.
  - apply Forall_cons in Hl as [Ha Hl]. destruct (write_str_short p a Hp Ha) as (p1 & E & Hp1 & Hc1). cbn [write_fmt app].
    rewrite E. destruct (IH p1 Hp1 Hl Hs) as (p2 & -> & Hp2 & Hc2). exists p2. split; [done|]. split; [done|].
    cbn. by rewrite Hc2, Hc1, <- app_assoc.
Qed.
Lemma write_nostd l : forall c, write_fmt write_str_nostd c l = (Ok tt, c ++ concat l).
Proof.
  induction l as [|s l IH]; intros c; cbn; [by rewrite app_nil_r|].
  assert (forall d, foldl putchar d s = d ++ s) as ->; [|by rewrite IH, <- app_assoc].
  induction s as [|b s IHs]; intros d; cbn; [by rewrite app_nil_r|]. rewrite IHs. unfold putchar. by rewrite <- app_assoc.
Qed.

Lemma first_long l : ~ Forall short l -> exists l1 s l2, l = l1 ++ s :: l2 /\ Forall short l1 /\ ~ short s.
Proof.
  induction l as [|s l IH]; intros Hl; [by destruct Hl|]. destruct (decide (short s)) as [Hs|Hs]; [|by exists [], s, l].
  destruct IH as (l1 & s' & l2 & -> & H1 & Hs'); [by rewrite Forall_cons in Hl; intros ?; apply Hl|].
  exists (s :: l1), s', l2. split; [done|]. split; [by constructor | done].
Qed.

(** [print!] without a standard library. Every string that a format writes
    - a literal piece, or a part of an argument - appears up to its first zero
    byte and followed by a line feed of its own, and a string of 255 bytes or more
    ends the program with a panic; the 256 bytes of the buffer are never left.
    The printing of [print.rs] shows all strings and nothing else. *)
Theorem nostd_print args p c : ready p ->
  (Forall short (writes args) ->
     exists p', print args p = Done p' /\ ready p' /\ console p' = console p ++ concat (shown <$> writes args))
  /\ (~ Forall short (writes args) -> print args p = Panics)
  /\ print_nostd args c = Done (c ++ concat (writes args)).
Proof.
  intros Hp. split; [|split].
  - intros Hs. unfold print, try_print. destruct (write_fmt_short _ p Hp Hs) as (p' & -> & ? & ?). eauto.
  - intros (l1 & s & l2 & E & Hl & Hs)%first_long. unfold print, try_print. rewrite E.
    by destruct (write_fmt_long l1 s l2 p Hp Hl Hs) as (p' & -> & _).
  - unfold print_nostd. by rewrite write_nostd.
Qed.

(** C37: a panic is reported. If the message of a failed [unwrap] is made of
    strings short enough for the buffer, then the panic handler, whatever panicked
    - printing included - does end in its endless loop: with the message of the
    panic or, where that has a part too long to print, the message of the
    [unwrap] on the console, followed by a last line. *)
Theorem panic_spins unwrap_info p_i p : ready p -> Forall short unwrap_info ->
  exists p' reported, l4re_panic 2 unwrap_info p_i p = Done p' /\ ready p'
  /\ (reported = p_i /\ Forall short p_i \/ reported = unwrap_info /\ ~ Forall short p_i)
  /\ exists before, console p' = before ++ concat (shown <$> reported) ++ [10; 10] ++ SPINNING ++ [10; 10].
Proof.
  intros Hp Hu.
  assert (forall n info q, ready q -> Forall short info -> exists q', l4re_panic (S n) unwrap_info info q = Done q' /\ ready q'
    /\ console q' = console q ++ concat (shown <$> info) ++ [10; 10] ++ SPINNING ++ [10; 10]) as Hok.
  { intros n info q Hq Hi. cbn [l4re_panic]. unfold try_print.
    change (writes (with_newline [Arg info])) with (info ++ [[10]]).
    destruct (write_fmt_short (info ++ [[10]]) q Hq) as (q1 & -> & Hq1 & Hc1); [apply Forall_app; by repeat constructor|].
    change (writes (with_newline [Lit SPINNING])) with [SPINNING ++ [10]].
    destruct (write_fmt_short [SPINNING ++ [10]] q1 Hq1) as (q2 & -> & Hq2 & Hc2); [by repeat constructor|].
    exists q2. split; [done|]. split; [done|]. rewrite Hc2, Hc1, fmap_app, concat_app, <- !app_assoc. done. }
  destruct (decide (Forall short p_i)) as [Hs|Hl].
  - destruct (Hok 1%nat p_i p Hp Hs) as (p' & Hr & Hp' & Hc). exists p', p_i. split_and!; [done | done | by left |]. by eexists.
  - pose proof Hl as (l1 & s & l2 & E & H1 & Hs)%first_long. cbn [l4re_panic]. unfold try_print at 1.
    assert (writes (with_newline [Arg p_i]) = l1 ++ s :: (l2 ++ [[10]])) as ->.
    { change (writes (with_newline [Arg p_i])) with (p_i ++ [[10]]). by rewrite E, <- app_assoc. }
    destruct (write_fmt_long l1 s (l2 ++ [[10]]) p Hp H1 Hs) as (p1 & -> & Hp1 & Hc1).
    destruct (Hok 0%nat unwrap_info p1 Hp1 Hu) as (p' & Hr & Hp' & Hc). exists p', unwrap_info. split_and!; [done | done | by right |].
    by eexists.
Qed.
End Print.

(** * Texts of errors *)
Module ErrorText.
Section ErrorText.
Context {EC : ErrConsts}.
(** [Display for Utf8Error], of the standard library. *)
Definition utf8_fmt (e : Utf8Error) : string :=
  match error_len e with
  | Some n => "invalid utf-8 sequence of " +:+ pretty n +:+ " bytes from index " +:+ pretty (valid_up_to e)
  | None => "incomplete utf-8 byte sequence from index " +:+ pretty (valid_up_to e)
  end.
(** [Display for Error]: [to_i64] of the enums, which [num-derive] generates, is
    the discriminant. *)
Definition fmt (e : Error) : string :=
  match e with
  | Generic e => "Generic L4 error code: " +:+ pretty (generic_code e)
  | Tcr i => "IPC error: " +:+ pretty (tcr_code i)
  | InvalidCap => "Invalid capability"
  | InvalidArg r _ => "Invalid argument '" +:+ r +:+ "'"
  | InvalidState r => "Invalid state: " +:+ r
  | Unknown u => "Unknown error code " +:+ pretty u
  | Protocol p => "Unknown protocol requested: " +:+ pretty p
  | InvalidEncoding None => "Invalid encoding"
  | InvalidEncoding (Some e) => "Invalid encoding: " +:+ utf8_fmt e
  end.

(** Different generic errors have different texts. *)
Lemma generic_fmt_inj a b : fmt (Generic a) = fmt (Generic b) -> a = b.
Proof.
  cbn. intros H. apply (inj (String.append "Generic L4 error code: ")) in H. apply (inj pretty) in H. by apply generic_code_inj.
Qed.
End ErrorText.
End ErrorText.

(** * C strings ([core-ffi-helpers]) *)
Module Ffi.
Section Ffi.
(** The cast of a byte to the platform's [c_char]: the byte on AArch64, its
    two's complement on amd64. *)
Variable c_char : Z -> Z.

Fixpoint strlen_from (length : Z) (c_str : list Z) : exec Z :=
  match c_str with
  | [] => UB
  | b :: rest => if b =? 0 then Done length else strlen_from (length + 1) rest
  end.
Definition strlen (c_str : list Z) : exec Z := strlen_from 0 c_str.
(** The C string as values of [c_char]. *)
Fixpoint eq_str_cstr (name in_name : list Z) : exec bool :=
  match in_name with
  | [] => UB
  | n :: rest =>
    match name with
    | [] => Done (n =? 0)
    | byte :: name =>
      if n =? 0 then Done false else if negb (n =? c_char byte) then Done false else eq_str_cstr name rest
    end
  end.

Lemma strlen_from_spec s : 0 ∈ s -> forall n, strlen_from n s = Done (n + zlen (Env.c_str s)).
Proof.
  induction s as [|b s IH]; intros H0 n; [by apply not_elem_of_nil in H0|].
  cbn [strlen_from Env.c_str]. destruct (b =? 0) eqn:E; [by rewrite Z.add_0_r|]. zb.
  apply elem_of_cons in H0 as [<-|H0]; [done|]. rewrite IH, zlen_cons by done. f_equal. lia.
Qed.
(** The length of a C string is that of the text before its first zero byte. *)
Lemma strlen_spec s : 0 ∈ s -> strlen s = Done (zlen (Env.c_str s)).
Proof. intros. by apply (strlen_from_spec s). Qed.

(** The two comparisons of a Rust string with a C string, that of
    [core-ffi-helpers] at the platform's [c_char] and that of [l4-sys] on bytes,
    are one function, however the platform's characters are signed. *)
Theorem ffi_eq_str_cstr_same name other :
  (forall a b, is_byte a -> is_byte b -> c_char a = c_char b -> a = b) -> c_char 0 = 0 ->
  bytes_ok name -> bytes_ok other ->
  eq_str_cstr name (c_char <$> other) = Env.eq_str_cstr name other.
Proof.
  intros Hinj H0 Hn Ho. revert name Hn. induction Ho as [|n other Hb Ho IH]; intros name Hn; [by destruct name|].
  assert ((c_char n =? 0) = (n =? 0)) as Hz.
  { apply eq_true_iff_eq. rewrite !Z.eqb_eq. split; [|congruence]. intros Hc. apply Hinj; [done | unfold is_byte; lia | congruence]. }
  destruct Hn as [|byte name Hbyte Hn]; cbn; rewrite Hz; [done|]. destruct (n =? 0); [done|].
  assert ((c_char n =? c_char byte) = (n =? byte)) as ->.
  { apply eq_true_iff_eq. rewrite !Z.eqb_eq. split; [by apply Hinj | congruence]. }
  destruct (negb _); [done|]. by apply IH.
Qed.
End Ffi.
End Ffi.

(** * The choice of a scheduler *)
Module SchedulerSelection.
(** The crate's features. *)
Class Features := { autosar : bool; linux_like : bool }.
Section Selection.
Context {FT : Features}.
Inductive SchedulerKind := Autosar | LinuxLike.
(** A variant exists under its feature. *)
Definition enabled (k : SchedulerKind) : bool := match k with Autosar => autosar | LinuxLike => linux_like end.
(** [SchedulerPolicy::name] of the two policies. *)
Definition policy_name (k : SchedulerKind) : string := match k with Autosar => "autosar" | LinuxLike => "linux_like" end.
Definition from_str (s : string) : option SchedulerKind :=
  if autosar && bool_decide (s = "autosar"%string) then Some Autosar
  else if linux_like && bool_decide (s = "linux_like"%string) then Some LinuxLike
  else None.
(** [var] is the value of [L4_SCHEDULER]. *)
Definition from_env (var : option string) : option SchedulerKind := match var with Some val => from_str val | None => None end.

(** Exactly the names of the policies that are built in are understood. *)
Lemma scheduler_names s k : from_str s = Some k <-> enabled k = true /\ policy_name k = s.
Proof.
  unfold from_str. destruct autosar eqn:Ea, linux_like eqn:El; cbn; repeat case_bool_decide; subst;
    destruct k; cbn; rewrite ?Ea, ?El; naive_solver.
Qed.
End Selection.
End SchedulerSelection.

(** * Concrete instances *)
Module Concrete.
Import Print.
(** [print!("n = {}, s = {}", 7, "é")] and a string too long. *)
Definition fmt7 : list Piece := [Lit (str_bytes "n = "); Arg [str_bytes "7"]; Lit (str_bytes ", s = "); Arg [[195; 169]]].
Definition long : list Piece := [Lit (str_bytes "x"); Arg [replicate 255 65]].
Lemma nostd_print_witness :
  (exists p', print fmt7 new = Done p' /\ ready p'
     /\ console p' = str_bytes "n = " ++ [10] ++ str_bytes "7" ++ [10] ++ str_bytes ", s = " ++ [10; 195; 169; 10])
  /\ print long new = Panics /\ print_nostd fmt7 [] = Done (str_bytes "n = 7, s = " ++ [195; 169]).
Proof.
  split; [|split].
  - destruct (nostd_print fmt7 new [] eq_refl) as (H & _ & _). destruct H as (p' & Hp & Hr & Hc); [by repeat constructor|].
    exists p'. split; [done|]. split; [done|]. rewrite Hc. by vm_compute.
  - apply (nostd_print long new [] eq_refl). apply (bool_decide_unpack _). by vm_compute.
  - apply (nostd_print fmt7 new [] eq_refl).
Defined.
(** A panic with a short message, and one whose message does not fit. *)
Definition unwrap_info : list (list Z) := [str_bytes "panicked: called unwrap on an Err value"].
Lemma panic_spins_witness :
  (exists p', l4re_panic 2 unwrap_info [str_bytes "oops"] new = Done p'
     /\ exists before, console p' = before ++ str_bytes "oops" ++ [10; 10; 10] ++ SPINNING ++ [10; 10])
  /\ exists p', l4re_panic 2 unwrap_info [replicate 300 65] new = Done p'
     /\ exists before, console p' = before ++ concat (shown <$> unwrap_info) ++ [10; 10] ++ SPINNING ++ [10; 10].
Proof.
  assert (Forall short unwrap_info) as Hu by by repeat constructor. split.
  - destruct (panic_spins unwrap_info [str_bytes "oops"] new eq_refl Hu) as (p' & rep & Hp & _ & [[-> _]|[_ Hs]] & before & Hc).
    + exists p'. split; [exact Hp|]. exists before. by rewrite Hc.
    + exfalso. apply Hs. by repeat constructor.
  - destruct (panic_spins unwrap_info [replicate 300 65] new eq_refl Hu) as (p' & rep & Hp & _ & [[_ Hs]|[-> _]] & before & Hc).
    + exfalso. apply Forall_cons in Hs as [Hs _]. done.
    + exists p'. split; [exact Hp|]. by exists before.
Defined.

(** At signed characters. *)
Lemma ffi_eq_str_cstr_same_witness :
  Ffi.eq_str_cstr (swrap 8) [97; 200] (swrap 8 <$> [97; 200; 0]) = Env.eq_str_cstr [97; 200] [97; 200; 0].
Proof.
  apply Ffi.ffi_eq_str_cstr_same.
  - intros a b Ha Hb H. unfold is_byte in *.
    assert (wrap 8 (swrap 8 a) = wrap 8 (swrap 8 b)) as Hw by by rewrite H.
    rewrite !wrap_swrap, !wrap_id in Hw by (unfold uint; lia). done.
  - done.
  - repeat constructor; unfold is_byte; lia.
  - repeat constructor; unfold is_byte; lia.
Defined.

(** Both policies built in, and one of them. *)
Module Selection.
Import SchedulerSelection.
#[local] Instance both : Features := {| SchedulerSelection.autosar := true; SchedulerSelection.linux_like := true |}.
Example env_selects : from_env (Some "linux_like"%string) = Some LinuxLike /\ from_env (Some "fifo"%string) = None /\ from_env None = None.
Proof. done. Qed.
Example name_read_back : from_str (policy_name Autosar) = Some Autosar.
Proof. by apply scheduler_names. Qed.
End Selection.
End Concrete.
