(* ===== verification/Served.v ===== *)
(** The frame shared by the Linux-side servers ([fd_server], [epoll_server],
    [aio_server]): each has its own copy of the helpers on the buffer registers
    with the same text, a table of entries behind slab keys, and handlers that
    read their arguments from message registers 1 to 3 and leave a status in
    register 0.  Here are these helpers, the type of handlers, and the
    lemmas and tactics from which a handler is shown to do its part: to return, to
    stay inside the UTCB and to keep the ownership of descriptors. *)
From S2P Require Import Prelude Error Utcb Host.
From Stdlib Require Import ZArith Lia.
From stdpp Require Import base list gmap sets.
Open Scope Z_scope.

(** Entries that own a descriptor: their [Drop] closes it. *)
Class HasFd (X : Type) := fd_of : X -> Z.

Section Helpers.
Context {UC : UtcbConsts} {SL : Slab} {LX : Linux}.

(** [saturating_sub(1)] words of payload. *)
Definition BR_DATA_BYTES : Z := Z.max 0 (BR_WORDS - 1) * 8.

Definition encode_errno (o : os) : Z := neg_errno (errno o).
Definition br_clear (u : Utcb) : Utcb := br_set_len 0 u.
Definition br_write_bytes (data : list Z) (u : Utcb) : exec Utcb :=
  let len := Z.min (zlen data) BR_DATA_BYTES in
  let u := br_set_len len u in
  if len =? 0 then Done u else br_store (take (Z.to_nat len) data) u.
Definition br_read_bytes (u : Utcb) : exec (list Z) := br_load u (Z.min (br_len u) BR_DATA_BYTES).

(** A handler works on one table, the kernel and the UTCB. *)
Definition Handler (X : Type) : Type := slab X -> os -> Utcb -> exec (slab X * os * Utcb).
(** [mr[0] = v; br_clear(); return]. *)
Definition answer {X} (v : Z) : Handler X := fun s o u => u ← mr_set 0 v u; Done (s, o, br_clear u).

(** [read(fd, &mut value, 8)] into a zeroed word, and a [read] into a fresh
    buffer that is then truncated. *)
Definition word_of (out : list Z) : Z := le_num (mwrite (replicate 8 0) 0 out).
Definition buf_of (max res : Z) (out : list Z) : list Z :=
  take (Z.to_nat res) (mwrite (replicate (Z.to_nat max) 0) 0 out).

(** [slab.remove(handle)] drops the entry, and its [Drop] closes the
    descriptor; the four [close] handlers have the same text. *)
Definition drop_entry {X} `{HasFd X} (entry : X) (o : os) : os := sys_close (fd_of entry) o.
Definition handle_close {X} `{HasFd X} : Handler X := fun s o u =>
  handle ← mr_get u 1;
  match slab_get s handle with
  | Some entry => answer 0 (slab_remove s handle) (drop_entry entry o) u
  | None => answer (neg_errno EBADF) s o u
  end.

(** What a wait returns: an IPC error, or a request with the whole UTCB as the
    kernel left it. *)
Inductive Incoming := IpcError | Request (u : Utcb).
Definition good_incoming (inc : Incoming) : Prop := match inc with IpcError => True | Request u => utcb_ok u end.
Definition requests (incoming : list Incoming) : list Utcb :=
  omap (fun inc => match inc with IpcError => None | Request u => Some u end) incoming.

(** * What handlers guarantee *)

Definition fds {X} `{HasFd X} (s : slab X) : gmap Z Z := fd_of <$> slab_map s.

(** What every handler guarantees: it returns, the UTCB stays well formed, the
    descriptors of its table stay owned, no entry but [closing] goes away or
    changes its descriptor, and the payload it announces fits (or is still the
    one of the request). *)
Definition Served {X} `{HasFd X} (F : Z -> Prop) (closing : option Z) (s : slab X) (u : Utcb)
    (r : exec (slab X * os * Utcb)) : Prop :=
  exists s' o' u', r = Done (s', o', u') /\ utcb_ok u' /\ Owns F (fds s') (open_fds o')
    /\ (forall i x, fds s !! i = Some x -> closing <> Some i -> fds s' !! i = Some x)
    /\ (br_len u' <= BR_DATA_BYTES \/ br u' = br u).

Lemma br_data_bytes : BR_DATA_BYTES = 8 * BR_WORDS - 8 /\ 56 <= BR_DATA_BYTES < 2 ^ 11.
Proof. pose proof br_words_range. unfold BR_DATA_BYTES. lia. Qed.

Lemma br_len_set n u : utcb_ok u -> uint 64 n -> br_len (br_set_len n u) = n.
Proof.
  intros (_ & _ & Hb & _) Hn. pose proof br_words_range. unfold br_len, br_set_len. cbn.
  rewrite load_store64 by lia. by apply wrap_id.
Qed.
Lemma br_clear_ok u : utcb_ok u -> utcb_ok (br_clear u) /\ mr (br_clear u) = mr u /\ br_len (br_clear u) = 0.
Proof.
  intros Hu. destruct (br_set_len_ok u 0 Hu). split_and!; [done | done |]. apply br_len_set; [done | unfold uint; lia].
Qed.

Lemma br_write_bytes_ok d u : utcb_ok u -> bytes_ok d ->
  exists u', br_write_bytes d u = Done u' /\ utcb_ok u' /\ mr u' = mr u /\ br_len u' = Z.min (zlen d) BR_DATA_BYTES
    /\ mread (br u') 8 (Z.min (zlen d) BR_DATA_BYTES) = take (Z.to_nat BR_DATA_BYTES) d.
Proof.
  intros Hu Hd. pose proof br_data_bytes as [Hbd Hr]. pose proof (zlen_nonneg d). pose proof br_words_range.
  unfold br_write_bytes. set (len := Z.min _ _).
  destruct (br_set_len_ok u len Hu) as [Hu1 Hm1].
  assert (br_len (br_set_len len u) = len) as Hlen by (apply br_len_set; [done | unfold uint; lia]).
  destruct (len =? 0) eqn:E; zb.
  - eexists. split; [done|]. split_and!; [done.. |]. assert (zlen d = 0) as Hz by lia.
    unfold zlen in Hz. destruct d; [|cbn in Hz; lia]. by rewrite take_nil, E.
  - assert (zlen (take (Z.to_nat len) d) = len) as Hlt by (unfold zlen in *; rewrite length_take; lia).
    destruct (br_store_ok (br_set_len len u) (take (Z.to_nat len) d)) as (u' & -> & Hu' & Hm' & Hb');
      [done | by apply Forall_take | lia |].
    eexists. split; [done|]. split_and!; [done | congruence | |].
    + unfold br_len, load64 in *. rewrite Hb', mread_mwrite_before; [done | lia..|].
      destruct Hu1 as (_ & _ & Hb1 & _). lia.
    + rewrite Hb', mread_mwrite_same; [|lia | destruct Hu1 as (_ & _ & Hb1 & _); lia | done].
      unfold len, zlen. destruct (Z.min_spec (Z.of_nat (length d)) BR_DATA_BYTES) as [[? ->]|[? ->]]; [|done].
      rewrite !take_ge; [done | lia | lia].
Qed.

Lemma br_read_bytes_ok u : utcb_ok u ->
  exists buf, br_read_bytes u = Done buf /\ zlen buf <= BR_DATA_BYTES /\ bytes_ok buf.
Proof.
  intros Hu. pose proof br_data_bytes as [Hbd Hr]. pose proof (br_len_range u Hu) as Hl. unfold uint in Hl.
  unfold br_read_bytes. destruct (br_load_ok u (Z.min (br_len u) BR_DATA_BYTES)) as (-> & Hz & Hb); [done | lia | lia |].
  eexists. split; [done|]. split; [lia | done].
Qed.

Lemma served {X} `{HasFd X} F closing (s s' : slab X) o' u u' :
  utcb_ok u' -> Owns F (fds s') (open_fds o') ->
  (forall i x, fds s !! i = Some x -> closing <> Some i -> fds s' !! i = Some x) ->
  br_len u' <= BR_DATA_BYTES \/ br u' = br u -> Served F closing s u (Done (s', o', u')).
Proof. intros. exists s', o', u'. by split_and!. Qed.

Lemma answer_served {X} `{HasFd X} F closing (s s' : slab X) o' u v :
  utcb_ok u -> uint 64 v -> Owns F (fds s') (open_fds o') ->
  (forall i x, fds s !! i = Some x -> closing <> Some i -> fds s' !! i = Some x) ->
  Served F closing s u (answer v s' o' u).
Proof.
  intros Hu Hv Ho Hs. unfold answer. destruct (mr_set_ok u 0 v) as (u1 & -> & Hu1 & _); [done | lia | done |].
  estep. destruct (br_clear_ok u1 Hu1) as (? & _ & Hl). pose proof br_data_bytes.
  apply served; [done | done | done | left; lia].
Qed.

(** The value reads: status and word in registers, no payload. *)
Lemma answer2_served {X} `{HasFd X} F closing (s s' : slab X) o' u v w :
  utcb_ok u -> uint 64 v -> uint 64 w -> Owns F (fds s') (open_fds o') ->
  (forall i x, fds s !! i = Some x -> closing <> Some i -> fds s' !! i = Some x) ->
  Served F closing s u (u ← mr_set 0 v u; u ← mr_set 1 w u; Done (s', o', br_clear u)).
Proof.
  intros Hu Hv Hw Ho Hs. destruct (mr_set_ok u 0 v) as (u1 & -> & Hu1 & _); [done | lia | done |]. estep.
  destruct (mr_set_ok u1 1 w) as (u2 & -> & Hu2 & _); [done | lia | done |]. estep.
  destruct (br_clear_ok u2 Hu2) as (? & _ & Hl). pose proof br_data_bytes.
  apply served; [done | done | done | left; lia].
Qed.

(** The answers with a payload, whichever part is written first. *)
Lemma payload_served {X} `{HasFd X} F closing (s s' : slab X) o' u v d :
  utcb_ok u -> uint 64 v -> bytes_ok d -> Owns F (fds s') (open_fds o') ->
  (forall i x, fds s !! i = Some x -> closing <> Some i -> fds s' !! i = Some x) ->
  Served F closing s u (u ← mr_set 0 v u; u ← br_write_bytes d u; Done (s', o', u)).
Proof.
  intros Hu Hv Hd Ho Hs. destruct (mr_set_ok u 0 v) as (u1 & -> & Hu1 & _); [done | lia | done |]. estep.
  destruct (br_write_bytes_ok d u1) as (u2 & -> & Hu2 & _ & Hl & _); [done.. |]. estep.
  apply served; [done | done | done | left; lia].
Qed.
Lemma payload_first_served {X} `{HasFd X} F closing (s s' : slab X) o' u v d :
  utcb_ok u -> uint 64 v -> bytes_ok d -> Owns F (fds s') (open_fds o') ->
  (forall i x, fds s !! i = Some x -> closing <> Some i -> fds s' !! i = Some x) ->
  Served F closing s u (u ← br_write_bytes d u; u ← mr_set 0 v u; Done (s', o', u)).
Proof.
  intros Hu Hv Hd Ho Hs. destruct (br_write_bytes_ok d u) as (u1 & -> & Hu1 & _ & Hl & _); [done.. |]. estep.
  destruct (mr_set_ok u1 0 v) as (u2 & -> & Hu2 & _ & Hb); [done | lia | done |]. estep.
  apply served; [done | done | done | left; unfold br_len in *; rewrite Hb; lia].
Qed.

Lemma encode_errno_range o : uint 64 (encode_errno o).
Proof. apply neg_errno_range. Qed.
Lemma word_of_range out : zlen out = 8 -> bytes_ok out -> uint 64 (word_of out).
Proof.
  intros Hz Hb. unfold word_of. assert (mwrite (replicate 8 0) 0 out = out) as ->.
  { unfold mwrite. cbn [take app Z.to_nat Z.add]. rewrite Hz. cbn. apply app_nil_r. }
  pose proof (le_num_range out Hb) as Hr. by rewrite Hz in Hr.
Qed.
Lemma buf_of_ok max res out : bytes_ok out -> bytes_ok (buf_of max res out).
Proof.
  intros. apply Forall_take, mwrite_bytes_ok; [|done]. apply Forall_replicate. unfold is_byte. lia.
Qed.
Lemma zero_range : uint 64 0.
Proof. unfold uint. lia. Qed.

(** A new entry, a removed one and a changed one. *)
Lemma insert_owns {X} `{HasFd X} F (s : slab X) o c e o' :
  Owns F (fds s) (open_fds o) -> sys_create c o = (fd_of e, o') -> 0 <= fd_of e ->
  Owns F (fds (slab_insert s e).2) (open_fds o') /\ uint 64 (slab_insert s e).1
  /\ (forall i x, fds s !! i = Some x -> fds (slab_insert s e).2 !! i = Some x).
Proof.
  intros Ho Hc He. destruct (slab_insert_spec _ s e) as (Hk & Hn & Hm).
  pose proof (owns_size _ _ _ Ho) as Hsz. unfold fds in Hsz. rewrite map_size_fmap in Hsz.
  destruct (sys_create_spec _ _ _ _ Hc) as [[? _]|(_ & Hnew & Hop)]; [lia|].
  assert (fds (slab_insert s e).2 = <[(slab_insert s e).1 := fd_of e]> (fds s)) as Hf
    by (unfold fds; by rewrite Hm, fmap_insert).
  assert (fds s !! (slab_insert s e).1 = None) as Hnf by (unfold fds; by rewrite lookup_fmap, Hn).
  rewrite Hf, Hop. split_and!.
  - by apply owns_insert.
  - unfold uint in *. lia.
  - intros i x Hi. rewrite lookup_insert_ne; [done|]. congruence.
Qed.
Lemma failed_owns {X} `{HasFd X} F (s : slab X) o c r o' :
  Owns F (fds s) (open_fds o) -> sys_create c o = (r, o') -> r < 0 -> Owns F (fds s) (open_fds o').
Proof. intros Ho Hc Hr. destruct (sys_create_spec _ _ _ _ Hc) as [(_ & -> & _)|[? _]]; [done | lia]. Qed.
Lemma call_owns {X} `{HasFd X} F (s : slab X) o c r out o' :
  Owns F (fds s) (open_fds o) -> sys_fd c o = (r, out, o') -> Owns F (fds s) (open_fds o').
Proof. intros Ho Hc. pose proof (sys_fd_open c o) as He. rewrite Hc in He. cbn in He. by rewrite He. Qed.
Lemma call_out c o r out o' : sys_fd c o = (r, out, o') ->
  -1 <= r <= Z.max 0 (res_max c) /\ zlen out = out_len c r /\ bytes_ok out.
Proof.
  intros Hc. pose proof (sys_fd_result c o) as Hr. pose proof (sys_fd_out c o) as Ho. rewrite Hc in *. done.
Qed.
Lemma set_fds {X} `{HasFd X} (s : slab X) k (e e' : X) :
  slab_map s !! k = Some e -> fd_of e' = fd_of e -> fds (slab_set s k e') = fds s.
Proof.
  intros He Hfd. unfold fds. erewrite slab_set_spec by done. rewrite fmap_insert, Hfd.
  apply insert_id. by rewrite lookup_fmap, He.
Qed.

Definition reply_fits (u u' : Utcb) : Prop := br_len u' <= BR_DATA_BYTES \/ br u' = br u.
Definition Handles {X} `{HasFd X} (h : Handler X) : Prop := forall F s o u,
  utcb_ok u -> Owns F (fds s) (open_fds o) -> Served F None s u (h s o u).

Lemma insert_served {X} `{HasFd X} F (s : slab X) o c e o' u :
  utcb_ok u -> Owns F (fds s) (open_fds o) -> sys_create c o = (fd_of e, o') -> 0 <= fd_of e ->
  Served F None s u (let '(slot, s) := slab_insert s e in answer slot s o' u).
Proof.
  intros Hu Ho Hc He. destruct (insert_owns _ _ _ _ _ _ Ho Hc He) as (? & ? & ?).
  destruct (slab_insert s e) as [slot s']. apply answer_served; auto.
Qed.

(** Closing: the descriptor is given back and only that entry goes. *)
Lemma close_handles {X} `{HasFd X} F (s : slab X) o u k :
  utcb_ok u -> Owns F (fds s) (open_fds o) -> mr_get u 1 = Done k -> Served F (Some k) s u (handle_close s o u).
Proof.
  intros Hu Ho Hk. unfold handle_close. rewrite Hk. estep.
  destruct (slab_get s k) as [e|] eqn:He; [|apply answer_served; auto using neg_errno_range].
  assert (fds (slab_remove s k) = delete k (fds s)) as Hf
    by (unfold fds; erewrite slab_remove_spec by done; by rewrite fmap_delete).
  apply answer_served; [done | apply zero_range | |].
  - rewrite Hf. unfold drop_entry. rewrite sys_close_open. apply owns_delete; [done|].
    unfold fds. rewrite lookup_fmap. unfold slab_get in He. by rewrite He.
  - intros i x Hi Hne. rewrite Hf, lookup_delete_ne; [done | congruence].
Qed.

End Helpers.

#[export] Hint Resolve neg_errno_range encode_errno_range word_of_range buf_of_ok zero_range : rust.
#[export] Hint Extern 1 (uint 64 (wrap 64 _)) => (apply wrap_range; lia) : rust.
#[export] Hint Extern 2 (Owns _ (fds _) (open_fds _)) => (eapply call_owns; eassumption) : rust.
#[export] Hint Extern 2 (Owns _ (fds _) (open_fds _)) => (eapply failed_owns; [eassumption | eassumption | lia]) : rust.

(** Run a handler to its next answer: registers, table, kernel calls, tests. *)
Ltac handler_step := match goal with
  | |- context [mr_get ?u ?k] =>
      let E := fresh "E" in destruct (mr_get_ok u k) as (? & E & ?); [assumption | lia | rewrite E; estep; clear E]
  | |- context [match slab_get ?s ?h with _ => _ end] => destruct (slab_get s h) eqn:?
  | |- context [sys_fd ?c ?o] =>
      let E := fresh "Hsys" in destruct (sys_fd c o) as [[? ?] ?] eqn:E; pose proof (call_out _ _ _ _ _ E) as (? & ? & ?)
  | |- context [sys_create ?c ?o] => let E := fresh "Hsys" in destruct (sys_create c o) as [? ?] eqn:E
  | |- context [if ?b then _ else _] => destruct b eqn:?
  end.
Ltac answered :=
  first [ apply answer_served | apply answer2_served | apply payload_served | apply payload_first_served ].

(** A handler made of such steps. *)
Ltac handles := unfold Handles; intros; repeat handler_step; zb; answered; eauto with rust; zb; subst; eauto with rust.
