(* ===== verification/VirtioFrontend.v ===== *)
(** The virtio frontend ([src/virtio_frontend]), the shims for Linux driver
    modules ([src/linux_shims]) and the driver server that puts them behind an
    IPC gate ([src/driver_server]).

    [Frontend] is the descriptor queue, the transport with its configuration
    space, and the C interface to it; [Shims] the module entry points;
    [DriverServer] the server loop. *)
From S2P Require Import Prelude Error MsgTag Utcb Host Served.
From Stdlib Require Import ZArith Lia.
From stdpp Require Import base list gmap.
Open Scope Z_scope.

Module Frontend.

(** * [queue.rs] *)
Definition QUEUE_SIZE : Z := 8.
Record VirtqDesc := { addr : Z; len : Z; flags : Z; next : Z }.
Record VirtqAvail := { av_flags : Z; av_idx : Z; av_ring : list Z; used_event : Z }.
Record VirtqUsedElem := { id : Z; ulen : Z }.
Record VirtqUsed := { us_flags : Z; us_idx : Z; us_ring : list VirtqUsedElem; avail_event : Z }.
Record VirtQueue := { desc : list VirtqDesc; avail : VirtqAvail; used : VirtqUsed }.
Definition VirtQueue_new : VirtQueue :=
  {| desc := replicate (Z.to_nat QUEUE_SIZE) {| addr := 0; len := 0; flags := 0; next := 0 |};
     avail := {| av_flags := 0; av_idx := 0; av_ring := replicate (Z.to_nat QUEUE_SIZE) 0; used_event := 0 |};
     used := {| us_flags := 0; us_idx := 0;
                us_ring := replicate (Z.to_nat QUEUE_SIZE) {| id := 0; ulen := 0 |}; avail_event := 0 |} |}.

(** An assignment to an array element. *)
Definition index_set {A} (i : Z) (x : A) (l : list A) : exec (list A) :=
  if (0 <=? i) && (i <? zlen l) then Done (<[Z.to_nat i := x]> l) else Panics.
(** [for (i, d) in chain.iter().enumerate() { self.desc[i] = *d }], from [i] on. *)
Fixpoint copy_chain (i : Z) (chain : list VirtqDesc) (descs : list VirtqDesc) : exec (list VirtqDesc) :=
  match chain with
  | [] => Done descs
  | d :: chain => descs ← index_set i d descs; copy_chain (i + 1) chain descs
  end.
Definition add (chain : list VirtqDesc) (q : VirtQueue) : exec (result unit Z * VirtQueue) :=
  if QUEUE_SIZE <? zlen chain then Done (Err tt, q)
  else
    descs ← copy_chain 0 chain (desc q);
    let idx := av_idx (avail q) `mod` QUEUE_SIZE in
    ring ← index_set idx 0 (av_ring (avail q));
    Done (Ok (wrap 16 idx),
      {| desc := descs;
         avail := {| av_flags := av_flags (avail q); av_idx := wrap 16 (av_idx (avail q) + 1);
                     av_ring := ring; used_event := used_event (avail q) |};
         used := used q |}).

(** * [transport.rs] *)
Record VirtioTransport := {
  device_features : Z; driver_features : Z; config : list Z; queue : VirtQueue;
}.
Definition new (features config_len : Z) : VirtioTransport :=
  {| device_features := features; driver_features := 0; config := replicate (Z.to_nat config_len) 0;
     queue := VirtQueue_new |}.
Definition negotiate_features (driver_supported : Z) (t : VirtioTransport) : Z * VirtioTransport :=
  let negotiated := Z.land (device_features t) driver_supported in
  (negotiated, {| device_features := device_features t; driver_features := negotiated;
                  config := config t; queue := queue t |}).

Section Transport.
Context {B : Build}.
(** [assert!(offset + n <= config.len())], then the range
    [offset..offset + n], which panics when it is not one of the slice. *)
Definition config_range (offset n : Z) (t : VirtioTransport) : exec unit :=
  e ← uadd 64 offset n;
  if zlen (config t) <? e then Panics
  else if e <? offset then Panics else Done tt.
Definition read_config (offset n : Z) (t : VirtioTransport) : exec (list Z) :=
  _ ← config_range offset n t; Done (mread (config t) offset n).
Definition write_config (offset : Z) (data : list Z) (t : VirtioTransport) : exec VirtioTransport :=
  _ ← config_range offset (zlen data) t;
  Done {| device_features := device_features t; driver_features := driver_features t;
          config := mwrite (config t) offset data; queue := queue t |}.
End Transport.

(** * [ffi.rs]: transports behind raw pointers *)

(** [Box::into_raw] gives an address that is in use by no other box and not
    null; dereferencing anything else is undefined behaviour. *)
Class Boxes := {
  box_addr : gmap Z VirtioTransport -> Z;
  box_addr_fresh : forall h, h !! box_addr h = None /\ box_addr h <> 0;
}.
Section Ffi.
Context {B : Build} {BX : Boxes}.
Abbreviation heap := (gmap Z VirtioTransport).

Definition deref (h : heap) (p : Z) : exec VirtioTransport :=
  match h !! p with Some t => Done t | None => UB end.
Definition virtio_transport_create (features config_len : Z) (h : heap) : Z * heap :=
  (box_addr h, <[box_addr h := new features config_len]> h).
Definition virtio_transport_destroy (p : Z) (h : heap) : exec heap :=
  if p =? 0 then Done h else _ ← deref h p; Done (delete p h).
Definition virtio_negotiate_features (p driver_supported : Z) (h : heap) : exec (Z * heap) :=
  t ← deref h p;
  let '(r, t) := negotiate_features driver_supported t in Done (r, <[p := t]> h).
(** [buf] is the memory behind the buffer pointer, read or overwritten for
    [len] bytes. *)
Definition virtio_config_read (p offset : Z) (buf : list Z) (n : Z) (h : heap) : exec (list Z) :=
  if zlen buf <? n then UB else
  t ← deref h p;
  data ← read_config offset n t;
  Done (mwrite buf 0 data).
Definition virtio_config_write (p offset : Z) (buf : list Z) (n : Z) (h : heap) : exec heap :=
  if zlen buf <? n then UB else
  t ← deref h p;
  t ← write_config offset (take (Z.to_nat n) buf) t;
  Done (<[p := t]> h).
Definition virtio_queue_add (p : Z) (descs : list VirtqDesc) (count : Z) (h : heap) : exec (Z * heap) :=
  if zlen descs <? count then UB else
  t ← deref h p;
  '(r, q) ← add (take (Z.to_nat count) descs) (queue t);
  let t := {| device_features := device_features t; driver_features := driver_features t;
              config := config t; queue := q |} in
  Done (match r with Ok _ => 0 | Err _ => -1 end, <[p := t]> h).
End Ffi.
End Frontend.

(** * [linux_shims]: one module's life *)
Module Shims.
Section Shims.
Context {W : Type}.
(** The exit handler works on the rest of the world; the init function may also
    call the shims. *)
Record State := { INIT_DONE : bool; EXIT_HANDLER : option (W -> W); world : W }.

Definition set_done (b : bool) (s : State) : State :=
  {| INIT_DONE := b; EXIT_HANDLER := EXIT_HANDLER s; world := world s |}.
Definition module_init (init : State -> Z * State) (s : State) : State :=
  if INIT_DONE s then s
  else
    let '(r, s) := init (set_done true s) in
    if negb (r =? 0) then set_done false s else s.
Definition module_exit (exit : W -> W) (s : State) : State :=
  if INIT_DONE s then {| INIT_DONE := true; EXIT_HANDLER := Some exit; world := world s |} else s.
Definition module_shutdown (s : State) : State :=
  if INIT_DONE s then
    match EXIT_HANDLER s with
    | Some handler => {| INIT_DONE := false; EXIT_HANDLER := None; world := handler (world s) |}
    | None => {| INIT_DONE := false; EXIT_HANDLER := None; world := world s |}
    end
  else s.
End Shims.
End Shims.

(** * [driver_server] *)
Module DriverServer.
Section DriverServer.
Context {TC : TagConsts} {UC : UtcbConsts} {B : Build}.
Import Frontend.

Definition op_features (t : VirtioTransport) (u : Utcb) : exec (VirtioTransport * Utcb) :=
  u ← mr_set 0 (device_features t) u; Done (t, u).
Definition op_negotiate (t : VirtioTransport) (u : Utcb) : exec (VirtioTransport * Utcb) :=
  supported ← mr_get u 1;
  let '(negotiated, t) := negotiate_features supported t in
  u ← mr_set 0 negotiated u; Done (t, u).
Definition op_write (t : VirtioTransport) (u : Utcb) : exec (VirtioTransport * Utcb) :=
  off ← mr_get u 1;
  val ← mr_get u 2;
  t ← write_config off (take 4 (le_bytes 8 val)) t;
  u ← mr_set 0 0 u; Done (t, u).
Definition op_read (t : VirtioTransport) (u : Utcb) : exec (VirtioTransport * Utcb) :=
  off ← mr_get u 1;
  buf ← read_config off 4 t;
  u ← mr_set 0 (le_num buf) u; Done (t, u).
Definition dispatch (t : VirtioTransport) (u : Utcb) : exec (VirtioTransport * Utcb) :=
  op ← mr_get u 0;
  if op =? 0 then op_features t u
  else if op =? 1 then op_negotiate t u
  else if op =? 2 then op_write t u
  else if op =? 3 then op_read t u
  else u ← mr_set 0 (2 ^ 64 - 1) u; Done (t, u).

Fixpoint run_loop (incoming : list Incoming) (t : VirtioTransport) : exec (VirtioTransport * list (Z * Utcb)) :=
  match incoming with
  | [] => Done (t, [])
  | IpcError :: rest => run_loop rest t
  | Request u :: rest =>
    '(t, u) ← dispatch t u;
    '(t, replies) ← run_loop rest t;
    Done (t, (l4_msgtag 0 1 0 0, u) :: replies)
  end.
(** [register]: the naming service's answer for a gate under the server's name. *)
Definition register_with_ns (names : option Z) (register : Z -> Z -> Z) (gate : Z) : exec unit :=
  ns ← unwrap names;
  if register ns gate =? 0 then Done tt else Panics.
Definition run (gate : option Z) (bind_error : Z -> Z) (names : option Z) (register : Z -> Z -> Z)
    (incoming : list Incoming) : exec (VirtioTransport * list (Z * Utcb)) :=
  gate ← unwrap gate;
  if negb (bind_error gate =? 0) then Panics
  else
    _ ← register_with_ns names register gate;
    run_loop incoming (new 0 8).

(** * Theorems *)

(** The client's view: eight bytes of memory. *)
Definition byte_of (v k : Z) : Z := (v `div` 256 ^ k) `mod` 256.
Definition spec_step (m : Z -> Z) (op off val : Z) : Z * (Z -> Z) :=
  if (op =? 0) || (op =? 1) then (0, m)
  else if op =? 2 then (0, fun i => if (off <=? i) && (i <? off + 4) then byte_of val (i - off) else m i)
  else if op =? 3 then (m off + 256 * (m (off + 1) + 256 * (m (off + 2) + 256 * m (off + 3))), m)
  else (2 ^ 64 - 1, m).
Definition reg (i : nat) (u : Utcb) : Z := default 0 (mr u !! i).
Fixpoint spec_run (m : Z -> Z) (us : list Utcb) : list Z :=
  match us with
  | [] => []
  | u :: us => let '(v, m) := spec_step m (reg 0 u) (reg 1 u) (reg 2 u) in v :: spec_run m us
  end.
(** A request whose offset, if it has one, is inside. *)
Definition inside (u : Utcb) : Prop := reg 0 u = 2 \/ reg 0 u = 3 -> reg 1 u <= 4.

Definition shows (t : VirtioTransport) (m : Z -> Z) : Prop :=
  device_features t = 0 /\ zlen (config t) = 8 /\ forall i, 0 <= i < 8 -> config t !! Z.to_nat i = Some (m i) /\ is_byte (m i).

Lemma lookup_mwrite {A} (m : list A) off bs i : 0 <= off -> off + zlen bs <= zlen m ->
  mwrite m off bs !! i =
  (if (off <=? Z.of_nat i) && (Z.of_nat i <? off + zlen bs) then bs !! (i - Z.to_nat off)%nat else m !! i).
Proof.
  intros Ho Hl. unfold mwrite, zlen in *.
  assert (length (take (Z.to_nat off) m) = Z.to_nat off) as Ht by (rewrite length_take; lia).
  destruct (off <=? Z.of_nat i) eqn:E1; cbn [andb]; zb.
  - rewrite lookup_app_r, Ht by lia. destruct (_ <? _) eqn:E2; zb.
    + by rewrite lookup_app_l by lia.
    + rewrite lookup_app_r, lookup_drop by lia. f_equal. lia.
  - rewrite lookup_app_l by lia. apply lookup_take_lt. lia.
Qed.

Lemma mread4 {A} (l : list A) off a b c d : 0 <= off ->
  l !! Z.to_nat off = Some a -> l !! Z.to_nat (off + 1) = Some b ->
  l !! Z.to_nat (off + 2) = Some c -> l !! Z.to_nat (off + 3) = Some d -> mread l off 4 = [a; b; c; d].
Proof.
  intros Ho Ha Hb Hc Hd. unfold mread. rewrite (drop_S _ _ _ Ha).
  replace (S (Z.to_nat off)) with (Z.to_nat (off + 1)) by lia. rewrite (drop_S _ _ _ Hb).
  replace (S (Z.to_nat (off + 1))) with (Z.to_nat (off + 2)) by lia. rewrite (drop_S _ _ _ Hc).
  replace (S (Z.to_nat (off + 2))) with (Z.to_nat (off + 3)) by lia. by rewrite (drop_S _ _ _ Hd).
Qed.

Lemma low_bytes v : 0 <= v -> take 4 (le_bytes 8 v) = [byte_of v 0; byte_of v 1; byte_of v 2; byte_of v 3].
Proof.
  intros Hv. cbn [le_bytes take]. unfold byte_of. rewrite !Z.div_div by lia. rewrite Z.pow_0_r, Z.div_1_r. done.
Qed.

Lemma config_range_ok off t : zlen (config t) = 8 -> 0 <= off <= 4 -> config_range off 4 t = Done tt.
Proof. intros Hl Ho. unfold config_range. rewrite uadd_small by lia. estep. zif_false. by zif_false. Qed.
(** Outside of the space the access panics, in every build: where the sum wraps,
    its end lies before its start. *)
Lemma config_range_bad off t : zlen (config t) = 8 -> uint 64 off -> 4 < off -> config_range off 4 t = Panics.
Proof.
  intros Hl Ho Hgt. unfold uint in Ho. unfold config_range, uadd. destruct (off + 4 <? 2 ^ 64) eqn:E; zb.
  { estep. by zif_true. }
  destruct overflow_checks; [done|]. estep. rewrite Hl. destruct (8 <? _); [done|].
  assert (wrap 64 (off + 4) = off + 4 - 2 ^ 64) as ->.
  { unfold wrap. symmetry. apply Z.mod_unique with 1; lia. }
  by zif_true.
Qed.

Lemma reg_get u i : utcb_ok u -> (i < 4)%nat -> mr_get u (Z.of_nat i) = Done (reg i u) /\ uint 64 (reg i u).
Proof.
  intros (Hl & Hw & _) Hi. pose proof generic_data_range. unfold zlen in Hl.
  destruct (lookup_lt_is_Some_2 (mr u) i) as [v Hv]; [lia|]. unfold reg. rewrite Hv. cbn.
  split; [apply mr_get_lookup; [by rewrite Nat2Z.id | lia] | by eapply Forall_lookup_1].
Qed.

(** Every arm answers in register 0. *)
Lemma answers (t : VirtioTransport) u v : utcb_ok u -> uint 64 v ->
  exists u', (u ← mr_set 0 v u; Done (t, u)) = Done (t, u') /\ utcb_ok u' /\ mr u' !! 0%nat = Some v.
Proof.
  intros Hu Hv. destruct (mr_set_ok u 0 v) as (u1 & -> & Hu1 & Hm & _); [done | lia | done |]. estep.
  exists u1. split; [done|]. split; [done|]. rewrite Hm. apply list_lookup_insert_eq.
  destruct Hu as (Hl & _). pose proof generic_data_range. unfold zlen in Hl. lia.
Qed.

Lemma dispatch_ok t u m : utcb_ok u -> shows t m -> inside u ->
  exists t' u', dispatch t u = Done (t', u') /\ utcb_ok u'
    /\ shows t' (spec_step m (reg 0 u) (reg 1 u) (reg 2 u)).2
    /\ mr u' !! 0%nat = Some (spec_step m (reg 0 u) (reg 1 u) (reg 2 u)).1.
Proof.
  intros Hu (Hf & Hl & Hm) Hin. unfold dispatch, spec_step.
  destruct (reg_get u 0 Hu ltac:(lia)) as [H0 _], (reg_get u 1 Hu ltac:(lia)) as [H1 Hr1], (reg_get u 2 Hu ltac:(lia)) as [H2 Hr2].
  change (Z.of_nat 0) with 0 in H0. change (Z.of_nat 1) with 1 in H1. change (Z.of_nat 2) with 2 in H2.
  rewrite H0. estep. destruct (reg 0 u =? 0) eqn:E0; cbn [orb].
  { unfold op_features. rewrite Hf. destruct (answers t u 0) as (u' & -> & ? & ?); [done | unfold uint; lia |].
    exists t, u'. by split_and!. }
  destruct (reg 0 u =? 1) eqn:E1.
  { unfold op_negotiate, negotiate_features. rewrite H1. estep. rewrite Hf, Z.land_0_l.
    match goal with |- context [Done (?t', _)] => destruct (answers t' u 0) as (u' & -> & ? & ?); [done | unfold uint; lia |] end.
    eexists _, u'. by split_and!. }
  destruct (reg 0 u =? 2) eqn:E2; zb.
  { unfold op_write, write_config. rewrite H1, H2. estep. unfold uint in *. specialize (Hin (or_introl E2)).
    rewrite low_bytes by lia. set (d := [byte_of _ _; _; _; _]). assert (zlen d = 4) as Hd by done.
    rewrite Hd, config_range_ok by lia. estep.
    match goal with |- context [Done (?t', _)] => destruct (answers t' u 0) as (u' & -> & ? & ?); [done | unfold uint; lia |] end.
    eexists _, u'. split; [done|]. split; [done|]. split; [|done]. split; [done|]. cbn [config].
    split; [rewrite zlen_mwrite; lia|]. intros i Hi.
    rewrite lookup_mwrite by lia. rewrite Z2Nat.id, Hd by lia. cbn [snd].
    destruct ((reg 1 u <=? i) && (i <? reg 1 u + 4)) eqn:E; [|by apply Hm]. zb.
    assert (i = reg 1 u \/ i = reg 1 u + 1 \/ i = reg 1 u + 2 \/ i = reg 1 u + 3) as [-> | [-> | [-> | ->]]] by lia;
      rewrite <- Z2Nat.inj_sub by lia; rewrite ?Z.sub_diag, ?Z.add_simpl_l; (split; [done | apply Z.mod_pos_bound; lia]). }
  destruct (reg 0 u =? 3) eqn:E3; zb.
  { unfold op_read, read_config. rewrite H1. estep. unfold uint in *. specialize (Hin (or_intror E3)).
    rewrite config_range_ok by lia. estep.
    destruct (Hm (reg 1 u)) as [L0 B0], (Hm (reg 1 u + 1)) as [L1 B1], (Hm (reg 1 u + 2)) as [L2 B2], (Hm (reg 1 u + 3)) as [L3 B3]; try lia.
    rewrite (mread4 (config t) (reg 1 u) _ _ _ _ ltac:(lia) L0 L1 L2 L3). cbn [le_num fst snd]. unfold is_byte in *. rewrite Z.mul_0_r, Z.add_0_r.
    match goal with |- context [mr_set 0 ?v u] => destruct (answers t u v) as (u' & -> & ? & ?); [done | unfold uint; lia |] end.
    exists t, u'. by split_and!. }
  destruct (answers t u (2 ^ 64 - 1)) as (u' & -> & ? & ?); [done | unfold uint; lia |].
  exists t, u'. by split_and!.
Qed.

Lemma dispatch_bad t u m : utcb_ok u -> shows t m -> ~ inside u -> dispatch t u = Panics.
Proof.
  intros Hu (Hf & Hl & Hm) Hin.
  destruct (reg_get u 0 Hu ltac:(lia)) as [H0 _], (reg_get u 1 Hu ltac:(lia)) as [H1 Hr1], (reg_get u 2 Hu ltac:(lia)) as [H2 _].
  change (Z.of_nat 0) with 0 in H0. change (Z.of_nat 1) with 1 in H1. change (Z.of_nat 2) with 2 in H2.
  assert ((reg 0 u = 2 \/ reg 0 u = 3) /\ 4 < reg 1 u) as [Hop Hoff] by (unfold inside in Hin; lia).
  unfold dispatch. rewrite H0. estep. destruct Hop as [-> | ->]; cbn [Z.eqb Pos.eqb].
  - unfold op_write, write_config. rewrite H1, H2. estep. change (zlen (take 4 (le_bytes 8 (reg 2 u)))) with 4.
    by rewrite config_range_bad.
  - unfold op_read, read_config. rewrite H1. estep. by rewrite config_range_bad.
Qed.

Lemma run_loop_refines incoming : forall t m, Forall good_incoming incoming -> shows t m ->
  (Forall inside (requests incoming) ->
     exists t' rs, run_loop incoming t = Done (t', rs)
       /\ Forall (fun r => r.1 = l4_msgtag 0 1 0 0 /\ utcb_ok r.2) rs
       /\ (fun r : Z * Utcb => reg 0 r.2) <$> rs = spec_run m (requests incoming))
  /\ (Exists (fun u => ~ inside u) (requests incoming) -> run_loop incoming t = Panics).
Proof.
  induction incoming as [|[|u] rest IH]; intros t m Hg Ht.
  { split; [intros _; by exists t, [] | intros H; inversion H]. }
  all: inversion_clear Hg as [|? ? Hu Hrest]; cbn [requests omap list_omap run_loop].
  { by apply IH. }
  fold (requests rest). split; [intros Hin; inversion_clear Hin as [|? ? Hi Hin'] |].
  - destruct (dispatch_ok t u m Hu Ht Hi) as (t1 & u1 & -> & Hu1 & Ht1 & Hv). estep.
    destruct (IH t1 _ Hrest Ht1) as [Hok _]. destruct (Hok Hin') as (t' & rs & -> & Hrs & Hspec). estep.
    eexists _, _. split; [done|]. split; [by constructor|]. rewrite fmap_cons, Hspec. cbn [spec_run snd].
    unfold reg at 1. rewrite Hv. by destruct (spec_step m (reg 0 u) (reg 1 u) (reg 2 u)).
  - intros Hex. destruct (decide (reg 0 u = 2 \/ reg 0 u = 3)) as [Hop|Hop], (decide (reg 1 u <= 4)) as [Hoff|Hoff].
    2: rewrite (dispatch_bad t u m Hu Ht); [done|]; intros Hi; by apply Hoff, Hi.
    all: destruct (dispatch_ok t u m Hu Ht) as (t1 & u1 & -> & Hu1 & Ht1 & Hv); [by intros ?|]; estep;
      destruct (IH t1 _ Hrest Ht1) as [_ Hbad]; rewrite Hbad; [done|];
      inversion_clear Hex as [? ? Hno|]; [exfalso; apply Hno; by intros ? | done].
Qed.

(** C30: to its clients the driver server is eight bytes of memory: whatever
    requests arrive, as long as their offsets lie inside, it answers each with
    one word - what was last written, little-endian, for a 32-bit read at any
    offset, zero for writes and for both feature operations (its transport offers
    no feature), all bits set for any other operation. A single read or write at
    an offset beyond 4 ends the server with a panic, in every build. *)
Theorem driver_server_refines gate names bind_error register incoming :
  bind_error gate = 0 -> register names gate = 0 -> Forall good_incoming incoming ->
  (Forall inside (requests incoming) ->
     exists t' rs, run (Some gate) bind_error (Some names) register incoming = Done (t', rs)
       /\ Forall (fun r => r.1 = l4_msgtag 0 1 0 0 /\ utcb_ok r.2) rs
       /\ (fun r : Z * Utcb => reg 0 r.2) <$> rs = spec_run (fun _ => 0) (requests incoming))
  /\ (Exists (fun u => ~ inside u) (requests incoming) ->
     run (Some gate) bind_error (Some names) register incoming = Panics).
Proof.
  intros Hb Hr Hg. unfold run, register_with_ns. cbn [unwrap]. estep. rewrite Hb, Hr. cbn [Z.eqb negb]. estep.
  apply run_loop_refines; [done|]. split; [done|]. split; [done|]. intros i Hi. cbn [config new].
  split; [apply lookup_replicate_2; lia | split; lia].
Qed.
End DriverServer.

(** A client writes 0xdeadbeef at offset 2 and reads at 0, 2 and 4; another asks
    for offset 5. *)
Module Concrete.
#[local] Existing Instance l4re_utcb_consts.
#[local] Instance checked_build : Build := {| overflow_checks := true |}.
Definition polite : list Incoming :=
  [Request (mk_utcb [2; 2; 0xdeadbeef]); IpcError; Request (mk_utcb [3; 0]); Request (mk_utcb [3; 2]); Request (mk_utcb [3; 4])].
Definition rude : list Incoming := polite ++ [Request (mk_utcb [3; 5])].

Lemma requests_ok : Forall good_incoming polite /\ Forall good_incoming rude.
Proof. split; repeat (apply Forall_cons_2 || apply Forall_nil_2); try exact I; by apply mk_utcb_ok. Qed.

Lemma driver_server_refines_witness :
  (exists t' rs, run (Some 1) (fun _ => 0) (Some 2) (fun _ _ => 0) polite = Done (t', rs)
     /\ Forall (fun r => r.1 = l4_msgtag 0 1 0 0 /\ utcb_ok r.2) rs
     /\ (fun r : Z * Utcb => reg 0 r.2) <$> rs = [0; 0xbeef0000; 0xdeadbeef; 0xdead])
  /\ run (Some 1) (fun _ => 0) (Some 2) (fun _ _ => 0) rude = Panics.
Proof.
  split.
  - apply (driver_server_refines 1 2 (fun _ => 0) (fun _ _ => 0) polite eq_refl eq_refl (proj1 requests_ok)).
    repeat constructor; unfold inside; cbn; lia.
  - apply (driver_server_refines 1 2 (fun _ => 0) (fun _ _ => 0) rude eq_refl eq_refl (proj2 requests_ok)).
    repeat (right; try (left; unfold inside; cbn; lia)).
Defined.
End Concrete.
End DriverServer.
