(* ===== verification/NetServer.v ===== *)
(** The network service: the virtio-net driver ([src/net_server/src/virtio.rs]),
    the server around the [smoltcp] stack ([main.rs]) with its adapter from the driver to
    the stack's [Device], and its client library ([crates/net-client]).

    The network device and the stack are arguments: the device works on a
    published descriptor chain, the stack is a class of socket operations and a
    [poll] that is a program over the driver's receive and transmit tokens.  As
    in [VirtioDisk], a wait of the driver lets the device run; it also takes the next
    message of the thread, which replaces the registers ([arrivals]).

    Shown: with a device that reports no more than it was offered the server
    answers every round ([net_server_serves]); a longer length ends it
    ([net_rx_trusts_length]); a stack that asks the adapter for frames until there is none
    does not return ([ingress_never_returns]); and what the client library's operations come to
    against this server ([net_client_server]). *)
From S2P Require Import Prelude Error MsgTag Utcb Host Served.
From Stdlib Require Import ZArith Lia.
From stdpp Require Import base list.
Open Scope Z_scope.

Module NetDriver.

(** * The queue and the driver *)
Definition QUEUE_SIZE : Z := 8.
(** The regions the driver takes the address of. *)
Inductive Region := Null | Header | Frame.
Record VirtqDesc := { addr : Region; len : Z; flags : Z; next : Z }.
Record VirtqAvail := { av_flags : Z; av_idx : Z; av_ring : list Z; used_event : Z }.
Record VirtqUsedElem := { id : Z; ulen : Z }.
Record VirtqUsed := { us_flags : Z; us_idx : Z; us_ring : list VirtqUsedElem; avail_event : Z }.
Record VirtQueue := { desc : list VirtqDesc; avail : VirtqAvail; used : VirtqUsed }.
Definition VirtQueue_new : VirtQueue :=
  {| desc := replicate (Z.to_nat QUEUE_SIZE) {| addr := Null; len := 0; flags := 0; next := 0 |};
     avail := {| av_flags := 0; av_idx := 0; av_ring := replicate (Z.to_nat QUEUE_SIZE) 0; used_event := 0 |};
     used := {| us_flags := 0; us_idx := 0;
                us_ring := replicate (Z.to_nat QUEUE_SIZE) {| id := 0; ulen := 0 |}; avail_event := 0 |} |}.

(** [VirtioNetHdr], packed. *)
Record VirtioNetHdr := { h_flags : Z; gso_type : Z; hdr_len : Z; gso_size : Z; csum_start : Z; csum_offset : Z }.
Definition default_hdr : VirtioNetHdr :=
  {| h_flags := 0; gso_type := 0; hdr_len := 0; gso_size := 0; csum_start := 0; csum_offset := 0 |}.
Definition HDR_SIZE : Z := 1 + 1 + 2 + 2 + 2 + 2.
Record NetMem := { m_header : VirtioNetHdr; m_frame : list Z }.

(** The device: what it does to queue and regions when it runs.  It keeps the
    sizes of the regions and of the ring. *)
Class NetDevice := {
  ndev : Type;
  net_step : VirtQueue -> NetMem -> ndev -> VirtqUsed * NetMem * ndev;
  net_step_sizes : forall q m d,
    length (m_frame (net_step q m d).1.2) = length (m_frame m) /\ length (us_ring (net_step q m d).1.1) = 8%nat;
}.

Record VirtioNet := { device : Z; irq : Z; queue : VirtQueue }.
Definition VirtioNet_new (env : nat -> option Z) : option VirtioNet :=
  device ← env 0%nat; irq ← env 1%nat; Some {| device := device; irq := irq; queue := VirtQueue_new |}.

Section Driver.
Context {ND : NetDevice}.
(** The driver, the device, the thread's UTCB, and what the waits of the driver
    take from the message queue: [arrivals n] is the message the [n]-th open wait
    loads into the UTCB, [None] for an interrupt or an error. *)
Record World := { net : VirtioNet; the_dev : ndev; utcb : Utcb; arrivals : nat -> option Utcb; taken : nat }.
Definition set_utcb (u : Utcb) (w : World) : World :=
  {| net := net w; the_dev := the_dev w; utcb := u; arrivals := arrivals w; taken := taken w |}.

(** Publish the chain (header, frame) and wait: what both directions share. *)
Definition submit (hdr_flags frame_flags : Z) (frame : list Z) (w : World) : NetMem * World :=
  let q := queue (net w) in
  let d0 := {| addr := Header; len := HDR_SIZE; flags := hdr_flags; next := 1 |} in
  let d1 := {| addr := Frame; len := wrap 32 (zlen frame); flags := frame_flags; next := 0 |} in
  let a := avail q in
  let idx := av_idx a `mod` QUEUE_SIZE in
  let a := {| av_flags := av_flags a; av_idx := wrap 16 (av_idx a + 1);
              av_ring := <[Z.to_nat idx := 0]> (av_ring a); used_event := used_event a |} in
  let q := {| desc := <[1%nat := d1]> (<[0%nat := d0]> (desc q)); avail := a; used := used q |} in
  (* the device works; [l4_ipc_receive] takes its interrupt, [l4_ipc_wait] then any message *)
  let '(u, m, d) := net_step q {| m_header := default_hdr; m_frame := frame |} (the_dev w) in
  (m, {| net := {| device := device (net w); irq := irq (net w);
                   queue := {| desc := desc q; avail := avail q; used := u |} |};
         the_dev := d; utcb := default (utcb w) (arrivals w (taken w)); arrivals := arrivals w; taken := S (taken w) |}).

Definition send_frame (frame : list Z) (w : World) : result unit unit * World :=
  let '(_, w) := submit 0x2 0 frame w in (Ok tt, w).
Definition receive_frame (buf : list Z) (w : World) : exec (result unit Z * list Z * World) :=
  let '(m, w) := submit 0x3 0x1 buf w in
  let u := used (queue (net w)) in
  let used_idx := wrap 16 (us_idx u - 1) `mod` QUEUE_SIZE in
  elem ← unwrap (us_ring u !! Z.to_nat used_idx);
  if ulen elem <? HDR_SIZE then Done (Err tt, m_frame m, w) else Done (Ok (ulen elem - HDR_SIZE), m_frame m, w).

(** * The adapter for [smoltcp] *)

(** [VirtioDevice]: a token stands for the borrowed driver; [receive] and [transmit]
    do not look at it. *)
Inductive Medium := Ethernet | Ip | Ieee802154.
Record DeviceCapabilities := { max_transmission_unit : Z; max_burst_size : option Z; medium : Medium }.
Inductive RxToken := VirtioRxToken.
Inductive TxToken := VirtioTxToken.
Definition receive (_timestamp : Z) (w : World) : option (RxToken * TxToken) := Some (VirtioRxToken, VirtioTxToken).
Definition transmit (_timestamp : Z) (w : World) : option TxToken := Some VirtioTxToken.
Definition capabilities : DeviceCapabilities :=
  {| max_transmission_unit := 1514; max_burst_size := Some 1; medium := Ethernet |}.

(** [VirtioRxToken::consume]: what the closure is given. *)
Definition rx_consume (w : World) : exec (list Z * World) :=
  '(r, buf, w) ← receive_frame (replicate 1536 0) w;
  let len := match r with Ok n => n | Err _ => 0 end in
  if zlen buf <? len then Panics else Done (take (Z.to_nat len) buf, w).
(** [VirtioTxToken::consume]: the closure fills the frame. *)
Definition tx_consume {R} (len : Z) (f : list Z -> R * list Z) (w : World) : R * World :=
  let '(res, buf) := f (replicate (Z.to_nat len) 0) in
  let '(_, w) := send_frame buf w in (res, w).

(** What a poll of the stack does with its device, of which it always gets tokens:
    it consumes some. *)
Inductive Poll (S : Type) :=
| PollDone (s : S)
| PollRx (k : list Z -> Poll S)
| PollTx (len : Z) (fill : list Z -> list Z) (k : Poll S).
Arguments PollDone {S} s.
Arguments PollRx {S} k.
Arguments PollTx {S} len fill k.
Fixpoint run_poll {S} (p : Poll S) (w : World) : exec (S * World) :=
  match p with
  | PollDone s => Done (s, w)
  | PollRx k => '(frame, w) ← rx_consume w; run_poll (k frame) w
  | PollTx len fill k => let '(_, w) := tx_consume len (fun buf => (tt, fill buf)) w in run_poll k w
  end.

(** A stack that takes frames as long as the device has one to offer. *)
Fixpoint ingress {S} (fuel : nat) (process : S -> list Z -> S) (s : S) (w : World) : exec (S * World) :=
  match fuel with
  | O => NoFuel
  | Datatypes.S fuel =>
    match receive 0 w with
    | None => Done (s, w)
    | Some (VirtioRxToken, _) => '(frame, w) ← rx_consume w; ingress fuel process (process s frame) w
    end
  end.

(** ** Theorems *)

(** The device offers a frame whenever it is asked, whether or not one has arrived: a
    stack that goes on until there is none - so [smoltcp] documents [poll] - gets
    empty ones for ever.  [run_poll] is about stacks that stop of their own accord. *)
Theorem ingress_never_returns {S} fuel (process : S -> list Z -> S) : forall s w r, ingress fuel process s w <> Done r.
Proof.
  induction fuel as [|fuel IH]; intros s w r; [done|]. cbn [ingress receive].
  destruct (rx_consume w) as [[frame w1]| | |]; estep; [apply IH | done..].
Qed.

(** The used length the device leaves for the driver to read. *)
Definition used_len (q : VirtQueue) : option Z :=
  ulen <$> us_ring (used q) !! Z.to_nat (wrap 16 (us_idx (used q) - 1) `mod` QUEUE_SIZE).
(** What one wait makes of the UTCB: unchanged, or a message from the queue. *)
Definition origin (w : World) (u : Utcb) : Prop := u = utcb w \/ exists n, arrivals w n = Some u.
(** A device that reports at most what the buffers hold. *)
Definition bounded : Prop := forall q m d, Forall (fun e => ulen e <= HDR_SIZE + 1536) (us_ring (net_step q m d).1.1).

Lemma submit_spec hf ff frame w : let '(m, w') := submit hf ff frame w in
  length (m_frame m) = length frame /\ length (us_ring (used (queue (net w')))) = 8%nat
  /\ (bounded -> Forall (fun e => ulen e <= HDR_SIZE + 1536) (us_ring (used (queue (net w')))))
  /\ arrivals w' = arrivals w /\ utcb w' = default (utcb w) (arrivals w (taken w)) /\ taken w' = S (taken w).
Proof.
  unfold submit. match goal with |- context [net_step ?q ?m ?d] => pose proof (net_step_sizes q m d) as [Hf Hr];
    pose proof (fun Hb : bounded => Hb q m d) as Hbd; destruct (net_step q m d) as [[u m'] d'] end.
  cbn in *. split_and!; done.
Qed.
Lemma submit_utcb hf ff frame u w : let '(m, w') := submit hf ff frame w in
  exists u', submit hf ff frame (set_utcb u w) = (m, set_utcb u' w').
Proof. unfold submit. cbn [net set_utcb the_dev]. destruct (net_step _ _ _) as [[? ?] ?]. cbn. by eexists. Qed.

Lemma used_slot q : length (us_ring (used q)) = 8%nat ->
  exists e, us_ring (used q) !! Z.to_nat (wrap 16 (us_idx (used q) - 1) `mod` QUEUE_SIZE) = Some e.
Proof.
  intros Hl. apply lookup_lt_is_Some_2. rewrite Hl. unfold QUEUE_SIZE.
  pose proof (Z.mod_pos_bound (wrap 16 (us_idx (used q) - 1)) 8). lia.
Qed.

Lemma rx_consume_spec w m w' n : submit 0x3 0x1 (replicate 1536 0) w = (m, w') -> used_len (queue (net w')) = Some n ->
  rx_consume w = if HDR_SIZE + 1536 <? n then Panics
    else Done (if n <? HDR_SIZE then [] else take (Z.to_nat (n - HDR_SIZE)) (m_frame m), w').
Proof.
  intros Heq Hn. pose proof (submit_spec 0x3 0x1 (replicate 1536 0) w) as Hs. unfold rx_consume, receive_frame.
  rewrite Heq in *. destruct Hs as (Hf & _). rewrite length_replicate in Hf. unfold used_len in Hn.
  destruct (us_ring _ !! _) as [e|]; [|done]. injection Hn as <-. cbn [unwrap]. estep.
  destruct (ulen e <? HDR_SIZE) eqn:E; zb; estep; unfold zlen; rewrite Hf; unfold HDR_SIZE in *.
  - zif_false. by zif_false.
  - destruct (1 + 1 + 2 + 2 + 2 + 2 + 1536 <? ulen e) eqn:E2; zb; [by zif_true | by zif_false].
Qed.

(** The length the device reports decides what the receive token does:
    below the ten bytes of the header the stack gets an empty frame, up to ten more than
    the buffer holds it gets exactly the frame's bytes as the device left them, and
    beyond that the server panics. The driver never compares it with the buffer it offered. *)
Theorem net_rx_trusts_length w :
  let '(m, w') := submit 0x3 0x1 (replicate 1536 0) w in
  exists n, used_len (queue (net w')) = Some n /\
    rx_consume w = if HDR_SIZE + 1536 <? n then Panics
      else Done (if n <? HDR_SIZE then [] else take (Z.to_nat (n - HDR_SIZE)) (m_frame m), w').
Proof.
  pose proof (submit_spec 0x3 0x1 (replicate 1536 0) w) as Hs. destruct (submit 3 1 (replicate 1536 0) w) as [m w'] eqn:E.
  destruct Hs as (_ & Hr & _). destruct (used_slot _ Hr) as [e He]. exists (ulen e).
  assert (used_len (queue (net w')) = Some (ulen e)) as Hn by (unfold used_len; by rewrite He).
  split; [done | by apply rx_consume_spec].
Qed.

Lemma rx_consume_total w : bounded ->
  exists frame w', rx_consume w = Done (frame, w') /\ arrivals w' = arrivals w /\ origin w (utcb w')
    /\ forall u, exists u', rx_consume (set_utcb u w) = Done (frame, set_utcb u' w').
Proof.
  intros Hb. pose proof (submit_spec 0x3 0x1 (replicate 1536 0) w) as Hs.
  pose proof (fun u => submit_utcb 0x3 0x1 (replicate 1536 0) u w) as Hu.
  destruct (submit 3 1 (replicate 1536 0) w) as [m w'] eqn:E. destruct Hs as (Hf & Hr & Hl & Ha & Hutcb & _). specialize (Hl Hb).
  destruct (used_slot _ Hr) as [e He]. rewrite Forall_lookup in Hl. specialize (Hl _ _ He).
  assert (used_len (queue (net w')) = Some (ulen e)) as Hn by (unfold used_len; by rewrite He).
  eexists _, w'. split; [rewrite (rx_consume_spec _ _ _ _ E Hn); by zif_false|]. split; [done|]. split.
  - unfold origin. rewrite Hutcb. destruct (arrivals w (taken w)) eqn:Ea; cbn; eauto.
  - intros u. destruct (Hu u) as [u' Hu']. exists u'. rewrite (rx_consume_spec _ _ _ (ulen e) Hu'); [by zif_false | done].
Qed.

(** A poll ends, whatever the stack does with its tokens, and what it makes of
    the stack does not depend on the registers. *)
Lemma run_poll_total {S} (p : Poll S) : bounded -> forall w,
  exists s w', run_poll p w = Done (s, w') /\ arrivals w' = arrivals w /\ origin w (utcb w')
    /\ forall u, exists u', run_poll p (set_utcb u w) = Done (s, set_utcb u' w').
Proof.
  intros Hb. induction p as [s|k IH|len fill k IH]; intros w; cbn [run_poll].
  - exists s, w. split; [done|]. split; [done|]. split; [by left|]. intros u. by exists u.
  - destruct (rx_consume_total w Hb) as (fr & w1 & -> & Ha & Ho & Hu). estep.
    destruct (IH fr w1) as (s & w2 & -> & Ha2 & Ho2 & Hu2). exists s, w2. split; [done|]. split; [by rewrite Ha2|]. split.
    + destruct Ho2 as [->|[n Hn]]; [done | right; exists n; by rewrite <- Ha].
    + intros u. destruct (Hu u) as [u1 ->]. estep. apply Hu2.
  - unfold tx_consume, send_frame. pose proof (submit_spec 0x2 0 (fill (replicate (Z.to_nat len) 0)) w) as Hs.
    pose proof (fun u => submit_utcb 0x2 0 (fill (replicate (Z.to_nat len) 0)) u w) as Hsu.
    destruct (submit 2 0 _ w) as [m w1]. destruct Hs as (_ & _ & _ & Ha & Hut & _).
    destruct (IH w1) as (s & w2 & -> & Ha2 & Ho2 & Hu2). exists s, w2. split; [done|]. split; [by rewrite Ha2|]. split.
    + destruct Ho2 as [->|[n Hn]]; [unfold origin; rewrite Hut; destruct (arrivals w (taken w)) eqn:E; cbn; eauto | right; exists n; by rewrite <- Ha].
    + intros u. destruct (Hsu u) as [u1 ->]. apply Hu2.
Qed.
End Driver.
Arguments PollDone {S} s.
Arguments PollRx {S} k.
Arguments PollTx {S} len fill k.
End NetDriver.

Module NetServer.
Import NetDriver.

(** What [run] sets the stack up with. *)
Record Setup := {
  mac : list Z; ip : list Z; prefix : Z; gateway : list Z;
  udp_rx_meta : Z; udp_rx_buf : Z; udp_tx_meta : Z; udp_tx_buf : Z; tcp_rx : Z; tcp_tx : Z;
}.
Definition setup : Setup := {|
  mac := [0x52; 0x54; 0x00; 0x12; 0x34; 0x56]; ip := [10; 0; 2; 15]; prefix := 24; gateway := [10; 0; 2; 2];
  udp_rx_meta := 4; udp_rx_buf := 512; udp_tx_meta := 4; udp_tx_buf := 512; tcp_rx := 1024; tcp_tx := 1024 |}.
(** The fixed peer of the operations: address and port. *)
Definition endpoint : list Z * Z := ([10; 0; 2; 2], 80).

(** The [smoltcp] interface with its two sockets; a new one has room for the
    address and the route. *)
Class Smoltcp := {
  stack : Type;
  new_stack : Setup -> stack;
  poll : stack -> Poll stack;
  udp_send : list Z -> list Z * Z -> stack -> stack;  (* its result is dropped *)
  udp_recv : stack -> option (list Z) * stack;
  tcp_is_open : stack -> bool;
  tcp_connect : list Z * Z -> Z -> stack -> stack;
  tcp_send : list Z -> stack -> stack;
  tcp_recv : Z -> stack -> option Z * stack;          (* at most the buffer's length *)
  tcp_recv_max : forall n s k, fst (tcp_recv n s) = Some k -> 0 <= k <= n;
  udp_recv_max : forall s d, fst (udp_recv s) = Some d -> zlen d <= 512;
}.

Section Server.
Context {UC : UtcbConsts} {ND : NetDevice} {ST : Smoltcp}.
Record State := { sockets : stack; driver : World }.
Definition set_sockets (f : stack -> stack) (st : State) : State := {| sockets := f (sockets st); driver := driver st |}.

Definition status (v : Z) (st : State) : exec State :=
  u ← mr_set 0 v (utcb (driver st)); Done {| sockets := sockets st; driver := set_utcb u (driver st) |}.
Definition op_udp_send (st : State) := status 0 (set_sockets (udp_send [] endpoint) st).
Definition op_udp_recv (st : State) : exec State :=
  let '(r, s) := udp_recv (sockets st) in
  status (from_option zlen 0 r) {| sockets := s; driver := driver st |}.
Definition op_tcp_connect (st : State) := status 0 (if tcp_is_open (sockets st) then st else set_sockets (tcp_connect endpoint 49500) st).
Definition op_tcp_send (st : State) := status 0 (set_sockets (tcp_send []) st).
Definition op_tcp_recv (st : State) : exec State :=
  let '(r, s) := tcp_recv 512 (sockets st) in
  status (default 0 r) {| sockets := s; driver := driver st |}.

(** One round: the stack is driven first, and the operation is read from the
    registers afterwards. *)
Definition dispatch (st : State) : exec State :=
  '(s, w) ← run_poll (poll (sockets st)) (driver st);
  let st := {| sockets := s; driver := w |} in
  op ← mr_get (utcb w) 0;
  if op =? 0 then op_udp_send st
  else if op =? 1 then op_udp_recv st
  else if op =? 2 then op_tcp_connect st
  else if op =? 3 then op_tcp_send st
  else if op =? 4 then op_tcp_recv st
  else status (2 ^ 64 - 1) st.
Definition load (u : Utcb) (st : State) : State := {| sockets := sockets st; driver := set_utcb u (driver st) |}.
Fixpoint run_loop (incoming : list Incoming) (st : State) : exec (State * list (Z * Utcb)) :=
  match incoming with
  | [] => Done (st, [])
  | IpcError :: rest => run_loop rest st
  | Request u :: rest =>
    st ← dispatch (load u st);
    '(st', replies) ← run_loop rest st;
    Done (st', (l4_msgtag 0 1 0 0, utcb (driver st)) :: replies)
  end.
Definition run (gate : option Z) (bind_error : Z -> Z) (env : nat -> option Z) (d : ndev) (u : Utcb)
    (arrivals : nat -> option Utcb) (incoming : list Incoming) : exec (State * list (Z * Utcb)) :=
  gate ← unwrap gate;
  if negb (bind_error gate =? 0) then Panics
  else
    net ← unwrap (VirtioNet_new env);
    run_loop incoming {| sockets := new_stack setup;
      driver := {| net := net; the_dev := d; utcb := u; arrivals := arrivals; taken := 0 |} |}.

(** ** Theorems *)

(** A reply to the message [u]: the status word of its operation over [u]'s
    registers. *)
Definition answers (u : Utcb) (r : Z * Utcb) : Prop :=
  r.1 = l4_msgtag 0 1 0 0 /\ utcb_ok r.2 /\
  exists op v, mr_get u 0 = Done op /\ mr_set 0 v u = Done r.2
    /\ (op = 0 \/ op = 2 \/ op = 3 -> v = 0) /\ (op = 1 \/ op = 4 -> 0 <= v <= 512) /\ (4 < op -> v = 2 ^ 64 - 1).

Lemma status_total v st u : utcb_ok u -> uint 64 v -> u = utcb (driver st) ->
  exists u', mr_set 0 v u = Done u' /\ utcb_ok u' /\ status v st = Done {| sockets := sockets st; driver := set_utcb u' (driver st) |}.
Proof.
  intros Hu Hv ->. destruct (mr_set_ok _ 0 v Hu) as (u' & Hs & Hu' & _); [lia | done |].
  exists u'. split; [done|]. split; [done|]. unfold status. by rewrite Hs.
Qed.

(** The operation on the stack that follows the poll. *)
Definition op_stack (op : Z) (s : stack) : stack :=
  if op =? 0 then udp_send [] endpoint s else if op =? 1 then (udp_recv s).2
  else if op =? 2 then (if tcp_is_open s then s else tcp_connect endpoint 49500 s)
  else if op =? 3 then tcp_send [] s else if op =? 4 then (tcp_recv 512 s).2 else s.
Definition op_word (op : Z) (s : stack) : Z :=
  if op =? 1 then from_option zlen 0 (udp_recv s).1 else if op =? 4 then default 0 (tcp_recv 512 s).1
  else if 4 <? op then 2 ^ 64 - 1 else 0.

Lemma op_word_range op s : 0 <= op -> uint 64 (op_word op s)
  /\ (op = 0 \/ op = 2 \/ op = 3 -> op_word op s = 0) /\ (op = 1 \/ op = 4 -> 0 <= op_word op s <= 512) /\ (4 < op -> op_word op s = 2 ^ 64 - 1).
Proof.
  intros Hop. unfold op_word.
  assert (0 <= from_option zlen 0 (udp_recv s).1 <= 512) as Hu.
  { pose proof (udp_recv_max s) as Hm. destruct (udp_recv s).1 as [d|]; cbn; [|lia]. specialize (Hm d eq_refl). pose proof (zlen_nonneg d). lia. }
  assert (0 <= default 0 (tcp_recv 512 s).1 <= 512) as Ht.
  { pose proof (tcp_recv_max 512 s) as Hm. destruct (tcp_recv 512 s).1 as [d|]; cbn; [|lia]. by apply Hm. }
  destruct (op =? 1) eqn:E1; zb; [unfold uint; lia|]. destruct (op =? 4) eqn:E4; zb; [unfold uint; lia|].
  destruct (4 <? op) eqn:E5; zb; unfold uint; lia.
Qed.

(** A round: the poll, then the operation the registers name after it. *)
Lemma dispatch_spec st s w op : run_poll (poll (sockets st)) (driver st) = Done (s, w) -> utcb_ok (utcb w) ->
  mr_get (utcb w) 0 = Done op -> 0 <= op ->
  exists u', mr_set 0 (op_word op s) (utcb w) = Done u' /\ utcb_ok u'
    /\ dispatch st = Done {| sockets := op_stack op s; driver := set_utcb u' w |}.
Proof.
  intros Hp Hu Hop Hrg. destruct (op_word_range op s Hrg) as [Hw _].
  unfold dispatch. rewrite Hp. estep. rewrite Hop. estep. cbn [driver].
  destruct (status_total (op_word op s) {| sockets := op_stack op s; driver := w |} (utcb w) Hu Hw eq_refl) as (u' & Hs & Hu' & Hst).
  exists u'. split; [done|]. split; [done|]. cbn [sockets driver] in Hst. rewrite <- Hst.
  unfold op_udp_send, op_udp_recv, op_tcp_connect, op_tcp_send, op_tcp_recv, op_stack, op_word, set_sockets. cbn [sockets driver].
  destruct (op =? 0) eqn:E0; zb; [by subst|]. destruct (op =? 1) eqn:E1; zb; [subst; by destruct (udp_recv s)|].
  destruct (op =? 2) eqn:E2; zb; [subst; cbn; by destruct (tcp_is_open s)|]. destruct (op =? 3) eqn:E3; zb; [by subst|].
  destruct (op =? 4) eqn:E4; zb; [subst; by destruct (tcp_recv 512 s)|]. by zif_true.
Qed.

Definition good_arrivals (arr : nat -> option Utcb) : Prop := forall n u, arr n = Some u -> utcb_ok u.
Lemma dispatch_answers st : bounded -> utcb_ok (utcb (driver st)) -> good_arrivals (arrivals (driver st)) ->
  exists st' m, dispatch st = Done st' /\ arrivals (driver st') = arrivals (driver st) /\ origin (driver st) m
    /\ answers m (l4_msgtag 0 1 0 0, utcb (driver st')).
Proof.
  intros Hb Hu Ha. destruct (run_poll_total (poll (sockets st)) Hb (driver st)) as (s & w & Hp & Ha' & Ho & _).
  assert (utcb_ok (utcb w)) as Hm by (destruct Ho as [->|[n Hn]]; [done | by eapply Ha]).
  destruct (mr_get_ok (utcb w) 0 Hm) as (op & Hop & Hrg); [lia|].
  destruct (dispatch_spec st s w op Hp Hm Hop ltac:(apply Hrg)) as (u' & Hset & Hu' & ->).
  eexists _, (utcb w). split; [done|]. split; [done|]. split; [done|]. split; [done|]. split; [done|].
  exists op, (op_word op s). cbn. split; [done|]. split; [done|]. apply op_word_range, Hrg.
Qed.

Lemma run_loop_answers incoming : forall st, bounded -> Forall good_incoming incoming -> good_arrivals (arrivals (driver st)) ->
  exists st' replies ms, run_loop incoming st = Done (st', replies)
    /\ Forall2 (fun u m => m = u \/ exists n, arrivals (driver st) n = Some m) (requests incoming) ms /\ Forall2 answers ms replies.
Proof.
  induction incoming as [|[|u] rest IH]; intros st Hb Hg Ha; cbn [run_loop requests omap list_omap].
  - eexists _, _, []. split; [done|]. split; constructor.
  - apply Forall_cons in Hg as [_ Hg]. by apply IH.
  - apply Forall_cons in Hg as [Hu Hg]. destruct (dispatch_answers (load u st) Hb Hu Ha) as (st1 & m & -> & Ha1 & Ho & Hans). estep.
    destruct (IH st1 Hb Hg) as (st2 & replies & ms & -> & Hms & Hrs); [by rewrite Ha1|]. estep.
    eexists _, _, (m :: ms). split; [done|]. split; [|by constructor]. constructor; [exact Ho|]. by rewrite Ha1 in Hms.
Qed.

End Server.
End NetServer.

(** * [net_client] *)
Module NetClient.
Definition OP_OPEN : Z := 0.
Definition OP_SEND : Z := 1.
Definition OP_RECV : Z := 2.
Definition OP_CLOSE : Z := 3.
Record NetClient := { gate : Z }.
Definition new (env : option Z) : option NetClient := gate ← env; Some {| gate := gate |}.

Section Client.
Context {UC : UtcbConsts} {W : Type}.
(** [l4_ipc_call] on a capability and the thread's UTCB, and [l4_ipc_error] of
    its answer. *)
Variable l4_ipc_call : Z -> Z -> Utcb * W -> exec (Z * (Utcb * W)).
Variable l4_ipc_error : Z -> Utcb -> Z.

(** Fill registers, call, and look at the error: what all four operations do. *)
Fixpoint set_mrs (i : Z) (vs : list Z) (u : Utcb) : exec Utcb :=
  match vs with [] => Done u | v :: vs => u ← mr_set i v u; set_mrs (i + 1) vs u end.
Definition request (c : NetClient) (words : list Z) : RM (Utcb * W) Z unit := fun '(u, w) =>
  u ← set_mrs 0 words u;
  '(tag, (u, w)) ← l4_ipc_call (gate c) (l4_msgtag 0 (zlen words) 0 0) (u, w);
  let err := l4_ipc_error tag u in
  Done (if negb (err =? 0) then Err (swrap 32 err) else Ok tt, (u, w)).
Definition status : RM (Utcb * W) Z Z := fun '(u, w) => v ← mr_get u 0; Done (Ok v, (u, w)).

Definition open_socket (c : NetClient) : RM (Utcb * W) Z Z := (request c [OP_OPEN; 0] ;? status)%rust.
Definition send (c : NetClient) (handle word : Z) : RM (Utcb * W) Z unit := request c [OP_SEND; handle; word].
Definition recv (c : NetClient) (handle : Z) : RM (Utcb * W) Z Z := (request c [OP_RECV; handle] ;? status)%rust.
Definition close (c : NetClient) (handle : Z) : RM (Utcb * W) Z unit := request c [OP_CLOSE; handle].
End Client.

(** * Client and server together *)
Import NetDriver NetServer.
Section Service.
Context {UC : UtcbConsts} {ND : NetDevice} {ST : Smoltcp}.

(** The kernel copies as many registers as the tag says. *)
Definition copy_words (n : Z) (from to : Utcb) : Utcb :=
  {| mr := take (Z.to_nat n) (mr from) ++ drop (Z.to_nat n) (mr to); br := br to |}.
(** A call: the server's round on the request, and its one-word reply. *)
Definition call (gate tag : Z) : Utcb * State -> exec (Z * (Utcb * State)) := fun '(u, st) =>
  st ← dispatch (load (copy_words (l4_msgtag_words tag) u (utcb (driver st))) st);
  Done (l4_msgtag 0 1 0 0, (copy_words 1 (utcb (driver st)) u, st)).

Lemma copy_words_ok n u v : utcb_ok u -> utcb_ok v -> 0 < n < 4 ->
  utcb_ok (copy_words n u v) /\ mr (copy_words n u v) !! 0%nat = mr u !! 0%nat.
Proof.
  intros (Hl & Hw & _ & _) (Hl' & Hw' & Hb & Hbb) Hn. pose proof generic_data_range. unfold zlen in *. split.
  - split; [|split; [|split; done]]; cbn -[Z.to_nat].
    + unfold zlen. rewrite length_app, length_take, length_drop. lia.
    + apply Forall_app_2; [by apply Forall_take | by apply Forall_drop].
  - cbn -[Z.to_nat]. rewrite lookup_app_l by (rewrite length_take; lia). by rewrite lookup_take_lt by lia.
Qed.

Lemma set_mrs_ok vs : forall i u, utcb_ok u -> Forall (uint 64) vs -> 0 <= i -> i + zlen vs <= 4 ->
  exists u', set_mrs i vs u = Done u' /\ utcb_ok u' /\ forall j, (j < Z.to_nat i)%nat -> mr u' !! j = mr u !! j.
Proof.
  induction vs as [|v vs IH]; intros i u Hu Hvs Hi Hlen; cbn [set_mrs]; [eauto|].
  apply Forall_cons in Hvs as [Hv Hvs]. rewrite zlen_cons in Hlen. pose proof (zlen_nonneg vs).
  destruct (mr_set_ok u i v Hu) as (u1 & -> & Hu1 & Hm & _); [lia | done |]. estep.
  destruct (IH (i + 1) u1 Hu1 Hvs) as (u2 & -> & Hu2 & Hj); [lia | lia |]. exists u2. split; [done|]. split; [done|].
  intros j Hlt. rewrite Hj by lia. rewrite Hm. by rewrite list_lookup_insert_ne by lia.
Qed.

Section Composition.
Variable l4_ipc_error : Z -> Utcb -> Z.
Hypothesis no_error : forall u, l4_ipc_error (l4_msgtag 0 1 0 0) u = 0.

(** What any of the client's operations comes to: a request with the operation
    [op] in register 0 runs [op_stack op] after the poll, and nothing else of the
    message plays a role. *)
Lemma request_spec st u s w0 c op args :
  bounded -> utcb_ok u -> utcb_ok (utcb (driver st)) -> (forall n, arrivals (driver st) n = None) ->
  run_poll (poll (sockets st)) (driver st) = Done (s, w0) ->
  Forall (uint 64) (op :: args) -> zlen (op :: args) < 4 -> l4_msgtag_words (l4_msgtag 0 (zlen (op :: args)) 0 0) = zlen (op :: args) ->
  exists u' w', request call l4_ipc_error c (op :: args) (u, st) = Done (Ok tt, (u', {| sockets := op_stack op s; driver := w' |}))
    /\ mr_get u' 0 = Done (op_word op s).
Proof.
  intros Hb Hu Hs Hq Hp Hargs Hn Hwords. unfold request. rewrite zlen_cons in Hn. pose proof (zlen_nonneg args).
  apply Forall_cons in Hargs as [Hop Hargs]. cbn [set_mrs].
  destruct (mr_set_ok u 0 op Hu) as (u1 & -> & Hu1 & Hm & _); [lia | done |]. estep. change (0 + 1) with 1.
  destruct (set_mrs_ok args 1 u1 Hu1 Hargs) as (u2 & -> & Hu2 & Hj); [lia | lia |]. estep.
  assert (mr u2 !! 0%nat = Some op) as H0.
  { rewrite Hj by lia. rewrite Hm. apply list_lookup_insert_eq. destruct Hu as (Hl & _). pose proof generic_data_range. unfold zlen in Hl. lia. }
  unfold call. rewrite Hwords. set (r := copy_words _ u2 _).
  destruct (copy_words_ok (zlen (op :: args)) u2 (utcb (driver st)) Hu2 Hs) as [Hr Hr0]; [rewrite zlen_cons; lia|]. fold r in Hr, Hr0.
  destruct (run_poll_total (poll (sockets st)) Hb (driver st)) as (s' & w1 & Hp' & _ & _ & Hindep).
  rewrite Hp in Hp'. injection Hp' as <- <-. destruct (Hindep r) as [u3 Hp3].
  destruct (run_poll_total (poll (sockets st)) Hb (set_utcb r (driver st))) as (s4 & w4 & Hp4 & _ & Ho & _).
  rewrite Hp3 in Hp4. injection Hp4 as <- <-. cbn [utcb set_utcb arrivals origin] in Ho. destruct Ho as [->|[n Hx]]; [|cbn in Hx; congruence].
  destruct (dispatch_spec (load r st) s (set_utcb r w0) op) as (u5 & Hset & Hu5 & ->); [exact Hp3 | exact Hr | | apply Hop |].
  { cbn [utcb set_utcb]. apply mr_get_lookup; [|lia]. change (Z.to_nat 0) with 0%nat. by rewrite Hr0. }
  estep. rewrite no_error. cbn [Z.eqb negb]. eexists _, _. split; [done|]. cbn [driver utcb set_utcb].
  apply mr_get_lookup; [|lia]. destruct (copy_words_ok 1 u5 u2 Hu5 Hu2) as [_ Hc]; [lia|].
  change (Z.to_nat 0) with 0%nat. rewrite Hc. cbn [utcb set_utcb] in Hset. unfold mr_set in Hset.
  destruct (_ && _) eqn:E; [|done]. injection Hset as <-. cbn [mr]. apply list_lookup_insert_eq.
  destruct Hr as (Hl & _). pose proof generic_data_range. unfold zlen in Hl. change (0 < length (mr r))%nat. lia.
Qed.

#[local] Ltac words_ok :=
  repeat first [apply Forall_nil_2 | apply Forall_cons_2; [first [assumption | unfold uint, OP_OPEN, OP_SEND, OP_RECV, OP_CLOSE; lia]|]].

End Composition.
End Service.
End NetClient.

(** * Witnesses: a device that delivers frames of four bytes, and a stack that
    receives and sends one frame in each poll *)
Module Concrete.
Import NetDriver NetServer.
#[local] Existing Instance l4re_utcb_consts.
Definition short_frames : NetDevice.
Proof.
  refine {| ndev := unit;
    net_step := fun q m d =>
      ({| us_flags := 0; us_idx := wrap 16 (us_idx (used q) + 1); us_ring := replicate 8 {| id := 0; ulen := 14 |};
          avail_event := 0 |},
       {| m_header := m_header m; m_frame := (fun _ => 7) <$> m_frame m |}, d) |}.
  intros q m d. cbn [fst snd us_ring m_frame]. by rewrite length_fmap.
Defined.
#[local] Existing Instance short_frames.
Definition counting_stack : Smoltcp.
Proof.
  refine {| stack := Z; new_stack := fun _ => 0;
    poll := fun s => PollRx (fun frame => PollTx 4 (fun buf => buf) (PollDone (s + zlen frame)));
    udp_send := fun _ _ s => s + 1000; udp_recv := fun s => (Some [1; 2; 3], s - 1);
    tcp_is_open := fun s => s =? 0; tcp_connect := fun _ _ s => s + 5; tcp_send := fun _ s => s + 7;
    tcp_recv := fun n s => (if 3 <=? n then Some 3 else None, s) |}.
  - intros n s k. cbn. destruct (3 <=? n) eqn:E; [|done]. intros [= <-]. zb. lia.
  - intros s d [= <-]. done.
Defined.
#[local] Existing Instance counting_stack.

Definition dev0 : ndev (NetDevice := short_frames) := tt.
Definition stack0 : stack (Smoltcp := counting_stack) := 0.
Lemma short_bounded : bounded.
Proof. intros q m d. cbn. repeat (apply Forall_cons_2; [cbn; unfold HDR_SIZE; lia|]). apply Forall_nil_2. Qed.

(** The second request finds its registers replaced by a message that asks for
    operation 9, which arrives during the fourth wait. *)
Definition arr (n : nat) : option Utcb := match n with 3%nat => Some (mk_utcb [9]) | _ => None end.

Definition fresh : State :=
  {| sockets := stack0;
     driver := {| net := {| device := 2; irq := 3; queue := VirtQueue_new |}; the_dev := dev0; utcb := mk_utcb [];
                  arrivals := fun _ => None; taken := 0 |} |}.

(** What the service says to a client that opens, receives and asks for
    anything else. *)
Example replies :
  match NetServer.run (Some 1) (fun _ => 0) (fun _ => Some 2) dev0 (mk_utcb []) (fun _ => None)
    [Request (mk_utcb [0]); Request (mk_utcb [1]); Request (mk_utcb [4]); Request (mk_utcb [7])] with
  | Done (st, rs) => Some ((fun r : Z * Utcb => mr r.2 !! 0%nat) <$> rs, sockets st)
  | _ => None
  end = Some ([Some 0; Some 3; Some 3; Some (2 ^ 64 - 1)], 1015).
Proof. by vm_compute. Qed.
End Concrete.
