(* ===== verification/DriverClient.v ===== *)
(** The example client [src/examples/driver_client/src/main.rs], and its run against
    the driver server of [VirtioFrontend].

    Shown: the client prints the transport's features and the negotiated ones,
    which the server's transport then has ([driver_client_prints]). *)
From S2P Require Import Prelude Error MsgTag Utcb Host Served VirtioFrontend NetServer.
From Stdlib Require Import ZArith Lia.
From stdpp Require Import base list.
Open Scope Z_scope.

Module DriverClient.
Import VirtioFrontend.Frontend VirtioFrontend.DriverServer.
(** What it prints. *)
Inductive Line := DeviceFeatures (features : Z) | QueryError | NegotiatedFeatures (features : Z) | NegotiationError.

Section Client.
Context {UC : UtcbConsts} {W : Type}.
Variable l4_ipc_call : Z -> Z -> Utcb * W -> exec (Z * (Utcb * W)).
Variable l4_ipc_error : Z -> Utcb -> Z.

(** A call on the filled registers, and the line for its outcome. *)
Definition query (gate words : Z) (ok : Z -> Line) (error : Line) (uw : Utcb * W) : exec (Line * (Utcb * W)) :=
  '(tag, (u, w)) ← l4_ipc_call gate (l4_msgtag 0 words 0 0) uw;
  if l4_ipc_error tag u =? 0 then v ← mr_get u 0; Done (ok v, (u, w)) else Done (error, (u, w)).
Definition main (gate : option Z) : Utcb * W -> exec (list Line * (Utcb * W)) := fun '(u, w) =>
  gate ← unwrap gate;
  u ← mr_set 0 0 u;
  '(line1, (u, w)) ← query gate 1 DeviceFeatures QueryError (u, w);
  u ← mr_set 0 1 u; u ← mr_set 1 1 u;
  '(line2, (u, w)) ← query gate 2 NegotiatedFeatures NegotiationError (u, w);
  Done ([line1; line2], (u, w)).
End Client.

(** * Client and server together *)
Section Service.
Context {UC : UtcbConsts} {B : Build}.
Import NetServer.NetClient.
(** A call: the server's round on the registers the tag announces, and its
    one-word reply. *)
Definition call (gate tag : Z) : Utcb * (VirtioTransport * Utcb) -> exec (Z * (Utcb * (VirtioTransport * Utcb))) :=
  fun '(u, (t, su)) =>
  '(t, su) ← dispatch t (copy_words (l4_msgtag_words tag) u su);
  Done (l4_msgtag 0 1 0 0, (copy_words 1 su u, (t, su))).

Variable l4_ipc_error : Z -> Utcb -> Z.
Hypothesis no_error : forall u, l4_ipc_error (l4_msgtag 0 1 0 0) u = 0.

Lemma copy_words_get n u v i : utcb_ok u -> utcb_ok v -> 0 <= i < n -> n < 4 -> mr_get (copy_words n u v) i = mr_get u i.
Proof.
  intros Hu Hv Hi Hn. destruct (mr_get_ok u i) as (x & Hx & _); [done | lia|]. rewrite Hx. apply mr_get_lookup; [|lia].
  unfold mr_get in Hx. destruct (_ && _) eqn:E; [|done]. destruct (mr u !! Z.to_nat i) eqn:El; [|done]. cbn in Hx. simplify_eq.
  pose proof (lookup_lt_Some _ _ _ El). cbn -[Z.to_nat]. rewrite lookup_app_l by (rewrite length_take; lia). by rewrite lookup_take_lt by lia.
Qed.
Lemma set_get u i v u' : mr_set i v u = Done u' -> mr_get u' i = Done v /\ forall j, 0 <= j -> j <> i -> mr_get u' j = mr_get u j.
Proof.
  unfold mr_set. destruct (_ && _) eqn:E; [|done]. intros [= <-]. zb. unfold mr_get, zlen in *. cbn [mr]. rewrite length_insert.
  split; [do 2 zif_true; by rewrite list_lookup_insert_eq by lia|]. intros j Hj Hne. by rewrite list_lookup_insert_ne by lia.
Qed.

(** A query answered with [v]. *)
Lemma query_answered gate n ok error u t su t' su' v : utcb_ok u -> utcb_ok su' ->
  dispatch t (copy_words (l4_msgtag_words (l4_msgtag 0 n 0 0)) u su) = Done (t', su') -> mr_get su' 0 = Done v ->
  exists u', query call l4_ipc_error gate n ok error (u, (t, su)) = Done (ok v, (u', (t', su'))) /\ utcb_ok u'.
Proof using no_error.
  intros Hu Hs Hd Hv. destruct (copy_words_ok 1 su' u Hs Hu) as [Hc _]; [lia|].
  eexists. unfold query, call. rewrite Hd. estep. rewrite no_error. cbn [Z.eqb]. rewrite copy_words_get by (done || lia).
  rewrite Hv. estep. by split.
Qed.

(** The client's two questions get the transport's features and those of
    them the driver supports, which the transport keeps. *)
Theorem driver_client_prints gate u t su : utcb_ok u -> utcb_ok su -> uint 64 (device_features t) ->
  exists u' t' su', main call l4_ipc_error (Some gate) (u, (t, su))
    = Done ([DeviceFeatures (device_features t); NegotiatedFeatures (Z.land (device_features t) 1)], (u', (t', su')))
    /\ device_features t' = device_features t /\ driver_features t' = Z.land (device_features t) 1 /\ config t' = config t.
Proof using no_error.
  intros Hu Hs Hf. unfold main. cbn [unwrap]. estep.
  destruct (mr_set_ok u 0 0 Hu) as (u1 & E1 & Hu1 & _); [lia | unfold uint; lia|]. rewrite E1. estep.
  change (l4_msgtag_words (l4_msgtag 0 1 0 0)) with 1. destruct (copy_words_ok 1 u1 su Hu1 Hs) as [Hr1 _]; [lia|].
  destruct (mr_set_ok (copy_words 1 u1 su) 0 (device_features t) Hr1) as (s1 & Es1 & Hs1 & _); [lia | done|].
  destruct (query_answered gate 1 DeviceFeatures QueryError u1 t su t s1 (device_features t) Hu1 Hs1) as (u2 & -> & Hu2).
  { change (l4_msgtag_words (l4_msgtag 0 1 0 0)) with 1. unfold dispatch. rewrite copy_words_get by (done || lia).
    destruct (set_get _ _ _ _ E1) as [-> _]. estep. cbn [Z.eqb]. unfold op_features. by rewrite Es1. }
  { by apply (set_get _ _ _ _ Es1). }
  estep. destruct (mr_set_ok u2 0 1 Hu2) as (u3 & E3 & Hu3 & _); [lia | unfold uint; lia|]. rewrite E3. estep.
  destruct (mr_set_ok u3 1 1 Hu3) as (u4 & E4 & Hu4 & _); [lia | unfold uint; lia|]. rewrite E4. estep.
  destruct (copy_words_ok 2 u4 s1 Hu4 Hs1) as [Hr2 _]; [lia|].
  assert (uint 64 (Z.land (device_features t) 1)) as Hn.
  { change 1 with (Z.ones 1). rewrite Z.land_ones by lia. pose proof (Z.mod_pos_bound (device_features t) (2 ^ 1)). unfold uint. lia. }
  destruct (mr_set_ok (copy_words 2 u4 s1) 0 _ Hr2 ltac:(lia) Hn) as (s2 & Es2 & Hs2 & _).
  destruct (query_answered gate 2 NegotiatedFeatures NegotiationError u4 t s1
    (negotiate_features 1 t).2 s2 (Z.land (device_features t) 1) Hu4 Hs2) as (u5 & -> & _).
  { change (l4_msgtag_words (l4_msgtag 0 2 0 0)) with 2. unfold dispatch, op_negotiate. rewrite !copy_words_get by (done || lia).
    destruct (set_get _ _ _ _ E4) as [-> H0]. rewrite H0 by lia. destruct (set_get _ _ _ _ E3) as [-> _]. estep.
    cbn [Z.eqb Pos.eqb]. cbn. by rewrite Es2. }
  { by apply (set_get _ _ _ _ Es2). }
  estep. eexists _, _, _. split; [reflexivity|]. done.
Qed.
End Service.
End DriverClient.
