(* ===== verification/FdServer.v ===== *)
(** [src/src/fd_server/src/main.rs]: the server that gives L4 clients eventfds,
    timerfds, signalfds and inotify instances of the underlying Linux.

    A request is an operation code and arguments in message registers 0 to 3 with
    an optional payload behind a length word in the buffer registers; the answer
    is a status in register 0 (negative [errno] as an unsigned word on failure).
    Clients hold slab keys; the descriptors stay in the server.  Each
    [handle_*] is a function of one table, the kernel state and the UTCB;
    [dispatch] is the [match] of the loop and [run_loop] the loop itself over
    what the kernel delivers.

    Shown: over any sequence of requests the server neither panics nor touches
    memory outside the UTCB, every open descriptor is held under exactly one
    handle of one table ([fd_server_owns]), and a handle keeps denoting its
    descriptor until its own close request ([fd_server_handle_stable]). *)
From S2P Require Import Prelude Error Utcb MsgTag Host Served.
From Stdlib Require Import ZArith Lia.
From stdpp Require Import base list gmap sets.
Open Scope Z_scope.

Module FdServer.

(** * Operation codes *)
Definition EVENTFD_CREATE : Z := 0.
Definition EVENTFD_READ : Z := 1.
Definition EVENTFD_WRITE : Z := 2.
Definition EVENTFD_CLOSE : Z := 3.
Definition TIMERFD_CREATE : Z := 16.
Definition TIMERFD_SETTIME : Z := 17.
Definition TIMERFD_GETTIME : Z := 18.
Definition TIMERFD_READ : Z := 19.
Definition TIMERFD_CLOSE : Z := 20.
Definition SIGNALFD_CREATE : Z := 32.
Definition SIGNALFD_READ : Z := 33.
Definition SIGNALFD_CLOSE : Z := 34.
Definition INOTIFY_INIT : Z := 48.
Definition INOTIFY_ADD_WATCH : Z := 49.
Definition INOTIFY_RM_WATCH : Z := 50.
Definition INOTIFY_READ : Z := 51.
Definition INOTIFY_CLOSE : Z := 52.

(** * Table entries *)
Record Eventfd := { eventfd_fd : Z }.
Record Timerfd := { timerfd_fd : Z }.
Record Signalfd := { signalfd_fd : Z }.
Record Inotify := { inotify_fd : Z; watches : gmap Z Z }.

#[export] Instance eventfd_has_fd : HasFd Eventfd := eventfd_fd.
#[export] Instance timerfd_has_fd : HasFd Timerfd := timerfd_fd.
#[export] Instance signalfd_has_fd : HasFd Signalfd := signalfd_fd.
#[export] Instance inotify_has_fd : HasFd Inotify := inotify_fd.

Section Server.
Context {UC : UtcbConsts} {SL : Slab} {LX : Linux}.

(** * Helpers *)
Definition br_read_exact (n : Z) (u : Utcb) : exec (option (list Z)) :=
  if n =? 0 then Done (Some [])
  else if br_len u <? n then Done None
  else out ← br_load u n; Done (Some out).
Definition read_itimerspec (u : Utcb) : exec (option (list Z)) := br_read_exact SIZE_itimerspec u.
Definition write_itimerspec (spec : list Z) (u : Utcb) : exec Utcb := br_write_bytes spec u.
Definition read_sigset (expected : Z) (u : Utcb) : exec (option (list Z)) :=
  buf ← br_read_bytes u; Done (if zlen buf =? expected then Some buf else None).
(** [CString::new] refuses a vector with a NUL byte anywhere in it, and
    appends the terminator itself. *)
Definition cstring_new (buf : list Z) : option (list Z) :=
  if existsb (Z.eqb 0) buf then None else Some (buf ++ [0]).
Definition read_string (u : Utcb) : exec (option (list Z)) :=
  buf ← br_read_bytes u;
  let buf := if bool_decide (last buf = Some 0) then buf else buf ++ [0] in
  Done (cstring_new buf).

(** * eventfd *)
Definition handle_eventfd_create : Handler Eventfd := fun s o u =>
  initval ← mr_get u 1; flags ← mr_get u 2;
  let '(fd, o) := sys_create (EventfdNew (wrap 32 initval) (swrap 32 flags)) o in
  if fd <? 0 then u ← mr_set 0 (encode_errno o) u; Done (s, o, u)
  else let '(slot, s) := slab_insert s {| eventfd_fd := fd |} in answer slot s o u.

Definition handle_eventfd_read : Handler Eventfd := fun s o u =>
  handle ← mr_get u 1;
  match slab_get s handle with
  | None => answer (neg_errno EBADF) s o u
  | Some entry =>
      let '(res, out, o) := sys_fd (Read (eventfd_fd entry) 8) o in
      if negb (res =? 8) then answer (encode_errno o) s o u
      else u ← mr_set 0 0 u; u ← mr_set 1 (word_of out) u; Done (s, o, br_clear u)
  end.

Definition handle_eventfd_write : Handler Eventfd := fun s o u =>
  handle ← mr_get u 1; value ← mr_get u 2;
  match slab_get s handle with
  | None => answer (neg_errno EBADF) s o u
  | Some entry =>
      let '(res, _, o) := sys_fd (Write (eventfd_fd entry) (le_bytes 8 value)) o in
      if negb (res =? 8) then answer (encode_errno o) s o u else answer 0 s o u
  end.

Definition handle_eventfd_close : Handler Eventfd := handle_close.

(** * timerfd *)
Definition handle_timerfd_create : Handler Timerfd := fun s o u =>
  clockid ← mr_get u 1; flags ← mr_get u 2;
  let '(fd, o) := sys_create (TimerfdCreate (swrap 32 clockid) (swrap 32 flags)) o in
  if fd <? 0 then answer (encode_errno o) s o u
  else let '(slot, s) := slab_insert s {| timerfd_fd := fd |} in answer slot s o u.

Definition handle_timerfd_settime : Handler Timerfd := fun s o u =>
  handle ← mr_get u 1; flags ← mr_get u 2; want_old ← mr_get u 3;
  let want_old := negb (want_old =? 0) in
  match slab_get s handle with
  | None => answer (neg_errno EBADF) s o u
  | Some entry =>
      nv ← read_itimerspec u;
      match nv with
      | None => answer (neg_errno EINVAL) s o u
      | Some new_value =>
          let '(res, old_value, o) :=
            sys_fd (TimerfdSettime (timerfd_fd entry) (swrap 32 flags) new_value want_old) o in
          if res <? 0 then answer (encode_errno o) s o u
          else if want_old then u ← mr_set 0 0 u; u ← write_itimerspec old_value u; Done (s, o, u)
          else answer 0 s o u
      end
  end.

Definition handle_timerfd_gettime : Handler Timerfd := fun s o u =>
  handle ← mr_get u 1;
  match slab_get s handle with
  | None => answer (neg_errno EBADF) s o u
  | Some entry =>
      let '(res, cur, o) := sys_fd (TimerfdGettime (timerfd_fd entry)) o in
      if res <? 0 then answer (encode_errno o) s o u
      else u ← mr_set 0 0 u; u ← write_itimerspec cur u; Done (s, o, u)
  end.

Definition handle_timerfd_read : Handler Timerfd := fun s o u =>
  handle ← mr_get u 1;
  match slab_get s handle with
  | None => answer (neg_errno EBADF) s o u
  | Some entry =>
      let '(res, out, o) := sys_fd (Read (timerfd_fd entry) 8) o in
      if negb (res =? 8) then answer (encode_errno o) s o u
      else u ← mr_set 0 0 u; u ← mr_set 1 (word_of out) u; Done (s, o, br_clear u)
  end.
Definition handle_timerfd_close : Handler Timerfd := handle_close.

(** * signalfd: [signalfd4] with a descriptor changes its mask, with [-1] it
    makes a new one. *)
Definition handle_signalfd_create : Handler Signalfd := fun s o u =>
  target ← mr_get u 1; flags ← mr_get u 2; size ← mr_get u 3;
  let target := swrap 64 target in
  mask ← read_sigset size u;
  match mask with
  | None => answer (neg_errno EINVAL) s o u
  | Some mask_bytes =>
      if 0 <=? target then
        match slab_get s target with
        | None => answer (neg_errno EBADF) s o u
        | Some existing =>
            let '(res_fd, _, o) := sys_fd (Signalfd4Set (signalfd_fd existing) mask_bytes size (swrap 32 flags)) o in
            if res_fd <? 0 then answer (encode_errno o) s o u else answer 0 s o u
        end
      else
        let '(res_fd, o) := sys_create (Signalfd4New mask_bytes size (swrap 32 flags)) o in
        if res_fd <? 0 then answer (encode_errno o) s o u
        else let '(slot, s) := slab_insert s {| signalfd_fd := res_fd |} in answer slot s o u
  end.

(** The two [read] handlers that fill the payload ([signalfd], [inotify]). *)
Definition handle_buf_read {X} `{HasFd X} : Handler X := fun s o u =>
  handle ← mr_get u 1; m ← mr_get u 2;
  let max_bytes := Z.min m BR_DATA_BYTES in
  match slab_get s handle with
  | None => answer (neg_errno EBADF) s o u
  | Some entry =>
      if max_bytes =? 0 then answer (neg_errno EINVAL) s o u
      else
        let '(res, out, o) := sys_fd (Read (fd_of entry) max_bytes) o in
        if res <? 0 then answer (encode_errno o) s o u
        else u ← br_write_bytes (buf_of max_bytes res out) u; u ← mr_set 0 res u; Done (s, o, u)
  end.
Definition handle_signalfd_read : Handler Signalfd := handle_buf_read.
Definition handle_signalfd_close : Handler Signalfd := handle_close.

(** * inotify *)
Definition handle_inotify_init : Handler Inotify := fun s o u =>
  flags ← mr_get u 1;
  let '(fd, o) := sys_create (InotifyInit1 (swrap 32 flags)) o in
  if fd <? 0 then answer (encode_errno o) s o u
  else let '(slot, s) := slab_insert s {| inotify_fd := fd; watches := ∅ |} in answer slot s o u.

Definition handle_inotify_add_watch : Handler Inotify := fun s o u =>
  handle ← mr_get u 1; mask ← mr_get u 2;
  match slab_get s handle with
  | None => answer (neg_errno EBADF) s o u
  | Some entry =>
      p ← read_string u;
      match p with
      | None => answer (neg_errno EINVAL) s o u
      | Some path =>
          let '(wd, _, o) := sys_fd (InotifyAddWatch (inotify_fd entry) path (wrap 32 mask)) o in
          if wd <? 0 then answer (encode_errno o) s o u
          else
            let entry := {| inotify_fd := inotify_fd entry; watches := <[wd := wd]> (watches entry) |} in
            answer (wrap 64 wd) (slab_set s handle entry) o u
      end
  end.

Definition handle_inotify_rm_watch : Handler Inotify := fun s o u =>
  handle ← mr_get u 1; wd ← mr_get u 2;
  let wd := swrap 32 wd in
  match slab_get s handle with
  | None => answer (neg_errno EBADF) s o u
  | Some entry =>
      let '(res, _, o) := sys_fd (InotifyRmWatch (inotify_fd entry) wd) o in
      if res <? 0 then answer (encode_errno o) s o u
      else
        let entry := {| inotify_fd := inotify_fd entry; watches := delete wd (watches entry) |} in
        answer 0 (slab_set s handle entry) o u
  end.
Definition handle_inotify_read : Handler Inotify := handle_buf_read.
Definition handle_inotify_close : Handler Inotify := handle_close.

(** * The loop *)
Record Tables := {
  eventfds : slab Eventfd;
  timerfds : slab Timerfd;
  signalfds : slab Signalfd;
  inotifies : slab Inotify;
}.
Definition no_tables : Tables :=
  {| eventfds := slab_new; timerfds := slab_new; signalfds := slab_new; inotifies := slab_new |}.
Definition set_eventfds (s : slab Eventfd) (t : Tables) : Tables :=
  {| eventfds := s; timerfds := timerfds t; signalfds := signalfds t; inotifies := inotifies t |}.
Definition set_timerfds (s : slab Timerfd) (t : Tables) : Tables :=
  {| eventfds := eventfds t; timerfds := s; signalfds := signalfds t; inotifies := inotifies t |}.
Definition set_signalfds (s : slab Signalfd) (t : Tables) : Tables :=
  {| eventfds := eventfds t; timerfds := timerfds t; signalfds := s; inotifies := inotifies t |}.
Definition set_inotifies (s : slab Inotify) (t : Tables) : Tables :=
  {| eventfds := eventfds t; timerfds := timerfds t; signalfds := signalfds t; inotifies := s |}.
(** A handler lent one of the tables. *)
Definition lend {X} (get : Tables -> slab X) (put : slab X -> Tables -> Tables) (h : Handler X)
    (t : Tables) (o : os) (u : Utcb) : exec (Tables * os * Utcb) :=
  '(s, o, u) ← h (get t) o u; Done (put s t, o, u).

Definition dispatch (t : Tables) (o : os) (u : Utcb) : exec (Tables * os * Utcb) :=
  op ← mr_get u 0;
  let ev h := lend eventfds set_eventfds h t o u in
  let tm h := lend timerfds set_timerfds h t o u in
  let sg h := lend signalfds set_signalfds h t o u in
  let ino h := lend inotifies set_inotifies h t o u in
  if op =? EVENTFD_CREATE then ev handle_eventfd_create
  else if op =? EVENTFD_READ then ev handle_eventfd_read
  else if op =? EVENTFD_WRITE then ev handle_eventfd_write
  else if op =? EVENTFD_CLOSE then ev handle_eventfd_close
  else if op =? TIMERFD_CREATE then tm handle_timerfd_create
  else if op =? TIMERFD_SETTIME then tm handle_timerfd_settime
  else if op =? TIMERFD_GETTIME then tm handle_timerfd_gettime
  else if op =? TIMERFD_READ then tm handle_timerfd_read
  else if op =? TIMERFD_CLOSE then tm handle_timerfd_close
  else if op =? SIGNALFD_CREATE then sg handle_signalfd_create
  else if op =? SIGNALFD_READ then sg handle_signalfd_read
  else if op =? SIGNALFD_CLOSE then sg handle_signalfd_close
  else if op =? INOTIFY_INIT then ino handle_inotify_init
  else if op =? INOTIFY_ADD_WATCH then ino handle_inotify_add_watch
  else if op =? INOTIFY_RM_WATCH then ino handle_inotify_rm_watch
  else if op =? INOTIFY_READ then ino handle_inotify_read
  else if op =? INOTIFY_CLOSE then ino handle_inotify_close
  else u ← mr_set 0 (neg_errno ENOSYS) u; Done (t, o, br_clear u).

(** The loop over everything the kernel delivers.  After an IPC error the
    server waits again; every request is answered with the tag
    [l4_msgtag(0, 1, 0, 0)] and the UTCB of its handler. *)
Fixpoint run_loop (incoming : list Incoming) (t : Tables) (o : os) : exec (Tables * os * list (Z * Utcb)) :=
  match incoming with
  | [] => Done (t, o, [])
  | IpcError :: rest => run_loop rest t o
  | Request u :: rest =>
      '(t, o, u) ← dispatch t o u;
      '(t, o, replies) ← run_loop rest t o;
      Done (t, o, (l4_msgtag 0 1 0 0, u) :: replies)
  end.
(** [run]: the gate capability has to be there and the binding to succeed. *)
Definition run (gate : option Z) (bind_error : Z -> Z) (incoming : list Incoming) (o : os) :
    exec (Tables * os * list (Z * Utcb)) :=
  gate ← unwrap gate;
  if negb (bind_error gate =? 0) then Panics else run_loop incoming no_tables o.

(** * Theorems *)

Lemma read_itimerspec_ok u : utcb_ok u -> exists r, read_itimerspec u = Done r.
Proof.
  intros Hu. pose proof br_data_bytes as [Hbd Hr]. pose proof size_itimerspec_range.
  unfold read_itimerspec, br_read_exact. case_match; [by eexists|]. case_match; [by eexists|].
  destruct (br_load_ok u SIZE_itimerspec) as (-> & _); [done | lia | lia |]. by eexists.
Qed.

(** The string reader never succeeds: it makes sure that the bytes end in NUL
    and [CString::new] then refuses them for it. *)
Lemma read_string_none u : utcb_ok u -> read_string u = Done None.
Proof.
  intros Hu. destruct (br_read_bytes_ok u Hu) as (buf & Hb & _). unfold read_string. rewrite Hb. estep.
  f_equal. unfold cstring_new. replace (existsb _ _) with true; [done|]. symmetry. apply existsb_exists.
  exists 0. split; [|done]. case_bool_decide as Hl.
  - apply last_Some in Hl as [l ->]. apply in_app_iff. right. by left.
  - apply in_app_iff. right. by left.
Qed.

Lemma eventfd_create_handles : Handles handle_eventfd_create.
Proof.
  intros F s o u Hu Ho. unfold handle_eventfd_create. repeat handler_step; zb; [|by eapply insert_served].
  destruct (mr_set_ok u 0 (encode_errno o0)) as (u1 & -> & Hu1 & _ & Hb); [done | lia | auto with rust |]. estep.
  apply served; eauto with rust.
Qed.
Lemma eventfd_read_handles : Handles handle_eventfd_read.
Proof. unfold handle_eventfd_read. handles. Qed.
Lemma eventfd_write_handles : Handles handle_eventfd_write.
Proof. unfold handle_eventfd_write. handles. Qed.
Lemma timerfd_create_handles : Handles handle_timerfd_create.
Proof. intros F s o u Hu Ho. unfold handle_timerfd_create. repeat handler_step; zb; [answered; eauto with rust | by eapply insert_served]. Qed.
Lemma timerfd_settime_handles : Handles handle_timerfd_settime.
Proof.
  intros F s o u Hu Ho. unfold handle_timerfd_settime, write_itimerspec. 
  destruct (read_itimerspec_ok u Hu) as (r & E). repeat handler_step; try (answered; by eauto with rust);
    rewrite E; estep; destruct r; repeat handler_step; zb; answered; eauto with rust.
Qed.
Lemma timerfd_gettime_handles : Handles handle_timerfd_gettime.
Proof. unfold handle_timerfd_gettime, write_itimerspec. handles. Qed.
Lemma timerfd_read_handles : Handles handle_timerfd_read.
Proof. unfold handle_timerfd_read. handles. Qed.

Lemma signalfd_create_handles : Handles handle_signalfd_create.
Proof.
  intros F s o u Hu Ho. unfold handle_signalfd_create, read_sigset. do 3 handler_step.
  destruct (br_read_bytes_ok u Hu) as (buf & Hb & _). rewrite Hb. estep.
  repeat handler_step; zb; try (by eapply insert_served); answered; eauto with rust.
Qed.

Lemma buf_read_handles {X} `{HasFd X} : Handles (X := X) handle_buf_read.
Proof.
  intros F s o u Hu Ho. unfold handle_buf_read. pose proof br_data_bytes. repeat handler_step; zb; answered; eauto with rust.
  cbn [res_max] in *. unfold uint in *. lia.
Qed.

Lemma signalfd_read_handles : Handles handle_signalfd_read.
Proof. apply buf_read_handles. Qed.
Lemma inotify_read_handles : Handles handle_inotify_read.
Proof. apply buf_read_handles. Qed.
Lemma inotify_init_handles : Handles handle_inotify_init.
Proof. intros F s o u Hu Ho. unfold handle_inotify_init. repeat handler_step; zb; [answered; eauto with rust | by eapply insert_served]. Qed.
Lemma inotify_add_watch_handles : Handles handle_inotify_add_watch.
Proof.
  intros F s o u Hu Ho. unfold handle_inotify_add_watch. rewrite read_string_none by done.
  repeat handler_step; answered; eauto with rust.
Qed.
Lemma inotify_rm_watch_handles : Handles handle_inotify_rm_watch.
Proof.
  intros F s o u Hu Ho. unfold handle_inotify_rm_watch. repeat handler_step; zb; answered; eauto with rust.
  all: erewrite set_fds by done; eauto with rust.
Qed.

(** ** The four tables together *)
Inductive Kind := KEvent | KTimer | KSignal | KInotify.
#[export] Instance kind_eq_dec : EqDecision Kind.
Proof. solve_decision. Defined.
Definition table (t : Tables) (k : Kind) : gmap Z Z :=
  match k with
  | KEvent => fds (eventfds t) | KTimer => fds (timerfds t)
  | KSignal => fds (signalfds t) | KInotify => fds (inotifies t)
  end.
(** The table and handle a request closes, if it is a close request. *)
Definition close_request (u : Utcb) : option (Kind * Z) :=
  match mr_get u 0, mr_get u 1 with
  | Done op, Done h =>
      if op =? EVENTFD_CLOSE then Some (KEvent, h)
      else if op =? TIMERFD_CLOSE then Some (KTimer, h)
      else if op =? SIGNALFD_CLOSE then Some (KSignal, h)
      else if op =? INOTIFY_CLOSE then Some (KInotify, h)
      else None
  | _, _ => None
  end.

Definition ServedAll (B : Z -> Prop) (t : Tables) (u : Utcb) (r : exec (Tables * os * Utcb)) : Prop :=
  exists t' o' u', r = Done (t', o', u') /\ utcb_ok u' /\ Owned B (table t') (open_fds o')
    /\ (forall k i x, table t k !! i = Some x -> close_request u <> Some (k, i) -> table t' k !! i = Some x)
    /\ reply_fits u u'.

(** Lending a table to a handler that does its part does the whole part. *)
Lemma lend_served {X} `{HasFd X} (get : Tables -> slab X) put (h : Handler X) B t o u k closing :
  (forall t s, get (put s t) = s) ->
  (forall t, table t k = fds (get t)) ->
  (forall t s l, l <> k -> table (put s t) l = table t l) ->
  (forall i, closing = Some i -> close_request u = Some (k, i)) ->
  Owned B (table t) (open_fds o) ->
  (forall F, Owns F (fds (get t)) (open_fds o) -> Served F closing (get t) u (h (get t) o u)) ->
  ServedAll B t u (lend get put h t o u).
Proof.
  intros Hgp Hk Hl Hc Ho Hh. pose proof (owned_focus _ _ _ k Ho) as Hf. rewrite Hk in Hf.
  destruct (Hh _ Hf) as (s' & o' & u' & Hr & Hu' & Ho' & Hst & Hb). unfold lend. rewrite Hr. estep.
  exists (put s' t), o', u'. split; [done|]. split; [done|]. split; [|split; [|done]].
  - eapply (owned_refocus _ _ _ _ _ k Ho); [by intros; apply Hl|]. by rewrite Hk, Hgp.
  - intros l i x Hx Hne. destruct (decide (l = k)) as [->|].
    + rewrite Hk, Hgp. rewrite Hk in Hx. apply Hst; [done|]. intros Hi. by apply Hne, Hc.
    + by rewrite Hl.
Qed.

Lemma no_closing u k : forall i, @None Z = Some i -> close_request u = Some (k, i).
Proof. done. Qed.

#[local] Hint Resolve eventfd_create_handles eventfd_read_handles eventfd_write_handles
  timerfd_create_handles timerfd_settime_handles timerfd_gettime_handles timerfd_read_handles
  signalfd_create_handles signalfd_read_handles inotify_read_handles inotify_init_handles inotify_add_watch_handles
  inotify_rm_watch_handles : rust.

(** Discharge one arm of the dispatch: the table is the right one, and the
    handler is one of those above or a close. *)
Ltac arm k := eapply (lend_served _ _ _ _ _ _ _ k);
  [done | done | by intros ? ? [] | apply no_closing | done | intros ? ?; solve [auto with rust]].
Ltac close_arm k H0 H1 := eapply (lend_served _ _ _ _ _ _ _ k (Some _));
  [done | done | by intros ? ? []
  | intros ? [= <-]; unfold close_request; rewrite H0, H1; zb; subst; reflexivity
  | done | intros ? ?; by apply close_handles].

Lemma fd_dispatch_served B t o u :
  utcb_ok u -> Owned B (table t) (open_fds o) -> ServedAll B t u (dispatch t o u).
Proof.
  intros Hu Ho. destruct (mr_get_ok u 0) as (op & H0 & _); [done | lia|].
  destruct (mr_get_ok u 1) as (h & H1 & _); [done | lia|].
  unfold dispatch. rewrite H0. estep.
  repeat match goal with |- ServedAll _ _ _ (if ?b then _ else _) => destruct b eqn:?;
    [ match goal with
      | |- context [handle_eventfd_close] => close_arm KEvent H0 H1
      | |- context [handle_timerfd_close] => close_arm KTimer H0 H1
      | |- context [handle_signalfd_close] => close_arm KSignal H0 H1
      | |- context [handle_inotify_close] => close_arm KInotify H0 H1
      | |- context [set_eventfds] => arm KEvent
      | |- context [set_timerfds] => arm KTimer
      | |- context [set_signalfds] => arm KSignal
      | |- context [set_inotifies] => arm KInotify
      end | ] end.
  destruct (mr_set_ok u 0 (neg_errno ENOSYS)) as (u1 & Hm & Hu1 & _); [done | lia | auto with rust|].
  rewrite Hm. estep. destruct (br_clear_ok u1 Hu1) as (Hu2 & _ & Hl). pose proof br_data_bytes.
  eexists _, _, _. split; [done|]. split; [exact Hu2|]. split; [done|]. split; [auto | left; lia].
Qed.

(** ** The loop *)

Lemma fd_run_loop_served incoming : forall t o B,
  Forall good_incoming incoming -> Owned B (table t) (open_fds o) ->
  exists t' o' replies, run_loop incoming t o = Done (t', o', replies)
    /\ Owned B (table t') (open_fds o')
    /\ Forall2 (fun u r => r.1 = l4_msgtag 0 1 0 0 /\ utcb_ok r.2 /\ reply_fits u r.2) (requests incoming) replies
    /\ (forall k i x, table t k !! i = Some x ->
          Forall (fun u => close_request u <> Some (k, i)) (requests incoming) -> table t' k !! i = Some x).
Proof.
  induction incoming as [|[|u] rest IH]; intros t o B Hg Ho; cbn [run_loop].
  - eexists _, _, _. split; [done|]. by split_and!.
  - inversion Hg; subst. by apply IH.
  - inversion Hg as [|? ? Hu Hg']; subst. destruct (fd_dispatch_served B t o u Hu Ho) as (t1 & o1 & u1 & -> & Hu1 & Ho1 & Hs1 & Hf).
    estep. destruct (IH t1 o1 B Hg' Ho1) as (t2 & o2 & rs & -> & Ho2 & Hrs & Hs2). estep.
    eexists _, _, _. split; [done|]. split; [done|]. split; [by constructor|].
    intros k i x Hx Hn. inversion Hn; subst. auto.
Qed.

Lemma no_tables_owned o : Owned (.∈ open_fds o) (table no_tables) (open_fds o).
Proof.
  assert (forall k, table no_tables k = ∅) as Ht.
  { intros []; cbn; unfold fds; by rewrite slab_new_map, fmap_empty. }
  split; [|split]; setoid_rewrite Ht; setoid_rewrite lookup_empty; naive_solver.
Qed.

(** C18: whatever requests arrive, the server never panics and never leaves the
    UTCB: it answers each request once with the tag [l4_msgtag(0, 1, 0, 0)] and a
    payload that fits the buffer registers (or the request's own length word,
    where it was not touched), and at every point each descriptor it opened is
    held by exactly one handle of one of its tables: none leaks, none is shared,
    and no foreign descriptor is closed. *)
Theorem fd_server_owns gate bind_error incoming o :
  bind_error gate = 0 -> Forall good_incoming incoming ->
  exists t' o' replies, run (Some gate) bind_error incoming o = Done (t', o', replies)
    /\ Owned (.∈ open_fds o) (table t') (open_fds o')
    /\ Forall2 (fun u r => r.1 = l4_msgtag 0 1 0 0 /\ utcb_ok r.2 /\ reply_fits u r.2) (requests incoming) replies.
Proof.
  intros Hb Hg. unfold run. cbn. zif_true. cbn [negb].
  destruct (fd_run_loop_served incoming no_tables o _ Hg (no_tables_owned o)) as (t' & o' & rs & ? & ? & ? & _). eauto 10.
Qed.

(** A handle keeps denoting its descriptor across any further requests,
    of any client, until a close request for that very handle in that very
    table. *)
Theorem fd_server_handle_stable incoming t o t' o' replies B k i fd :
  Forall good_incoming incoming -> Owned B (table t) (open_fds o) ->
  run_loop incoming t o = Done (t', o', replies) ->
  table t k !! i = Some fd -> Forall (fun u => close_request u <> Some (k, i)) (requests incoming) ->
  table t' k !! i = Some fd /\ fd ∈ open_fds o'.
Proof.
  intros Hg Ho Hr Hx Hn. destruct (fd_run_loop_served incoming t o B Hg Ho) as (t2 & o2 & rs & Hr2 & (H1 & _) & _ & Hs).
  rewrite Hr in Hr2. simplify_eq. specialize (Hs _ _ _ Hx Hn). split; [done|]. apply H1. right. eauto.
Qed.

(** The operations that take a handle, and the table they look it up in. *)
Definition handle_ops : list (Z * Kind) :=
  [(EVENTFD_READ, KEvent); (EVENTFD_WRITE, KEvent); (EVENTFD_CLOSE, KEvent);
   (TIMERFD_SETTIME, KTimer); (TIMERFD_GETTIME, KTimer); (TIMERFD_READ, KTimer); (TIMERFD_CLOSE, KTimer);
   (SIGNALFD_READ, KSignal); (SIGNALFD_CLOSE, KSignal);
   (INOTIFY_ADD_WATCH, KInotify); (INOTIFY_RM_WATCH, KInotify); (INOTIFY_READ, KInotify); (INOTIFY_CLOSE, KInotify)].

Lemma fds_none {X} `{HasFd X} (s : slab X) i : fds s !! i = None -> slab_get s i = None.
Proof. unfold fds, slab_get. rewrite lookup_fmap. by destruct (slab_map s !! i). Qed.

(** A handle that is not in the operation's own table (never given
    out, already closed, or of another kind) is refused with [EBADF]: no system
    call is made, no table changes. *)
Theorem fd_server_unknown_handle t o u op k i :
  utcb_ok u -> mr u !! 0%nat = Some op -> mr u !! 1%nat = Some i -> (op, k) ∈ handle_ops -> table t k !! i = None ->
  exists u', dispatch t o u = Done (t, o, u') /\ mr u' !! 0%nat = Some (neg_errno EBADF) /\ br_len u' = 0.
Proof.
  intros Hu H0 H1 Hop Hk.
  assert (forall X (s : slab X), exists u', answer (neg_errno EBADF) s o u = Done (s, o, u')
    /\ mr u' !! 0%nat = Some (neg_errno EBADF) /\ br_len u' = 0) as Hans.
  { intros X s. unfold answer. destruct (mr_set_ok u 0 (neg_errno EBADF)) as (u1 & -> & Hu1 & Hm & _); [done | lia | auto with rust |].
    estep. destruct (br_clear_ok u1 Hu1) as (_ & Hm2 & Hl). eexists. split; [done|]. split; [|done].
    rewrite Hm2, Hm. apply list_lookup_insert_eq. by eapply lookup_lt_Some. }
  assert (exists v2, mr_get u 2 = Done v2) as [v2 H2] by (destruct (mr_get_ok u 2) as (w & ? & _); [done | lia | eauto]).
  assert (exists v3, mr_get u 3 = Done v3) as [v3 H3] by (destruct (mr_get_ok u 3) as (w & ? & _); [done | lia | eauto]).
  pose proof (mr_get_lookup u 0 op H0 ltac:(lia)) as G0. pose proof (mr_get_lookup u 1 i H1 ltac:(lia)) as G1.
  unfold dispatch. rewrite G0. estep. unfold handle_ops in Hop.
  repeat (apply elem_of_cons in Hop as [[= -> ->]|Hop]);
    [.. | by apply not_elem_of_nil in Hop]; apply fds_none in Hk;
    cbn -[mr_get slab_get answer]; unfold lend; destruct t; cbn in Hk;
    lazymatch goal with |- context [?h ?s o u] => unfold h, handle_close, handle_buf_read; rewrite G1; estep; rewrite ?H2, ?H3; estep; cbn [eventfds timerfds signalfds inotifies] in *; rewrite Hk end;
    match goal with |- context [answer _ ?s o u] => destruct (Hans _ s) as (u' & -> & ?) end; estep; eauto.
Qed.

Lemma under_max res m : res <= Z.max 0 (Z.min m BR_DATA_BYTES) -> res < 2 ^ 11.
Proof. destruct br_data_bytes as [_ Hbd]. revert Hbd. generalize BR_DATA_BYTES. intros. lia. Qed.

(** C19: a read of a signalfd or inotify descriptor hands the client
    exactly the bytes the kernel gave, with their number as the status; at most
    what the client asked for and what the buffer registers hold. *)
Theorem fd_server_read_delivers {X} `{HasFd X} (s : slab X) o u i m e res out o' :
  utcb_ok u -> mr u !! 1%nat = Some i -> mr u !! 2%nat = Some m -> slab_get s i = Some e -> 0 < m -> 0 <= res ->
  sys_fd (Read (fd_of e) (Z.min m BR_DATA_BYTES)) o = (res, out, o') ->
  exists u', handle_buf_read s o u = Done (s, o', u') /\ mr u' !! 0%nat = Some res
    /\ br_len u' = res /\ mread (br u') 8 res = out /\ res <= Z.min m BR_DATA_BYTES.
Proof.
  intros Hu H1 H2 He Hm Hres Hsys. pose proof br_data_bytes as [_ Hbd].
  destruct (call_out _ _ _ _ _ Hsys) as ([_ Hmax] & Hout & Hb). cbn [res_max out_len] in *.
  pose proof (under_max _ _ Hmax).
  assert (buf_of (Z.min m BR_DATA_BYTES) res out = out) as Hbuf.
  { unfold buf_of, mwrite. change (Z.to_nat 0) with 0%nat. rewrite take_0, app_nil_l, take_app_length'; [done|]. unfold zlen in Hout. lia. }
  unfold handle_buf_read. rewrite (mr_get_lookup u 1 i H1), (mr_get_lookup u 2 m H2) by lia. estep.
  rewrite He. zif_false. rewrite Hsys. zif_false. rewrite Hbuf.
  destruct (br_write_bytes_ok out u Hu Hb) as (u1 & -> & Hu1 & Hm1 & Hl1 & Hr1). estep.
  destruct (mr_set_ok u1 0 res) as (u2 & -> & Hu2 & Hm2 & Hb2); [done | lia | unfold uint; lia |]. estep.
  eexists. split; [done|]. unfold br_len in *. rewrite Hm2, Hm1, Hb2, Hl1. replace (Z.min (zlen out) BR_DATA_BYTES) with res in * by lia.
  split_and!; [apply list_lookup_insert_eq; apply lookup_lt_Some in H1; lia | done | | lia].
  rewrite Hr1, take_ge; [done|]. unfold zlen in Hout. lia.
Qed.

(** The words of a message with tag [tag]. *)
Definition message_words (tag : Z) (u : Utcb) : list Z := take (Z.to_nat (l4_msgtag_words tag)) (mr u).

(** The counter of an eventfd and the expirations of a timerfd are put
    into register 1, but every reply announces one word: the message the client
    gets holds the status only and never the value. *)
Theorem fd_server_value_not_sent t o u i fd op k out o' :
  utcb_ok u -> mr u !! 0%nat = Some op -> mr u !! 1%nat = Some i ->
  (op, k) ∈ [(EVENTFD_READ, KEvent); (TIMERFD_READ, KTimer)] -> table t k !! i = Some fd ->
  sys_fd (Read fd 8) o = (8, out, o') ->
  exists t' u', run_loop [Request u] t o = Done (t', o', [(l4_msgtag 0 1 0 0, u')])
    /\ mr u' !! 1%nat = Some (word_of out) /\ message_words (l4_msgtag 0 1 0 0) u' = [0].
Proof.
  intros Hu H0 H1 Hop Hk Hsys.
  destruct (mr_set_ok u 0 0) as (u1 & Hs1 & Hu1 & Hm1 & _); [done | lia | unfold uint; lia|].
  destruct (call_out _ _ _ _ _ Hsys) as (_ & Hout & Hb).
  destruct (mr_set_ok u1 1 (word_of out)) as (u2 & Hs2 & Hu2 & Hm2 & _); [done | lia | by apply word_of_range|].
  assert (mr (br_clear u2) !! 1%nat = Some (word_of out) /\ message_words (l4_msgtag 0 1 0 0) (br_clear u2) = [0]) as Hans.
  { destruct (br_clear_ok u2 Hu2) as (_ & Hm & _). unfold message_words. rewrite Hm, Hm2, Hm1.
    destruct (mr u) as [|a [|b l]]; [done | done | split; done]. }
  cbn [run_loop]. unfold dispatch. rewrite (mr_get_lookup u 0 op H0) by lia. estep.
  pose proof (mr_get_lookup u 1 i H1 ltac:(lia)) as G1.
  repeat (apply elem_of_cons in Hop as [[= -> ->]|Hop]); [.. | by apply not_elem_of_nil in Hop]; cbn -[mr_get slab_get mr_set br_clear fds] in *;
    unfold fds in Hk; apply lookup_fmap_Some in Hk as (e & <- & He); unfold lend, handle_eventfd_read, handle_timerfd_read; rewrite G1; estep;
    unfold slab_get; rewrite He; change (fd_of e) with (eventfd_fd e) in Hsys || change (fd_of e) with (timerfd_fd e) in Hsys;
    rewrite Hsys; cbn [negb Z.eqb Pos.eqb]; rewrite Hs1; estep; rewrite Hs2; estep; eexists _, _; (split; [reflexivity | exact Hans]).
Qed.

(** Adding an inotify watch never succeeds: the request is answered
    with [EINVAL] whatever path it carries, and no system call is made. *)
Theorem fd_server_add_watch_refused t o u i e :
  utcb_ok u -> mr u !! 1%nat = Some i -> slab_get (inotifies t) i = Some e ->
  exists u', handle_inotify_add_watch (inotifies t) o u = Done (inotifies t, o, u')
    /\ mr u' !! 0%nat = Some (neg_errno EINVAL) /\ br_len u' = 0.
Proof.
  intros Hu H1 He. destruct (mr_get_ok u 2) as (m & H2 & _); [done | lia|].
  unfold handle_inotify_add_watch. rewrite (mr_get_lookup u 1 i H1), H2 by lia. estep.
  rewrite He, read_string_none by done. estep. unfold answer.
  destruct (mr_set_ok u 0 (neg_errno EINVAL)) as (u1 & -> & Hu1 & Hm & _); [done | lia | auto with rust |]. estep.
  destruct (br_clear_ok u1 Hu1) as (_ & Hm2 & Hl). eexists. split; [done|]. split; [|done].
  rewrite Hm2, Hm. apply list_lookup_insert_eq. destruct Hu as (Hl' & _). pose proof generic_data_range. unfold zlen in Hl'. lia.
Qed.
End Server.

(** * Witnesses: a concrete slab and kernel *)
Module Concrete.
#[local] Existing Instance l4re_utcb_consts.
#[local] Existing Instance map_slab.
#[local] Existing Instance small_linux.

Definition create : Utcb := mk_utcb [EVENTFD_CREATE; 0; 0].
Definition read0 : Utcb := mk_utcb [EVENTFD_READ; 0; 8].
Definition one_event : Tables := set_eventfds {[ 0 := {| eventfd_fd := 0 |} ]} no_tables.
Definition one_inotify : Tables := set_inotifies {[ 0 := {| inotify_fd := 0; watches := ∅ |} ]} no_tables.
Definition fd0 : os := ({[ 0 ]} : gset Z).
Definition no_fds : os := (∅ : gset Z).

Ltac good := repeat (apply Forall_cons_2; [first [exact I | by apply mk_utcb_ok]|]); apply Forall_nil_2.

Lemma one_event_owned : Owned (fun _ => False) (table one_event) (open_fds fd0).
Proof.
  assert (forall k i x, table one_event k !! i = Some x <-> k = KEvent /\ i = 0 /\ x = 0) as Ht.
  { intros [] i x; cbn; unfold fds; cbn; rewrite ?lookup_fmap, ?lookup_empty; [|naive_solver..].
    destruct (decide (i = 0)) as [->|]; [rewrite lookup_singleton_eq | rewrite lookup_singleton_ne by done]; cbn; naive_solver. }
  split; [|split]; setoid_rewrite Ht; [|naive_solver..].
  intros x. replace (open_fds fd0) with ({[ 0 ]} : gset Z) by (by vm_compute). rewrite elem_of_singleton. naive_solver.
Qed.

Lemma fd_server_owns_witness :
  exists t' o' replies, run (Some 7) (fun _ => 0) [Request create; IpcError; Request read0] no_fds = Done (t', o', replies)
    /\ Owned (.∈ open_fds no_fds) (table t') (open_fds o')
    /\ Forall2 (fun u r => r.1 = l4_msgtag 0 1 0 0 /\ utcb_ok r.2 /\ reply_fits u r.2) [create; read0] replies.
Proof.
  apply (fd_server_owns 7 (fun _ => 0) [Request create; IpcError; Request read0] no_fds); [done|].
  good.
Defined.

Lemma fd_server_handle_stable_witness : exists t' o' replies,
  run_loop [Request read0; Request create] one_event fd0 = Done (t', o', replies)
  /\ table t' KEvent !! 0 = Some 0 /\ 0 ∈ open_fds o'.
Proof.
  assert (Forall good_incoming [Request read0; Request create]) as Hg by good.
  destruct (fd_run_loop_served _ one_event fd0 _ Hg one_event_owned) as (t' & o' & rs & Hr & _).
  exists t', o', rs. split; [exact Hr|].
  apply (fd_server_handle_stable _ _ _ _ _ _ _ KEvent 0 0 Hg one_event_owned Hr); [done|].
  repeat (apply Forall_cons_2; [done|]); apply Forall_nil_2.
Defined.

Lemma fd_server_unknown_handle_witness :
  exists u', dispatch no_tables no_fds read0 = Done (no_tables, no_fds, u') /\ mr u' !! 0%nat = Some (neg_errno EBADF) /\ br_len u' = 0.
Proof.
  apply (fd_server_unknown_handle no_tables no_fds read0 EVENTFD_READ KEvent 0); [by apply mk_utcb_ok | done | done | left | done].
Defined.

Lemma fd_server_read_delivers_witness : exists u',
  handle_buf_read (inotifies one_inotify) fd0 read0 = Done (inotifies one_inotify, fd0, u')
  /\ mr u' !! 0%nat = Some 8 /\ br_len u' = 8 /\ mread (br u') 8 8 = replicate 8 1 /\ 8 <= Z.min 8 BR_DATA_BYTES.
Proof.
  apply (fd_server_read_delivers (inotifies one_inotify) fd0 read0 0 8 {| inotify_fd := 0; watches := ∅ |} 8 (replicate 8 1) fd0);
    [by apply mk_utcb_ok | done | done | done | lia | lia | done].
Defined.

Lemma fd_server_value_not_sent_witness : exists t' u',
  run_loop [Request read0] one_event fd0 = Done (t', fd0, [(l4_msgtag 0 1 0 0, u')])
  /\ mr u' !! 1%nat = Some (word_of (replicate 8 1)) /\ message_words (l4_msgtag 0 1 0 0) u' = [0].
Proof.
  apply (fd_server_value_not_sent one_event fd0 read0 0 0 EVENTFD_READ KEvent (replicate 8 1) fd0);
    [by apply mk_utcb_ok | done | done | left | done | done].
Defined.

Lemma fd_server_add_watch_refused_witness : exists u',
  handle_inotify_add_watch (inotifies one_inotify) fd0 read0 = Done (inotifies one_inotify, fd0, u')
  /\ mr u' !! 0%nat = Some (neg_errno EINVAL) /\ br_len u' = 0.
Proof.
  apply (fd_server_add_watch_refused one_inotify fd0 read0 0 {| inotify_fd := 0; watches := ∅ |}); [by apply mk_utcb_ok | done | done].
Defined.
End Concrete.
End FdServer.
