(* ===== verification/EpollServer.v ===== *)
(** [src/src/epoll_server/src/main.rs]: epoll instances of the underlying Linux
    for L4 clients ([epoll_create1], [epoll_ctl], [epoll_wait], [close]).

    The helpers and the frame of a handler are those of [Served]; an event
    array is the list of its bytes, [SIZE_epoll_event] for each event.  Shown: the
    loop always answers and stays inside the UTCB, descriptors are neither leaked nor
    shared ([epoll_server_owns]), and a wait reports exactly the events the kernel
    gave, never more than asked for or than the buffer registers hold
    ([epoll_wait_delivers]). *)
From S2P Require Import Prelude Error Utcb MsgTag Host Served.
From Stdlib Require Import ZArith Lia.
From stdpp Require Import base list gmap sets.
Open Scope Z_scope.

Module EpollServer.

Definition CREATE1 : Z := 0.
Definition CTL : Z := 1.
Definition WAIT : Z := 2.
Definition CLOSE : Z := 3.

Record EpollInstance := { epoll_fd : Z }.
#[export] Instance epoll_has_fd : HasFd EpollInstance := epoll_fd.

Section Server.
Context {UC : UtcbConsts} {SL : Slab} {LX : Linux}.

Definition EPOLL_EVENT_SIZE : Z := SIZE_epoll_event.
Definition MAX_SERIALISED_EVENTS : Z :=
  if EPOLL_EVENT_SIZE =? 0 then 0 else BR_DATA_BYTES `div` EPOLL_EVENT_SIZE.

Definition br_read_event (u : Utcb) : exec (option (list Z)) :=
  if EPOLL_EVENT_SIZE =? 0 then Done None
  else if br_len u <? EPOLL_EVENT_SIZE then Done None
  else event ← br_load u EPOLL_EVENT_SIZE; Done (Some event).

(** [count] events whose bytes are [events]. *)
Definition br_write_events (events : list Z) (n : Z) (u : Utcb) : exec Utcb :=
  let count := Z.min n MAX_SERIALISED_EVENTS in
  let bytes := count * EPOLL_EVENT_SIZE in
  let u := br_set_len bytes u in
  if bytes =? 0 then Done u
  else src ← peek events 0 bytes; br_store src u.

Definition handle_create1 : Handler EpollInstance := fun s o u =>
  flags ← mr_get u 1;
  let '(fd, o) := sys_create (EpollCreate1 (swrap 32 flags)) o in
  if fd <? 0 then answer (encode_errno o) s o u
  else let '(slot, s) := slab_insert s {| epoll_fd := fd |} in answer slot s o u.

(** An event that cannot be read ends the request without clearing the
    payload. *)
Definition handle_ctl : Handler EpollInstance := fun s o u =>
  handle ← mr_get u 1; op ← mr_get u 2; target_fd ← mr_get u 3;
  let op := swrap 32 op in let target_fd := swrap 32 target_fd in
  match slab_get s handle with
  | None => answer (neg_errno EBADF) s o u
  | Some inst =>
      if op =? EPOLL_CTL_DEL then
        let '(res, _, o) := sys_fd (EpollCtl (epoll_fd inst) op target_fd None) o in
        answer (if res <? 0 then encode_errno o else 0) s o u
      else
        ev ← br_read_event u;
        match ev with
        | None => u ← mr_set 0 (neg_errno EINVAL) u; Done (s, o, u)
        | Some event =>
            let '(res, _, o) := sys_fd (EpollCtl (epoll_fd inst) op target_fd (Some event)) o in
            answer (if res <? 0 then encode_errno o else 0) s o u
        end
  end.

Definition handle_wait : Handler EpollInstance := fun s o u =>
  handle ← mr_get u 1; maxevents ← mr_get u 2; timeout ← mr_get u 3;
  let maxevents := swrap 32 maxevents in let timeout := swrap 32 timeout in
  match slab_get s handle with
  | None => answer (neg_errno EBADF) s o u
  | Some inst =>
      if maxevents <=? 0 then answer (neg_errno EINVAL) s o u
      else if MAX_SERIALISED_EVENTS =? 0 then answer (neg_errno EOVERFLOW) s o u
      else
        let limit := Z.min maxevents (swrap 32 MAX_SERIALISED_EVENTS) in
        let '(res, events, o) := sys_fd (EpollWait (epoll_fd inst) (swrap 32 limit) timeout) o in
        if res <? 0 then answer (encode_errno o) s o u
        else u ← br_write_events events res u; u ← mr_set 0 res u; Done (s, o, u)
  end.

Definition handle_close : Handler EpollInstance := Served.handle_close.

Definition dispatch : Handler EpollInstance := fun s o u =>
  op ← mr_get u 0;
  if op =? CREATE1 then handle_create1 s o u
  else if op =? CTL then handle_ctl s o u
  else if op =? WAIT then handle_wait s o u
  else if op =? CLOSE then handle_close s o u
  else answer (neg_errno ENOSYS) s o u.

Fixpoint run_loop (incoming : list Incoming) (s : slab EpollInstance) (o : os) :
    exec (slab EpollInstance * os * list (Z * Utcb)) :=
  match incoming with
  | [] => Done (s, o, [])
  | IpcError :: rest => run_loop rest s o
  | Request u :: rest =>
      '(s, o, u) ← dispatch s o u;
      '(s, o, replies) ← run_loop rest s o;
      Done (s, o, (l4_msgtag 0 1 0 0, u) :: replies)
  end.
Definition run (gate : option Z) (bind_error : Z -> Z) (incoming : list Incoming) (o : os) :
    exec (slab EpollInstance * os * list (Z * Utcb)) :=
  gate ← unwrap gate;
  if negb (bind_error gate =? 0) then Panics else run_loop incoming slab_new o.

(** * Theorems *)

(** The constants: at least one event fits, and what fits is in the payload. *)
Lemma max_events : 1 <= MAX_SERIALISED_EVENTS < 2 ^ 11
  /\ MAX_SERIALISED_EVENTS * EPOLL_EVENT_SIZE <= BR_DATA_BYTES /\ 0 < EPOLL_EVENT_SIZE.
Proof.
  pose proof size_epoll_event_range. destruct br_data_bytes as [_ Hb]. unfold MAX_SERIALISED_EVENTS, EPOLL_EVENT_SIZE.
  zif_false. revert Hb. generalize BR_DATA_BYTES. intros B Hb.
  pose proof (Z.mul_div_le B SIZE_epoll_event). pose proof (Z.div_le_lower_bound B SIZE_epoll_event 1).
  pose proof (Z.div_le_upper_bound B SIZE_epoll_event B). pose proof (Z.div_lt_upper_bound B SIZE_epoll_event (2 ^ 11)). lia.
Qed.

Lemma br_read_event_ok u : utcb_ok u -> exists r, br_read_event u = Done r.
Proof.
  intros Hu. pose proof max_events as (? & ? & ?). pose proof size_epoll_event_range. pose proof br_words_range.
  unfold br_read_event, EPOLL_EVENT_SIZE in *. zif_false. case_match; [eauto|].
  destruct (br_load_ok u SIZE_epoll_event) as (-> & _); [done | lia | lia | eauto].
Qed.

(** Events the kernel gave for a limit that fits are all written. *)
Lemma br_write_events_ok events n u : utcb_ok u -> bytes_ok events -> 0 <= n <= MAX_SERIALISED_EVENTS ->
  zlen events = n * EPOLL_EVENT_SIZE ->
  exists u', br_write_events events n u = Done u' /\ utcb_ok u' /\ mr u' = mr u
    /\ br_len u' = zlen events /\ mread (br u') 8 (zlen events) = events.
Proof.
  intros Hu He Hn Hlen. pose proof max_events as (Hm & Hb & Hs). destruct br_data_bytes as [Hbd Hbr].
  assert (zlen events <= BR_DATA_BYTES) as Hfit by (rewrite Hlen; etransitivity; [|exact Hb]; apply Z.mul_le_mono_nonneg_r; lia).
  pose proof (zlen_nonneg events).
  unfold br_write_events. rewrite Z.min_l by lia. rewrite <- Hlen.
  destruct (br_write_bytes_ok events u Hu He) as (u' & Hw & Hu' & Hm' & Hl' & Hr').
  rewrite (Z.min_l (zlen events)) in Hl', Hr' by lia. exists u'. split.
  - unfold br_write_bytes in Hw. rewrite Z.min_l in Hw by lia. rewrite <- Hw. case_match; [done|].
    rewrite peek_inside by lia. unfold mread. change (Z.to_nat 0) with 0%nat. by rewrite drop_0.
  - split_and!; [done.. |]. rewrite Hr'. apply take_ge. unfold zlen in *. lia.
Qed.

Lemma create1_handles : Handles handle_create1.
Proof. intros F s o u Hu Ho. unfold handle_create1. repeat handler_step; zb; [answered; eauto with rust | by eapply insert_served]. Qed.

Lemma ctl_handles : Handles handle_ctl.
Proof.
  intros F s o u Hu Ho. unfold handle_ctl. destruct (br_read_event_ok u Hu) as (r & E).
  assert (Served F None s u (u ← mr_set 0 (neg_errno EINVAL) u; Done (s, o, u))) as Hinv.
  { destruct (mr_set_ok u 0 (neg_errno EINVAL)) as (u1 & -> & Hu1 & _ & Hb); [done | lia | auto with rust |]. estep.
    apply served; eauto. }
  repeat handler_step; try (answered; by eauto with rust); rewrite E; estep; destruct r; [|exact Hinv];
    repeat handler_step; answered; eauto with rust.
Qed.

(** The events of a wait: their number is within both limits. *)
Lemma wait_limit m : 0 < m < 2 ^ 31 ->
  swrap 32 (Z.min m (swrap 32 MAX_SERIALISED_EVENTS)) = Z.min m MAX_SERIALISED_EVENTS /\ 1 <= Z.min m MAX_SERIALISED_EVENTS.
Proof.
  intros Hm. destruct max_events as (Hx & _). rewrite (swrap_id 32 MAX_SERIALISED_EVENTS), swrap_id; unfold sint; lia.
Qed.

Lemma wait_events fd m timeout o res events o' : 0 < m < 2 ^ 31 ->
  sys_fd (EpollWait fd (swrap 32 (Z.min m (swrap 32 MAX_SERIALISED_EVENTS))) timeout) o = (res, events, o') -> 0 <= res ->
  res <= Z.min m MAX_SERIALISED_EVENTS /\ zlen events = res * EPOLL_EVENT_SIZE /\ bytes_ok events.
Proof.
  intros Hm Hsys Hres. destruct (wait_limit m Hm) as [Hl Hl1]. rewrite Hl in Hsys.
  destruct (call_out _ _ _ _ _ Hsys) as ((_ & Hr) & Hz & Hb). cbn [res_max out_len] in *.
  rewrite Z.max_r in Hr by lia. rewrite Z.max_r in Hz by lia. done.
Qed.

Lemma wait_handles : Handles handle_wait.
Proof.
  intros F s o u Hu Ho. unfold handle_wait. pose proof (swrap_range 32) as Hsr. unfold sint in Hsr. destruct max_events as (Hx & _).
  repeat handler_step; zb; try (answered; by eauto with rust).
  match goal with H : sys_fd (EpollWait _ (swrap 32 (Z.min ?m _)) _) _ = _ |- _ =>
    destruct (wait_events _ m _ _ _ _ _ ltac:(specialize (Hsr x0); lia) H ltac:(lia)) as (Hr & Hz & Hb); assert (z < 2 ^ 11) by lia end.
  match goal with |- context [br_write_events ?l ?n] =>
    destruct (br_write_events_ok l n u Hu Hb ltac:(lia) Hz) as (u1 & -> & Hu1 & _ & Hl & _) end. estep.
  match goal with |- context [mr_set 0 ?v] => destruct (mr_set_ok u1 0 v) as (u2 & -> & Hu2 & _ & Hb2); [done | lia | unfold uint; lia |] end.
  estep. apply served; eauto with rust. left. unfold br_len in *. rewrite Hb2, Hl, Hz. destruct max_events as (_ & Hf & ?).
  etransitivity; [|exact Hf]. apply Z.mul_le_mono_nonneg_r; lia.
Qed.

Lemma epoll_dispatch_served F s o u k : utcb_ok u -> Owns F (fds s) (open_fds o) -> mr_get u 1 = Done k ->
  Served F (Some k) s u (dispatch s o u).
Proof.
  intros Hu Ho Hk.
  assert (forall r, Served F None s u r -> Served F (Some k) s u r) as Hweak.
  { intros r (s' & o' & u' & ? & ? & ? & Hst & ?). exists s', o', u'. split_and!; eauto. }
  unfold dispatch. destruct (mr_get_ok u 0) as (op & -> & _); [done | lia|]. estep.
  repeat case_match; try (apply Hweak; first [by apply create1_handles | by apply ctl_handles | by apply wait_handles]);
    [by apply close_handles | apply answer_served; eauto with rust].
Qed.

Lemma epoll_run_loop_served F incoming : forall s o, Forall good_incoming incoming -> Owns F (fds s) (open_fds o) ->
  exists s' o' replies, run_loop incoming s o = Done (s', o', replies) /\ Owns F (fds s') (open_fds o')
    /\ Forall2 (fun u r => r.1 = l4_msgtag 0 1 0 0 /\ utcb_ok r.2 /\ reply_fits u r.2) (requests incoming) replies.
Proof.
  induction incoming as [|[|u] rest IH]; intros s o Hg Ho; cbn [run_loop].
  - eexists _, _, _. split; [done|]. split; [done | constructor].
  - inversion Hg; subst. by apply IH.
  - inversion Hg as [|? ? Hu Hg']; subst. destruct (mr_get_ok u 1) as (k & Hk & _); [done | lia|].
    destruct (epoll_dispatch_served _ s o u k Hu Ho Hk) as (s2 & o2 & u2 & -> & Hu2 & Ho2 & _ & Hf). estep.
    destruct (IH s2 o2 Hg' Ho2) as (s3 & o3 & rs & -> & Ho3 & Hrs). estep.
    eexists _, _, _. split; [done|]. split; [done|]. by constructor.
Qed.

(** C20: whatever requests arrive, the server never panics and never leaves the
    UTCB, answers each request with a payload that fits (or untouched), and at
    every point each epoll descriptor it opened is held by exactly one handle. *)
Theorem epoll_server_owns gate bind_error incoming o :
  bind_error gate = 0 -> Forall good_incoming incoming ->
  exists s' o' replies, run (Some gate) bind_error incoming o = Done (s', o', replies)
    /\ Owns (.∈ open_fds o) (fds s') (open_fds o')
    /\ Forall2 (fun u r => r.1 = l4_msgtag 0 1 0 0 /\ utcb_ok r.2 /\ reply_fits u r.2) (requests incoming) replies.
Proof.
  intros Hb Hg. unfold run. cbn [unwrap]. estep. rewrite Hb. cbn [negb Z.eqb].
  assert (Owns (.∈ open_fds o) (fds (X := EpollInstance) slab_new) (open_fds o)) as Ho.
  { unfold fds. rewrite slab_new_map, fmap_empty. split; [|split]; setoid_rewrite lookup_empty; naive_solver. }
  by apply epoll_run_loop_served.
Qed.

(** C21: a wait that the kernel answers with events hands the client exactly
    those, with their number as the status: never more than the client's maximum and
    never more than fit into the buffer registers. *)
Theorem epoll_wait_delivers s o u h m t inst res events o' :
  utcb_ok u -> mr u !! 1%nat = Some h -> mr u !! 2%nat = Some m -> mr u !! 3%nat = Some t ->
  slab_get s h = Some inst -> 0 < swrap 32 m -> 0 <= res ->
  sys_fd (EpollWait (epoll_fd inst) (Z.min (swrap 32 m) MAX_SERIALISED_EVENTS) (swrap 32 t)) o = (res, events, o') ->
  exists u', handle_wait s o u = Done (s, o', u') /\ mr u' !! 0%nat = Some res
    /\ br_len u' = res * EPOLL_EVENT_SIZE /\ mread (br u') 8 (res * EPOLL_EVENT_SIZE) = events
    /\ res <= swrap 32 m /\ res <= MAX_SERIALISED_EVENTS.
Proof.
  intros Hu H1 H2 H3 Hi Hm Hres Hsys. pose proof (swrap_range 32 m) as Hsr. unfold sint in Hsr.
  destruct (wait_limit (swrap 32 m)) as [Hl _]; [lia|]. rewrite <- Hl in Hsys. destruct max_events as (Hx & _).
  destruct (wait_events _ (swrap 32 m) _ _ _ _ _ ltac:(lia) Hsys Hres) as (Hr & Hz & Hb).
  destruct (br_write_events_ok events res u Hu Hb ltac:(lia) Hz) as (u1 & Hw & Hu1 & Hm1 & Hl1 & Hr1).
  destruct (mr_set_ok u1 0 res) as (u2 & Hs & Hu2 & Hm2 & Hb2); [done | lia | unfold uint; lia |].
  exists u2. split.
  - unfold handle_wait. rewrite (mr_get_lookup u 1 h H1), (mr_get_lookup u 2 m H2), (mr_get_lookup u 3 t H3) by lia. estep.
    rewrite Hi. do 2 zif_false. rewrite Hsys. zif_false. rewrite Hw. estep. by rewrite Hs.
  - unfold br_len in *. rewrite Hm2, Hm1, Hb2, <- Hz. split_and!; [|done..|lia|lia].
    apply list_lookup_insert_eq. apply lookup_lt_Some in H1. lia.
Qed.
End Server.

(** * Witnesses *)
Module Concrete.
#[local] Existing Instance l4re_utcb_consts.
#[local] Existing Instance map_slab.
#[local] Existing Instance small_linux.

Definition create : Utcb := mk_utcb [CREATE1; 0].
Definition wait0 : Utcb := mk_utcb [WAIT; 0; 5; 0].
Definition one_instance : slab EpollInstance := {[ 0 := {| epoll_fd := 0 |} ]} : gmap Z EpollInstance.
Definition fd0 : os := ({[ 0 ]} : gset Z).
Definition no_fds : os := (∅ : gset Z).

Lemma epoll_server_owns_witness :
  exists s' o' replies, run (Some 7) (fun _ => 0) [Request create; IpcError; Request wait0] no_fds = Done (s', o', replies)
    /\ Owns (.∈ open_fds no_fds) (fds s') (open_fds o')
    /\ Forall2 (fun u r => r.1 = l4_msgtag 0 1 0 0 /\ utcb_ok r.2 /\ reply_fits u r.2) [create; wait0] replies.
Proof.
  apply (epoll_server_owns 7 (fun _ => 0) [Request create; IpcError; Request wait0] no_fds); [done|].
  repeat (apply Forall_cons_2; [first [exact I | by apply mk_utcb_ok]|]); apply Forall_nil_2.
Defined.

Lemma epoll_wait_delivers_witness : exists u',
  handle_wait one_instance fd0 wait0 = Done (one_instance, fd0, u') /\ mr u' !! 0%nat = Some 1
    /\ br_len u' = 1 * EPOLL_EVENT_SIZE /\ mread (br u') 8 (1 * EPOLL_EVENT_SIZE) = replicate 16 1
    /\ 1 <= swrap 32 5 /\ 1 <= MAX_SERIALISED_EVENTS.
Proof.
  apply (epoll_wait_delivers one_instance fd0 wait0 0 5 0 {| epoll_fd := 0 |} 1 (replicate 16 1) fd0);
    [by apply mk_utcb_ok | done | done | done | done | done | lia | done].
Defined.
End Concrete.
End EpollServer.
