(* ===== verification/AioServer.v ===== *)
(** [src/src/aio_server/src/main.rs]: POSIX asynchronous I/O for L4 clients.

    An operation is carried out when it is submitted; its outcome waits in a
    slab under the key the client got, until [AIO_RETURN] or [AIO_CANCEL]
    takes it.  The layout of [libc::aiocb] is a parameter ([AiocbLayout]).

    Shown: the loop always answers and stays inside the UTCB; every recorded
    operation is a success that fits a reply ([aio_server_serves]); and what a read got
    from the kernel reaches the client whole with the matching [AIO_RETURN],
    whatever requests come in between, exactly once
    ([aio_read_roundtrip], [aio_return_takes]). *)
From S2P Require Import Prelude Error Utcb MsgTag Host Served.
From Stdlib Require Import ZArith Lia.
From stdpp Require Import base list gmap sets.
Open Scope Z_scope.

(** The fields of [struct aiocb] in its bytes. *)
Class AiocbLayout := {
  aio_fildes : list Z -> Z;
  aio_nbytes : list Z -> Z;
  aio_offset : list Z -> Z;
  aio_nbytes_range : forall cb, uint 64 (aio_nbytes cb);
}.

Module AioServer.

Definition AIO_READ : Z := 0.
Definition AIO_WRITE : Z := 1.
Definition AIO_ERROR : Z := 2.
Definition AIO_RETURN : Z := 3.
Definition AIO_CANCEL : Z := 4.
Definition AIO_SUSPEND : Z := 5.
Definition AIO_FSYNC : Z := 6.
Definition LIO_LISTIO : Z := 7.

Inductive OperationKind := OpRead | OpWrite | OpFsync.
Record Operation := {
  op_kind : OperationKind;
  op_fd : Z;
  op_result : Z;
  op_error : Z;
  op_buffer : list Z;
}.

Section Server.
Context {UC : UtcbConsts} {SL : Slab} {LX : Linux} {AL : AiocbLayout}.

Definition encode_errno_raw (err : Z) : Z := neg_errno err.
(** [br_bytes]: where the payload starts is fixed; its length is the client's
    length word, bounded. *)
Definition br_bytes (u : Utcb) : Z := Z.min (br_len u) BR_DATA_BYTES.
(** The bytes of a zeroed [aiocb] after [bs] has been copied over it. *)
Definition zeroed_with (bs : list Z) : list Z := mwrite (replicate (Z.to_nat SIZE_aiocb) 0) 0 bs.

Definition read_aiocb (expected : Z) (u : Utcb) : exec (result unit (list Z)) :=
  if (expected =? 0) || (BR_DATA_BYTES <? expected) then Done (Err tt)
  else
    let len := br_bytes u in
    if len <? expected then Done (Err tt)
    else bs ← br_load u (Z.min expected SIZE_aiocb); Done (Ok (zeroed_with bs)).
Definition read_buffer_from_aiocb (cb : list Z) : Z * Z := (aio_nbytes cb, aio_offset cb).

Definition perform_read (fd len offset : Z) (o : os) : result Z (list Z * Z) * os :=
  if BR_DATA_BYTES <? len then (Err EOVERFLOW, o)
  else
    let '(res, out, o) := sys_fd (Pread fd len offset) o in
    if res <? 0 then (Err (errno o), o) else (Ok (buf_of len res out, res), o).
Definition perform_write (fd : Z) (payload : list Z) (offset : Z) (o : os) : result Z Z * os :=
  let '(res, _, o) := sys_fd (Pwrite fd payload offset) o in
  if res <? 0 then (Err (errno o), o) else (Ok res, o).
Definition perform_fsync (fd op : Z) (o : os) : result Z Z * os :=
  let '(res, _, o) := if op =? O_DSYNC then sys_fd (Fdatasync fd) o else sys_fd (Fsync fd) o in
  if res <? 0 then (Err (errno o), o) else (Ok 0, o).

(** Record an outcome and answer with its key, or answer with the error. *)
Definition submit (op : result Z Operation) : Handler Operation := fun s o u =>
  match op with
  | Ok op => let '(slot, s) := slab_insert s op in answer slot s o u
  | Err err => answer (encode_errno_raw err) s o u
  end.

Definition handle_aio_read : Handler Operation := fun s o u =>
  struct_len ← mr_get u 1;
  cb ← read_aiocb struct_len u;
  match cb with
  | Err _ => answer (encode_errno_raw EINVAL) s o u
  | Ok cb =>
      let '(len, offset) := read_buffer_from_aiocb cb in
      let '(r, o) := perform_read (aio_fildes cb) len offset o in
      submit (result_bind r (fun '(buffer, result) => Ok {| op_kind := OpRead; op_fd := aio_fildes cb;
        op_result := result; op_error := 0; op_buffer := buffer |})) s o u
  end.

Definition handle_aio_write : Handler Operation := fun s o u =>
  struct_len ← mr_get u 1; payload_len ← mr_get u 2;
  let total := br_bytes u in
  if total <? saturating_add struct_len payload_len then answer (encode_errno_raw EINVAL) s o u
  else
    bs ← br_load u (Z.min struct_len SIZE_aiocb);
    let cb := zeroed_with bs in
    payload ← peek (br u) (8 + struct_len) payload_len;
    let '(r, o) := perform_write (aio_fildes cb) payload (aio_offset cb) o in
    submit (result_bind r (fun result => Ok {| op_kind := OpWrite; op_fd := aio_fildes cb;
      op_result := result; op_error := 0; op_buffer := [] |})) s o u.

Definition handle_aio_fsync : Handler Operation := fun s o u =>
  struct_len ← mr_get u 1; op_kind ← mr_get u 3;
  cb ← read_aiocb struct_len u;
  match cb with
  | Err _ => answer (encode_errno_raw EINVAL) s o u
  | Ok cb =>
      let '(r, o) := perform_fsync (aio_fildes cb) (swrap 32 op_kind) o in
      submit (result_bind r (fun result => Ok {| op_kind := OpFsync; op_fd := aio_fildes cb;
        op_result := result; op_error := 0; op_buffer := [] |})) s o u
  end.

Definition handle_aio_error : Handler Operation := fun s o u =>
  handle ← mr_get u 1;
  match slab_get s handle with
  | Some op => answer (wrap 64 (op_error op)) s o u
  | None => answer (encode_errno_raw EINVAL) s o u
  end.

Definition handle_aio_return : Handler Operation := fun s o u =>
  handle ← mr_get u 1;
  match slab_get s handle with
  | Some op =>
      let s := slab_remove s handle in
      if negb (op_error op =? 0) then answer (encode_errno_raw (op_error op)) s o u
      else
        u ← mr_set 0 (wrap 64 (op_result op)) u;
        match op_kind op with
        | OpRead => u ← mr_set 1 (zlen (op_buffer op)) u; u ← br_write_bytes (op_buffer op) u; Done (s, o, u)
        | _ => u ← mr_set 1 0 u; Done (s, o, br_clear u)
        end
  | None => answer (encode_errno_raw EINVAL) s o u
  end.

Definition handle_aio_cancel : Handler Operation := fun s o u =>
  handle ← mr_get u 1;
  if slab_contains s handle then answer (wrap 64 AIO_ALLDONE) (slab_remove s handle) o u
  else answer (wrap 64 AIO_ALLDONE) s o u.
Definition handle_aio_suspend : Handler Operation := fun s o u => _nent ← mr_get u 1; answer 0 s o u.
Definition handle_lio_listio : Handler Operation := answer (encode_errno_raw ENOSYS).

Definition dispatch : Handler Operation := fun s o u =>
  op ← mr_get u 0;
  if op =? AIO_READ then handle_aio_read s o u
  else if op =? AIO_WRITE then handle_aio_write s o u
  else if op =? AIO_ERROR then handle_aio_error s o u
  else if op =? AIO_RETURN then handle_aio_return s o u
  else if op =? AIO_CANCEL then handle_aio_cancel s o u
  else if op =? AIO_SUSPEND then handle_aio_suspend s o u
  else if op =? AIO_FSYNC then handle_aio_fsync s o u
  else if op =? LIO_LISTIO then handle_lio_listio s o u
  else answer (encode_errno_raw ENOSYS) s o u.

Fixpoint run_loop (incoming : list Incoming) (s : slab Operation) (o : os) :
    exec (slab Operation * os * list (Z * Utcb)) :=
  match incoming with
  | [] => Done (s, o, [])
  | IpcError :: rest => run_loop rest s o
  | Request u :: rest =>
      '(s, o, u) ← dispatch s o u;
      '(s, o, replies) ← run_loop rest s o;
      Done (s, o, (l4_msgtag 0 2 0 0, u) :: replies)
  end.
Definition run (gate : option Z) (bind_error : Z -> Z) (incoming : list Incoming) (o : os) :
    exec (slab Operation * os * list (Z * Utcb)) :=
  gate ← unwrap gate;
  if negb (bind_error gate =? 0) then Panics else run_loop incoming slab_new o.

(** * Theorems *)

(** What is recorded: a success; a read's bytes, as many as its result, fit a reply. *)
Definition op_ok (op : Operation) : Prop :=
  op_error op = 0 /\ bytes_ok (op_buffer op) /\ zlen (op_buffer op) <= BR_DATA_BYTES
  /\ (op_kind op = OpRead -> op_result op = zlen (op_buffer op)).
Definition ops_ok (s : slab Operation) : Prop := map_Forall (fun _ => op_ok) (slab_map s).
(** The requests that take the operation behind a key. *)
Definition takes (u : Utcb) (h : Z) : Prop :=
  exists op, mr_get u 0 = Done op /\ (op = AIO_RETURN \/ op = AIO_CANCEL) /\ mr_get u 1 = Done h.

Definition AioServed (s : slab Operation) (u : Utcb) (r : exec (slab Operation * os * Utcb)) : Prop :=
  exists s' o' u', r = Done (s', o', u') /\ utcb_ok u' /\ ops_ok s'
    /\ Z.of_nat (size (slab_map s')) <= Z.of_nat (size (slab_map s)) + 1
    /\ (forall i op, slab_map s !! i = Some op -> ~ takes u i -> slab_map s' !! i = Some op)
    /\ reply_fits u u'.

Lemma answer_gives {X} (s : slab X) o u v : utcb_ok u -> uint 64 v ->
  exists u', answer v s o u = Done (s, o, u') /\ utcb_ok u' /\ mr u' !! 0%nat = Some v /\ br_len u' = 0.
Proof.
  intros Hu Hv. unfold answer. destruct (mr_set_ok u 0 v) as (u1 & -> & Hu1 & Hm & _); [done | lia | done |].
  estep. destruct (br_clear_ok u1 Hu1) as (? & Hm2 & Hl). eexists. split; [done|]. split; [done|]. split; [|done].
  rewrite Hm2, Hm. apply list_lookup_insert_eq. destruct Hu as (Hz & _). pose proof generic_data_range. unfold zlen in Hz. lia.
Qed.

Lemma aio_answer s o u v : utcb_ok u -> uint 64 v -> ops_ok s -> AioServed s u (answer v s o u).
Proof.
  intros Hu Hv Hs. destruct (answer_gives s o u v Hu Hv) as (u' & -> & Hu' & _ & Hl). destruct br_data_bytes as [_ ?].
  exists s, o, u'. split; [done|]. split; [done|]. split; [done|]. split; [lia|]. split; [auto | left; lia].
Qed.

(** Taking an entry out. *)
Lemma remove_ops s h op : ops_ok s -> slab_map s !! h = Some op ->
  ops_ok (slab_remove s h) /\ Z.of_nat (size (slab_map (slab_remove s h))) <= Z.of_nat (size (slab_map s)) + 1
  /\ slab_map (slab_remove s h) = delete h (slab_map s).
Proof.
  intros Hs Hh. unfold ops_ok. erewrite slab_remove_spec by done. split; [by apply map_Forall_delete|]. split; [|done].
  rewrite map_size_delete, Hh. lia.
Qed.

Lemma submit_served s o u r : utcb_ok u -> ops_ok s -> Z.of_nat (size (slab_map s)) < 2 ^ 62 ->
  (forall op, r = Ok op -> op_ok op) -> AioServed s u (submit r s o u).
Proof.
  intros Hu Hs Hsz Hr. destruct r as [op|e]; cbn; [|apply aio_answer; auto with rust].
  destruct (slab_insert_spec _ s op) as (Hk & Hn & Hm). destruct (slab_insert s op) as [slot s']. cbn in *.
  specialize (Hk Hsz). destruct (answer_gives s' o u slot Hu) as (u' & -> & Hu' & _ & Hl); [unfold uint in *; lia|].
  destruct br_data_bytes as [_ ?]. exists s', o, u'. split; [done|]. split; [done|]. split; [|split; [|split; [|left; lia]]].
  - unfold ops_ok. rewrite Hm. apply map_Forall_insert_2; [by apply Hr | done].
  - rewrite Hm, map_size_insert_None by done. lia.
  - intros i x Hi _. rewrite Hm, lookup_insert_ne; [done | congruence].
Qed.

Lemma read_aiocb_ok n u : utcb_ok u -> uint 64 n ->
  (exists cb, read_aiocb n u = Done (Ok cb)) \/ read_aiocb n u = Done (Err tt).
Proof.
  intros Hu Hn. destruct br_data_bytes as [Hbd Hr]. pose proof size_aiocb_range. unfold read_aiocb, uint in *.
  destruct ((n =? 0) || (BR_DATA_BYTES <? n))%bool eqn:E1; [by right|].
  destruct (br_bytes u <? n) eqn:E2; [by right|]. left. unfold br_bytes in E2. zb.
  destruct (br_load_ok u (Z.min n SIZE_aiocb)) as (-> & _); [done | lia | lia |]. by eexists.
Qed.

(** A successful [perform_read] has as many bytes as its result. *)
Lemma perform_read_ok fd len off o buffer res o' : uint 64 len -> perform_read fd len off o = (Ok (buffer, res), o') ->
  zlen buffer = res /\ bytes_ok buffer /\ 0 <= res <= BR_DATA_BYTES.
Proof.
  intros Hlen. unfold perform_read. destruct (_ <? _) eqn:E1; [done|].
  destruct (sys_fd _ _) as [[r out] o1] eqn:E. destruct (r <? 0) eqn:E2; [done|]. intros [= <- <- <-]. zb.
  destruct (call_out _ _ _ _ _ E) as ((_ & Hmax) & Hz & Hb). cbn [res_max out_len] in *. unfold uint in Hlen.
  split; [|split; [by apply buf_of_ok | lia]].
  unfold buf_of, mwrite. change (Z.to_nat 0) with 0%nat. rewrite take_0, app_nil_l, take_app_length'; [lia|].
  unfold zlen in *. lia.
Qed.

Lemma nil_op_ok k fd r : k <> OpRead -> op_ok {| op_kind := k; op_fd := fd; op_result := r; op_error := 0; op_buffer := [] |}.
Proof. intros. destruct br_data_bytes as [_ ?]. split; [done|]. split; [constructor|]. split; [change (0 <= BR_DATA_BYTES); lia | done]. Qed.

Lemma read_served s o u : utcb_ok u -> ops_ok s -> Z.of_nat (size (slab_map s)) < 2 ^ 62 -> AioServed s u (handle_aio_read s o u).
Proof.
  intros Hu Hs Hsz. unfold handle_aio_read. destruct (mr_get_ok u 1) as (n & -> & Hn); [done | lia|]. estep.
  destruct (read_aiocb_ok n u Hu Hn) as [[cb ->] | ->]; estep; [|apply aio_answer; auto using neg_errno_range].
  destruct (read_buffer_from_aiocb cb) as [len off] eqn:Eb. injection Eb as <- <-.
  destruct (perform_read _ _ _ _) as [r o1] eqn:Er. apply submit_served; [done.. |]. intros op Hop.
  destruct r as [[buffer res]|]; [|done]. cbn in Hop. injection Hop as <-.
  destruct (perform_read_ok _ _ _ _ _ _ _ (aio_nbytes_range cb) Er) as (Hz & Hb & Hr).
  split; [done|]. split; [done|]. cbn. split; [lia | done].
Qed.

Lemma write_served s o u : utcb_ok u -> ops_ok s -> Z.of_nat (size (slab_map s)) < 2 ^ 62 -> AioServed s u (handle_aio_write s o u).
Proof.
  intros Hu Hs Hsz. unfold handle_aio_write. destruct (mr_get_ok u 1) as (n & -> & Hn); [done | lia|]. estep.
  destruct (mr_get_ok u 2) as (k & -> & Hk); [done | lia|]. estep. destruct br_data_bytes as [Hbd Hr]. pose proof size_aiocb_range.
  destruct (_ <? _) eqn:E; [apply aio_answer; auto using neg_errno_range|]. zb. unfold br_bytes, saturating_add, uint in *.
  assert (n + k <= BR_DATA_BYTES) by lia. destruct (br_load_ok u (Z.min n SIZE_aiocb)) as (-> & _); [done | lia | lia |]. estep.
  destruct Hu as (Hu1 & Hu2 & Hu3 & Hu4). rewrite peek_inside by lia. estep.
  destruct (perform_write _ _ _ _) as [r o1]. apply submit_served; [done.. |]. intros op Hop.
  destruct r; [|done]. injection Hop as <-. by apply nil_op_ok.
Qed.

Lemma fsync_served s o u : utcb_ok u -> ops_ok s -> Z.of_nat (size (slab_map s)) < 2 ^ 62 -> AioServed s u (handle_aio_fsync s o u).
Proof.
  intros Hu Hs Hsz. unfold handle_aio_fsync. destruct (mr_get_ok u 1) as (n & -> & Hn); [done | lia|]. estep.
  destruct (mr_get_ok u 3) as (k & -> & Hk); [done | lia|]. estep.
  destruct (read_aiocb_ok n u Hu Hn) as [[cb ->] | ->]; estep; [|apply aio_answer; auto using neg_errno_range].
  destruct (perform_fsync _ _ _) as [r o1]. apply submit_served; [done.. |]. intros op Hop.
  destruct r; [|done]. injection Hop as <-. by apply nil_op_ok.
Qed.

(** The two handlers that take an entry. *)
Lemma taken s o u u' h : utcb_ok u' -> takes u h -> ops_ok s -> is_Some (slab_map s !! h) -> reply_fits u u' ->
  AioServed s u (Done (slab_remove s h, o, u')).
Proof.
  intros Hu' Ht Hs [op Hh] Hf. destruct (remove_ops s h op Hs Hh) as (? & ? & Hm).
  exists (slab_remove s h), o, u'. split; [done|]. split; [done|]. split; [done|]. split; [done|]. split; [|done].
  intros i x Hi Hn. rewrite Hm, lookup_delete_ne; [done | congruence].
Qed.

(** What [AIO_RETURN] leaves for a recorded operation. *)
Lemma return_gives s o u h op : utcb_ok u -> mr_get u 1 = Done h -> slab_map s !! h = Some op -> op_ok op ->
  exists u', handle_aio_return s o u = Done (slab_remove s h, o, u') /\ utcb_ok u' /\ br_len u' <= BR_DATA_BYTES
    /\ mr u' !! 0%nat = Some (wrap 64 (op_result op))
    /\ (op_kind op = OpRead -> mr u' !! 1%nat = Some (zlen (op_buffer op)) /\ br_len u' = zlen (op_buffer op)
          /\ mread (br u') 8 (zlen (op_buffer op)) = op_buffer op).
Proof.
  intros Hu H1 Hh (He & Hb & Hfit & Hres). destruct br_data_bytes as [Hbd Hr]. pose proof (zlen_nonneg (op_buffer op)).
  unfold handle_aio_return. rewrite H1. estep. unfold slab_get. rewrite Hh, He. cbn [negb Z.eqb].
  assert (4 <= length (mr u))%nat as Hlen by (destruct Hu as (Hz & _); pose proof generic_data_range; unfold zlen in Hz; lia).
  destruct (mr_set_ok u 0 (wrap 64 (op_result op))) as (u1 & -> & Hu1 & Hm1 & Hb1); [done | lia | apply wrap_range; lia|]. estep.
  assert (exists v u2, mr_set 1 v u1 = Done u2) as Hany by (destruct (mr_set_ok u1 1 0) as (u2 & ? & _); [done | lia | apply zero_range | eauto]).
  destruct (op_kind op) eqn:Ek.
  - destruct (mr_set_ok u1 1 (zlen (op_buffer op))) as (u2 & -> & Hu2 & Hm2 & Hb2); [done | lia | unfold uint; lia|]. estep.
    destruct (br_write_bytes_ok (op_buffer op) u2 Hu2 Hb) as (u3 & -> & Hu3 & Hm3 & Hl3 & Hr3). estep.
    rewrite Z.min_l in Hl3, Hr3 by lia. exists u3. split; [done|]. split; [done|]. split; [lia|].
    rewrite Hm3, Hm2, Hm1. split; [|split; [|split; [done|]]].
    + change (Z.to_nat 0) with 0%nat. change (Z.to_nat 1) with 1%nat. rewrite list_lookup_insert_ne by lia. apply list_lookup_insert_eq. lia.
    + change (Z.to_nat 1) with 1%nat. apply list_lookup_insert_eq. rewrite length_insert. lia.
    + rewrite Hr3. apply take_ge. unfold zlen in *. lia.
  - destruct (mr_set_ok u1 1 0) as (u2 & -> & Hu2 & Hm2 & Hb2); [done | lia | apply zero_range|]. estep.
    destruct (br_clear_ok u2 Hu2) as (? & Hm3 & Hl3). exists (br_clear u2). split; [done|]. split; [done|]. split; [lia|].
    rewrite Hm3, Hm2, Hm1. change (Z.to_nat 0) with 0%nat. change (Z.to_nat 1) with 1%nat.
    split; [rewrite list_lookup_insert_ne by lia; apply list_lookup_insert_eq; lia | done].
  - destruct (mr_set_ok u1 1 0) as (u2 & -> & Hu2 & Hm2 & Hb2); [done | lia | apply zero_range|]. estep.
    destruct (br_clear_ok u2 Hu2) as (? & Hm3 & Hl3). exists (br_clear u2). split; [done|]. split; [done|]. split; [lia|].
    rewrite Hm3, Hm2, Hm1. change (Z.to_nat 0) with 0%nat. change (Z.to_nat 1) with 1%nat.
    split; [rewrite list_lookup_insert_ne by lia; apply list_lookup_insert_eq; lia | done].
Qed.

Lemma return_served s o u : utcb_ok u -> mr_get u 0 = Done AIO_RETURN -> ops_ok s -> AioServed s u (handle_aio_return s o u).
Proof.
  intros Hu H0 Hs. destruct (mr_get_ok u 1) as (h & H1 & _); [done | lia|].
  destruct (slab_map s !! h) as [op|] eqn:Hh.
  - destruct (return_gives s o u h op Hu H1 Hh (Hs _ _ Hh)) as (u' & -> & Hu' & Hl & _).
    apply taken; [done | exists AIO_RETURN; auto | done | by rewrite Hh | by left].
  - unfold handle_aio_return. rewrite H1. estep. unfold slab_get. rewrite Hh. apply aio_answer; auto using neg_errno_range.
Qed.

Lemma cancel_served s o u : utcb_ok u -> mr_get u 0 = Done AIO_CANCEL -> ops_ok s -> AioServed s u (handle_aio_cancel s o u).
Proof.
  intros Hu H0 Hs. destruct (mr_get_ok u 1) as (h & H1 & _); [done | lia|]. destruct br_data_bytes as [_ Hr].
  assert (uint 64 (wrap 64 AIO_ALLDONE)) as Hv by (apply wrap_range; lia).
  unfold handle_aio_cancel. rewrite H1. estep. unfold slab_contains. case_bool_decide as Hd; [|by apply aio_answer].
  destruct (answer_gives (slab_remove s h) o u _ Hu Hv) as (u' & -> & Hu' & _ & Hl).
  apply taken; [done | exists AIO_CANCEL; auto | done | done | left; lia].
Qed.

Lemma aio_dispatch_served s o u : utcb_ok u -> ops_ok s -> Z.of_nat (size (slab_map s)) < 2 ^ 62 ->
  AioServed s u (dispatch s o u).
Proof.
  intros Hu Hs Hsz. destruct (mr_get_ok u 0) as (op & H0 & _); [done | lia|].
  destruct (mr_get_ok u 1) as (h & H1 & _); [done | lia|]. unfold dispatch. rewrite H0. estep.
  repeat case_match; zb; subst; first
    [ by apply read_served | by apply write_served | by apply fsync_served | by apply return_served | by apply cancel_served
    | try unfold handle_aio_error; try unfold handle_aio_suspend; try unfold handle_lio_listio; rewrite ?H1; estep;
      repeat case_match; apply aio_answer; auto using neg_errno_range, zero_range; apply wrap_range; lia ].
Qed.

(** ** The loop *)
Definition announced (u : Utcb) (r : Z * Utcb) : Prop := r.1 = l4_msgtag 0 2 0 0 /\ utcb_ok r.2 /\ reply_fits u r.2.

Lemma aio_run_loop_served incoming : forall s o, Forall good_incoming incoming -> ops_ok s ->
  Z.of_nat (size (slab_map s)) + zlen incoming < 2 ^ 62 ->
  exists s' o' rs, run_loop incoming s o = Done (s', o', rs) /\ ops_ok s'
    /\ Z.of_nat (size (slab_map s')) <= Z.of_nat (size (slab_map s)) + zlen incoming
    /\ Forall2 announced (requests incoming) rs
    /\ (forall i op, slab_map s !! i = Some op -> Forall (fun u => ~ takes u i) (requests incoming) -> slab_map s' !! i = Some op).
Proof.
  induction incoming as [|[|u] rest IH]; intros s o Hg Hs Hsz; cbn [run_loop]; rewrite ?zlen_cons in Hsz |- *.
  - eexists _, _, _. split; [done|]. split; [done|]. split; [rewrite zlen_nil; lia|]. split; [constructor | auto].
  - inversion Hg; subst. destruct (IH s o) as (s' & o' & rs & ? & ? & ? & ?); [done | done | lia|]. cbn [requests omap list_omap].
    exists s', o', rs. destruct_and!. split; [done|]. split; [done|]. split; [lia | done].
  - inversion Hg as [|? ? Hu Hg']; subst. pose proof (zlen_nonneg rest).
    destruct (aio_dispatch_served s o u Hu Hs) as (s1 & o1 & u1 & -> & Hu1 & Hs1 & Hz1 & Hk1 & Hf1); [lia|]. estep.
    destruct (IH s1 o1) as (s2 & o2 & rs & -> & Hs2 & Hz2 & Hr2 & Hk2); [done | done | lia|]. estep.
    eexists _, _, _. split; [done|]. split; [done|]. split; [lia|]. split; [by constructor|].
    intros i op Hi Hn. inversion Hn; subst. auto.
Qed.

Lemma run_loop_app a b : forall s o,
  run_loop (a ++ b) s o = ('(s, o, rs) ← run_loop a s o; '(s, o, rs') ← run_loop b s o; Done (s, o, rs ++ rs')).
Proof.
  induction a as [|[|u] a IH]; intros s o; cbn [app run_loop].
  - estep. destruct (run_loop b s o) as [[[? ?] ?]| | |]; done.
  - apply IH.
  - destruct (dispatch s o u) as [[[s1 o1] u1]| | |]; [|done..]. estep. rewrite IH.
    destruct (run_loop a s1 o1) as [[[s2 o2] rs]| | |]; [|done..]. estep.
    destruct (run_loop b s2 o2) as [[[? ?] ?]| | |]; done.
Qed.

(** C22: whatever requests arrive, the server never panics and never leaves
    the UTCB; it answers each request once, and only successes are ever recorded: the
    error of every operation behind a key is 0, and a read's bytes are as many as its
    result and fit one reply. *)
Theorem aio_server_serves gate bind_error incoming o :
  bind_error gate = 0 -> Forall good_incoming incoming -> zlen incoming < 2 ^ 62 ->
  exists s' o' rs, run (Some gate) bind_error incoming o = Done (s', o', rs)
    /\ ops_ok s' /\ Forall2 announced (requests incoming) rs.
Proof.
  intros Hb Hg Hz. unfold run. cbn [unwrap]. estep. rewrite Hb. cbn [negb Z.eqb].
  destruct (aio_run_loop_served incoming slab_new o Hg) as (s' & o' & rs & ? & ? & _ & ? & _).
  - unfold ops_ok. rewrite slab_new_map. apply map_Forall_empty.
  - by rewrite slab_new_map, map_size_empty.
  - eauto 10.
Qed.

(** The control block a request carries. *)
Definition request_aiocb (n : Z) (u : Utcb) : list Z := zeroed_with (mread (br u) 8 (Z.min n SIZE_aiocb)).

Lemma submit_read s o u n res out o1 : utcb_ok u -> ops_ok s -> Z.of_nat (size (slab_map s)) < 2 ^ 62 ->
  mr u !! 0%nat = Some AIO_READ -> mr u !! 1%nat = Some n -> 0 < n <= BR_DATA_BYTES -> n <= br_len u ->
  let cb := request_aiocb n u in
  aio_nbytes cb <= BR_DATA_BYTES ->
  sys_fd (Pread (aio_fildes cb) (aio_nbytes cb) (aio_offset cb)) o = (res, out, o1) -> 0 <= res ->
  exists h s1 u1, dispatch s o u = Done (s1, o1, u1) /\ utcb_ok u1 /\ mr u1 !! 0%nat = Some h
    /\ slab_map s !! h = None
    /\ slab_map s1 = <[h := {| op_kind := OpRead; op_fd := aio_fildes cb; op_result := res; op_error := 0; op_buffer := out |}]> (slab_map s)
    /\ zlen out = res /\ bytes_ok out /\ res <= BR_DATA_BYTES.
Proof.
  intros Hu Hs Hsz H0 H1 Hn Hl cb Hnb Hsys Hres. destruct br_data_bytes as [Hbd Hr]. pose proof size_aiocb_range.
  pose proof (br_len_range u Hu) as Hlr. unfold uint in Hlr.
  assert (read_aiocb n u = Done (Ok cb)) as Hcb.
  { unfold read_aiocb, br_bytes. zif_false. zif_false. cbn [orb]. zif_false.
    destruct (br_load_ok u (Z.min n SIZE_aiocb)) as (-> & _); [done | lia | lia | done]. }
  pose proof (aio_nbytes_range cb) as Hnr.
  assert (perform_read (aio_fildes cb) (aio_nbytes cb) (aio_offset cb) o = (Ok (buf_of (aio_nbytes cb) res out, res), o1)) as Hp
    by (unfold perform_read; zif_false; rewrite Hsys; by zif_false).
  destruct (perform_read_ok _ _ _ _ _ _ _ Hnr Hp) as (Hz & Hb & Hr').
  destruct (call_out _ _ _ _ _ Hsys) as (_ & Hzo & Hbo). cbn [out_len] in Hzo.
  assert (buf_of (aio_nbytes cb) res out = out) as Hbuf.
  { unfold buf_of, mwrite. change (Z.to_nat 0) with 0%nat. rewrite take_0, app_nil_l, take_app_length'; [done|].
    unfold zlen in *. lia. }
  rewrite Hbuf in *. unfold dispatch. rewrite (mr_get_lookup u 0 _ H0) by lia. estep. cbn [Z.eqb AIO_READ].
  unfold handle_aio_read. rewrite (mr_get_lookup u 1 _ H1) by lia. estep. rewrite Hcb. estep. unfold read_buffer_from_aiocb. rewrite Hp. cbn [result_bind submit].
  match goal with |- context [slab_insert s ?op] => destruct (slab_insert_spec _ s op) as (Hk & Hnone & Hm);
    destruct (slab_insert s op) as [h s1] end. cbn [fst snd] in *. specialize (Hk Hsz).
  destruct (answer_gives s1 o1 u h Hu) as (u1 & -> & Hu1 & Hm1 & _); [unfold uint in *; lia|].
  exists h, s1, u1. split; [done|]. split; [done|]. split; [done|]. split; [done|]. split; [done|]. split; [lia|]. split; [done | lia].
Qed.

(** C23: the bytes a read got from the kernel reach the client whole: the
    answer to [AIO_READ] is a key, and after any further requests that do not take it,
    [AIO_RETURN] for the key answers with the result in register 0, the
    length in register 1 and the bytes as payload, and the key is free again. *)
Theorem aio_read_roundtrip s o u n res out o1 :
  utcb_ok u -> ops_ok s -> mr u !! 0%nat = Some AIO_READ -> mr u !! 1%nat = Some n ->
  0 < n <= BR_DATA_BYTES -> n <= br_len u -> aio_nbytes (request_aiocb n u) <= BR_DATA_BYTES ->
  Z.of_nat (size (slab_map s)) + 1 < 2 ^ 62 ->
  sys_fd (Pread (aio_fildes (request_aiocb n u)) (aio_nbytes (request_aiocb n u)) (aio_offset (request_aiocb n u))) o = (res, out, o1) ->
  0 <= res ->
  exists h u1, mr u1 !! 0%nat = Some h /\ slab_map s !! h = None /\
    forall between ret, Forall good_incoming between -> Forall (fun u => ~ takes u h) (requests between) ->
      Z.of_nat (size (slab_map s)) + 1 + zlen between < 2 ^ 62 ->
      utcb_ok ret -> mr ret !! 0%nat = Some AIO_RETURN -> mr ret !! 1%nat = Some h ->
      exists s' o' rs u', run_loop (Request u :: between ++ [Request ret]) s o
          = Done (s', o', (l4_msgtag 0 2 0 0, u1) :: rs ++ [(l4_msgtag 0 2 0 0, u')])
        /\ mr u' !! 0%nat = Some res /\ mr u' !! 1%nat = Some res /\ br_len u' = res /\ mread (br u') 8 res = out
        /\ slab_map s' !! h = None.
Proof.
  intros Hu Hs H0 H1 Hn Hl Hnb Hsz Hsys Hres. destruct br_data_bytes as [Hbd Hbr].
  destruct (submit_read s o u n res out o1 Hu Hs ltac:(lia) H0 H1 Hn Hl Hnb Hsys Hres)
    as (h & s1 & u1 & Hd & Hu1 & Hh & Hnone & Hm & Hz & Hb & Hfit).
  exists h, u1. split; [done|]. split; [done|]. intros between ret Hgb Hnt Hszb Hur R0 R1.
  assert (ops_ok s1) as Hs1. { unfold ops_ok. rewrite Hm. apply map_Forall_insert_2; [|done]. split; [done|]. split; [done|]. cbn. split; [lia | done]. }
  destruct (aio_run_loop_served between s1 o1 Hgb Hs1) as (s2 & o2 & rs & Hr2 & Hs2 & _ & _ & Hk2);
    [rewrite Hm, map_size_insert_None by done; lia|].
  specialize (Hk2 h _ ltac:(rewrite Hm; apply lookup_insert_eq) Hnt).
  destruct (return_gives s2 o2 ret h _ Hur (mr_get_lookup ret 1 h R1 ltac:(lia)) Hk2 (Hs2 _ _ Hk2)) as (u' & Hret & Hu' & _ & Hm0 & Hread).
  specialize (Hread eq_refl). cbn [op_buffer op_result] in *. destruct Hread as (Hm1 & Hl' & Hp).
  destruct (remove_ops s2 h _ Hs2 Hk2) as (_ & _ & Hdel).
  exists (slab_remove s2 h), o2, rs, u'. split.
  - cbn [run_loop]. rewrite Hd. estep. rewrite run_loop_app, Hr2. estep. cbn [run_loop]. unfold dispatch.
    rewrite (mr_get_lookup ret 0 _ R0) by lia. estep. cbn [Z.eqb Pos.eqb AIO_RETURN AIO_READ AIO_WRITE AIO_ERROR].
    rewrite Hret. done.
  - rewrite Hz in *. rewrite wrap_id in Hm0 by (unfold uint; lia). rewrite Hdel, lookup_delete_eq. done.
Qed.

(** [AIO_RETURN] takes the operation: a second one for the same key, like
    one for a key never given, is answered with [EINVAL] and changes nothing. *)
Theorem aio_return_takes s o u h op : utcb_ok u -> ops_ok s -> mr u !! 1%nat = Some h -> slab_map s !! h = Some op ->
  exists s1 u1 u2, handle_aio_return s o u = Done (s1, o, u1) /\ slab_map s1 = delete h (slab_map s)
    /\ mr u1 !! 0%nat = Some (wrap 64 (op_result op))
    /\ handle_aio_return s1 o u = Done (s1, o, u2) /\ mr u2 !! 0%nat = Some (neg_errno EINVAL).
Proof.
  intros Hu Hs H1 Hh. pose proof (mr_get_lookup u 1 h H1 ltac:(lia)) as G1.
  destruct (return_gives s o u h op Hu G1 Hh (Hs _ _ Hh)) as (u1 & Hr & _ & _ & Hm0 & _).
  destruct (remove_ops s h op Hs Hh) as (_ & _ & Hdel).
  destruct (answer_gives (slab_remove s h) o u (neg_errno EINVAL) Hu) as (u2 & Ha & _ & Hm2 & _); [auto with rust|].
  exists (slab_remove s h), u1, u2. split; [done|]. split; [done|]. split; [done|]. split; [|done].
  unfold handle_aio_return. rewrite G1. estep. unfold slab_get. by rewrite Hdel, lookup_delete_eq.
Qed.
End Server.

(** * Witnesses *)
Module Concrete.
#[local] Existing Instance l4re_utcb_consts.
#[local] Existing Instance map_slab.
#[local] Existing Instance small_linux.
(** The layout of the C library: [aio_fildes] first, [aio_nbytes] at 24 and
    [aio_offset] at 128. *)
#[local] Instance layout : AiocbLayout.
Proof.
  refine {| aio_fildes := fun cb => swrap 32 (le_num (mread cb 0 4)); aio_nbytes := fun cb => wrap 64 (le_num (mread cb 24 8));
    aio_offset := fun cb => swrap 64 (le_num (mread cb 128 8)) |}.
  intros. apply wrap_range. lia.
Defined.

(** A request to read 5 bytes of descriptor 3, with the control block behind
    its length word. *)
Definition aiocb_bytes : list Z := le_bytes 8 168 ++ le_bytes 24 3 ++ le_bytes 8 5 ++ replicate 136 0.
Definition read5 : Utcb := {| mr := AIO_READ :: 168 :: replicate 61 0; br := aiocb_bytes ++ replicate 288 0 |}.
Definition no_ops : slab Operation := (∅ : gmap Z Operation).
Definition fd3 : os := ({[ 3 ]} : gset Z).
Lemma read5_ok : utcb_ok read5.
Proof.
  split; [done|]. split; [|split; [done | by apply bytes_okb_ok]].
  apply Forall_cons_2; [unfold uint, AIO_READ; lia|]. apply Forall_cons_2; [unfold uint; lia|].
  apply Forall_replicate. unfold uint. lia.
Qed.
Lemma no_ops_ok : ops_ok no_ops.
Proof. apply map_Forall_empty. Qed.

Lemma aio_server_serves_witness : exists s' o' rs,
  run (Some 7) (fun _ => 0) [Request read5; IpcError] fd3 = Done (s', o', rs) /\ ops_ok s' /\ Forall2 announced [read5] rs.
Proof.
  apply (aio_server_serves 7 (fun _ => 0) [Request read5; IpcError] fd3); [done | | done].
  apply Forall_cons_2; [apply read5_ok|]. apply Forall_cons_2; [exact I | apply Forall_nil_2].
Defined.

Lemma aio_read_roundtrip_witness :
  exists h u1, mr u1 !! 0%nat = Some h /\ slab_map no_ops !! h = None /\
    forall between ret, Forall good_incoming between -> Forall (fun u => ~ takes u h) (requests between) ->
      Z.of_nat (size (slab_map no_ops)) + 1 + zlen between < 2 ^ 62 ->
      utcb_ok ret -> mr ret !! 0%nat = Some AIO_RETURN -> mr ret !! 1%nat = Some h ->
      exists s' o' rs u', run_loop (Request read5 :: between ++ [Request ret]) no_ops fd3
          = Done (s', o', (l4_msgtag 0 2 0 0, u1) :: rs ++ [(l4_msgtag 0 2 0 0, u')])
        /\ mr u' !! 0%nat = Some 5 /\ mr u' !! 1%nat = Some 5 /\ br_len u' = 5 /\ mread (br u') 8 5 = replicate 5 1
        /\ slab_map s' !! h = None.
Proof.
  apply (aio_read_roundtrip no_ops fd3 read5 168 5 (replicate 5 1) fd3);
    [apply read5_ok | apply no_ops_ok | done | done | split; done | done | done | done | done | done].
Defined.

Definition done_op : Operation := {| op_kind := OpFsync; op_fd := 3; op_result := 0; op_error := 0; op_buffer := [] |}.
Definition one_op : slab Operation := ({[ 168 := done_op ]} : gmap Z Operation).
Lemma aio_return_takes_witness : exists s1 u1 u2,
  handle_aio_return one_op fd3 read5 = Done (s1, fd3, u1)
  /\ slab_map s1 = delete 168 (slab_map one_op)
  /\ mr u1 !! 0%nat = Some (wrap 64 (op_result done_op))
  /\ handle_aio_return s1 fd3 read5 = Done (s1, fd3, u2) /\ mr u2 !! 0%nat = Some (neg_errno EINVAL).
Proof.
  apply (aio_return_takes one_op fd3 read5 168 done_op);
    [apply read5_ok | by apply map_Forall_singleton, nil_op_ok | done | done].
Defined.
End Concrete.
End AioServer.
