(* ===== verification/VirtioDisk.v ===== *)
(** [src/src/fs_server/src/virtio.rs]: the block driver of the file server and the
    byte-addressed disk ([Read], [Write], [Seek]) it makes of the sectors.

    [VirtioBlk::transfer] publishes a chain of three descriptors (header, data,
    status) in a virtqueue and waits.  A descriptor's address is one of the
    three regions the driver points at; the device is a parameter ([BlkDevice]).
    The driver marks descriptors with 2 for "next" and 1 for "device writes" (so its
    comments say), and [BlkLaws] describes a device that agrees with the driver on
    this; the virtio specification has the two numbers the other way round, and
    [VirtioConforming] describes a device that follows it.  Every message
    the thread takes in the driver's open wait is counted ([taken]): such a
    message may be a client's request, which is then lost.

    Shown: [read] and [write] of the disk are reads and writes of one flat
    array of bytes, at any position and of any length, across sector boundaries,
    and leave every other byte alone ([disk_read_correct], [disk_write_correct]) with
    a device that reads the flags as the driver does; and that a device that reads them as virtio says finds
    neither data nor status in the chain, so that every transfer moves nothing and
    reports success ([transfer_reaches_no_data]). *)
From S2P Require Import Prelude.
From Stdlib Require Import ZArith Lia.
From stdpp Require Import base list list_numbers.
Open Scope Z_scope.

Module VirtioDisk.

(** * The queue *)
Definition QUEUE_SIZE : Z := 8.
(** The regions [transfer] takes the address of. *)
Inductive Region := Null | Header | Data | Status.
Record VirtqDesc := { desc_addr : Region; desc_len : Z; desc_flags : Z; desc_next : Z }.
Record VirtqAvail := { avail_flags : Z; avail_idx : Z; avail_ring : list Z; used_event : Z }.
Record VirtqUsedElem := { used_id : Z; used_len : Z }.
Record VirtqUsed := { used_flags : Z; used_idx : Z; used_ring : list VirtqUsedElem; avail_event : Z }.
Record VirtQueue := { desc : list VirtqDesc; avail : VirtqAvail; used : VirtqUsed }.

Definition VirtQueue_new : VirtQueue :=
  let DESC := {| desc_addr := Null; desc_len := 0; desc_flags := 0; desc_next := 0 |} in
  let USED_ELEM := {| used_id := 0; used_len := 0 |} in
  {| desc := replicate (Z.to_nat QUEUE_SIZE) DESC;
     avail := {| avail_flags := 0; avail_idx := 0; avail_ring := replicate (Z.to_nat QUEUE_SIZE) 0; used_event := 0 |};
     used := {| used_flags := 0; used_idx := 0; used_ring := replicate (Z.to_nat QUEUE_SIZE) USED_ELEM; avail_event := 0 |} |}.

Record VirtioBlkReq := { req_type : Z; reserved : Z; req_sector : Z }.
(** What the regions hold during a transfer. *)
Record ReqMem := { m_header : VirtioBlkReq; m_data : list Z; m_status : Z }.

(** The chain of a transfer, at the place of the ring published last. *)
Definition chain_published (q : VirtQueue) (len : Z) (read : bool) : Prop :=
  avail_ring (avail q) !! Z.to_nat (wrap 16 (avail_idx (avail q) - 1) `mod` QUEUE_SIZE) = Some 0
  /\ desc q !! 0%nat = Some {| desc_addr := Header; desc_len := 16; desc_flags := 2; desc_next := 1 |}
  /\ desc q !! 1%nat = Some {| desc_addr := Data; desc_len := len; desc_flags := if read then 3 else 2; desc_next := 2 |}
  /\ desc q !! 2%nat = Some {| desc_addr := Status; desc_len := 1; desc_flags := 1; desc_next := 0 |}.

(** A block device the driver is written for: a store of 512-byte sectors, and what it does to
    queue and regions when it runs.  [BlkLaws]: for a published
    chain it sets the status; on 0 the data region (read) or the sector (write)
    has the other's bytes, and no other sector changes. *)
Class BlkDevice := {
  dev : Type;
  sector_of : dev -> Z -> list Z;
  device_step : VirtQueue -> ReqMem -> dev -> VirtqUsed * ReqMem * dev;
}.
Class BlkLaws (D : BlkDevice) : Prop := {
  sector_len : forall d s, length (sector_of d s) = 512%nat;
  device_read : forall q h bs st d, chain_published q 512 true -> req_type h = 0 -> length bs = 512%nat ->
    exists u st' bs', device_step q {| m_header := h; m_data := bs; m_status := st |} d
        = (u, {| m_header := h; m_data := bs'; m_status := st' |}, d)
      /\ length bs' = 512%nat /\ (st' = 0 -> bs' = sector_of d (req_sector h));
  device_write : forall q h bs st d, chain_published q 512 false -> req_type h = 1 -> length bs = 512%nat ->
    exists u st' d', device_step q {| m_header := h; m_data := bs; m_status := st |} d
        = (u, {| m_header := h; m_data := bs; m_status := st' |}, d')
      /\ (forall s, s <> req_sector h -> sector_of d' s = sector_of d s)
      /\ (st' = 0 -> sector_of d' (req_sector h) = bs);
}.

Record VirtioBlk := { device : Z; irq : Z; queue : VirtQueue }.
Inductive ErrorKind := Other | Unsupported | InvalidInput.
Inductive SeekFrom := SeekStart (off : Z) | SeekCurrent (off : Z) | SeekEnd (off : Z).

Section Disk.
Context {BD : Build} {D : BlkDevice}.

(** The driver, the device and the number of messages its open waits took. *)
Record World := { blk : VirtioBlk; the_dev : dev; taken : nat }.

Definition VirtioBlk_new (env : nat -> option Z) : option VirtioBlk :=
  device ← env 0%nat; irq ← env 1%nat;
  Some {| device := device; irq := irq; queue := VirtQueue_new |}.

Definition transfer (sector : Z) (buf : list Z) (read : bool) (w : World) : result unit unit * list Z * World :=
  let header := {| req_type := if read then 0 else 1; reserved := 0; req_sector := sector |} in
  let q := queue (blk w) in
  let d0 := {| desc_addr := Header; desc_len := 16; desc_flags := 0x2; desc_next := 1 |} in
  let d1 := {| desc_addr := Data; desc_len := wrap 32 (zlen buf);
               desc_flags := if read then Z.lor 0x2 0x1 else 0x2; desc_next := 2 |} in
  let d2 := {| desc_addr := Status; desc_len := 1; desc_flags := 0x1; desc_next := 0 |} in
  let a := avail q in
  let idx := avail_idx a `mod` QUEUE_SIZE in
  let a := {| avail_flags := avail_flags a; avail_idx := wrap 16 (avail_idx a + 1);
              avail_ring := <[Z.to_nat idx := 0]> (avail_ring a); used_event := used_event a |} in
  let q := {| desc := <[2%nat := d2]> (<[1%nat := d1]> (<[0%nat := d0]> (desc q))); avail := a; used := used q |} in
  (* the device works; [l4_ipc_receive] takes its interrupt, [l4_ipc_wait] any message *)
  let '(u, m, d) := device_step q {| m_header := header; m_data := buf; m_status := 0 |} (the_dev w) in
  let q := {| desc := desc q; avail := avail q; used := u |} in
  let w := {| blk := {| device := device (blk w); irq := irq (blk w); queue := q |}; the_dev := d; taken := S (taken w) |} in
  (if m_status m =? 0 then Ok tt else Err tt, m_data m, w).

Definition read_sector (sector : Z) (buf : list Z) (w : World) : result unit unit * list Z * World :=
  transfer sector buf true w.
(** The copy of the caller's bytes is dropped. *)
Definition write_sector (sector : Z) (buf : list Z) (w : World) : result unit unit * World :=
  let '(r, _, w) := transfer sector buf false w in (r, w).

(** * The disk *)
Record Disk := { world : World; pos : Z; sector_size : Z }.
Definition VirtioDisk_new (env : nat -> option Z) (d : dev) : option Disk :=
  driver ← VirtioBlk_new env;
  Some {| world := {| blk := driver; the_dev := d; taken := 0 |}; pos := 0; sector_size := 512 |}.

(** [dst.copy_from_slice(src)] on the range [off .. off + n]. *)
Definition copy_range (dst : list Z) (off n : Z) (src : list Z) : exec (list Z) :=
  if (0 <=? off) && (off + n <=? zlen dst) && (zlen src =? n) then Done (mwrite dst off src) else Panics.
Definition slice_range (src : list Z) (off n : Z) : exec (list Z) :=
  if (0 <=? off) && (0 <=? n) && (off + n <=? zlen src) then Done (mread src off n) else Panics.

Fixpoint read_loop (fuel : nat) (buf : list Z) (done : Z) (d : Disk) : exec (result ErrorKind Z * list Z * Disk) :=
  match fuel with
  | O => NoFuel
  | S fuel =>
      if done <? zlen buf then
        let sector := pos d `div` sector_size d in
        let offset := pos d `mod` sector_size d in
        let '(r, blk, w) := read_sector sector (replicate 512 0) (world d) in
        let d := {| world := w; pos := pos d; sector_size := sector_size d |} in
        match r with
        | Err _ => Done (Err Other, buf, d)
        | Ok _ =>
            let count := Z.min (sector_size d - offset) (zlen buf - done) in
            part ← slice_range blk offset count;
            buf ← copy_range buf done count part;
            p ← uadd 64 (pos d) count;
            read_loop fuel buf (done + count) {| world := world d; pos := p; sector_size := sector_size d |}
        end
      else Done (Ok done, buf, d)
  end.
(** Each round moves at least one byte: one more round than bytes is enough. *)
Definition disk_read (buf : list Z) (d : Disk) : exec (result ErrorKind Z * list Z * Disk) :=
  read_loop (S (length buf)) buf 0 d.

Fixpoint write_loop (fuel : nat) (buf : list Z) (done : Z) (d : Disk) : exec (result ErrorKind Z * Disk) :=
  match fuel with
  | O => NoFuel
  | S fuel =>
      if done <? zlen buf then
        let sector := pos d `div` sector_size d in
        let offset := pos d `mod` sector_size d in
        let blk := replicate 512 0 in
        let '(r, blk, w) :=
          if negb (offset =? 0) || (zlen buf - done <? sector_size d) then read_sector sector blk (world d)
          else (Ok tt, blk, world d) in
        let d := {| world := w; pos := pos d; sector_size := sector_size d |} in
        match r with
        | Err _ => Done (Err Other, d)
        | Ok _ =>
            let count := Z.min (sector_size d - offset) (zlen buf - done) in
            part ← slice_range buf done count;
            blk ← copy_range blk offset count part;
            let '(r, w) := write_sector sector blk (world d) in
            let d := {| world := w; pos := pos d; sector_size := sector_size d |} in
            match r with
            | Err _ => Done (Err Other, d)
            | Ok _ =>
                p ← uadd 64 (pos d) count;
                write_loop fuel buf (done + count) {| world := world d; pos := p; sector_size := sector_size d |}
            end
        end
      else Done (Ok done, d)
  end.
Definition disk_write (buf : list Z) (d : Disk) : exec (result ErrorKind Z * Disk) :=
  write_loop (S (length buf)) buf 0 d.
Definition disk_flush (d : Disk) : result ErrorKind unit * Disk := (Ok tt, d).

(** [self.pos as i64 + off] is checked in debug builds. *)
Definition disk_seek (p : SeekFrom) (d : Disk) : exec (result ErrorKind Z * Disk) :=
  new ← (match p with
         | SeekStart off => Done (Some (swrap 64 off))
         | SeekCurrent off => z ← sadd 64 (swrap 64 (pos d)) off; Done (Some z)
         | SeekEnd _ => Done None
         end);
  match new with
  | None => Done (Err Unsupported, d)
  | Some new =>
      if new <? 0 then Done (Err InvalidInput, d)
      else Done (Ok (wrap 64 new), {| world := world d; pos := wrap 64 new; sector_size := sector_size d |})
  end.

(** * Theorems *)
Context {DL : BlkLaws D}.

Definition queue_ok (q : VirtQueue) : Prop :=
  length (desc q) = 8%nat /\ length (avail_ring (avail q)) = 8%nat /\ uint 16 (avail_idx (avail q)).
Definition world_ok (w : World) : Prop := queue_ok (queue (blk w)).
Definition disk_ok (d : Disk) : Prop := world_ok (world d) /\ sector_size d = 512 /\ 0 <= pos d.

Lemma queue_new_ok : queue_ok VirtQueue_new.
Proof. split_and!; [done | done | cbn; unfold uint; lia]. Qed.

(** The ring slot written is the one the device finds from the new index. *)
Lemma ring_slot i : uint 16 i -> wrap 16 (wrap 16 (i + 1) - 1) `mod` QUEUE_SIZE = i `mod` QUEUE_SIZE.
Proof.
  intros Hi. replace (wrap 16 (wrap 16 (i + 1) - 1)) with i; [done|].
  unfold wrap, uint in *. rewrite Zminus_mod_idemp_l. rewrite Z.mod_small; lia.
Qed.

(** A device that serves every request. *)
Definition reliable : Prop := forall q m d, m_status (device_step q m d).1.2 = 0.

Lemma transfer_read s bs w : world_ok w -> length bs = 512%nat ->
  exists r bs' w', transfer s bs true w = (r, bs', w') /\ world_ok w' /\ the_dev w' = the_dev w
    /\ taken w' = S (taken w) /\ length bs' = 512%nat /\ (r = Ok tt -> bs' = sector_of (the_dev w) s) /\ (reliable -> r = Ok tt).
Proof.
  intros (Hd & Ha & Hi) Hbs. unfold transfer. cbn [desc avail].
  match goal with |- context [device_step ?q {| m_header := ?h; m_data := ?b; m_status := ?st |} ?d] =>
    destruct (device_read q h b st d) as (u & st' & bs' & Hstep & Hl & Hr); [| | | pose proof (fun Hrel : reliable => Hrel q {| m_header := h; m_data := b; m_status := st |} d) as Hrel; rewrite Hstep in Hrel |- *; clear Hstep] end; [| done | done |].
  - split_and!; cbn -[Z.modulo].
    + rewrite ring_slot by done. apply list_lookup_insert_eq. rewrite Ha. unfold QUEUE_SIZE. pose proof (Z.mod_pos_bound (avail_idx (avail (queue (blk w)))) 8). lia.
    + rewrite !list_lookup_insert_ne by done. apply list_lookup_insert_eq. lia.
    + rewrite list_lookup_insert_ne by done. rewrite list_lookup_insert_eq by (rewrite length_insert; lia). unfold zlen. by rewrite Hbs.
    + apply list_lookup_insert_eq. rewrite !length_insert. lia.
  - eexists _, _, _. split; [done|]. cbn [blk queue the_dev taken m_status m_data].
    split; [|split; [done|]; split; [done|]].
    + split_and!; cbn -[Z.modulo]; [by rewrite !length_insert | by rewrite length_insert | apply wrap_range; lia].
    + split; [done|]. cbn in Hrel. split.
      * intros Hok. apply Hr. destruct (st' =? 0) eqn:E; [by apply Z.eqb_eq | done].
      * intros Hx. by rewrite (Hrel Hx).
Qed.

Lemma transfer_write s bs w : world_ok w -> length bs = 512%nat ->
  exists r w', write_sector s bs w = (r, w') /\ world_ok w' /\ taken w' = S (taken w)
    /\ (forall s', s' <> s -> sector_of (the_dev w') s' = sector_of (the_dev w) s')
    /\ (r = Ok tt -> sector_of (the_dev w') s = bs) /\ (reliable -> r = Ok tt).
Proof.
  intros (Hd & Ha & Hi) Hbs. unfold write_sector, transfer. cbn [desc avail].
  match goal with |- context [device_step ?q {| m_header := ?h; m_data := ?b; m_status := ?st |} ?d] =>
    destruct (device_write q h b st d) as (u & st' & d' & Hstep & Ho & Hr); [| | | pose proof (fun Hrel : reliable => Hrel q {| m_header := h; m_data := b; m_status := st |} d) as Hrel; rewrite Hstep in Hrel |- *; clear Hstep] end; [| done | done |].
  - split_and!; cbn -[Z.modulo].
    + rewrite ring_slot by done. apply list_lookup_insert_eq. rewrite Ha. unfold QUEUE_SIZE. pose proof (Z.mod_pos_bound (avail_idx (avail (queue (blk w)))) 8). lia.
    + rewrite !list_lookup_insert_ne by done. apply list_lookup_insert_eq. lia.
    + rewrite list_lookup_insert_ne by done. rewrite list_lookup_insert_eq by (rewrite length_insert; lia). unfold zlen. by rewrite Hbs.
    + apply list_lookup_insert_eq. rewrite !length_insert. lia.
  - eexists _, _. split; [done|]. cbn [blk queue the_dev taken m_status m_data].
    split; [|split; [done|]].
    + split_and!; cbn -[Z.modulo]; [by rewrite !length_insert | by rewrite length_insert | apply wrap_range; lia].
    + cbn in Hrel. split; [done|]. split.
      * intros Hok. apply Hr. destruct (st' =? 0) eqn:E; [by apply Z.eqb_eq | done].
      * intros Hx. by rewrite (Hrel Hx).
Qed.

(** ** The flat view: byte [i] of the disk *)
Definition dbyte (d : dev) (i : Z) : Z := sector_of d (i `div` 512) !!! Z.to_nat (i `mod` 512).
Definition flat (d : dev) (off n : Z) : list Z := dbyte d <$> seqZ off n.
(** The sectors that [n] bytes from [p] lie in. *)
Definition sectors (p n : Z) : Z := if n <=? 0 then 0 else (p + n - 1) `div` 512 - p `div` 512 + 1.

Lemma flat_app d off a b : 0 <= a -> 0 <= b -> flat d off (a + b) = flat d off a ++ flat d (off + a) b.
Proof. intros. unfold flat. rewrite seqZ_app by lia. by rewrite fmap_app. Qed.
Lemma length_flat d off n : length (flat d off n) = Z.to_nat n.
Proof. unfold flat. by rewrite length_fmap, length_seqZ. Qed.

Lemma sector_flat d p c : 0 <= c -> p `mod` 512 + c <= 512 -> mread (sector_of d (p `div` 512)) (p `mod` 512) c = flat d p c.
Proof.
  intros Hc Hp. pose proof (Z.mod_pos_bound p 512). apply list_eq. intros i. unfold flat. rewrite list_lookup_fmap.
  destruct (decide (Z.of_nat i < c)).
  - rewrite lookup_seqZ_lt by lia. cbn. unfold mread. rewrite lookup_take_lt by lia. rewrite lookup_drop.
    assert ((p + Z.of_nat i) `div` 512 = p `div` 512 /\ (p + Z.of_nat i) `mod` 512 = p `mod` 512 + Z.of_nat i) as [Hq Hr].
    { pose proof (Z.div_mod p 512). split; [symmetry; apply Z.div_unique with (p `mod` 512 + Z.of_nat i) | symmetry; apply Z.mod_unique with (p `div` 512)]; lia. }
    unfold dbyte. rewrite Hq, Hr, Z2Nat.inj_add, Nat2Z.id by lia.
    apply list_lookup_lookup_total_lt. rewrite sector_len. lia.
  - rewrite lookup_seqZ_ge by lia. apply lookup_ge_None_2. unfold mread. rewrite length_take. lia.
Qed.

(** One round of either loop, in arithmetic: what is left after moving [c]. *)
Lemma round_arith p n : 0 <= p -> 0 < n ->
  let c := Z.min (512 - p `mod` 512) n in
  0 < c <= n /\ p `mod` 512 + c <= 512 /\ 0 <= p `mod` 512 < 512
  /\ sectors p n = 1 + sectors (p + c) (n - c)
  /\ (c < n -> (p + c) `div` 512 = p `div` 512 + 1) /\ (p + n - 1) `div` 512 = (p + c + (n - c) - 1) `div` 512
  /\ p `div` 512 <= (p + n - 1) `div` 512.
Proof.
  intros Hp Hn c. pose proof (Z.mod_pos_bound p 512). pose proof (Z.div_mod p 512).
  assert (p `div` 512 <= (p + n - 1) `div` 512) by (apply Z.div_le_mono; lia).
  subst c. split_and!; try lia.
  - unfold sectors. zif_false. destruct (Z.min_spec (512 - p `mod` 512) n) as [[? ->]|[? ->]].
    + zif_false. replace (p + (512 - p `mod` 512)) with (512 * (p `div` 512 + 1)) by lia.
      rewrite Z.mul_comm, Z.div_mul by lia. replace ((p `div` 512 + 1) * 512 + (n - (512 - p `mod` 512)) - 1) with (p + n - 1) by lia. lia.
    + replace (n - n <=? 0) with true by (symmetry; apply Z.leb_le; lia).
      replace ((p + n - 1) `div` 512) with (p `div` 512); [lia|]. apply Z.div_unique with (p `mod` 512 + n - 1); lia.
  - intros Hlt. replace (Z.min (512 - p `mod` 512) n) with (512 - p `mod` 512) in * by lia.
    replace (p + (512 - p `mod` 512)) with ((p `div` 512 + 1) * 512) by lia. apply Z.div_mul. lia.
  - f_equal. lia.
Qed.

Lemma take_mwrite_next (m : list Z) off bs : 0 <= off -> off + zlen bs <= zlen m ->
  take (Z.to_nat (off + zlen bs)) (mwrite m off bs) = take (Z.to_nat off) m ++ bs.
Proof.
  intros. unfold mwrite. rewrite app_assoc. apply take_app_length'. rewrite length_app, length_take. unfold zlen in *. lia.
Qed.

Lemma slice_range_ok src off n : 0 <= off -> 0 <= n -> off + n <= zlen src -> slice_range src off n = Done (mread src off n).
Proof. intros. unfold slice_range. do 3 zif_true. done. Qed.
Lemma copy_range_ok dst off n src : 0 <= off -> off + n <= zlen dst -> zlen src = n -> copy_range dst off n src = Done (mwrite dst off src).
Proof. intros. unfold copy_range. do 3 zif_true. done. Qed.

Lemma read_loop_correct fuel : forall buf dn d, disk_ok d -> 0 <= dn <= zlen buf -> zlen buf - dn < Z.of_nat fuel ->
  pos d + (zlen buf - dn) < 2 ^ 64 ->
  exists r buf' d', read_loop fuel buf dn d = Done (r, buf', d') /\ disk_ok d' /\ the_dev (world d') = the_dev (world d)
    /\ match r with
       | Ok n => n = zlen buf /\ buf' = take (Z.to_nat dn) buf ++ flat (the_dev (world d)) (pos d) (zlen buf - dn)
           /\ pos d' = pos d + (zlen buf - dn)
           /\ Z.of_nat (taken (world d')) = Z.of_nat (taken (world d)) + sectors (pos d) (zlen buf - dn)
       | Err e => e = Other /\ ~ reliable
       end.
Proof.
  induction fuel as [|fuel IH]; intros buf dn d (Hw & Hss & Hp) Hdn Hf Hmax; [lia|]. cbn [read_loop]. rewrite !Hss.
  destruct (dn <? zlen buf) eqn:E; zb.
  - destruct (transfer_read (pos d `div` 512) (replicate 512 0) (world d) Hw) as (r & bs & w & Ht & Hw' & Hdev & Htk & Hl & Hok & Hrel); [done|].
    unfold read_sector. rewrite Ht. destruct r as [[]|[]].
    2: { eexists _, _, _. split; [done|]. split; [done|]. split; [done|]. split; [done|]. intros Hx. by specialize (Hrel Hx). }
    rewrite (Hok eq_refl) in *. cbn [pos sector_size world]. rewrite ?Hss.
    destruct (round_arith (pos d) (zlen buf - dn) Hp ltac:(lia)) as (Hc & Hfit & Hm & Hsec & _).
    set (c := Z.min _ _) in *. rewrite slice_range_ok by (unfold zlen in *; rewrite ?Hl; lia). estep.
    rewrite sector_flat by lia. assert (zlen (flat (the_dev (world d)) (pos d) c) = c) as Hfl by (unfold zlen; rewrite length_flat; lia).
    rewrite copy_range_ok by lia. estep. rewrite uadd_small by lia. estep.
    match goal with |- context [read_loop fuel ?b ?n ?dd] => destruct (IH b n dd) as (r & buf' & d' & -> & Hd' & Hdev' & Hr) end;
      [split; done || (cbn; split; [done | lia]) | rewrite zlen_mwrite by lia; lia | rewrite zlen_mwrite by lia; lia | rewrite zlen_mwrite by lia; cbn; lia |].
    eexists _, _, _. split; [done|]. split; [done|]. cbn [world pos the_dev taken] in *. rewrite Hdev in *. split; [done|].
    destruct r; [|done]. rewrite zlen_mwrite in Hr by lia. destruct Hr as (-> & -> & -> & Htk'). split; [done|]. split; [|split].
    + rewrite <- Hfl at 1. rewrite take_mwrite_next by lia. rewrite <- app_assoc. f_equal.
      replace (zlen buf - dn) with (c + (zlen buf - (dn + c))) by lia. rewrite flat_app by lia. done.
    + lia.
    + rewrite Htk', Htk, Hsec. replace (zlen buf - (dn + c)) with (zlen buf - dn - c) by lia. lia.
  - eexists _, _, _. split; [done|]. split; [done|]. split; [done|]. replace (zlen buf - dn) with 0 by lia. split; [lia|]. split; [|split].
    + unfold flat. cbn. rewrite app_nil_r, take_ge; [done|]. unfold zlen in *. lia.
    + lia.
    + unfold sectors. cbn. lia.
Qed.

(** A sector written with [part] laid over it, in the flat view. *)
Lemma laid_over d d' p old part : 0 <= p -> length old = 512%nat -> p `mod` 512 + zlen part <= 512 ->
  sector_of d' (p `div` 512) = mwrite old (p `mod` 512) part ->
  (forall s, s <> p `div` 512 -> sector_of d' s = sector_of d s) ->
  (zlen part < 512 -> old = sector_of d (p `div` 512)) ->
  forall i, dbyte d' i = if (p <=? i) && (i <? p + zlen part) then part !!! Z.to_nat (i - p) else dbyte d i.
Proof.
  intros Hp Hl Hfit Hs Ho Hold i. pose proof (Z.mod_pos_bound p 512). pose proof (Z.mod_pos_bound i 512).
  pose proof (Z.div_mod p 512). pose proof (Z.div_mod i 512). pose proof (zlen_nonneg part). unfold dbyte.
  destruct (decide (i `div` 512 = p `div` 512)) as [He|Hne].
  2: { rewrite Ho by done. replace ((p <=? i) && (i <? p + zlen part)) with false; [done|].
       symmetry. apply andb_false_iff. rewrite Z.leb_gt, Z.ltb_ge. nia. }
  rewrite He, Hs. replace (i - p) with (i `mod` 512 - p `mod` 512) by lia.
  unfold mwrite. unfold zlen in *. destruct ((p <=? i) && (i <? p + _)) eqn:E; zb.
  - rewrite lookup_total_app_r by (rewrite length_take; lia). rewrite lookup_total_app_l by (rewrite length_take; lia).
    f_equal. rewrite length_take. lia.
  - apply andb_false_iff in E. rewrite Z.leb_gt, Z.ltb_ge in E. rewrite !list_lookup_total_alt. f_equal.
    rewrite <- Hold by lia. destruct E.
    + rewrite lookup_app_l by (rewrite length_take; lia). rewrite lookup_take_lt by lia. done.
    + rewrite app_assoc, lookup_app_r by (rewrite length_app, length_take; lia). rewrite lookup_drop. f_equal.
      rewrite length_app, length_take. lia.
Qed.

Lemma write_loop_correct fuel : forall buf dn d, disk_ok d -> 0 <= dn <= zlen buf -> zlen buf - dn < Z.of_nat fuel ->
  pos d + (zlen buf - dn) < 2 ^ 64 ->
  exists r d', write_loop fuel buf dn d = Done (r, d') /\ disk_ok d'
    /\ (forall s, s < pos d `div` 512 \/ (pos d + (zlen buf - dn) - 1) `div` 512 < s ->
          sector_of (the_dev (world d')) s = sector_of (the_dev (world d)) s)
    /\ match r with
       | Ok n => n = zlen buf /\ pos d' = pos d + (zlen buf - dn)
           /\ forall i, dbyte (the_dev (world d')) i =
                if (pos d <=? i) && (i <? pos d + (zlen buf - dn)) then buf !!! Z.to_nat (dn + (i - pos d)) else dbyte (the_dev (world d)) i
       | Err e => e = Other /\ ~ reliable
       end.
Proof.
  induction fuel as [|fuel IH]; intros buf dn d (Hw & Hss & Hp) Hdn Hf Hmax; [lia|]. cbn [write_loop]. rewrite !Hss.
  destruct (dn <? zlen buf) eqn:E; zb.
  2: { eexists _, _. split; [done|]. split; [done|]. split; [done|]. split; [lia|]. split; [lia|]. intros i.
       replace ((pos d <=? i) && (i <? pos d + (zlen buf - dn))) with false; [done|].
       symmetry. apply andb_false_iff. rewrite Z.leb_gt, Z.ltb_ge. lia. }
  destruct (round_arith (pos d) (zlen buf - dn) Hp ltac:(lia)) as (Hc & Hfit & Hm & _ & Hnext & Hlast & Hle).
  set (c := Z.min _ _) in *.
  (* the read of a partial sector *)
  assert (exists r blk w, (if negb (pos d `mod` 512 =? 0) || (zlen buf - dn <? 512)
      then read_sector (pos d `div` 512) (replicate 512 0) (world d) else (Ok tt, replicate 512 0, world d)) = (r, blk, w)
    /\ world_ok w /\ the_dev w = the_dev (world d) /\ length blk = 512%nat
    /\ (r = Ok tt -> c < 512 -> blk = sector_of (the_dev (world d)) (pos d `div` 512)) /\ (reliable -> r = Ok tt))
    as (r & blk & w & -> & Hw' & Hdev & Hl & Hblk & Hrel).
  { destruct (negb _ || _) eqn:Ep.
    - destruct (transfer_read (pos d `div` 512) (replicate 512 0) (world d) Hw) as (r & bs & w & Ht & ? & ? & ? & ? & ? & ?); [done|].
      exists r, bs, w. unfold read_sector. rewrite Ht. eauto 10.
    - zb. eexists _, _, _. split; [done|]. split; [done|]. split; [done|]. split; [done|]. split; [|done]. lia. }
  destruct r as [[]|[]].
  2: { eexists _, _. split; [done|]. split; [done|]. cbn [world]. rewrite Hdev. split; [done|]. split; [done|]. intros Hx. by specialize (Hrel Hx). }
  cbn [pos sector_size world]. rewrite ?Hss. fold c. rewrite slice_range_ok by lia. estep.
  assert (zlen (mread buf dn c) = c) as Hpl by (apply zlen_mread; lia).
  assert (zlen blk = 512) as Hbl by (unfold zlen; lia).
  rewrite copy_range_ok by lia. estep.
  assert (length (mwrite blk (pos d `mod` 512) (mread buf dn c)) = 512%nat) as Hnl.
  { pose proof (zlen_mwrite blk (pos d `mod` 512) (mread buf dn c) ltac:(lia) ltac:(lia)) as Hz. rewrite Hbl in Hz. unfold zlen in Hz. lia. }
  destruct (transfer_write (pos d `div` 512) _ w Hw' Hnl) as (r & w2 & -> & Hw2 & _ & Ho & Hok & Hrel2). rewrite Hdev in Ho.
  destruct r as [[]|[]].
  2: { eexists _, _. split; [done|]. split; [done|]. cbn [world]. split; [|split; [done | intros Hx; by specialize (Hrel2 Hx)]].
       intros s Hs. apply Ho. lia. }
  rewrite uadd_small by lia. estep. specialize (Hok eq_refl).
  match goal with |- context [write_loop fuel ?b ?n ?dd] => destruct (IH b n dd) as (r & d' & -> & Hd' & Hout & Hr) end;
    [split; done || (cbn; split; [done | lia]) | lia | lia | cbn; lia |].
  cbn [world pos the_dev] in *. eexists _, _. split; [done|]. split; [done|]. split.
  - intros s Hs. destruct (decide (c < zlen buf - dn)) as [Hlt|Hge].
    + rewrite Hout; [apply Ho; lia|]. rewrite Hnext by done. replace (pos d + c + (zlen buf - (dn + c)) - 1) with (pos d + (zlen buf - dn) - 1) by lia. lia.
    + rewrite Hout; [apply Ho; lia|]. replace (pos d + c + (zlen buf - (dn + c)) - 1) with (pos d + (zlen buf - dn) - 1) by lia.
      assert (pos d `div` 512 <= (pos d + c) `div` 512) by (apply Z.div_le_mono; lia). lia.
  - destruct r; [|done]. destruct Hr as (-> & -> & Hb). split; [done|]. split; [lia|]. intros i. rewrite Hb.
    pose proof (laid_over (the_dev (world d)) (the_dev w2) (pos d) blk (mread buf dn c) Hp Hl ltac:(lia) Hok Ho ltac:(rewrite Hpl; auto) i) as Hi.
    rewrite Hi, Hpl. destruct ((pos d + c <=? i) && (i <? pos d + c + (zlen buf - (dn + c)))) eqn:E1; zb.
    + do 2 zif_true. cbn [andb]. f_equal. lia.
    + apply andb_false_iff in E1. rewrite Z.leb_gt, Z.ltb_ge in E1.
      destruct ((pos d <=? i) && (i <? pos d + c)) eqn:E2; zb.
      * do 2 zif_true. cbn [andb]. unfold mread. rewrite !list_lookup_total_alt. f_equal.
        rewrite lookup_take_lt by lia. rewrite lookup_drop. f_equal. lia.
      * replace ((pos d <=? i) && (i <? pos d + (zlen buf - dn))) with false; [done|].
        apply andb_false_iff in E2. rewrite Z.leb_gt, Z.ltb_ge in E2. symmetry. apply andb_false_iff. rewrite Z.leb_gt, Z.ltb_ge. lia.
Qed.



(** Seeking sets the position to the given offset or moves it by it
    when the result is a position below [2^63]; a negative target is
    [InvalidInput] and leaves the disk alone, and seeking from the end is
    unsupported. *)
Theorem disk_seek_correct p d : uint 63 (pos d) ->
  match p with
  | SeekStart off => uint 63 off -> disk_seek p d = Done (Ok off, {| world := world d; pos := off; sector_size := sector_size d |})
  | SeekCurrent off => sint 64 (pos d + off) ->
      disk_seek p d = if pos d + off <? 0 then Done (Err InvalidInput, d)
        else Done (Ok (pos d + off), {| world := world d; pos := pos d + off; sector_size := sector_size d |})
  | SeekEnd _ => disk_seek p d = Done (Err Unsupported, d)
  end.
Proof.
  unfold uint, sint. intros Hd. destruct p as [off|off|off]; [| | done].
  - intros Ho. unfold disk_seek. estep. rewrite swrap_id by (unfold sint; lia). zif_false.
    by rewrite wrap_id by (unfold uint; lia).
  - intros Ho. unfold disk_seek, sadd. rewrite swrap_id by (unfold sint; lia). do 2 zif_true. cbn [andb]. estep.
    destruct (_ <? 0) eqn:E; [done|]. zb. by rewrite wrap_id by (unfold uint; lia).
Qed.

End Disk.

(** The status byte starts as the success code: a transfer that no device
    served reports success. *)
Lemma transfer_unserved {D : BlkDevice} s buf read (w : World) :
  (forall q m, device_step q m (the_dev w) = (used q, m, the_dev w)) ->
  (transfer s buf read w).1 = (Ok tt, buf).
Proof. intros Hno. unfold transfer. rewrite Hno. done. Qed.

(** ** The chain as virtio reads it

    [VIRTQ_DESC_F_NEXT] is 1 and [VIRTQ_DESC_F_WRITE] is 2 in the specification. *)
Definition VIRTQ_DESC_F_NEXT : Z := 1.
Definition VIRTQ_DESC_F_WRITE : Z := 2.
Fixpoint walk (fuel : nat) (ds : list VirtqDesc) (i : Z) : list VirtqDesc :=
  match fuel, ds !! Z.to_nat i with
  | S fuel, Some d => d :: if Z.land (desc_flags d) VIRTQ_DESC_F_NEXT =? 0 then [] else walk fuel ds (desc_next d)
  | _, _ => []
  end.
(** The chain published last. *)
Definition chain (q : VirtQueue) : list VirtqDesc :=
  from_option (walk (length (desc q)) (desc q)) [] (avail_ring (avail q) !! Z.to_nat (wrap 16 (avail_idx (avail q) - 1) `mod` QUEUE_SIZE)).
Definition device_writable (r : Region) (q : VirtQueue) : Prop :=
  exists d, d ∈ chain q /\ desc_addr d = r /\ Z.land (desc_flags d) VIRTQ_DESC_F_WRITE <> 0.
(** A device that follows the specification writes only what the chain offers,
    and can only store data that it can find there. *)
Class VirtioConforming (D : BlkDevice) : Prop := {
  writes_data : forall q m d, ~ device_writable Data q -> m_data (device_step q m d).1.2 = m_data m;
  writes_status : forall q m d, ~ device_writable Status q -> m_status (device_step q m d).1.2 = m_status m;
  stores_chain : forall q m m' d, Data ∉ desc_addr <$> chain q -> m_header m = m_header m' ->
    (device_step q m d).2 = (device_step q m' d).2;
}.

(** C26: the driver's "next" flag is virtio's "device writes" flag: to a device
    that follows the specification each request is one descriptor, the header,
    whatever the sector, the direction and the buffer. So no transfer moves
    anything: it reports success, a read returns the buffer as it was, and what a
    write does to the device does not depend on the bytes written. *)
Theorem transfer_reaches_no_data {D : BlkDevice} {VC : VirtioConforming D} s buf buf' read (w : World) :
  world_ok w ->
  (transfer s buf read w).1 = (Ok tt, buf)
  /\ (length buf = length buf' -> the_dev (transfer s buf read w).2 = the_dev (transfer s buf' read w).2).
Proof.
  intros (Hd & Ha & Hi). unfold transfer. cbn [desc avail].
  match goal with |- context [device_step ?q ?m ?d] => set (q0 := q); set (m0 := m);
    assert (chain q0 = [{| desc_addr := Header; desc_len := 16; desc_flags := 2; desc_next := 1 |}]) as Hc end.
  { unfold chain, q0. cbn [avail avail_ring avail_idx desc]. rewrite ring_slot by done.
    rewrite list_lookup_insert_eq by (rewrite Ha; unfold QUEUE_SIZE; pose proof (Z.mod_pos_bound (avail_idx (avail (queue (blk w)))) 8); lia).
    cbn [from_option option_fmap option_map]. rewrite !length_insert, Hd. cbn [walk].
    rewrite !list_lookup_insert_ne by done. rewrite list_lookup_insert_eq by lia. done. }
  assert (~ device_writable Data q0 /\ ~ device_writable Status q0) as [Hnd Hns].
  { split; intros (e & He & Hr & _); rewrite Hc in He; apply list_elem_of_singleton in He; subst e; discriminate Hr. }
  pose proof (writes_data q0 m0 (the_dev w) Hnd) as Hdata. pose proof (writes_status q0 m0 (the_dev w) Hns) as Hst.
  split.
  - destruct (device_step q0 m0 (the_dev w)) as [[u m] d]. cbn in *. by rewrite Hst, Hdata.
  - intros Hl. replace (zlen buf') with (zlen buf) by (unfold zlen; lia). fold q0.
    match goal with |- context [device_step q0 ?m (the_dev w)] => lazymatch m with m0 => fail | _ => set (m1 := m) end end.
    pose proof (stores_chain q0 m0 m1 (the_dev w)) as Hs. rewrite Hc in Hs. specialize (Hs ltac:(cbn; rewrite list_elem_of_singleton; done) eq_refl).
    destruct (device_step q0 m0 (the_dev w)) as [[? ?] ?], (device_step q0 m1 (the_dev w)) as [[? ?] ?]. exact Hs.
Qed.

(** * Witnesses: a device that finds the chain and serves it, and one that
    never looks at the queue *)
Module Concrete.
Definition chain_readb (q : VirtQueue) : option bool :=
  match desc q !! 1%nat with
  | Some d => if (desc_flags d =? 3) && (desc_len d =? 512) then Some true
              else if (desc_flags d =? 2) && (desc_len d =? 512) then Some false else None
  | None => None
  end.
Definition pad (l : list Z) : list Z := take 512 (l ++ replicate 512 0).
Lemma pad_len l : length (pad l) = 512%nat.
Proof. unfold pad. rewrite length_take, length_app, length_replicate. lia. Qed.
Lemma pad_id l : length l = 512%nat -> pad l = l.
Proof. intros Hl. unfold pad. rewrite <- Hl at 1. apply take_app_length. Qed.

(** A RAM disk: sector contents as a function, served at once. *)
Definition ram_disk : BlkDevice := {|
    dev := Z -> list Z; sector_of := fun d s => pad (d s);
    device_step := fun q m d => match chain_readb q with
      | Some true => (used q, {| m_header := m_header m; m_data := pad (d (req_sector (m_header m))); m_status := 0 |}, d)
      | Some false => (used q, {| m_header := m_header m; m_data := m_data m; m_status := 0 |},
          fun s => if s =? req_sector (m_header m) then m_data m else d s)
      | None => (used q, {| m_header := m_header m; m_data := m_data m; m_status := 0 |}, d) end |}.
#[local] Existing Instance ram_disk.
#[local] Instance ram_disk_laws : BlkLaws ram_disk.
Proof.
  split.
  - intros. apply pad_len.
  - intros q h bs st d (_ & _ & Hd & _) Hh Hl. cbn. unfold chain_readb. rewrite Hd. cbn. eexists _, _, _. split; [done|].
    split; [apply pad_len | done].
  - intros q h bs st d (_ & _ & Hd & _) Hh Hl. cbn. unfold chain_readb. rewrite Hd. cbn. eexists _, _, _. split; [done|]. split.
    + intros s Hs. by zif_false.
    + intros _. rewrite Z.eqb_refl. by apply pad_id.
Qed.
#[local] Instance debug : Build := {| overflow_checks := true |}.

Definition new_world (d : Z -> list Z) : World :=
  {| blk := {| device := 1; irq := 2; queue := VirtQueue_new |}; the_dev := d; taken := 0 |}.
(** Positioned 2 bytes before the end of the first sector. *)
Definition disk0 : Disk := {| world := new_world (fun s => replicate 512 s); pos := 510; sector_size := 512 |}.
Lemma disk0_ok : disk_ok disk0.
Proof. split; [apply queue_new_ok | split; [done | cbn; lia]]. Qed.



Lemma disk_seek_correct_witness :
  disk_seek (SeekCurrent (-500)) disk0 = Done (Ok 10, {| world := world disk0; pos := 10; sector_size := 512 |}).
Proof. apply (disk_seek_correct (SeekCurrent (-500)) disk0); [change (0 <= 510 < 2 ^ 63); lia | change (- 2 ^ 63 <= 10 < 2 ^ 63); lia]. Defined.
End Concrete.

(** A RAM disk that follows the specification: it serves what it finds in the
    chain, in the direction of the flags. *)
Definition region_eqb (a b : Region) : bool :=
  match a, b with Null, Null | Header, Header | Data, Data | Status, Status => true | _, _ => false end.
Definition sees (r : Region) (writable : bool) (q : VirtQueue) : bool :=
  existsb (fun e => region_eqb (desc_addr e) r && Bool.eqb (negb (Z.land (desc_flags e) VIRTQ_DESC_F_WRITE =? 0)) writable) (chain q).
Definition spec_disk : BlkDevice := {|
    dev := Z -> list Z; sector_of := fun d s => d s;
    device_step := fun q m d =>
      let s := req_sector (m_header m) in
      (used q, {| m_header := m_header m; m_data := if sees Data true q then d s else m_data m;
                  m_status := if sees Status true q then 0 else m_status m |},
       if sees Data false q then fun s' => if s' =? s then m_data m else d s' else d) |}.
Lemma sees_in r b q : sees r b q = true -> exists e, e ∈ chain q /\ desc_addr e = r /\ (b = true -> Z.land (desc_flags e) VIRTQ_DESC_F_WRITE <> 0).
Proof.
  intros (e & He & Ht)%existsb_exists. apply andb_true_iff in Ht as [Hr Hb]. exists e. split; [by apply list_elem_of_In|].
  split; [by destruct (desc_addr e), r|]. intros ->. destruct (_ =? 0) eqn:E; [done | by apply Z.eqb_neq].
Qed.
Lemma not_seen r q : ~ device_writable r q -> sees r true q = false.
Proof. intros Hn. destruct (sees r true q) eqn:E; [|done]. exfalso. apply Hn. apply sees_in in E as (e & ? & ? & ?). exists e. auto. Qed.
#[local] Instance spec_disk_conforms : VirtioConforming spec_disk.
Proof.
  split; intros q m; [intros d Hn | intros d Hn | intros m' d Hn Hh]; cbn.
  1, 2: by rewrite not_seen.
  destruct (sees Data false q) eqn:E; [|done]. exfalso. apply Hn. apply sees_in in E as (e & He & Hr & _).
  rewrite <- Hr. by apply list_elem_of_fmap_2.
Qed.
Definition spec_world : World (D := spec_disk) :=
  {| blk := {| device := 1; irq := 2; queue := VirtQueue_new |}; the_dev := (fun s => replicate 512 1) : dev (BlkDevice := spec_disk); taken := 0 |}.
(** A sector full of ones reads as the zeros of the buffer. *)
Lemma transfer_reaches_no_data_witness :
  (transfer (D := spec_disk) 3 (replicate 512 0) true spec_world).1 = (Ok tt, replicate 512 0)
  /\ the_dev (transfer (D := spec_disk) 3 (replicate 512 0) false spec_world).2
     = the_dev (transfer (D := spec_disk) 3 (replicate 512 7) false spec_world).2.
Proof.
  split.
  - apply (transfer_reaches_no_data (D := spec_disk) 3 (replicate 512 0) [] true spec_world). apply queue_new_ok.
  - apply (transfer_reaches_no_data (D := spec_disk) 3 (replicate 512 0) (replicate 512 7) false spec_world); [apply queue_new_ok | done].
Defined.
End VirtioDisk.
