(* ===== verification/FsServer.v ===== *)
(** [src/src/fs_server/src/main.rs]: the file server.

    The FAT layer (crate [fatfs], not part of the repository) is the class
    [Fatfs]; its operations run the disk driver of [VirtioDisk], whose open waits
    overwrite the server's UTCB, so each of them also returns a new UTCB.  Open
    files live in a slab; a client's descriptor is the slab key.

    Shown: the loop always answers and stays inside the UTCB ([fs_server_serves]);
    an unknown descriptor is [EBADF] ([fs_unknown_descriptor]); a read hands over
    exactly the bytes of the file layer, bounded by request and buffer
    ([fs_read_delivers]); which paths reach the FAT layer ([resolve_path_spec]). *)
From S2P Require Import Prelude Utf8 Error Utcb MsgTag Host Served.
From Stdlib Require Import ZArith Lia.
From stdpp Require Import base list gmap sets.
Open Scope Z_scope.

(** [std::io::ErrorKind], as far as the server looks at it. *)
Inductive IoKind := NotFound | OtherKind.

Class Fatfs {UC : UtcbConsts} := {
  fs : Type;
  file : Type;
  (** The number of entries the iterator over the root directory yields. *)
  root_entries : fs -> Utcb -> Z * fs * Utcb;
  create_file : list Z -> fs -> Utcb -> result IoKind file * fs * Utcb;
  open_file : list Z -> fs -> Utcb -> result IoKind file * fs * Utcb;
  (** [read] into a buffer of the given length: the bytes stored. *)
  file_read : file -> Z -> fs -> Utcb -> result IoKind (list Z) * file * fs * Utcb;
  file_write : file -> list Z -> fs -> Utcb -> result IoKind Z * file * fs * Utcb;
  file_seek_end : file -> fs -> Utcb -> result IoKind Z * file * fs * Utcb;
  (** [Drop] of a file. *)
  file_drop : file -> fs -> Utcb -> fs * Utcb;
  root_entries_utcb : forall s u, utcb_ok u -> utcb_ok (root_entries s u).2;
  create_file_utcb : forall p s u, utcb_ok u -> utcb_ok (create_file p s u).2;
  open_file_utcb : forall p s u, utcb_ok u -> utcb_ok (open_file p s u).2;
  file_read_utcb : forall f n s u, utcb_ok u -> utcb_ok (file_read f n s u).2;
  file_write_utcb : forall f bs s u, utcb_ok u -> utcb_ok (file_write f bs s u).2;
  file_seek_utcb : forall f s u, utcb_ok u -> utcb_ok (file_seek_end f s u).2;
  file_drop_utcb : forall f s u, utcb_ok u -> utcb_ok (file_drop f s u).2;
  root_entries_range : forall s u, uint 64 (root_entries s u).1.1;
  file_read_range : forall f n s u bs, 0 <= n -> (file_read f n s u).1.1.1 = Ok bs -> zlen bs <= n /\ bytes_ok bs;
  file_write_range : forall f bs s u n, (file_write f bs s u).1.1.1 = Ok n -> 0 <= n <= zlen bs;
  file_seek_range : forall f s u n, (file_seek_end f s u).1.1.1 = Ok n -> uint 64 n;
}.

Module FsServer.
Section Server.
Context {UC : UtcbConsts} {SL : Slab} {LC : LinuxConsts} {F : Fatfs}.

Definition BR_DATA_MAX : Z := BR_WORDS * 8 - 8.

Definition br_read_bytes (u : Utcb) : exec (list Z) := br_load u (Z.min (br_len u) BR_DATA_MAX).
(** The buffer's old content is cleared first; returns the length. *)
Definition br_read_bytes_into (buf : list Z) (u : Utcb) : exec (Z * list Z) :=
  let len := Z.min (br_len u) BR_DATA_MAX in
  slice ← br_load u len; Done (len, slice).
Definition br_read_path (u : Utcb) : exec (option (list Z)) :=
  data ← br_read_bytes u;
  Done (match from_utf8 data with None => Some data | Some _ => None end).
Definition br_write_bytes (data : list Z) (u : Utcb) : exec Utcb :=
  let len := Z.min (zlen data) BR_DATA_MAX in
  br_store (take (Z.to_nat len) data) (br_set_len len u).

(** [str::starts_with]; paths are the bytes of the string. *)
Definition starts_with (p prefix : list Z) : bool := bool_decide (take (length prefix) p = prefix).
Definition SLASH : list Z := [47].
Definition BIN : list Z := [98; 105; 110; 47].
Definition ETC : list Z := [101; 116; 99; 47].
Definition USR : list Z := [117; 115; 114; 47].
Definition resolve_path (p : list Z) : option (list Z) :=
  if negb (starts_with p SLASH) then None
  else
    let rel := drop 1 p in
    if starts_with rel BIN || starts_with rel ETC || starts_with rel USR then Some rel else None.
Definition io_to_errno (k : IoKind) : Z := match k with NotFound => ENOENT | _ => EIO end.

Record State := { the_fs : fs; handles : slab file; read_buf : list Z; write_buf : list Z }.
Definition set_fs (s : fs) (st : State) : State :=
  {| the_fs := s; handles := handles st; read_buf := read_buf st; write_buf := write_buf st |}.
Definition set_handles (h : slab file) (st : State) : State :=
  {| the_fs := the_fs st; handles := h; read_buf := read_buf st; write_buf := write_buf st |}.
Definition set_read_buf (b : list Z) (st : State) : State :=
  {| the_fs := the_fs st; handles := handles st; read_buf := b; write_buf := write_buf st |}.
Definition set_write_buf (b : list Z) (st : State) : State :=
  {| the_fs := the_fs st; handles := handles st; read_buf := read_buf st; write_buf := b |}.

Definition Arm : Type := State -> Utcb -> exec (State * Utcb).
(** [mr[0] = v], the end of most branches. *)
Definition status (v : Z) : Arm := fun st u => u ← mr_set 0 v u; Done (st, u).

Definition op_list : Arm := fun st u =>
  let '(count, s, u) := root_entries (the_fs st) u in status count (set_fs s st) u.

Definition op_open : Arm := fun st u =>
  path ← br_read_path u;
  match path ≫= resolve_path with
  | Some p =>
      let '(r, s, u) := create_file p (the_fs st) u in
      let st := set_fs s st in
      match r with
      | Ok f => let '(fd, h) := slab_insert (handles st) f in status fd (set_handles h st) u
      | Err e => status (neg_errno (io_to_errno e)) st u
      end
  | None => status (neg_errno ENOENT) st u
  end.

Definition op_read : Arm := fun st u =>
  fd ← mr_get u 1; len ← mr_get u 2;
  match slab_get (handles st) fd with
  | Some f =>
      let read_len := Z.min len BR_DATA_MAX in
      let buf := if zlen (read_buf st) <? read_len
                 then read_buf st ++ replicate (Z.to_nat (read_len - zlen (read_buf st))) 0 else read_buf st in
      let '(r, f, s, u) := file_read f read_len (the_fs st) u in
      let st := set_fs s (set_handles (slab_set (handles st) fd f) st) in
      match r with
      | Ok bs =>
          let n := zlen bs in
          let buf := mwrite buf 0 bs in
          if zlen buf <? n then Panics
          else
            u ← br_write_bytes (take (Z.to_nat n) buf) u;
            status n (set_read_buf [] st) u
      | Err e => status (neg_errno (io_to_errno e)) (set_read_buf [] st) u
      end
  | None => status (neg_errno EBADF) st u
  end.

Definition op_write : Arm := fun st u =>
  fd ← mr_get u 1;
  match slab_get (handles st) fd with
  | Some f =>
      '(data_len, buf) ← br_read_bytes_into (write_buf st) u;
      if zlen buf <? data_len then Panics
      else
        let '(r, f, s, u) := file_write f (take (Z.to_nat data_len) buf) (the_fs st) u in
        let st := set_write_buf [] (set_fs s (set_handles (slab_set (handles st) fd f) st)) in
        match r with
        | Ok n => status n st u
        | Err e => status (neg_errno (io_to_errno e)) st u
        end
  | None => status (neg_errno EBADF) st u
  end.

Definition op_close : Arm := fun st u =>
  fd ← mr_get u 1;
  match slab_get (handles st) fd with
  | Some f =>
      let h := slab_remove (handles st) fd in
      let '(s, u) := file_drop f (the_fs st) u in
      status 0 (set_fs s (set_handles h st)) u
  | None => status (neg_errno EBADF) st u
  end.

(** The file is dropped at the end of its branch, after the registers are set. *)
Definition op_stat : Arm := fun st u =>
  path ← br_read_path u;
  match path ≫= resolve_path with
  | Some p =>
      let '(r, s, u) := open_file p (the_fs st) u in
      match r with
      | Ok f =>
          let '(r, f, s, u) := file_seek_end f s u in
          u ← match r with
              | Ok size => u ← mr_set 0 0 u; mr_set 1 size u
              | Err _ => mr_set 0 (neg_errno EIO) u
              end;
          let '(s, u) := file_drop f s u in
          Done (set_fs s st, u)
      | Err e => status (neg_errno (io_to_errno e)) (set_fs s st) u
      end
  | None => status (neg_errno ENOENT) st u
  end.

Definition dispatch : Arm := fun st u =>
  op ← mr_get u 0;
  if op =? 0 then op_list st u
  else if op =? 1 then op_open st u
  else if op =? 2 then op_read st u
  else if op =? 3 then op_write st u
  else if op =? 4 then op_close st u
  else if op =? 5 then op_stat st u
  else status (neg_errno ENOENT) st u.

Fixpoint run_loop (incoming : list Incoming) (st : State) : exec (State * list (Z * Utcb)) :=
  match incoming with
  | [] => Done (st, [])
  | IpcError :: rest => run_loop rest st
  | Request u :: rest =>
      '(st, u) ← dispatch st u;
      '(st, replies) ← run_loop rest st;
      Done (st, (l4_msgtag 0 2 0 0, u) :: replies)
  end.
(** The tables and buffers at the start. *)
Definition mounted (s : fs) : State := {| the_fs := s; handles := slab_new; read_buf := []; write_buf := [] |}.
(** [mount]: the disk driver and the file system on it, or their absence. *)
Definition run (gate : option Z) (bind_error : Z -> Z) (mount : option fs) (incoming : list Incoming) :
    exec (State * list (Z * Utcb)) :=
  gate ← unwrap gate;
  if negb (bind_error gate =? 0) then Panics
  else s ← unwrap mount; run_loop incoming (mounted s).

(** * Theorems *)

Lemma br_data_max : BR_DATA_MAX = 8 * BR_WORDS - 8 /\ 56 <= BR_DATA_MAX < 2 ^ 11.
Proof. pose proof br_words_range. unfold BR_DATA_MAX. lia. Qed.

(** C29: the paths that reach the FAT layer are those below [/bin/], [/etc/]
    and [/usr/], with the leading slash taken off; a [..] further on is passed along,
    so such a path may name a file outside of the three directories. *)
Theorem resolve_path_spec p rel :
  (resolve_path p = Some rel <-> p = SLASH ++ rel /\ exists d rest, d ∈ [BIN; ETC; USR] /\ rel = d ++ rest)
  /\ resolve_path (SLASH ++ BIN ++ [46; 46; 47] ++ rel) = Some (BIN ++ [46; 46; 47] ++ rel).
Proof.
  assert (forall q d, starts_with q d = true <-> exists rest, q = d ++ rest) as Hs.
  { intros q d. unfold starts_with. rewrite bool_decide_eq_true. split.
    - intros Ht. exists (drop (length d) q). rewrite <- Ht at 1. by rewrite take_drop.
    - intros [rest ->]. by rewrite take_app_length. }
  split.
  - unfold resolve_path. split.
    + destruct (starts_with p SLASH) eqn:E; [|done]. apply Hs in E as [rest ->]. cbn [negb]. change (drop 1 (SLASH ++ rest)) with rest.
      destruct (_ || _) eqn:E2; [|done]. intros [= ->]. split; [done|].
      apply orb_true_iff in E2 as [[E2|E2]%orb_true_iff|E2]; apply Hs in E2 as [r ->]; eexists _, r; (split; [|done]); set_solver.
    + intros (-> & d & rest & Hd & ->).
      assert (starts_with (SLASH ++ d ++ rest) SLASH = true) as -> by (apply Hs; eauto). cbn [negb].
      assert (starts_with (d ++ rest) d = true) as Hst by (apply Hs; eauto). change (drop 1 (SLASH ++ d ++ rest)) with (d ++ rest).
      repeat (apply elem_of_cons in Hd as [->|Hd]); [.. | by apply not_elem_of_nil in Hd]; rewrite Hst; rewrite ?orb_true_r; done.
  - done.
Qed.

Definition buffers_ok (st : State) : Prop := read_buf st = [] /\ write_buf st = [].
Definition Reply (st : State) (r : exec (State * Utcb)) : Prop :=
  exists st' u', r = Done (st', u') /\ utcb_ok u' /\ buffers_ok st'
    /\ Z.of_nat (size (slab_map (handles st'))) <= Z.of_nat (size (slab_map (handles st))) + 1.

Lemma status_gives v st u : utcb_ok u -> uint 64 v ->
  exists u', status v st u = Done (st, u') /\ utcb_ok u' /\ mr u' !! 0%nat = Some v /\ br u' = br u.
Proof.
  intros Hu Hv. unfold status. destruct (mr_set_ok u 0 v) as (u1 & -> & Hu1 & Hm & Hb); [done | lia | done |]. estep.
  eexists. split; [done|]. split; [done|]. split; [|done]. rewrite Hm. apply list_lookup_insert_eq.
  destruct Hu as (Hz & _). pose proof generic_data_range. unfold zlen in Hz. lia.
Qed.
Lemma status_reply v st st' u : utcb_ok u -> uint 64 v -> buffers_ok st' ->
  Z.of_nat (size (slab_map (handles st'))) <= Z.of_nat (size (slab_map (handles st))) + 1 -> Reply st (status v st' u).
Proof. intros Hu Hv Hb Hz. destruct (status_gives v st' u Hu Hv) as (u' & -> & ? & _). by exists st', u'. Qed.

Lemma br_read_path_ok u : utcb_ok u -> exists r, br_read_path u = Done r.
Proof.
  intros Hu. pose proof br_data_max as [Hbd Hr]. pose proof (br_len_range u Hu) as Hl. unfold uint in Hl.
  unfold br_read_path, br_read_bytes. destruct (br_load_ok u (Z.min (br_len u) BR_DATA_MAX)) as (-> & _); [done | lia | lia | by eexists].
Qed.

Lemma fs_write_bytes_ok d u : utcb_ok u -> bytes_ok d -> zlen d <= BR_DATA_MAX ->
  exists u', br_write_bytes d u = Done u' /\ utcb_ok u' /\ br_len u' = zlen d /\ mread (br u') 8 (zlen d) = d.
Proof.
  intros Hu Hd Hz. pose proof br_data_max as [Hbd Hr]. pose proof (zlen_nonneg d). unfold br_write_bytes. rewrite Z.min_l by lia.
  rewrite take_ge by (unfold zlen; lia). destruct (br_set_len_ok u (zlen d) Hu) as [Hu1 _].
  destruct (br_store_ok (br_set_len (zlen d) u) d) as (u' & -> & Hu' & _ & Hb'); [done | done | lia |].
  destruct Hu1 as (_ & _ & Hb1 & _). eexists. split; [done|]. split; [done|]. split.
  - pose proof (br_len_set (zlen d) u Hu ltac:(unfold uint; lia)) as Hs. unfold br_len, load64 in *. rewrite Hb', mread_mwrite_before; [exact Hs | lia..].
  - rewrite Hb'. apply mread_mwrite_same; lia.
Qed.

Lemma set_size {A} (s : slab A) k x y : slab_map s !! k = Some x -> size (slab_map (slab_set s k y)) = size (slab_map s).
Proof. intros Hk. erewrite slab_set_spec by done. rewrite map_size_insert, Hk. done. Qed.

Lemma io_errno_range k : uint 64 (neg_errno (io_to_errno k)).
Proof. apply neg_errno_range. Qed.

Lemma list_reply st u : utcb_ok u -> buffers_ok st -> Reply st (op_list st u).
Proof.
  intros Hu Hb. unfold op_list. pose proof (root_entries_utcb (the_fs st) u Hu). pose proof (root_entries_range (the_fs st) u).
  destruct (root_entries _ _) as [[n s] u1]. apply status_reply; [done.. | cbn; lia].
Qed.

Lemma open_reply st u : utcb_ok u -> buffers_ok st -> Z.of_nat (size (slab_map (handles st))) < 2 ^ 62 -> Reply st (op_open st u).
Proof.
  intros Hu Hb Hsz. unfold op_open. destruct (br_read_path_ok u Hu) as (path & ->). estep.
  destruct (path ≫= resolve_path) as [p|]; [|apply status_reply; auto with rust; lia].
  pose proof (create_file_utcb p (the_fs st) u Hu). destruct (create_file _ _ _) as [[[f|e] s] u1];
    [|apply status_reply; auto using io_errno_range; cbn; lia]. cbn [handles set_fs].
  destruct (slab_insert_spec _ (handles st) f) as (Hk & Hn & Hm). destruct (slab_insert (handles st) f) as [fd h]. cbn in Hk, Hn, Hm.
  specialize (Hk Hsz). apply status_reply; [done | unfold uint in *; lia | done |].
  cbn. rewrite Hm, map_size_insert_None by done. lia.
Qed.

(** A read of an open file: what the file layer gives is what the client gets. *)
Lemma read_gives st u fd len f : utcb_ok u -> buffers_ok st -> mr_get u 1 = Done fd -> mr_get u 2 = Done len -> uint 64 len ->
  slab_get (handles st) fd = Some f ->
  let res := file_read f (Z.min len BR_DATA_MAX) (the_fs st) u in
  let st' := set_read_buf [] (set_fs res.1.2 (set_handles (slab_set (handles st) fd res.1.1.2) st)) in
  exists u', op_read st u = Done (st', u') /\ utcb_ok u' /\ buffers_ok st'
    /\ match res.1.1.1 with
       | Ok bs => mr u' !! 0%nat = Some (zlen bs) /\ br_len u' = zlen bs /\ mread (br u') 8 (zlen bs) = bs
           /\ zlen bs <= Z.min len BR_DATA_MAX
       | Err e => mr u' !! 0%nat = Some (neg_errno (io_to_errno e))
       end.
Proof.
  intros Hu [Hrb Hwb] H1 H2 Hlen Hf res st'. pose proof br_data_max as [Hbd Hbr]. unfold uint in Hlen.
  pose proof (file_read_utcb f (Z.min len BR_DATA_MAX) (the_fs st) u Hu) as Hu1.
  pose proof (fun bs => file_read_range f (Z.min len BR_DATA_MAX) (the_fs st) u bs ltac:(lia)) as Hrg.
  subst st'. unfold op_read. rewrite H1. estep. rewrite H2. estep. rewrite Hf. cbn [read_buf]. rewrite Hrb.
  subst res. destruct (file_read _ _ _ _) as [[[r f'] s] u1]. cbn [fst snd] in *. destruct r as [bs|e].
  - destruct (Hrg bs eq_refl) as [Hz Hb]. pose proof (zlen_nonneg bs).
    set (buf := match (zlen (@nil Z) <? Z.min len BR_DATA_MAX) with true => _ | false => _ end). assert (zlen buf = Z.min len BR_DATA_MAX) as Hbuf.
    { subst buf. change (zlen (@nil Z)) with 0. destruct (_ <? _) eqn:E; zb; [|change (zlen (@nil Z)) with 0; lia].
      cbn [app]. rewrite zlen_replicate. lia. }
    rewrite zlen_mwrite by lia. zif_false.
    assert (take (Z.to_nat (zlen bs)) (mwrite buf 0 bs) = bs) as ->.
    { unfold mwrite. change (Z.to_nat 0) with 0%nat. rewrite take_0, app_nil_l. apply take_app_length'. unfold zlen. lia. }
    destruct (fs_write_bytes_ok bs u1 Hu1 Hb ltac:(lia)) as (u2 & -> & Hu2 & Hl2 & Hr2). estep.
    destruct (status_gives (zlen bs) (set_read_buf [] (set_fs s (set_handles (slab_set (handles st) fd f') st))) u2 Hu2)
      as (u3 & -> & Hu3 & Hm3 & Hb3); [unfold uint; lia|].
    exists u3. split; [done|]. split; [done|]. split; [done|]. unfold br_len in *. rewrite Hb3. split; [done|]. split; [done|]. split; [done | lia].
  - destruct (status_gives (neg_errno (io_to_errno e)) (set_read_buf [] (set_fs s (set_handles (slab_set (handles st) fd f') st))) u1 Hu1)
      as (u3 & -> & Hu3 & Hm3 & _); [apply io_errno_range|]. by exists u3.
Qed.

Lemma read_reply st u : utcb_ok u -> buffers_ok st -> Reply st (op_read st u).
Proof.
  intros Hu Hb. destruct (mr_get_ok u 1) as (fd & H1 & _); [done | lia|]. destruct (mr_get_ok u 2) as (len & H2 & Hlen); [done | lia|].
  destruct (slab_get (handles st) fd) as [f|] eqn:Hf.
  - destruct (read_gives st u fd len f Hu Hb H1 H2 Hlen Hf) as (u' & Hr & Hu' & Hb' & _). rewrite Hr. eexists _, u'.
    split; [done|]. split; [done|]. split; [done|]. cbn. erewrite set_size by done. lia.
  - unfold op_read. rewrite H1. estep. rewrite H2. estep. rewrite Hf. apply status_reply; auto with rust; lia.
Qed.

Lemma write_reply st u : utcb_ok u -> buffers_ok st -> Reply st (op_write st u).
Proof.
  intros Hu [Hrb Hwb]. destruct (mr_get_ok u 1) as (fd & H1 & _); [done | lia|].
  pose proof br_data_max as [Hbd Hr]. pose proof (br_len_range u Hu) as Hl. unfold uint in Hl.
  unfold op_write. rewrite H1. estep. destruct (slab_get (handles st) fd) as [f|] eqn:Hf; [|apply status_reply; auto with rust; [done | lia]].
  unfold br_read_bytes_into. destruct (br_load_ok u (Z.min (br_len u) BR_DATA_MAX)) as (-> & Hz & _); [done | lia | lia |]. estep.
  rewrite Hz. replace (Z.min (br_len u) BR_DATA_MAX <? Z.min (br_len u) BR_DATA_MAX) with false by (symmetry; apply Z.ltb_irrefl).
  rewrite take_ge by (unfold zlen in Hz; lia). set (bs := mread _ _ _) in *.
  pose proof (file_write_utcb f bs (the_fs st) u Hu). pose proof (file_write_range f bs (the_fs st) u) as Hrg.
  destruct (file_write _ _ _ _) as [[[[n|e] f'] s] u1]; cbn [fst snd] in *.
  - specialize (Hrg n eq_refl). apply status_reply; [done | unfold uint; lia | done | cbn; erewrite set_size by done; lia].
  - apply status_reply; [done | apply io_errno_range | done | cbn; erewrite set_size by done; lia].
Qed.

Lemma close_reply st u : utcb_ok u -> buffers_ok st -> Reply st (op_close st u).
Proof.
  intros Hu Hb. destruct (mr_get_ok u 1) as (fd & H1 & _); [done | lia|]. unfold op_close. rewrite H1. estep.
  destruct (slab_get (handles st) fd) as [f|] eqn:Hf; [|apply status_reply; auto with rust; lia].
  pose proof (file_drop_utcb f (the_fs st) u Hu). destruct (file_drop _ _ _) as [s u1]. cbn in *.
  apply status_reply; [done | apply zero_range | done |]. cbn. erewrite slab_remove_spec by done.
  rewrite map_size_delete. unfold slab_get in Hf. rewrite Hf. lia.
Qed.

Lemma stat_reply st u : utcb_ok u -> buffers_ok st -> Reply st (op_stat st u).
Proof.
  intros Hu Hb. unfold op_stat. destruct (br_read_path_ok u Hu) as (path & ->). estep.
  destruct (path ≫= resolve_path) as [p|]; [|apply status_reply; auto with rust; lia].
  pose proof (open_file_utcb p (the_fs st) u Hu) as Hu1. destruct (open_file _ _ _) as [[[f|e] s] u1]; cbn [snd] in Hu1;
    [|apply status_reply; auto using io_errno_range; cbn; lia].
  pose proof (file_seek_utcb f s u1 Hu1) as Hu2. pose proof (file_seek_range f s u1) as Hrg.
  destruct (file_seek_end f s u1) as [[[r f2] s2] u2]. cbn [fst snd] in *.
  assert (exists u3, match r with Ok size => u ← mr_set 0 0 u2; mr_set 1 size u | Err _ => mr_set 0 (neg_errno EIO) u2 end = Done u3
    /\ utcb_ok u3) as (u3 & -> & Hu3).
  { destruct r as [n|].
    - destruct (mr_set_ok u2 0 0) as (u3 & -> & Hu3 & _); [done | lia | apply zero_range|]. estep.
      destruct (mr_set_ok u3 1 n) as (u4 & -> & Hu4 & _); [done | lia | by apply Hrg | eauto].
    - destruct (mr_set_ok u2 0 (neg_errno EIO)) as (u3 & -> & Hu3 & _); [done | lia | auto with rust | eauto]. }
  estep. pose proof (file_drop_utcb f2 s2 u3 Hu3). destruct (file_drop f2 s2 u3) as [s4 u4].
  eexists _, _. split; [done|]. split; [done|]. split; [done | cbn; lia].
Qed.

Lemma dispatch_reply st u : utcb_ok u -> buffers_ok st -> Z.of_nat (size (slab_map (handles st))) < 2 ^ 62 -> Reply st (dispatch st u).
Proof.
  intros Hu Hb Hsz. unfold dispatch. destruct (mr_get_ok u 0) as (op & -> & _); [done | lia|]. estep.
  repeat case_match; [by apply list_reply | by apply open_reply | by apply read_reply | by apply write_reply
    | by apply close_reply | by apply stat_reply | apply status_reply; auto with rust; lia].
Qed.

Lemma run_loop_replies incoming : forall st, Forall good_incoming incoming -> buffers_ok st ->
  Z.of_nat (size (slab_map (handles st))) + zlen incoming < 2 ^ 62 ->
  exists st' rs, run_loop incoming st = Done (st', rs) /\ buffers_ok st'
    /\ Forall2 (fun _ r => r.1 = l4_msgtag 0 2 0 0 /\ utcb_ok r.2) (requests incoming) rs.
Proof.
  induction incoming as [|[|u] rest IH]; intros st Hg Hb Hsz; cbn [run_loop]; rewrite ?zlen_cons in Hsz.
  - eexists _, _. split; [done|]. split; [done | constructor].
  - inversion Hg; subst. apply IH; [done | done | lia].
  - inversion Hg as [|? ? Hu Hg']; subst. pose proof (zlen_nonneg rest).
    destruct (dispatch_reply st u Hu Hb) as (st1 & u1 & -> & Hu1 & Hb1 & Hz1); [lia|]. estep.
    destruct (IH st1 Hg' Hb1) as (st2 & rs & -> & Hb2 & Hr2); [lia|]. estep.
    eexists _, _. split; [done|]. split; [done|]. constructor; [done | exact Hr2].
Qed.


(** C28: a read request for an open descriptor asks the file layer for at most
    the client's length and the size of the buffer registers, and answers with
    exactly the bytes it gave and their number; the file layer's errors become
    [ENOENT] or [EIO]. *)
Theorem fs_read_delivers st u fd len f : utcb_ok u -> buffers_ok st ->
  mr u !! 0%nat = Some 2 -> mr u !! 1%nat = Some fd -> mr u !! 2%nat = Some len -> slab_get (handles st) fd = Some f ->
  let res := file_read f (Z.min len BR_DATA_MAX) (the_fs st) u in
  exists st' u', dispatch st u = Done (st', u') /\ the_fs st' = res.1.2 /\ slab_get (handles st') fd = Some res.1.1.2
    /\ match res.1.1.1 with
       | Ok bs => mr u' !! 0%nat = Some (zlen bs) /\ br_len u' = zlen bs /\ mread (br u') 8 (zlen bs) = bs
           /\ zlen bs <= Z.min len BR_DATA_MAX
       | Err e => mr u' !! 0%nat = Some (neg_errno (io_to_errno e))
       end.
Proof.
  intros Hu Hb H0 H1 H2 Hf res. assert (uint 64 len) as Hlen.
  { destruct Hu as (_ & Hw & _). rewrite Forall_lookup in Hw. by eapply Hw. }
  destruct (read_gives st u fd len f Hu Hb (mr_get_lookup u 1 _ H1 ltac:(lia)) (mr_get_lookup u 2 _ H2 ltac:(lia)) Hlen Hf)
    as (u' & Hr & _ & _ & Hres).
  eexists _, u'. split; [unfold dispatch; rewrite (mr_get_lookup u 0 _ H0) by lia; exact Hr|]. split; [done|]. split; [|exact Hres].
  unfold slab_get in *. cbn. erewrite slab_set_spec by done. apply lookup_insert_eq.
Qed.

(** A descriptor that is not open is refused with [EBADF] for reading,
    writing and closing alike; neither the file layer nor the table is touched. *)
Theorem fs_unknown_descriptor st u op fd : utcb_ok u -> op ∈ [2; 3; 4] -> mr u !! 0%nat = Some op -> mr u !! 1%nat = Some fd ->
  slab_get (handles st) fd = None ->
  exists u', dispatch st u = Done (st, u') /\ mr u' !! 0%nat = Some (neg_errno EBADF).
Proof.
  intros Hu Hop H0 H1 Hf. destruct (mr_get_ok u 2) as (len & H2 & _); [done | lia|].
  destruct (status_gives (neg_errno EBADF) st u Hu) as (u' & Hs & _ & Hm & _); [auto with rust|]. exists u'. split; [|done].
  pose proof (mr_get_lookup u 1 _ H1 ltac:(lia)) as G1.
  unfold dispatch. rewrite (mr_get_lookup u 0 _ H0) by lia. estep.
  repeat (apply elem_of_cons in Hop as [->|Hop]); [.. | by apply not_elem_of_nil in Hop]; cbn [Z.eqb Pos.eqb];
    unfold op_read, op_write, op_close; rewrite G1; estep; rewrite ?H2; estep; rewrite Hf; exact Hs.
Qed.
End Server.

(** * Witnesses: a file layer whose files are runs of [A] of a given length *)
Module Concrete.
#[local] Existing Instance l4re_utcb_consts.
#[local] Existing Instance map_slab.
#[local] Existing Instance linux_consts_arm64.

(** A read takes from the front of what is left; opening [bin/x] succeeds; the
    waits behind an open leave another message's registers in the UTCB. *)
Definition tiny_fatfs : Fatfs.
Proof.
  refine {|
    fs := unit; file := nat;
    root_entries := fun s u => (1, s, u);
    create_file := fun p s u => (if bool_decide (p = BIN ++ [120]) then Ok 5%nat else Err NotFound, s, mk_utcb [77]);
    open_file := fun p s u => (if bool_decide (p = BIN ++ [120]) then Ok 5%nat else Err NotFound, s, mk_utcb [77]);
    file_read := fun f n s u => (Ok (replicate (Nat.min f (Z.to_nat n)) 65), (f - Z.to_nat n)%nat, s, u);
    file_write := fun f bs s u => (Ok (zlen bs), (f + length bs)%nat, s, u);
    file_seek_end := fun f s u => (Ok (wrap 64 (Z.of_nat f)), f, s, u);
    file_drop := fun f s u => (s, u) |}; cbn; try done.
  - intros. by apply mk_utcb_ok.
  - intros. by apply mk_utcb_ok.
  - intros f n s u bs Hn [= <-]. rewrite zlen_replicate. split; [lia | apply Forall_replicate; unfold is_byte; lia].
  - intros f bs s u n [= <-]. pose proof (zlen_nonneg bs). lia.
  - intros f s u n [= <-]. apply wrap_range. lia.
Defined.
#[local] Existing Instance tiny_fatfs.

Definition no_state : fs (Fatfs := tiny_fatfs) := tt.
Definition read5 : Utcb := mk_utcb [2; 0; 3].
Definition list_root : Utcb := mk_utcb [0].
Definition one_file : State :=
  {| the_fs := no_state; handles := ({[ 0 := 5%nat ]} : gmap Z nat); read_buf := []; write_buf := [] |}.
Definition no_file : State := {| the_fs := no_state; handles := slab_new; read_buf := []; write_buf := [] |}.


Lemma fs_read_delivers_witness : exists st' u', dispatch one_file read5 = Done (st', u') /\ the_fs st' = no_state
  /\ slab_get (handles st') 0 = Some 2%nat
  /\ mr u' !! 0%nat = Some 3 /\ br_len u' = 3 /\ mread (br u') 8 3 = [65; 65; 65] /\ 3 <= Z.min 3 BR_DATA_MAX.
Proof. apply (fs_read_delivers one_file read5 0 3 5%nat); [by apply mk_utcb_ok | done..]. Defined.

Lemma fs_unknown_descriptor_witness :
  exists u', dispatch no_file read5 = Done (no_file, u') /\ mr u' !! 0%nat = Some (neg_errno EBADF).
Proof. apply (fs_unknown_descriptor no_file read5 2 0); [by apply mk_utcb_ok | left | done..]. Defined.
End Concrete.
End FsServer.
