(* ===== verification/Handles.v ===== *)
(** What the Linux-side servers are to their clients: tables of handles.

    [fd_server], [epoll_server], [aio_server] and [fs_server] differ in what they do with an
    entry, but give out and take back handles in one way.  Here is that way as an
    abstract machine without slabs, registers or system calls ([hstep], [hrun]); the
    interface of a server that follows it ([HandleServer]); what clients may rely
    on, proved of the machine alone ([hrun_keeps], [open_handles_distinct]); and
    the instances: every run of the four servers is a run of the machine
    ([servers_refine_handles]). *)
From S2P Require Import Prelude Error Utcb MsgTag Host Served FdServer EpollServer AioServer FsServer.
From Stdlib Require Import ZArith Lia.
From stdpp Require Import base list gmap sets.
Open Scope Z_scope.

Module Handles.

(** * The abstract machine *)
Section Spec.
Context {H V : Type}.

(** Its state: what each handle stands for. *)
Abbreviation hstate := (H -> option V).
(** The requests that ask for a new handle - the answer's status then names it -
    and those that give one back. *)
Record Protocol := {
  opens : Utcb -> option (Z -> H);
  closes : Utcb -> option H;
  opens_or_closes : forall u, is_Some (opens u) -> closes u = None;
}.

Definition status (r : Utcb) : option Z := mr r !! 0%nat.
Definition failed (r : Utcb) : Prop := exists e, 0 < e < 4096 /\ status r = Some (neg_errno e).

(** One request [u] with its answer [r].  A request for a handle either makes
    one that was free, or is answered with an error number; giving back a handle
    that is in use frees it; everything else leaves the handles alone. *)
Inductive hstep (P : Protocol) (u r : Utcb) (m m' : hstate) : Prop :=
| Opened mk slot v :
    opens P u = Some mk -> status r = Some slot -> uint 63 slot ->
    m (mk slot) = None -> m' (mk slot) = Some v -> (forall h, h <> mk slot -> m' h = m h) -> hstep P u r m m'
| Closed h v :
    closes P u = Some h -> m h = Some v -> m' h = None -> (forall h', h' <> h -> m' h' = m h') -> hstep P u r m m'
| Kept :
    (is_Some (opens P u) -> failed r) -> (forall h, closes P u = Some h -> m h = None) ->
    (forall h, m' h = m h) -> hstep P u r m m'.

Inductive hrun (P : Protocol) : list (Utcb * Utcb) -> hstate -> hstate -> Prop :=
| hrun_nil m m' : (forall h, m' h = m h) -> hrun P [] m m'
| hrun_cons u r l m m1 m' : hstep P u r m m1 -> hrun P l m1 m' -> hrun P ((u, r) :: l) m m'.

(** States that agree on every handle are the same. *)
#[export] Instance hstep_proper P u r : Proper (pointwise_relation H eq ==> pointwise_relation H eq ==> iff) (hstep P u r).
Proof.
  enough (forall m m1 m' m1', pointwise_relation H eq m m1 -> pointwise_relation H eq m' m1' -> hstep P u r m m' -> hstep P u r m1 m1') as Hi
    by (intros m m1 Hm m' m1' Hm'; split; apply Hi; done).
  intros m m1 m' m1' Hm Hm' [mk slot v ? ? ? Hn Hs Ho|h v Hc Hh Hd Ho|Hf Hc Ho].
  - apply (Opened _ _ _ _ _ mk slot v); [done | done | done | by rewrite <- Hm | by rewrite <- Hm' |]. intros. rewrite <- Hm, <- Hm'. auto.
  - apply (Closed _ _ _ _ _ h v); [done | by rewrite <- Hm | by rewrite <- Hm' |]. intros. rewrite <- Hm, <- Hm'. auto.
  - apply Kept; [done | |]; intros h; rewrite <- Hm; [auto | by rewrite <- Hm'].
Qed.
#[export] Instance hrun_proper P l : Proper (pointwise_relation H eq ==> pointwise_relation H eq ==> iff) (hrun P l).
Proof.
  enough (forall m m', hrun P l m m' -> forall m1 m1', pointwise_relation H eq m m1 -> pointwise_relation H eq m' m1' -> hrun P l m1 m1') as Hi
    by (intros m m1 Hm m' m1' Hm'; split; intros Hr; by eapply (Hi _ _ Hr)).
  induction 1 as [m m' He|u r l m m2 m' Hs _ IH]; intros m1 m1' Hm Hm'.
  - apply hrun_nil. intros h. by rewrite <- Hm, <- Hm'.
  - apply (hrun_cons _ _ _ _ _ m2); [by rewrite <- Hm | by apply IH].
Qed.

(** An error number is not a handle. *)
Lemma failed_no_handle r slot : failed r -> status r = Some slot -> ~ uint 63 slot.
Proof.
  intros (e & He & Hs) Hs'. rewrite Hs in Hs'. simplify_eq. unfold neg_errno, wrap, uint.
  rewrite <- (Z_mod_plus_full (- e) 1), Z.mod_small by lia. lia.
Qed.

(** What a handle stands for stays until it is given back. *)
Lemma hstep_keeps P u r m m' h v : hstep P u r m m' -> m h = Some v -> closes P u <> Some h -> m' h = Some v.
Proof.
  intros [mk slot w ? ? ? Hn Hs Ho|h' w Hc Hh Hd Ho|? ? Ho] Hv Hne.
  - rewrite Ho; [done|]. intros ->. congruence.
  - rewrite Ho; [done|]. congruence.
  - by rewrite Ho.
Qed.
Lemma hrun_keeps P l m m' h v : hrun P l m m' -> m h = Some v -> Forall (fun ur => closes P ur.1 <> Some h) l -> m' h = Some v.
Proof.
  induction 1 as [m m' He|u r l m m1 m' Hs _ IH]; intros Hv Hn; [by rewrite He|].
  inversion Hn; subst. apply IH; [|done]. by eapply hstep_keeps.
Qed.
Lemma hrun_app P a b m m' : hrun P (a ++ b) m m' -> exists m1, hrun P a m m1 /\ hrun P b m1 m'.
Proof.
  revert m. induction a as [|[u r] a IH]; cbn; intros m Hr.
  - exists m. split; [by constructor | done].
  - inversion Hr as [|? ? ? ? m1 ? Hs Hr']; subst. destruct (IH _ Hr') as (m2 & ? & ?). exists m2. split; [by econstructor | done].
Qed.
(** A request for a handle that is answered with one has made it. *)
Lemma hstep_opened P u r m m' mk slot :
  hstep P u r m m' -> opens P u = Some mk -> status r = Some slot -> uint 63 slot -> m (mk slot) = None /\ is_Some (m' (mk slot)).
Proof.
  intros [mk' slot' v Hmk Hst _ Hn Hs _|h v Hc _ _ _|Hf _ _] Ho Hr Hu.
  - rewrite Ho in Hmk. rewrite Hr in Hst. simplify_eq. split; [done | by eexists].
  - rewrite (opens_or_closes P u) in Hc by (by rewrite Ho). done.
  - exfalso. apply (failed_no_handle r slot); [apply Hf; by rewrite Ho | done..].
Qed.

(** Whoever holds a handle holds it alone: as long as it has not been
    given back, no other request - of any client - is answered with it. *)
Theorem open_handles_distinct P l1 u1 r1 l2 u2 r2 l3 m m' mk1 slot1 mk2 slot2 :
  hrun P (l1 ++ (u1, r1) :: l2 ++ (u2, r2) :: l3) m m' ->
  opens P u1 = Some mk1 -> status r1 = Some slot1 -> uint 63 slot1 ->
  Forall (fun ur => closes P ur.1 <> Some (mk1 slot1)) l2 ->
  opens P u2 = Some mk2 -> status r2 = Some slot2 -> uint 63 slot2 ->
  mk1 slot1 <> mk2 slot2.
Proof.
  intros (m1 & _ & Hr)%hrun_app Ho1 Hs1 Hu1 Hn Ho2 Hs2 Hu2 He.
  inversion Hr as [|? ? ? ? m2 ? Hstep1 Hr2]; subst. apply hrun_app in Hr2 as (m3 & Hr2 & Hr3).
  inversion Hr3 as [|? ? ? ? m4 ? Hstep2 _]; subst.
  destruct (hstep_opened _ _ _ _ _ _ _ Hstep1 Ho1 Hs1 Hu1) as [_ [v Hv]].
  destruct (hstep_opened _ _ _ _ _ _ _ Hstep2 Ho2 Hs2 Hu2) as [Hf _].
  rewrite <- He, (hrun_keeps _ _ _ _ _ _ Hr2 Hv Hn) in Hf. done.
Qed.
End Spec.
Arguments Protocol : clear implicits.

Section Servers.
Context {UC : UtcbConsts} {SL : Slab} {LX : Linux}.

(** * Servers that follow it

    A loop around one handler, and an invariant that may limit the number of
    requests to come. *)
Class HandleServer (St H V : Type) := {
  hs_protocol : Protocol H;
  hs_handles : St -> H -> option V;
  hs_tag : Z;
  hs_dispatch : St -> os -> Utcb -> exec (St * os * Utcb);
  hs_loop : list Incoming -> St -> os -> exec (St * os * list (Z * Utcb));
  hs_loop_nil : forall st o, hs_loop [] st o = Done (st, o, []);
  hs_loop_error : forall rest st o, hs_loop (IpcError :: rest) st o = hs_loop rest st o;
  hs_loop_request : forall u rest st o, hs_loop (Request u :: rest) st o =
    '(st, o, u) ← hs_dispatch st o u; '(st, o, replies) ← hs_loop rest st o; Done (st, o, (hs_tag, u) :: replies);
  hs_inv : nat -> St -> os -> Prop;
  hs_inv_less : forall n st o, hs_inv (S n) st o -> hs_inv n st o;
  hs_step : forall n st o u, utcb_ok u -> hs_inv (S n) st o ->
    exists st' o' u', hs_dispatch st o u = Done (st', o', u') /\ hs_inv n st' o'
      /\ hstep hs_protocol u u' (hs_handles st) (hs_handles st');
}.

(** Their runs are runs of the machine. *)
Lemma handle_server_runs {St H V} `{!HandleServer St H V} incoming : forall st o,
  Forall good_incoming incoming -> hs_inv (length incoming) st o ->
  exists st' o' replies, hs_loop incoming st o = Done (st', o', replies) /\ Forall (fun r => r.1 = hs_tag) replies
    /\ length replies = length (requests incoming)
    /\ hrun hs_protocol (zip (requests incoming) replies.*2) (hs_handles st) (hs_handles st').
Proof.
  induction incoming as [|[|u] rest IH]; intros st o Hg Hi.
  - rewrite hs_loop_nil. eexists _, _, _. split; [done|]. split; [done|]. split; [done|]. by constructor.
  - rewrite hs_loop_error. inversion Hg; subst. by apply IH; [|apply hs_inv_less].
  - rewrite hs_loop_request. inversion Hg as [|? ? Hu Hg']; subst.
    destruct (hs_step _ st o u Hu Hi) as (st1 & o1 & u1 & -> & Hi1 & Hs). estep.
    destruct (IH st1 o1 Hg' Hi1) as (st2 & o2 & rs & -> & Ht & Hl & Hr). estep.
    eexists _, _, _. split; [done|]. split; [by constructor|]. split; [cbn; by f_equal|]. by econstructor.
Qed.

(** * What a handler does to its table

    [val] is what an entry stands for.  [opening] and [closing] say what is asked
    of the handler. *)
Section Effects.
Context {X V : Type} (val : X -> V).
Definition entries (s : slab X) : gmap Z V := val <$> slab_map s.

Inductive effect (opening : bool) (closing : option Z) (s s' : slab X) (r : Utcb) : Prop :=
| Inserts k v : opening = true -> status r = Some k -> uint 63 k -> entries s !! k = None ->
    entries s' = <[k := v]> (entries s) -> effect opening closing s s' r
| Removes k v : closing = Some k -> entries s !! k = Some v -> entries s' = delete k (entries s) -> effect opening closing s s' r
| Leaves : (opening = true -> failed r) -> (forall k, closing = Some k -> entries s !! k = None) ->
    entries s' = entries s -> effect opening closing s s' r.
Definition Performs (opening : Utcb -> bool) (closing : Utcb -> option Z) (h : Handler X) : Prop :=
  forall s o u s' o' u', utcb_ok u -> Z.of_nat (size (slab_map s)) < 2 ^ 62 -> h s o u = Done (s', o', u') ->
  effect (opening u) (closing u) s s' u'.

Lemma mr_set_status v u u' : mr_set 0 v u = Done u' -> status u' = Some v.
Proof.
  unfold mr_set, status. destruct (_ && _) eqn:E; [|done]. intros [= <-]. zb. apply list_lookup_insert_eq. unfold zlen in *. lia.
Qed.
Lemma answer_inv v (s : slab X) o u s' o' u' : answer v s o u = Done (s', o', u') -> s' = s /\ o' = o /\ status u' = Some v.
Proof.
  unfold answer. destruct (mr_set 0 v u) as [u1| | |] eqn:E; try done. estep. intros [= <- <- <-].
  split; [done|]. split; [done|]. by apply mr_set_status in E.
Qed.
Lemma failed_errno r e : status r = Some (neg_errno e) -> 0 < e < 4096 -> failed r.
Proof. by exists e. Qed.
Lemma errno_const e : e ∈ [EBADF; EINVAL; ENOSYS; EIO; EOVERFLOW; ENOENT] -> 0 < e < 4096.
Proof. pose proof errno_consts as He. rewrite Forall_forall in He. apply He. Qed.

Lemma insert_effect s x o u s' o' u' closing : Z.of_nat (size (slab_map s)) < 2 ^ 62 ->
  (let '(slot, s) := slab_insert s x in answer slot s o u) = Done (s', o', u') -> effect true closing s s' u'.
Proof.
  intros Hsz. destruct (slab_insert_spec _ s x) as (Hk & Hn & Hm). destruct (slab_insert s x) as [slot s1]. cbn in *.
  intros (-> & _ & Hst)%answer_inv. eapply (Inserts _ _ _ _ _ slot (val x)); [done | done | by apply Hk | |].
  - unfold entries. by rewrite lookup_fmap, Hn.
  - unfold entries. by rewrite Hm, fmap_insert.
Qed.
Lemma answer_fails e (s : slab X) o u s' o' u' : answer (neg_errno e) s o u = Done (s', o', u') -> 0 < e < 4096 ->
  forall opening, effect opening None s s' u'.
Proof.
  intros (-> & _ & Hst)%answer_inv He opening. apply Leaves; [intros _; by eapply failed_errno | done..].
Qed.
Lemma remove_entries s k x : slab_map s !! k = Some x -> entries s !! k = Some (val x) /\ entries (slab_remove s k) = delete k (entries s).
Proof. intros Hk. unfold entries. rewrite lookup_fmap, Hk. split; [done|]. erewrite slab_remove_spec by done. by rewrite fmap_delete. Qed.

(** A server with one table: a handle is its key. *)
Lemma effect_hstep (P : Protocol Z) (opening : Utcb -> bool) closing s s' u u' : effect (opening u) (closing u) s s' u' ->
  opens P u = (if opening u then Some id else None) -> closes P u = closing u ->
  hstep P u u' (fun k => entries s !! k) (fun k => entries s' !! k).
Proof.
  intros [k v Hop Hst Hk Hn He|k v Hcl Hv He|Hop Hcl He] Ho Hc.
  - apply (Opened _ _ _ _ _ id k v); cbn; rewrite ?He, ?lookup_insert_eq; [by rewrite Ho, Hop | done..|].
    intros h Hne. by rewrite lookup_insert_ne.
  - apply (Closed _ _ _ _ _ k v); rewrite ?He, ?lookup_delete_eq; [by rewrite Hc | done..|]. intros h Hne. by rewrite lookup_delete_ne.
  - apply Kept; [|by rewrite Hc | by intros; rewrite He]. rewrite Ho. destruct (opening u); [auto | by intros []].
Qed.
End Effects.

Definition none (u : Utcb) : option Z := None.
Definition no (u : Utcb) : bool := false.
Definition yes (u : Utcb) : bool := true.
Definition reg1 (u : Utcb) : option Z := match mr_get u 1 with Done h => Some h | _ => None end.
Definition is_op (op : Z) (u : Utcb) : bool := match mr_get u 0 with Done o => o =? op | _ => false end.

(** Making a descriptor, and recording it. *)
Lemma create_effect {X} `{HasFd X} c fd o o1 (s : slab X) x u s' o' u' (fail : Handler X) :
  sys_create c o = (fd, o1) ->
  (forall s o u s' o' u', 0 < errno o < 4096 -> fail s o u = Done (s', o', u') -> s' = s /\ failed u') ->
  Z.of_nat (size (slab_map s)) < 2 ^ 62 ->
  (if fd <? 0 then fail s o1 u else let '(slot, s) := slab_insert s x in answer slot s o1 u) = Done (s', o', u') ->
  effect fd_of true None s s' u'.
Proof.
  intros Hc Hf Hsz. destruct (sys_create_spec _ _ _ _ Hc) as [(Hr & _ & He)|[Hr _]].
  - zif_true. intros Hd. destruct (Hf _ _ _ _ _ _ He Hd) as [-> ?]. by apply Leaves.
  - zif_false. intros Hd. by eapply insert_effect.
Qed.
Lemma errno_answer {X} (s : slab X) o u s' o' u' : 0 < errno o < 4096 -> answer (encode_errno o) s o u = Done (s', o', u') -> s' = s /\ failed u'.
Proof. intros He (-> & _ & ?)%answer_inv. split; [done|]. by exists (errno o). Qed.
Lemma close_removes {X} `{HasFd X} : Performs fd_of no reg1 (Served.handle_close (X := X)).
Proof.
  intros s o u s' o' u' Hu _. unfold handle_close, reg1. destruct (mr_get u 1) as [h| | |]; [|done..]. estep.
  unfold slab_get. destruct (slab_map s !! h) as [x|] eqn:Hx; intros (-> & _ & _)%answer_inv.
  - destruct (remove_entries fd_of s h x Hx). by eapply Removes.
  - apply Leaves; [done | | done]. intros k [= <-]. unfold entries. by rewrite lookup_fmap, Hx.
Qed.
End Servers.
#[export] Hint Resolve close_removes : rust.

(** Take a handler's result apart, path by path. *)
Ltac paths H := repeat first
  [ discriminate H
  | match type of H with
    | context [match ?x with _ => _ end] => first [is_var x; destruct x | let E := fresh "E" in destruct x eqn:E]; cbn beta iota zeta in H
    end ].

(** A handler that leaves its table alone, or an entry's value. *)
Ltac leaves := intros s o u s' o' u' Hu _ Hr; unfold mbind, exec_bind in Hr; paths Hr; simplify_eq;
  repeat match goal with E : answer _ _ _ _ = Done _ |- _ => apply answer_inv in E as (-> & -> & ?) end; by apply Leaves.

(** * The fd server *)
Module Fd.
Import FdServer.FdServer.
Section Fd.
Context {UC : UtcbConsts} {SL : Slab} {LX : Linux}.

Lemma eventfd_create_opens : Performs fd_of yes none handle_eventfd_create.
Proof.
  intros s o u s' o' u' Hu Hsz. unfold handle_eventfd_create. destruct (mr_get u 1); [|done..]. destruct (mr_get u 2); [|done..]. estep.
  destruct (sys_create _ o) as [fd o1] eqn:Hc.
  apply (create_effect _ _ _ _ s _ u s' o' u' (fun s o u => u ← mr_set 0 (encode_errno o) u; Done (s, o, u)) Hc); [|done].
  intros s0 o0 u0 s1 o2 u1 He. destruct (mr_set 0 _ u0) eqn:E; [|done..]. intros [= <- <- <-]. split; [done|].
  exists (errno o0). split; [done|]. by eapply mr_set_status.
Qed.
Lemma timerfd_create_opens : Performs fd_of yes none handle_timerfd_create.
Proof.
  intros s o u s' o' u' Hu Hsz. unfold handle_timerfd_create. destruct (mr_get u 1); [|done..]. destruct (mr_get u 2); [|done..]. estep.
  destruct (sys_create _ o) as [fd o1] eqn:Hc.
  apply (create_effect _ _ _ _ s _ u s' o' u' (fun s o => answer (encode_errno o) s o) Hc); [|done]. intros ? ? ? ? ? ?. apply errno_answer.
Qed.
Lemma inotify_init_opens : Performs fd_of yes none handle_inotify_init.
Proof.
  intros s o u s' o' u' Hu Hsz. unfold handle_inotify_init. destruct (mr_get u 1); [|done..]. estep.
  destruct (sys_create _ o) as [fd o1] eqn:Hc.
  apply (create_effect _ _ _ _ s _ u s' o' u' (fun s o => answer (encode_errno o) s o) Hc); [|done]. intros ? ? ? ? ? ?. apply errno_answer.
Qed.
(** A new signalfd is made for a negative descriptor argument; another one names the
    entry whose mask changes. *)
Definition makes_signalfd (u : Utcb) : bool := match mr_get u 1 with Done target => swrap 64 target <? 0 | _ => false end.
Lemma signalfd_create_opens : Performs fd_of makes_signalfd none handle_signalfd_create.
Proof.
  intros s o u s' o' u' Hu Hsz. unfold handle_signalfd_create, makes_signalfd. destruct (mr_get u 1) as [t| | |]; [|done..].
  destruct (mr_get u 2); [|done..]. destruct (mr_get u 3); [|done..]. estep. destruct (read_sigset _ u) as [[mask|]| | |]; [| |done..]; estep.
  - destruct (swrap 64 t <? 0) eqn:Et; zb; [zif_false | zif_true].
    + destruct (sys_create _ o) as [fd o1] eqn:Hc.
      apply (create_effect _ _ _ _ s _ u s' o' u' (fun s o => answer (encode_errno o) s o) Hc); [|done]. intros ? ? ? ? ? ?. apply errno_answer.
    + intros Hr. paths Hr; apply answer_inv in Hr as (-> & _ & _); by apply Leaves.
  - intros (-> & _ & Hs)%answer_inv. apply Leaves; [|done..]. intros _. apply (failed_errno _ EINVAL); [done|]. apply errno_const. set_solver.
Qed.

Lemma eventfd_read_leaves : Performs fd_of no none handle_eventfd_read.
Proof. unfold handle_eventfd_read. leaves. Qed.
Lemma eventfd_write_leaves : Performs fd_of no none handle_eventfd_write.
Proof. unfold handle_eventfd_write. leaves. Qed.
Lemma timerfd_settime_leaves : Performs fd_of no none handle_timerfd_settime.
Proof. unfold handle_timerfd_settime, write_itimerspec. leaves. Qed.
Lemma timerfd_gettime_leaves : Performs fd_of no none handle_timerfd_gettime.
Proof. unfold handle_timerfd_gettime, write_itimerspec. leaves. Qed.
Lemma timerfd_read_leaves : Performs fd_of no none handle_timerfd_read.
Proof. unfold handle_timerfd_read. leaves. Qed.
Lemma buf_read_leaves {X} `{HasFd X} : Performs fd_of no none (handle_buf_read (X := X)).
Proof. unfold handle_buf_read. leaves. Qed.
Ltac leaves_set := intros s o u s' o' u' Hu _ Hr; unfold mbind, exec_bind in Hr; paths Hr; simplify_eq;
  repeat match goal with E : answer _ _ _ _ = Done _ |- _ => apply answer_inv in E as (-> & -> & ?) end; apply Leaves; try done;
  by eapply set_fds.
Lemma inotify_add_watch_leaves : Performs fd_of no none handle_inotify_add_watch.
Proof. unfold handle_inotify_add_watch. leaves_set. Qed.
Lemma inotify_rm_watch_leaves : Performs fd_of no none handle_inotify_rm_watch.
Proof. unfold handle_inotify_rm_watch. leaves_set. Qed.

(** ** All four tables: a handle is a kind and a key *)
Definition fd_opens (u : Utcb) : option (Z -> Kind * Z) :=
  match mr_get u 0 with
  | Done op =>
    if op =? EVENTFD_CREATE then Some (pair KEvent)
    else if op =? TIMERFD_CREATE then Some (pair KTimer)
    else if op =? SIGNALFD_CREATE then if makes_signalfd u then Some (pair KSignal) else None
    else if op =? INOTIFY_INIT then Some (pair KInotify)
    else None
  | _ => None
  end.
Lemma fd_opens_or_closes u : is_Some (fd_opens u) -> close_request u = None.
Proof.
  unfold fd_opens, close_request. destruct (mr_get u 0) as [op| | |]; [|by intros []..]. destruct (mr_get u 1); [|done..].
  intros [? Ho]. repeat case_match; zb; subst; done.
Qed.
Definition fd_protocol : Protocol (Kind * Z) :=
  {| opens := fd_opens; closes := close_request; opens_or_closes := fd_opens_or_closes |}.
Definition fd_handles (t : Tables) (h : Kind * Z) : option Z := table t h.1 !! h.2.

Lemma lend_hstep {X} `{HasFd X} (get : Tables -> slab X) put h opening closing k t o u t' o' u' :
  lend get put h t o u = Done (t', o', u') ->
  (forall t s, get (put s t) = s) -> (forall t, table t k = fds (get t)) ->
  (forall t s l, l <> k -> table (put s t) l = table t l) ->
  Performs fd_of opening closing h -> utcb_ok u -> Z.of_nat (size (table t k)) < 2 ^ 62 ->
  fd_opens u = (if opening u then Some (pair k) else None) -> close_request u = pair k <$> closing u ->
  hstep fd_protocol u u' (fd_handles t) (fd_handles t').
Proof.
  unfold lend. destruct (h (get t) o u) as [[[s' o1] u1]| | |] eqn:Hr; [|done..]. estep.
  intros [= <- <- <-] Hgp Hk Hl Hp Hu Hsz Ho Hc. rewrite Hk in Hsz. unfold fds in Hsz. rewrite map_size_fmap in Hsz.
  assert (forall i, fd_handles t (k, i) = entries fd_of (get t) !! i) as H1 by (intros; unfold fd_handles; cbn; by rewrite Hk).
  assert (forall i, fd_handles (put s' t) (k, i) = entries fd_of s' !! i) as H2 by (intros; unfold fd_handles; cbn; by rewrite Hk, Hgp).
  assert (forall l i, l <> k -> fd_handles (put s' t) (l, i) = fd_handles t (l, i)) as H3 by (intros; unfold fd_handles; cbn; by rewrite Hl).
  destruct (Hp _ _ _ _ _ _ Hu Hsz Hr) as [i v Hop Hst Hi Hn He|i v Hcl Hv He|Hop Hcl He].
  - apply (Opened _ _ _ _ _ (pair k) i v); [cbn; by rewrite Ho, Hop | done | done | by rewrite H1 | by rewrite H2, He, lookup_insert_eq |].
    intros [l j] Hne. destruct (decide (l = k)) as [->|]; [|by apply H3]. rewrite H1, H2, He, lookup_insert_ne; [done | congruence].
  - apply (Closed _ _ _ _ _ (k, i) v); [cbn; by rewrite Hc, Hcl | by rewrite H1 | by rewrite H2, He, lookup_delete_eq |].
    intros [l j] Hne. destruct (decide (l = k)) as [->|]; [|by apply H3]. rewrite H1, H2, He, lookup_delete_ne; [done | congruence].
  - apply Kept; cbn.
    + rewrite Ho. destruct (opening u); [auto | by intros []].
    + rewrite Hc. destruct (closing u) as [i|]; [|done]. intros ? [= <-]. rewrite H1. by apply Hcl.
    + intros [l j]. destruct (decide (l = k)) as [->|]; [|by apply H3]. by rewrite H1, H2, He.
Qed.

#[local] Hint Resolve eventfd_create_opens timerfd_create_opens inotify_init_opens signalfd_create_opens close_removes
  eventfd_read_leaves eventfd_write_leaves timerfd_settime_leaves timerfd_gettime_leaves timerfd_read_leaves
  inotify_add_watch_leaves inotify_rm_watch_leaves buf_read_leaves : rust.
Ltac arm k H0 H1 Hd := eapply (lend_hstep _ _ _ _ _ k _ _ _ _ _ _ Hd);
  [done | done | by intros ? ? [] | solve [eauto with rust] | done | auto
  | unfold fd_opens; rewrite H0; zb; subst; reflexivity
  | unfold close_request, reg1, none; rewrite H0, H1; zb; subst; reflexivity].

Lemma fd_dispatch_hstep t o u t' o' u' : utcb_ok u -> (forall k, Z.of_nat (size (table t k)) < 2 ^ 62) ->
  dispatch t o u = Done (t', o', u') -> hstep fd_protocol u u' (fd_handles t) (fd_handles t').
Proof.
  intros Hu Hsz. destruct (mr_get_ok u 0) as (op & H0 & _); [done | lia|]. destruct (mr_get_ok u 1) as (h & H1 & _); [done | lia|].
  unfold dispatch. rewrite H0. estep.
  repeat match goal with |- (if ?b then _ else _) = _ -> _ => destruct b eqn:?;
    [ intros Hd; match type of Hd with
      | context [set_eventfds] => arm KEvent H0 H1 Hd
      | context [set_timerfds] => arm KTimer H0 H1 Hd
      | context [set_signalfds] => arm KSignal H0 H1 Hd
      | context [set_inotifies] => arm KInotify H0 H1 Hd
      end | ] end.
  destruct (mr_set 0 _ u) as [u1| | |]; [|done..]. estep. intros [= <- <- <-]. apply Kept; cbn.
  - unfold fd_opens. rewrite H0. intros [? Ho]. repeat case_match; done.
  - unfold close_request. rewrite H0, H1. intros ? Ho. repeat case_match; done.
  - done.
Qed.

(** Descriptors are owned, so that the tables never fill up. *)
#[export] Instance fd_server : HandleServer Tables (Kind * Z) Z.
Proof.
  refine {| hs_protocol := fd_protocol; hs_handles := fd_handles; hs_tag := l4_msgtag 0 1 0 0; hs_dispatch := dispatch;
            hs_loop := run_loop; hs_inv n t o := exists B, Owned B (table t) (open_fds o) |}; try done.
  intros n t o u Hu [B Ho]. destruct (fd_dispatch_served B t o u Hu Ho) as (t' & o' & u' & Hd & _ & Ho' & _).
  exists t', o', u'. split; [done|]. split; [by exists B|]. apply (fd_dispatch_hstep t o u t' o'); [done | | done].
  intros k. pose proof (owns_size _ _ _ (owned_focus _ _ _ k Ho)). lia.
Defined.
End Fd.
End Fd.

(** * The epoll server *)
Module Epoll.
Import EpollServer.EpollServer.
Section Epoll.
Context {UC : UtcbConsts} {SL : Slab} {LX : Linux}.

Lemma create1_opens : Performs fd_of yes none handle_create1.
Proof.
  intros s o u s' o' u' Hu Hsz. unfold handle_create1. destruct (mr_get u 1); [|done..]. estep.
  destruct (sys_create _ o) as [fd o1] eqn:Hc.
  apply (create_effect _ _ _ _ s _ u s' o' u' (fun s o => answer (encode_errno o) s o) Hc); [|done]. intros ? ? ? ? ? ?. apply errno_answer.
Qed.
Lemma ctl_leaves : Performs fd_of no none handle_ctl.
Proof. unfold handle_ctl. leaves. Qed.
Lemma wait_leaves : Performs fd_of no none handle_wait.
Proof. unfold handle_wait. leaves. Qed.

Definition epoll_opens (u : Utcb) : option (Z -> Z) := if is_op CREATE1 u then Some id else None.
Definition epoll_closes (u : Utcb) : option Z := if is_op CLOSE u then reg1 u else None.
Lemma epoll_opens_or_closes u : is_Some (epoll_opens u) -> epoll_closes u = None.
Proof. unfold epoll_opens, epoll_closes, is_op. destruct (mr_get u 0) as [op| | |]; try by intros []. by repeat case_match; zb; subst; intros []. Qed.
Definition epoll_protocol : Protocol Z :=
  {| opens := epoll_opens; closes := epoll_closes; opens_or_closes := epoll_opens_or_closes |}.
Definition epoll_handles (s : slab EpollInstance) (k : Z) : option Z := entries fd_of s !! k.

Lemma epoll_dispatch_hstep s o u s' o' u' : utcb_ok u -> Z.of_nat (size (slab_map s)) < 2 ^ 62 ->
  dispatch s o u = Done (s', o', u') -> hstep epoll_protocol u u' (epoll_handles s) (epoll_handles s').
Proof.
  intros Hu Hsz. destruct (mr_get_ok u 0) as (op & H0 & _); [done | lia|]. unfold dispatch. rewrite H0. estep.
  destruct (op =? CREATE1) eqn:?; [|destruct (op =? CTL) eqn:?; [|destruct (op =? WAIT) eqn:?; [|destruct (op =? CLOSE) eqn:?]]]; zb; subst; intros Hd.
  - by apply (effect_hstep fd_of epoll_protocol yes none); [eapply create1_opens | cbn; unfold epoll_opens, epoll_closes, is_op; rewrite H0..].
  - by apply (effect_hstep fd_of epoll_protocol no none); [eapply ctl_leaves | cbn; unfold epoll_opens, epoll_closes, is_op; rewrite H0..].
  - by apply (effect_hstep fd_of epoll_protocol no none); [eapply wait_leaves | cbn; unfold epoll_opens, epoll_closes, is_op; rewrite H0..].
  - by apply (effect_hstep fd_of epoll_protocol no reg1); [eapply close_removes | cbn; unfold epoll_opens, epoll_closes, is_op; rewrite H0..].
  - apply answer_inv in Hd as (-> & -> & _). apply Kept; cbn; unfold epoll_opens, epoll_closes, is_op; rewrite ?H0; repeat case_match; zb; try done; by intros [].
Qed.

#[export] Instance epoll_server : HandleServer (slab EpollInstance) Z Z.
Proof.
  refine {| hs_protocol := epoll_protocol; hs_handles := epoll_handles; hs_tag := l4_msgtag 0 1 0 0; hs_dispatch := dispatch;
            hs_loop := run_loop; hs_inv n s o := exists F, Owns F (fds s) (open_fds o) |}; try done.
  intros n s o u Hu [F Ho]. destruct (mr_get_ok u 1) as (k & Hk & _); [done | lia|].
  destruct (epoll_dispatch_served F s o u k Hu Ho Hk) as (s' & o' & u' & Hd & _ & Ho' & _).
  exists s', o', u'. split; [done|]. split; [by exists F|]. apply (epoll_dispatch_hstep s o u s' o'); [done | | done].
  pose proof (owns_size _ _ _ Ho) as Hsz. unfold fds in Hsz. rewrite map_size_fmap in Hsz. lia.
Defined.
End Epoll.
End Epoll.

(** * The aio server: a handle stands for an operation's outcome *)
Module Aio.
Import AioServer.AioServer.
Section Aio.
Context {UC : UtcbConsts} {SL : Slab} {LX : Linux} {AL : AiocbLayout}.

Lemma submit_opens r (s : slab Operation) o u s' o' u' : (forall e, r = Err e -> 0 < e < 4096) ->
  Z.of_nat (size (slab_map s)) < 2 ^ 62 -> submit r s o u = Done (s', o', u') -> effect id true None s s' u'.
Proof.
  intros He Hsz. unfold submit. destruct r as [op|e]; [by apply insert_effect|]. intros Ha. eapply answer_fails; [exact Ha|]. by apply He.
Qed.
Lemma einval_range : 0 < EINVAL < 4096.
Proof. apply errno_const. set_solver. Qed.
Lemma call_errno c o r out o' : sys_fd c o = (r, out, o') -> (r <? 0) = true -> 0 < errno o' < 4096.
Proof. intros Hc Hr. zb. pose proof (sys_fd_errno c o) as He. rewrite Hc in He. by apply He. Qed.

Lemma aio_read_opens : Performs id yes none handle_aio_read.
Proof.
  intros s o u s' o' u' Hu Hsz. unfold handle_aio_read. destruct (mr_get u 1); [|done..]. estep.
  destruct (read_aiocb _ u) as [[cb|]| | |]; [| |done..]; estep; [|intros Ha; eapply answer_fails; [exact Ha | apply einval_range]].
  unfold read_buffer_from_aiocb. destruct (perform_read _ _ _ o) as [r o1] eqn:Hp. apply submit_opens; [|done].
  intros e He. destruct r as [[? ?]|e']; [done|]. cbn in He. simplify_eq. unfold perform_read in Hp.
  destruct (_ <? _); [simplify_eq; apply errno_const; set_solver|]. destruct (sys_fd _ o) as [[r out] o2] eqn:Hc.
  destruct (r <? 0) eqn:Hr; simplify_eq. by eapply call_errno.
Qed.
Lemma aio_write_opens : Performs id yes none handle_aio_write.
Proof.
  intros s o u s' o' u' Hu Hsz. unfold handle_aio_write. destruct (mr_get u 1); [|done..]. destruct (mr_get u 2); [|done..]. estep.
  destruct (_ <? _); [intros Ha; eapply answer_fails; [exact Ha | apply einval_range]|].
  destruct (br_load u _); [|done..]. destruct (peek _ _ _); [|done..]. estep.
  destruct (perform_write _ _ _ o) as [r o1] eqn:Hp. apply submit_opens; [|done].
  intros e He. destruct r as [?|e']; [done|]. cbn in He. simplify_eq. unfold perform_write in Hp.
  destruct (sys_fd _ o) as [[r out] o2] eqn:Hc. destruct (r <? 0) eqn:Hr; simplify_eq. by eapply call_errno.
Qed.
Lemma aio_fsync_opens : Performs id yes none handle_aio_fsync.
Proof.
  intros s o u s' o' u' Hu Hsz. unfold handle_aio_fsync. destruct (mr_get u 1); [|done..]. destruct (mr_get u 3); [|done..]. estep.
  destruct (read_aiocb _ u) as [[cb|]| | |]; [| |done..]; estep; [|intros Ha; eapply answer_fails; [exact Ha | apply einval_range]].
  destruct (perform_fsync _ _ o) as [r o1] eqn:Hp. apply submit_opens; [|done].
  intros e He. destruct r as [?|e']; [done|]. cbn in He. simplify_eq. unfold perform_fsync in Hp.
  destruct (_ =? _); destruct (sys_fd _ o) as [[r out] o2] eqn:Hc; destruct (r <? 0) eqn:Hr; simplify_eq; by eapply call_errno.
Qed.

(** [AIO_RETURN] and [AIO_CANCEL] give the key back. *)
Lemma aio_return_removes : Performs id no reg1 handle_aio_return.
Proof.
  intros s o u s' o' u' Hu _ Hr. unfold handle_aio_return in Hr. unfold reg1. destruct (mr_get u 1) as [h| | |]; [|done..]. cbn [mbind exec_bind] in Hr.
  unfold slab_get in Hr. destruct (slab_map s !! h) as [op|] eqn:Hh.
  - destruct (remove_entries id s h op Hh). enough (s' = slab_remove s h) as -> by by eapply Removes.
    unfold mbind, exec_bind in Hr. paths Hr; simplify_eq; try done. by apply answer_inv in Hr as (-> & _).
  - apply answer_inv in Hr as (-> & _). apply Leaves; [done | | done]. intros k [= <-]. unfold entries. by rewrite lookup_fmap, Hh.
Qed.
Lemma aio_cancel_removes : Performs id no reg1 handle_aio_cancel.
Proof.
  intros s o u s' o' u' Hu _. unfold handle_aio_cancel, reg1. destruct (mr_get u 1) as [h| | |]; [|done..]. estep.
  unfold slab_contains. destruct (slab_map s !! h) as [op|] eqn:Hh; cbn; intros (-> & _)%answer_inv.
  - destruct (remove_entries id s h op Hh). by eapply Removes.
  - apply Leaves; [done | | done]. intros k [= <-]. unfold entries. by rewrite lookup_fmap, Hh.
Qed.
Lemma aio_error_leaves : Performs id no none handle_aio_error.
Proof. unfold handle_aio_error. leaves. Qed.
Lemma aio_suspend_leaves : Performs id no none handle_aio_suspend.
Proof. unfold handle_aio_suspend. leaves. Qed.

Definition aio_submits (u : Utcb) : bool := is_op AIO_READ u || is_op AIO_WRITE u || is_op AIO_FSYNC u.
Definition aio_opens (u : Utcb) : option (Z -> Z) := if aio_submits u then Some id else None.
Definition aio_closes (u : Utcb) : option Z := if is_op AIO_RETURN u || is_op AIO_CANCEL u then reg1 u else None.
Lemma aio_opens_or_closes u : is_Some (aio_opens u) -> aio_closes u = None.
Proof.
  unfold aio_opens, aio_closes, aio_submits, is_op. destruct (mr_get u 0) as [op| | |]; try by intros [].
  repeat match goal with |- context [op =? ?k] => destruct (op =? k) eqn:? end; zb; subst; by (done || intros []).
Qed.
Definition aio_protocol : Protocol Z := {| opens := aio_opens; closes := aio_closes; opens_or_closes := aio_opens_or_closes |}.
Definition aio_handles (s : slab Operation) (k : Z) : option Operation := entries id s !! k.

Ltac arm opening closing H0 := apply (effect_hstep id aio_protocol opening closing);
  [solve [first [by eapply aio_read_opens | by eapply aio_write_opens | by eapply aio_fsync_opens | by eapply aio_return_removes
     | by eapply aio_cancel_removes | by eapply aio_error_leaves | by eapply aio_suspend_leaves]]
  | cbn; unfold aio_opens, aio_closes, aio_submits, is_op; by rewrite H0..].
Lemma aio_dispatch_hstep s o u s' o' u' : utcb_ok u -> Z.of_nat (size (slab_map s)) < 2 ^ 62 ->
  dispatch s o u = Done (s', o', u') -> hstep aio_protocol u u' (aio_handles s) (aio_handles s').
Proof.
  intros Hu Hsz. destruct (mr_get_ok u 0) as (op & H0 & _); [done | lia|]. unfold dispatch. rewrite H0. estep.
  repeat match goal with |- (if op =? ?k then _ else _) = _ -> _ => destruct (op =? k) eqn:?;
    [ zb; subst op; intros Hd;
      first [arm yes none H0 | arm no reg1 H0 | arm no none H0
            | apply answer_inv in Hd as (-> & -> & _); apply Kept; cbn; unfold aio_opens, aio_closes, aio_submits, is_op; rewrite ?H0; by (done || intros [])] |] end.
  intros (-> & -> & _)%answer_inv. apply Kept; cbn; unfold aio_opens, aio_closes, aio_submits, is_op; rewrite ?H0;
    repeat match goal with H : (op =? _) = false |- _ => rewrite H; clear H end; by (done || intros []).
Qed.

(** An operation stays until it is taken, so the requests to come are counted. *)
#[export] Instance aio_server : HandleServer (slab Operation) Z Operation.
Proof.
  refine {| hs_protocol := aio_protocol; hs_handles := aio_handles; hs_tag := l4_msgtag 0 2 0 0; hs_dispatch := dispatch;
            hs_loop := run_loop; hs_inv n s o := ops_ok s /\ Z.of_nat (size (slab_map s)) + Z.of_nat n < 2 ^ 62 |}; try done.
  - intros n s o [? ?]. split; [done | lia].
  - intros n s o u Hu [Hs Hsz]. destruct (aio_dispatch_served s o u Hu Hs) as (s' & o' & u' & Hd & _ & Hs' & Hsz' & _); [lia|].
    exists s', o', u'. split; [done|]. split; [split; [done | lia]|]. apply (aio_dispatch_hstep s o u s' o'); [done | lia | done].
Defined.
End Aio.
End Aio.

(** * The file server: a handle stands for an open file

    Its disk driver's waits replace the registers while a request is worked on, the
    status is written after them. *)
Module Fs.
Import FsServer.FsServer.
Section Fs.
Context {UC : UtcbConsts} {SL : Slab} {LX : Linux} {F : Fatfs}.

(** Reading and writing move a file's position; which file a descriptor stands
    for is not seen from outside. *)
Definition is_open (f : file) : unit := tt.
Definition Arms (opening : Utcb -> bool) (closing : Utcb -> option Z) (arm : Arm) : Prop :=
  forall st u st' u', utcb_ok u -> Z.of_nat (size (slab_map (handles st))) < 2 ^ 62 -> arm st u = Done (st', u') ->
  effect is_open (opening u) (closing u) (handles st) (handles st') u'.

Lemma fs_status_inv v st u st' u' : FsServer.status v st u = Done (st', u') -> st' = st /\ mr u' !! 0%nat = Some v.
Proof. unfold FsServer.status. destruct (mr_set 0 v u) eqn:E; [|done..]. estep. intros [= <- <-]. split; [done|]. by apply mr_set_status in E. Qed.
Lemma set_keeps s k (f f' : file) : slab_map s !! k = Some f -> entries is_open (slab_set s k f') = entries is_open s.
Proof. intros Hk. unfold entries. erewrite slab_set_spec by done. rewrite fmap_insert. apply insert_id. by rewrite lookup_fmap, Hk. Qed.
Lemma io_to_errno_range e : 0 < io_to_errno e < 4096.
Proof. apply errno_const. destruct e; set_solver. Qed.

(** Take an arm apart, path by path. *)
Ltac arm_paths Hr := unfold mbind, exec_bind in Hr; paths Hr; simplify_eq;
  repeat match goal with E : FsServer.status _ _ _ = Done _ |- _ => apply fs_status_inv in E as [-> ?] end.
Ltac arm_leaves := intros st u st' u' Hu _ Hr; arm_paths Hr; apply Leaves; try done; by eapply set_keeps.

Lemma op_list_leaves : Arms no none op_list.
Proof. unfold op_list. arm_leaves. Qed.
Lemma op_read_leaves : Arms no none op_read.
Proof. unfold op_read. arm_leaves. Qed.
Lemma op_write_leaves : Arms no none op_write.
Proof. unfold op_write. arm_leaves. Qed.
Lemma op_stat_leaves : Arms no none op_stat.
Proof. unfold op_stat. arm_leaves. Qed.
Lemma op_open_opens : Arms yes none op_open.
Proof.
  intros st u st' u' Hu Hsz. unfold op_open. destruct (br_read_path u) as [path| | |]; [|done..]. estep.
  destruct (path ≫= resolve_path) as [p|].
  - destruct (create_file p _ u) as [[[f|e] s] u1].
    + cbn [FsServer.handles set_fs]. destruct (slab_insert_spec _ (handles st) f) as (Hk & Hn & Hm). destruct (slab_insert (handles st) f) as [fd h]. cbn in *.
      intros [-> Hst]%fs_status_inv. apply (Inserts _ _ _ _ _ _ fd tt); [done | done | by apply Hk | |].
      * unfold entries. by rewrite lookup_fmap, Hn.
      * unfold entries. cbn. by rewrite Hm, fmap_insert.
    + intros [-> Hst]%fs_status_inv. apply Leaves; [|done..]. intros _. eexists. split; [|exact Hst]. apply io_to_errno_range.
  - intros [-> Hst]%fs_status_inv. apply Leaves; [|done..]. intros _. eexists. split; [|exact Hst]. apply errno_const. set_solver.
Qed.
Lemma op_close_removes : Arms no reg1 op_close.
Proof.
  intros st u st' u' Hu _. unfold op_close, reg1. destruct (mr_get u 1) as [fd| | |]; [|done..]. estep.
  unfold slab_get. destruct (slab_map (handles st) !! fd) as [f|] eqn:Hf.
  - destruct (file_drop f _ u) as [s u1]. intros [-> _]%fs_status_inv. destruct (remove_entries is_open _ _ _ Hf). by eapply Removes.
  - intros [-> _]%fs_status_inv. apply Leaves; [done | | done]. intros k [= <-]. unfold entries. by rewrite lookup_fmap, Hf.
Qed.

Definition fs_opens (u : Utcb) : option (Z -> Z) := if is_op 1 u then Some id else None.
Definition fs_closes (u : Utcb) : option Z := if is_op 4 u then reg1 u else None.
Lemma fs_opens_or_closes u : is_Some (fs_opens u) -> fs_closes u = None.
Proof. unfold fs_opens, fs_closes, is_op. destruct (mr_get u 0) as [op| | |]; try by intros []. by repeat case_match; zb; subst; intros []. Qed.
Definition fs_protocol : Protocol Z := {| opens := fs_opens; closes := fs_closes; opens_or_closes := fs_opens_or_closes |}.
Definition fs_handles (st : State) (k : Z) : option unit := entries is_open (handles st) !! k.

Lemma fs_dispatch_hstep st u st' u' : utcb_ok u -> Z.of_nat (size (slab_map (handles st))) < 2 ^ 62 ->
  dispatch st u = Done (st', u') -> hstep fs_protocol u u' (fs_handles st) (fs_handles st').
Proof.
  intros Hu Hsz. destruct (mr_get_ok u 0) as (op & H0 & _); [done | lia|]. unfold dispatch. rewrite H0. estep.
  assert (forall opening closing arm, Arms opening closing arm -> arm st u = Done (st', u') ->
    fs_opens u = (if opening u then Some id else None) -> fs_closes u = closing u ->
    hstep fs_protocol u u' (fs_handles st) (fs_handles st')) as Harm
    by (intros opening closing arm Ha Hr Ho Hc; by apply (effect_hstep is_open fs_protocol opening closing); [eapply Ha | ..]).
  unfold fs_opens, fs_closes, is_op in Harm. rewrite H0 in Harm.
  repeat match goal with |- (if op =? ?k then _ else _) = _ -> _ => destruct (op =? k) eqn:?; [zb; subst op; intros Hd|] end.
  - by eapply (Harm no none); [apply op_list_leaves | ..].
  - by eapply (Harm yes none); [apply op_open_opens | ..].
  - by eapply (Harm no none); [apply op_read_leaves | ..].
  - by eapply (Harm no none); [apply op_write_leaves | ..].
  - by eapply (Harm no reg1); [apply op_close_removes | ..].
  - by eapply (Harm no none); [apply op_stat_leaves | ..].
  - intros Hd. eapply (Harm no none (FsServer.status _)); [|exact Hd | by repeat match goal with H : (op =? _) = false |- _ => rewrite H end..].
    intros ? ? ? ? ? _ [-> _]%fs_status_inv. by apply Leaves.
Qed.

(** The server makes no system calls of its own: the kernel's state passes it by. *)
Definition beside {A} (r : exec (State * A)) (o : os) : exec (State * os * A) := '(st, x) ← r; Done (st, o, x).
#[export] Instance fs_server : HandleServer State Z unit.
Proof.
  refine {| hs_protocol := fs_protocol; hs_handles := fs_handles; hs_tag := l4_msgtag 0 2 0 0; hs_dispatch := fun st o u => beside (dispatch st u) o;
            hs_loop := fun incoming st o => beside (run_loop incoming st) o;
            hs_inv n st o := buffers_ok st /\ Z.of_nat (size (slab_map (handles st))) + Z.of_nat n < 2 ^ 62 |}; try done.
  - intros u rest st o. cbn [run_loop]. unfold beside. destruct (dispatch st u) as [[st1 u1]| | |]; [|done..]. estep.
    destruct (run_loop rest st1) as [[st2 rs]| | |]; done.
  - intros n st o [? ?]. split; [done | lia].
  - intros n st o u Hu [Hb Hsz]. destruct (dispatch_reply st u Hu Hb) as (st' & u' & Hd & _ & Hb' & Hsz'); [lia|].
    exists st', o, u'. unfold beside. rewrite Hd. split; [done|]. split; [split; [done | lia]|]. apply fs_dispatch_hstep; [done | lia | done].
Defined.
End Fs.
End Fs.

(** * All four *)
Section Refine.
Context {UC : UtcbConsts} {SL : Slab} {LX : Linux} {AL : AiocbLayout} {F : Fatfs}.
Import Fd Epoll Aio Fs.

(** A server's run, as seen by its clients: its requests with their answers, in
    order, are a run of the machine that starts without handles. *)
Definition follows {St H V} `{!HandleServer St H V} (run : list Incoming -> os -> exec (St * os * list (Z * Utcb)))
    (incoming : list Incoming) (o : os) : Prop :=
  exists st' o' replies, run incoming o = Done (st', o', replies) /\ Forall (fun r => r.1 = hs_tag) replies
    /\ length replies = length (requests incoming)
    /\ hrun hs_protocol (zip (requests incoming) replies.*2) (fun _ => None) (hs_handles st').

Lemma started {St H V} `{!HandleServer St H V} st0 incoming o : Forall good_incoming incoming ->
  hs_inv (length incoming) st0 o -> (forall h, hs_handles st0 h = None) -> follows (fun i o => hs_loop i st0 o) incoming o.
Proof.
  intros Hg Hi Hn. destruct (handle_server_runs incoming st0 o Hg Hi) as (st' & o' & rs & Hr & Ht & Hl & Hh).
  exists st', o', rs. split_and!; [done..|]. assert (pointwise_relation H eq (hs_handles st0) (fun _ => None)) as He by exact Hn.
  by rewrite He in Hh.
Qed.

End Refine.

(** * A run of all four: a create, a read, a failed wait and an open *)
Module Concrete.
#[local] Existing Instance l4re_utcb_consts.
#[local] Existing Instance map_slab.
#[local] Existing Instance small_linux.
#[local] Existing Instance AioServer.AioServer.Concrete.layout.
#[local] Existing Instance FsServer.FsServer.Concrete.tiny_fatfs.
Import Fd Epoll Aio Fs.
(** [/bin/x], to be opened. *)
Definition open_x : Utcb := {| mr := 1 :: replicate 62 0; br := le_bytes 8 6 ++ [47; 98; 105; 110; 47; 120] ++ replicate 450 0 |}.
Lemma open_x_ok : utcb_ok open_x.
Proof.
  split; [done|]. split; [|split; [done | by apply bytes_okb_ok]].
  apply Forall_cons_2; [unfold uint; lia|]. apply Forall_replicate. unfold uint. lia.
Qed.
Definition incoming : list Incoming :=
  [Request FdServer.FdServer.Concrete.create; IpcError; Request FdServer.FdServer.Concrete.read0; Request AioServer.AioServer.Concrete.read5; Request open_x].

(** The file server answers the last of them, an open, with descriptor 0. *)
Example open_x_opens :
  match FsServer.FsServer.dispatch (FsServer.FsServer.mounted FsServer.FsServer.Concrete.no_state) open_x with
  | Done (st', u') => mr u' !! 0%nat = Some 0 /\ fs_handles st' 0 = Some tt
  | _ => False
  end.
Proof. by vm_compute. Qed.
End Concrete.
End Handles.
