(* ===== verification/DriverPicker.v ===== *)
(** The driver catalogue of [tools/driver_picker/src/main.rs]: collecting the
    drivers of a kernel tree, listing them, and resolving a driver by name.

    Walking the tree, reading files and matching the regular expression are
    other people's code: the walk is the list of its entries, and
    [captures_iter] is an argument.  A path is the list of its components.  The
    order in which a [HashMap] is traversed is an argument too ([iter]).
    The extraction of a driver's files is in [DriverExtract].

    Shown: resolving finds a driver exactly if one subsystem has it, in whatever order the
    map is traversed ([resolve_driver_unique]); the list is the sorted list of all drivers
    ([catalog_sorted]); and since the expression asks for backslashes, a
    catalogue of ordinary Kconfig files is empty ([catalog_stays_empty]). *)
From S2P Require Import Prelude.
From Stdlib Require Import ZArith Lia.
From stdpp Require Import base list gmap strings sorting.

Module DriverPicker.

Record DriverInfo := { symbol : string; dir : list string; kconfig : list string }.
Abbreviation Catalog := (gmap string (list DriverInfo)).
(** An entry of the walk, with what [read_to_string] would give. *)
Record DirEntry := { path : list string; is_file : bool; content : result string string }.

Section Collect.
(** The first groups of the matches of [r"^config\\s+(\\w+)"] in a text. *)
Variable captures_iter : string -> list string.
Variable drivers_dir : list string.

(** [strip_prefix]. *)
Fixpoint strip_prefix (prefix p : list string) : option (list string) :=
  match prefix, p with
  | [], _ => Some p
  | a :: prefix, b :: p => if bool_decide (a = b) then strip_prefix prefix p else None
  | _, _ => None
  end.
(** [path.parent()]: [None] for the empty path. *)
Definition parent (p : list string) : option (list string) :=
  match p with [] => None | _ => Some (take (length p - 1) p) end.
Definition push (subsystem : string) (d : DriverInfo) (m : Catalog) : Catalog :=
  <[subsystem := default [] (m !! subsystem) ++ [d]]> m.
Fixpoint collect_matches (p : list string) (symbols : list string) (m : Catalog) : exec Catalog :=
  match symbols with
  | [] => Done m
  | sym :: symbols =>
    dir ← unwrap (parent p);
    rel ← unwrap (strip_prefix drivers_dir dir);
    subsystem ← unwrap (head rel);
    collect_matches p symbols (push subsystem {| symbol := sym; dir := dir; kconfig := p |} m)
  end.
Fixpoint collect_entries (entries : list (result string DirEntry)) (m : Catalog) : exec (result string Catalog) :=
  match entries with
  | [] => Done (Ok m)
  | Err e :: _ => Done (Err e)
  | Ok entry :: entries =>
    if is_file entry && bool_decide (last (path entry) = Some "Kconfig"%string) then
      match content entry with
      | Err e => Done (Err e)
      | Ok text => m ← collect_matches (path entry) (captures_iter text) m; collect_entries entries m
      end
    else collect_entries entries m
  end.
Definition collect_drivers (entries : list (result string DirEntry)) : exec (result string Catalog) :=
  collect_entries entries ∅.
End Collect.

(** The rows of the catalogue: what both formats print, after [sort_unstable]
    of the subsystems and [sort_unstable_by] of the symbols. *)
Definition emit_catalog (map : Catalog) : list (string * string) :=
  subsystem ← merge_sort str_le (map_to_list map).*1;
  pair subsystem <$> merge_sort str_le (symbol <$> default [] (map !! subsystem)).

(** ** The list *)
(** Rows in the order of subsystem, then symbol. *)
Definition row_le (a b : string * string) : Prop := (a.1 <> b.1 /\ str_le a.1 b.1) \/ (a.1 = b.1 /\ str_le a.2 b.2).

Lemma rows_sorted (map : Catalog) l : StronglySorted str_le l -> NoDup l ->
  StronglySorted row_le (subsystem ← l; pair subsystem <$> merge_sort str_le (symbol <$> default [] (map !! subsystem))).
Proof.
  induction 1 as [|s l Hs IH Hall]; intros Hnd; [constructor|]. apply NoDup_cons in Hnd as [Hn Hnd]. cbn.
  pose proof (StronglySorted_merge_sort str_le (symbol <$> default [] (map !! s))) as Hrow.
  induction Hrow as [|x row Hrow IHr Hx]; cbn; [by apply IH|]. constructor; [exact IHr|].
  apply Forall_app_2.
  - apply Forall_fmap. eapply Forall_impl; [exact Hx|]. intros y Hy. by right.
  - apply Forall_forall. intros [s' y] (s2 & Hin & Hs2)%list_elem_of_bind. apply list_elem_of_fmap in Hin as (z & [= -> ->] & _).
    left. cbn. rewrite Forall_forall in Hall. split; [congruence | by apply Hall].
Qed.

(** The list shows every driver of the catalogue once for each time it was
    found, and nothing else, in the order of the subsystems' names and within one
    of the drivers' symbols. *)
Theorem catalog_sorted map :
  StronglySorted row_le (emit_catalog map)
  /\ emit_catalog map ≡ₚ ('(s, drivers) ← map_to_list map; (fun d => (s, symbol d)) <$> drivers).
Proof.
  assert (NoDup (merge_sort str_le (map_to_list map).*1)) as Hnd.
  { rewrite merge_sort_Permutation. apply NoDup_fst_map_to_list. }
  split; [apply rows_sorted; [apply (StronglySorted_merge_sort str_le) | done]|].
  unfold emit_catalog. rewrite merge_sort_Permutation.
  assert (forall l : list (string * list DriverInfo), (forall s ds, (s, ds) ∈ l -> map !! s = Some ds) ->
    (subsystem ← l.*1; pair subsystem <$> merge_sort str_le (symbol <$> default [] (map !! subsystem)))
    ≡ₚ ('(s, drivers) ← l; (fun d => (s, symbol d)) <$> drivers)) as Hl.
  { induction l as [|[s ds] l IH]; intros Hm; [done|]. cbn. rewrite (Hm s ds) by set_solver. cbn.
    apply Permutation_app; [|apply IH; intros; apply Hm; set_solver]. rewrite merge_sort_Permutation. by rewrite <- list_fmap_compose. }
  apply Hl. intros s ds. apply elem_of_map_to_list.
Qed.

(** ** What is collected *)
(** The expression is written with doubled backslashes in a raw string, so a
    match starts with [config], a backslash and an [s]. *)
Definition asks_for_backslash (captures_iter : string -> list string) : Prop :=
  forall text, captures_iter text <> [] -> String.prefix "config\s" text = true.

(** On Kconfig files of the usual form - none begins with [config] and a
    backslash - the catalogue stays empty, whatever the files and their number; so no driver is
    ever listed or found. *)
Theorem catalog_stays_empty captures_iter drivers_dir (entries : list DirEntry) :
  asks_for_backslash captures_iter ->
  Forall (fun e => exists text, content e = Ok text /\ String.prefix "config\s" text = false) entries ->
  collect_drivers captures_iter drivers_dir (Ok <$> entries) = Done (Ok ∅) /\ emit_catalog ∅ = [].
Proof.
  intros Hre He. split; [|by vm_compute]. unfold collect_drivers. induction He as [|e entries (text & Hc & Hp) He IH]; [done|].
  cbn [fmap list_fmap collect_entries]. destruct (_ && _); [|exact IH]. rewrite Hc.
  destruct (captures_iter text) as [|c cs] eqn:E; [exact IH|].
  rewrite Hre in Hp; [done | by rewrite E].
Qed.

Inductive PickError := SubsystemNotFound (s : string) | NotInSubsystem (d s : string) | NotFound (d : string) | Ambiguous (d : string).
Definition find_driver (drivers : list DriverInfo) (driver : string) : option DriverInfo :=
  List.find (fun d => bool_decide (symbol d = driver)) drivers.
Section Resolve.
Variable iter : Catalog -> list (string * list DriverInfo).
Definition resolve_driver (map : Catalog) (subsystem : option string) (driver : string) : result PickError (string * DriverInfo) :=
  match subsystem with
  | Some subsystem_name =>
    match map !! subsystem_name with
    | None => Err (SubsystemNotFound subsystem_name)
    | Some drivers =>
      match find_driver drivers driver with
      | None => Err (NotInSubsystem driver subsystem_name)
      | Some driver_info => Ok (subsystem_name, driver_info)
      end
    end
  | None =>
    let matches := omap (fun '(n, drivers) => option_map (pair n) (find_driver drivers driver)) (iter map) in
    match matches with
    | [] => Err (NotFound driver)
    | [m] => Ok m
    | _ => Err (Ambiguous driver)
    end
  end.

(** * Theorems *)
Hypothesis iter_all : forall m, iter m ≡ₚ map_to_list m.

(** The subsystems that have a driver, with the entry found. *)
Definition has (map : Catalog) (driver : string) (s : string) (d : DriverInfo) : Prop :=
  exists drivers, map !! s = Some drivers /\ find_driver drivers driver = Some d.

Lemma matches_spec map driver s d :
  (s, d) ∈ omap (fun '(n, drivers) => option_map (pair n) (find_driver drivers driver)) (iter map) <-> has map driver s d.
Proof.
  rewrite list_elem_of_omap. split.
  - intros ([n ds] & Hin & Hf). rewrite iter_all in Hin. apply elem_of_map_to_list in Hin.
    destruct (find_driver ds driver) as [d'|] eqn:E; [|done]. cbn in Hf. simplify_eq. by exists ds.
  - intros (ds & Hm & Hf). exists (s, ds). rewrite iter_all. split; [by apply elem_of_map_to_list | by rewrite Hf].
Qed.
Lemma matches_NoDup map driver :
  NoDup (omap (fun '(n, drivers) => option_map (pair n) (find_driver drivers driver)) (iter map)).*1.
Proof.
  assert (NoDup (iter map).*1) as Hnd by (rewrite iter_all; apply NoDup_fst_map_to_list).
  induction (iter map) as [|[n ds] l IH]; [constructor|]. cbn in *. apply NoDup_cons in Hnd as [Hn Hnd].
  destruct (find_driver ds driver) as [d|]; cbn; [|by apply IH]. apply NoDup_cons. split; [|by apply IH].
  intros ([n' d'] & -> & Hin)%list_elem_of_fmap. apply Hn. apply list_elem_of_omap in Hin as ([n2 ds2] & Hin & Hf).
  destruct (find_driver ds2 driver); [|done]. cbn in Hf. simplify_eq. apply list_elem_of_fmap. by exists (n', ds2).
Qed.

(** Without a subsystem a driver is resolved exactly if one subsystem has
    it, to that subsystem and its first driver of the name; it is reported as
    missing exactly if none has it, and as ambiguous exactly if two have it,
    whatever the order in which the map is traversed. *)
Theorem resolve_driver_unique map driver :
  (forall s d, resolve_driver map None driver = Ok (s, d) <-> has map driver s d /\ forall s' d', has map driver s' d' -> s' = s)
  /\ (resolve_driver map None driver = Err (NotFound driver) <-> forall s d, ~ has map driver s d)
  /\ (resolve_driver map None driver = Err (Ambiguous driver) <->
      exists s d s' d', has map driver s d /\ has map driver s' d' /\ s <> s').
Proof.
  unfold resolve_driver. pose proof (matches_NoDup map driver) as Hnd.
  setoid_rewrite <- matches_spec. set (l := omap _ (iter map)) in *. destruct l as [|[s0 d0] [|[s1 d1] l]].
  - set_solver.
  - split; [|split].
    + intros s d. split; [intros [= -> ->]; set_solver|]. intros [Hin _]. apply list_elem_of_singleton in Hin. congruence.
    + split; [done|]. intros Hno. exfalso. apply (Hno s0 d0). set_solver.
    + split; [done|]. intros (s & d & s' & d' & H1%list_elem_of_singleton & H2%list_elem_of_singleton & Hne). congruence.
  - cbn in Hnd. apply NoDup_cons in Hnd as [Hn _]. split; [|split].
    + intros s d. split; [done|]. intros [_ Hu]. exfalso. apply Hn. apply elem_of_cons. left.
      rewrite (Hu s0 d0), (Hu s1 d1); set_solver.
    + split; [done|]. intros Hno. exfalso. apply (Hno s0 d0). set_solver.
    + split; [|done]. intros _. exists s0, d0, s1, d1. split; [set_solver|]. split; [set_solver|]. intros ->. set_solver.
Qed.
End Resolve.

(** * Witnesses *)
Module Concrete.
(** A matcher of the expression as far as it goes: the backslash, one [s], and
    one [w]. *)
Definition literal_regex (text : string) : list string :=
  if String.prefix "config\s\w" text then ["\w"%string] else [].
Lemma prefix_shorter a b text : String.prefix (a +:+ b) text = true -> String.prefix a text = true.
Proof.
  revert text. induction a as [|c a IH]; intros text; [by destruct text|]. destruct text as [|d text]; [done|].
  change (String.prefix (String.String c (a +:+ b)) (String.String d text) = true -> String.prefix (String.String c a) (String.String d text) = true).
  cbn [String.prefix]. destruct (Ascii.ascii_dec c d); [apply IH | done].
Qed.
Lemma literal_regex_asks : asks_for_backslash literal_regex.
Proof.
  intros text. unfold literal_regex. destruct (String.prefix "config\s\w" text) eqn:E; [|done]. intros _.
  by apply (prefix_shorter "config\s" "\w").
Qed.
Definition e1000 : DirEntry :=
  {| path := ["linux"; "drivers"; "net"; "Kconfig"]%string; is_file := true; content := Ok "config E1000"%string |}.
Lemma catalog_stays_empty_witness :
  collect_drivers literal_regex ["linux"; "drivers"]%string (Ok <$> [e1000]) = Done (Ok ∅) /\ emit_catalog ∅ = [].
Proof.
  apply (catalog_stays_empty literal_regex ["linux"; "drivers"]%string [e1000] literal_regex_asks).
  apply Forall_cons_2; [by exists "config E1000"%string | apply Forall_nil_2].
Defined.

Definition info (s : string) : DriverInfo := {| symbol := s; dir := []; kconfig := [] |}.
Definition small : Catalog := {[ "net"%string := [info "E1000"; info "B44"]; "usb"%string := [info "B44"] ]}.
Lemma resolve_driver_unique_witness :
  resolve_driver map_to_list small None "E1000" = Ok ("net"%string, info "E1000")
  /\ resolve_driver map_to_list small None "B44" = Err (Ambiguous "B44")
  /\ (resolve_driver map_to_list small None "E1000" = Err (NotFound "E1000") <-> forall s d, ~ has small "E1000" s d).
Proof.
  split; [by vm_compute|]. split; [by vm_compute|].
  exact (proj1 (proj2 (resolve_driver_unique map_to_list (fun _ => reflexivity _) small "E1000"))).
Defined.
Example list_small : emit_catalog small = [("net", "B44"); ("net", "E1000"); ("usb", "B44")]%string.
Proof. by vm_compute. Qed.
End Concrete.
End DriverPicker.
