(* ===== verification/LibcTypes.v ===== *)
(** The C types and flag words of [crates/l4re-libc] ([src/lib.rs]).

    A [#[repr(C)]] type is a layout - size and alignment - computed from its fields
    as the language defines it: each field at the next multiple of its alignment,
    the size rounded up to the largest alignment.  Shown: fields lie inside, aligned,
    and apart, so that writing one changes no other ([struct_fields_apart]); where each
    field of the crate's types is ([libc_layouts]); what the views of the
    union show of each other ([epoll_data_views]); and that the flag words are sets
    of flags ([inotify_mask_test], [epoll_mask_test]). *)
From S2P Require Import Prelude.
From Stdlib Require Import ZArith Lia.
From stdpp Require Import base list strings.
Open Scope Z_scope.

Module LibcTypes.
(** * Layouts *)
Record Layout := { size : Z; align : Z }.
Abbreviation Fields := (list (string * Layout)).
Definition prim (n : Z) : Layout := {| size := n; align := n |}.
Definition array (t : Layout) (n : Z) : Layout := {| size := size t * n; align := align t |}.
Definition pad (a off : Z) : Z := (off + a - 1) `div` a * a.
Definition max_align (fs : Fields) : Z := foldr (fun f => Z.max (align f.2)) 1 fs.
(** [#[repr(C)] struct]: the fields' places, and the end of the last one. *)
Fixpoint places (off : Z) (fs : Fields) : list (string * (Z * Layout)) :=
  match fs with [] => [] | (f, t) :: fs => (f, (pad (align t) off, t)) :: places (pad (align t) off + size t) fs end.
Fixpoint end_of (off : Z) (fs : Fields) : Z :=
  match fs with [] => off | (_, t) :: fs => end_of (pad (align t) off + size t) fs end.
Definition struct (fs : Fields) : Layout := {| size := pad (max_align fs) (end_of 0 fs); align := max_align fs |}.
(** [#[repr(C)] union]: all at the start. *)
Definition union (fs : Fields) : Layout :=
  {| size := pad (max_align fs) (foldr (fun f => Z.max (size f.2)) 0 fs); align := max_align fs |}.

Definition named {A} (f : string) (l : list (string * A)) : option A := snd <$> List.find (fun x => String.eqb x.1 f) l.
Definition offset_of (fs : Fields) (f : string) : option Z := fst <$> named f (places 0 fs).
(** A field of the bytes of a value. *)
Definition get (fs : Fields) (f : string) (b : list Z) : option (list Z) :=
  '(o, t) ← named f (places 0 fs); Some (mread b o (size t)).
Definition set (fs : Fields) (f : string) (v b : list Z) : option (list Z) :=
  '(o, t) ← named f (places 0 fs); if zlen v =? size t then Some (mwrite b o v) else None.
Definition get_view (fs : Fields) (f : string) (b : list Z) : option (list Z) := t ← named f fs; Some (mread b 0 (size t)).
Definition set_view (fs : Fields) (f : string) (v b : list Z) : option (list Z) :=
  t ← named f fs; if zlen v =? size t then Some (mwrite b 0 v) else None.

(** * The crate's types; [c_int] is 32 bits, pointers are 64 bits wide *)
Definition c_char : Layout := prim 1.
Definition c_int : Layout := prim 4.
Definition pointer : Layout := prim 8.
Definition u8 : Layout := prim 1.
Definition u16 : Layout := prim 2.
Definition u32 : Layout := prim 4.
Definition i32 : Layout := prim 4.
Definition u64 : Layout := prim 8.

Definition epoll_data_t : Fields := [("ptr", pointer); ("fd", c_int); ("u32", u32); ("u64", u64)]%string.
Definition epoll_event : Fields := [("events", u32); ("data", union epoll_data_t)]%string.
Definition eventfd_t : Layout := u64.
Definition signalfd_siginfo : Fields :=
  [("ssi_signo", u32); ("ssi_errno", i32); ("ssi_code", i32); ("ssi_pid", u32); ("ssi_uid", u32); ("ssi_fd", i32);
   ("ssi_tid", u32); ("ssi_band", u32); ("ssi_overrun", u32); ("ssi_trapno", u32); ("ssi_status", i32); ("ssi_int", i32);
   ("ssi_ptr", u64); ("ssi_utime", u64); ("ssi_stime", u64); ("ssi_addr", u64); ("ssi_addr_lsb", u16); ("__pad2", u16);
   ("ssi_syscall", i32); ("ssi_call_addr", u64); ("ssi_arch", u32); ("__pad", array u8 28)]%string.
Definition inotify_event : Fields :=
  [("wd", c_int); ("mask", u32); ("cookie", u32); ("len", u32); ("name", array c_char 0)]%string.

(** * Constants; octal ones in hexadecimal *)
#[local] Infix "|||" := Z.lor (at level 50, left associativity).
Definition EFD_SEMAPHORE : Z := 1.
Definition EFD_CLOEXEC : Z := 0x80000.
Definition EFD_NONBLOCK : Z := 0x800.
Definition TFD_CLOEXEC : Z := 0x80000.
Definition TFD_NONBLOCK : Z := 0x800.
Definition TFD_TIMER_ABSTIME : Z := 1.
Definition TFD_TIMER_CANCEL_ON_SET : Z := 2.
Definition SFD_CLOEXEC : Z := 0x80000.
Definition SFD_NONBLOCK : Z := 0x800.
Definition IN_CLOEXEC : Z := 0x80000.
Definition IN_NONBLOCK : Z := 0x800.

Definition IN_ACCESS : Z := 0x00000001.
Definition IN_MODIFY : Z := 0x00000002.
Definition IN_ATTRIB : Z := 0x00000004.
Definition IN_CLOSE_WRITE : Z := 0x00000008.
Definition IN_CLOSE_NOWRITE : Z := 0x00000010.
Definition IN_OPEN : Z := 0x00000020.
Definition IN_MOVED_FROM : Z := 0x00000040.
Definition IN_MOVED_TO : Z := 0x00000080.
Definition IN_CREATE : Z := 0x00000100.
Definition IN_DELETE : Z := 0x00000200.
Definition IN_DELETE_SELF : Z := 0x00000400.
Definition IN_MOVE_SELF : Z := 0x00000800.
Definition IN_UNMOUNT : Z := 0x00002000.
Definition IN_Q_OVERFLOW : Z := 0x00004000.
Definition IN_IGNORED : Z := 0x00008000.
Definition IN_ONLYDIR : Z := 0x01000000.
Definition IN_DONT_FOLLOW : Z := 0x02000000.
Definition IN_EXCL_UNLINK : Z := 0x04000000.
Definition IN_MASK_ADD : Z := 0x20000000.
Definition IN_ISDIR : Z := 0x40000000.
Definition IN_ONESHOT : Z := 0x80000000.
Definition IN_ALL_EVENTS : Z :=
  IN_ACCESS ||| IN_MODIFY ||| IN_ATTRIB ||| IN_CLOSE_WRITE |||
  IN_CLOSE_NOWRITE ||| IN_OPEN ||| IN_MOVED_FROM ||| IN_MOVED_TO ||| IN_CREATE ||| IN_DELETE |||
  IN_DELETE_SELF ||| IN_MOVE_SELF.

Definition EPOLLIN : Z := 0x001.
Definition EPOLLPRI : Z := 0x002.
Definition EPOLLOUT : Z := 0x004.
Definition EPOLLRDNORM : Z := 0x040.
Definition EPOLLRDBAND : Z := 0x080.
Definition EPOLLWRNORM : Z := 0x100.
Definition EPOLLWRBAND : Z := 0x200.
Definition EPOLLMSG : Z := 0x400.
Definition EPOLLERR : Z := 0x008.
Definition EPOLLHUP : Z := 0x010.
Definition EPOLLRDHUP : Z := 0x2000.
Definition EPOLLEXCLUSIVE : Z := Z.shiftl 1 28.
Definition EPOLLWAKEUP : Z := Z.shiftl 1 29.
Definition EPOLLONESHOT : Z := Z.shiftl 1 30.
Definition EPOLLET : Z := Z.shiftl 1 31.

Definition EPOLL_CTL_ADD : Z := 1.
Definition EPOLL_CTL_DEL : Z := 2.
Definition EPOLL_CTL_MOD : Z := 3.

(** * Theorems: layouts *)
Definition power (a : Z) : Prop := a = 1 \/ a = 2 \/ a = 4 \/ a = 8.
Definition layout_ok (t : Layout) : Prop := power (align t) /\ 0 <= size t /\ (align t | size t).
Definition fields_ok (fs : Fields) : Prop := Forall (fun f => layout_ok f.2) fs /\ NoDup (fs.*1).

Lemma power_divide a b : power a -> power b -> a <= b -> (a | b).
Proof.
  intros Ha Hb Hle. apply Z.mod_divide; [unfold power in *; lia|].
  unfold power in *. destruct Ha as [->|[->|[->| ->]]], Hb as [->|[->|[->| ->]]]; first [reflexivity | lia].
Qed.
Lemma pad_spec a off : power a -> off <= pad a off < off + a /\ (a | pad a off).
Proof.
  intros Ha. assert (0 < a) as H0 by (unfold power in Ha; lia). unfold pad. split; [|by apply Z.divide_mul_r, Z.divide_refl].
  pose proof (Z.div_mod (off + a - 1) a ltac:(lia)) as Hd. pose proof (Z.mod_pos_bound (off + a - 1) a H0). lia.
Qed.
Lemma pad_le a off n : power a -> (a | n) -> off <= n -> pad a off <= n.
Proof.
  intros Ha [k ->] Hle. destruct (pad_spec a off Ha) as [[_ Hlt] [j Hj]]. rewrite Hj in Hlt |- *.
  assert (0 < a) by (unfold power in Ha; lia). apply Z.mul_le_mono_nonneg_r; [lia|]. apply Z.lt_succ_r.
  apply (Z.mul_lt_mono_pos_r a); lia.
Qed.
Lemma max_align_spec fs : Forall (fun f => layout_ok f.2) fs ->
  power (max_align fs) /\ Forall (fun f => (align f.2 | max_align fs)) fs.
Proof.
  induction 1 as [|[f t] fs Ht _ [IHp IHd]]; [split; [by left | constructor]|]. destruct Ht as [Hp _]. cbn in *.
  assert (power (Z.max (align t) (max_align fs))) as Hm by (unfold power in *; lia). split; [done|]. constructor.
  - cbn. apply power_divide; [done | done | apply Z.le_max_l].
  - eapply Forall_impl; [exact IHd|]. cbn. intros x Hx. etrans; [exact Hx|]. apply power_divide; [done | done | apply Z.le_max_r].
Qed.
Lemma prim_ok n : power n -> layout_ok (prim n).
Proof. intros Hn. unfold layout_ok. cbn. split; [done|]. split; [unfold power in Hn; lia | apply Z.divide_refl]. Qed.
Lemma array_ok t n : layout_ok t -> 0 <= n -> layout_ok (array t n).
Proof. intros (Hp & Hs & Hd) Hn. unfold layout_ok. cbn. split; [done|]. split; [lia | by apply Z.divide_mul_l]. Qed.
Lemma end_of_le fs : Forall (fun f => layout_ok f.2) fs -> forall off, off <= end_of off fs.
Proof.
  induction 1 as [|[f t] fs (Hp & Hs & _) _ IH]; intros off; [cbn; lia|]. cbn [end_of]. cbn in Hp, Hs.
  etrans; [|apply IH]. pose proof (pad_spec (align t) off Hp). lia.
Qed.
Lemma struct_ok fs : Forall (fun f => layout_ok f.2) fs -> layout_ok (struct fs).
Proof.
  intros Hf. destruct (max_align_spec fs Hf) as [Hp _]. unfold layout_ok, struct. cbn. split; [done|].
  destruct (pad_spec (max_align fs) (end_of 0 fs) Hp) as [[Hle _] Hd]. pose proof (end_of_le fs Hf 0). split; [lia | done].
Qed.

(** Every place is aligned, and the fields behind it start after its end. *)
Lemma places_spec fs off f o t : Forall (fun f => layout_ok f.2) fs -> named f (places off fs) = Some (o, t) ->
  off <= o /\ (align t | o) /\ layout_ok t /\ o + size t <= end_of off fs.
Proof.
  intros Hf. revert off. induction Hf as [|[g s] fs Hs Hfs IH]; intros off; [done|]. cbn [places end_of]. unfold named. cbn [List.find fst].
  destruct (pad_spec (align s) off) as [[Hle _] Hd]; [by apply Hs|]. destruct (String.eqb g f) eqn:E.
  - intros [= <- <-]. split_and!; [done | done | done | by apply end_of_le].
  - intros Hn. destruct (IH (pad (align s) off + size s) Hn) as (? & ? & ? & ?). split_and!; try done.
    destruct Hs as (_ & Hs & _). cbn in Hs. lia.
Qed.
Lemma places_apart fs off f o t g p u : Forall (fun f => layout_ok f.2) fs -> f <> g ->
  named f (places off fs) = Some (o, t) -> named g (places off fs) = Some (p, u) -> o + size t <= p \/ p + size u <= o.
Proof.
  intros Hf Hne. revert off. induction Hf as [|[h s] fs Hs Hfs IH]; intros off; [done|]. cbn [places]. unfold named. cbn [List.find fst].
  destruct (String.eqb h f) eqn:Ef, (String.eqb h g) eqn:Eg.
  - apply String.eqb_eq in Ef, Eg. congruence.
  - intros [= <- <-] Hg. apply (places_spec fs) in Hg as (? & _); [|done]. lia.
  - intros Hg [= <- <-]. apply (places_spec fs) in Hg as (? & _); [|done]. lia.
  - intros Hf1 Hg1. by apply (IH _ Hf1 Hg1).
Qed.

(** Fields keep to themselves. In the bytes of a value of a [#[repr(C)]] struct every
    field is aligned and inside; writing one gives a value of the same size whose field
    reads as written, and in which all other fields are as they were. *)
Theorem struct_fields_apart fs f o t v b : fields_ok fs -> zlen b = size (struct fs) -> zlen v = size t ->
  named f (places 0 fs) = Some (o, t) ->
  (align t | o) /\ (align t | align (struct fs)) /\ 0 <= o /\ o + size t <= size (struct fs)
  /\ exists b', set fs f v b = Some b' /\ zlen b' = zlen b /\ get fs f b' = Some v
  /\ forall g, g <> f -> get fs g b' = get fs g b.
Proof.
  intros [Hf _] Hb Hv Hn. destruct (places_spec fs 0 f o t Hf Hn) as (H0 & Hal & Ht & Hend).
  destruct (max_align_spec fs Hf) as [Hp _]. destruct (pad_spec (max_align fs) (end_of 0 fs) Hp) as [[Hle _] _].
  assert (o + size t <= size (struct fs)) as Hin by (cbn; lia). assert (0 <= size t) by apply Ht.
  split; [done|]. split.
  { destruct (max_align_spec fs Hf) as [_ Hall]. revert Hn. generalize 0. clear -Hall. cbn [align struct]. revert Hall. generalize (max_align fs) as a.
    induction fs as [|[g s] fs IH]; intros a Hall off; [done|]. apply Forall_cons in Hall as [Hs Hall]. cbn [places]. unfold named. cbn [List.find fst].
    destruct (String.eqb g f); [by intros [= _ <-] | by apply IH]. }
  split; [done|]. split; [done|]. unfold set, get. rewrite Hn. cbn [mbind option_bind]. rewrite Hv, Z.eqb_refl.
  eexists. split; [done|]. split; [apply zlen_mwrite; lia|]. split.
  - f_equal. rewrite <- Hv. apply mread_mwrite_same; lia.
  - intros g Hg. destruct (named g (places 0 fs)) as [[p u]|] eqn:Hng; [|done]. cbn. f_equal.
    destruct (places_spec fs 0 g p u Hf Hng) as (? & _ & (_ & ? & _) & ?).
    destruct (places_apart fs 0 f o t g p u Hf (not_eq_sym Hg) Hn Hng); [apply mread_mwrite_after | apply mread_mwrite_before]; lia.
Qed.

(** The crate's structs are such types. *)
Lemma libc_fields_ok : fields_ok epoll_event /\ fields_ok signalfd_siginfo /\ fields_ok inotify_event.
Proof.
  assert (power 1 /\ power 2 /\ power 4 /\ power 8) as (H1 & H2 & H4 & H8) by (unfold power; lia).
  assert (layout_ok (union epoll_data_t)) as Hu by (split; [by right; right; right | split; [by vm_compute | by exists 1]]).
  split_and!; (split; [|apply (bool_decide_unpack _); by vm_compute]);
    repeat (apply Forall_cons_2; [cbn; first [by apply prim_ok | by apply array_ok; [apply prim_ok|] | exact Hu]|]); apply Forall_nil_2.
Qed.

(** Where everything is: an event of 16 bytes with its data at 8, a signal of the 128
    bytes a signalfd delivers, whose padding fills it up exactly, and an inotify record
    whose name starts behind its 16 bytes. *)
Theorem libc_layouts :
  (size (struct epoll_event), align (struct epoll_event)) = (16, 8)
  /\ (fun f => offset_of epoll_event f) <$> ["events"; "data"]%string = [Some 0; Some 8]
  /\ (size (struct signalfd_siginfo), align (struct signalfd_siginfo)) = (128, 8)
  /\ (fun f => offset_of signalfd_siginfo f) <$> ["ssi_int"; "ssi_ptr"; "ssi_addr"; "ssi_addr_lsb"; "ssi_syscall"; "ssi_call_addr"; "ssi_arch"; "__pad"]%string
     = [Some 44; Some 48; Some 72; Some 80; Some 84; Some 88; Some 96; Some 100]
  /\ size (struct inotify_event) = 16
  /\ (fun f => offset_of inotify_event f) <$> ["wd"; "mask"; "cookie"; "len"; "name"]%string = [Some 0; Some 4; Some 8; Some 12; Some 16].
Proof. by vm_compute. Qed.

(** The views of an event's data: a value stored through the widest one is seen whole
    through [ptr] and by its low half through [fd] and [u32]; storing through a narrow
    one keeps the upper half. *)
Theorem epoll_data_views v w b : zlen b = size (union epoll_data_t) ->
  exists b1, set_view epoll_data_t "u64" (le_bytes 8 v) b = Some b1
  /\ get_view epoll_data_t "ptr" b1 = Some (le_bytes 8 v)
  /\ get_view epoll_data_t "u32" b1 = Some (le_bytes 4 v) /\ get_view epoll_data_t "fd" b1 = Some (le_bytes 4 v)
  /\ exists b2, set_view epoll_data_t "fd" (le_bytes 4 w) b1 = Some b2
     /\ get_view epoll_data_t "u64" b2 = Some (le_bytes 4 w ++ le_bytes 4 (v `div` 2 ^ 32)).
Proof.
  change (size (union epoll_data_t)) with 8. intros Hb. unfold zlen in Hb. do 8 (destruct b as [|? b]; [done|]). destruct b; [|cbn in Hb; lia].
  eexists. do 4 (split; [reflexivity|]). eexists. split; [reflexivity|].
  replace (v `div` 2 ^ 32) with ((((v `div` 256) `div` 256) `div` 256) `div` 256); [reflexivity|]. by rewrite !Z.div_div by lia.
Qed.

(** * Theorems: flag words *)
(** A word made of flags, each a bit of its own, contains exactly those. *)
Definition word (fs : list Z) : Z := foldr Z.lor 0 fs.
Definition single_bit (f : Z) : Prop := exists k, 0 <= k /\ f = 2 ^ k.
Lemma land_bits f g : single_bit f -> single_bit g -> Z.land f g = if f =? g then f else 0.
Proof.
  intros (i & Hi & ->) (j & Hj & ->). destruct (2 ^ i =? 2 ^ j) eqn:E.
  - apply Z.eqb_eq in E. rewrite E. apply Z.land_diag.
  - apply Z.bits_inj'. intros k Hk. rewrite Z.land_spec, Z.bits_0, !Z.pow2_bits_eqb by done.
    destruct (i =? k) eqn:Ei, (j =? k) eqn:Ej; try done. zb. congruence.
Qed.
Lemma word_test fs f : Forall single_bit fs -> single_bit f -> (Z.land (word fs) f <> 0 <-> f ∈ fs).
Proof.
  intros Hfs Hf. induction Hfs as [|g fs Hg _ IH].
  { cbn. split; [done | by intros ?%elem_of_nil]. }
  cbn [word foldr]. rewrite Z.land_lor_distr_l, Z.lor_eq_0_iff, (land_bits g f Hg Hf), elem_of_cons.
  fold (word fs). assert (f <> 0) by (destruct Hf as (k & Hk & ->); pose proof (pow2_pos k Hk); lia).
  destruct (g =? f) eqn:E; zb; [subst; tauto|].
  split; [intros Hn; right; apply IH; tauto | intros [->|Hin] [_ H0]; [done | by apply IH in Hin]].
Qed.

Definition single_bitb (f : Z) : bool := (0 <? f) && (f =? 2 ^ Z.log2 f).
Lemma single_bitb_ok fs : forallb single_bitb fs = true -> Forall single_bit fs.
Proof.
  intros H. apply Forall_forall. intros f Hin. apply list_elem_of_In, (proj1 (List.forallb_forall _ _) H) in Hin.
  apply andb_true_iff in Hin as [_ Hf]. apply Z.eqb_eq in Hf. exists (Z.log2 f). split; [apply Z.log2_nonneg | done].
Qed.

Definition inotify_events : list Z :=
  [IN_ACCESS; IN_MODIFY; IN_ATTRIB; IN_CLOSE_WRITE; IN_CLOSE_NOWRITE; IN_OPEN; IN_MOVED_FROM; IN_MOVED_TO; IN_CREATE; IN_DELETE;
   IN_DELETE_SELF; IN_MOVE_SELF].
Definition inotify_flags : list Z :=
  inotify_events ++ [IN_UNMOUNT; IN_Q_OVERFLOW; IN_IGNORED; IN_ONLYDIR; IN_DONT_FOLLOW; IN_EXCL_UNLINK; IN_MASK_ADD; IN_ISDIR; IN_ONESHOT].
Definition epoll_flags : list Z :=
  [EPOLLIN; EPOLLPRI; EPOLLOUT; EPOLLRDNORM; EPOLLRDBAND; EPOLLWRNORM; EPOLLWRBAND; EPOLLMSG; EPOLLERR; EPOLLHUP; EPOLLRDHUP;
   EPOLLEXCLUSIVE; EPOLLWAKEUP; EPOLLONESHOT; EPOLLET].
Lemma flag_words : Forall single_bit inotify_flags /\ NoDup inotify_flags /\ Forall single_bit epoll_flags /\ NoDup epoll_flags
  /\ Forall (fun f => f < 2 ^ 32) (inotify_flags ++ epoll_flags).
Proof. split_and!; first [apply single_bitb_ok; by vm_compute | apply (bool_decide_unpack _); by vm_compute]. Qed.

Lemma flags_test all fs f : Forall single_bit all -> fs ⊆ all -> f ∈ all -> (Z.land (word fs) f <> 0 <-> f ∈ fs).
Proof.
  intros Hall Hs Hf. rewrite Forall_forall in Hall. apply word_test; [apply Forall_forall; intros g Hg; by apply Hall, Hs | by apply Hall].
Qed.
(** A mask or an event of inotify is a set of its flags: the test [mask & flag != 0]
    asks whether the flag was put in.  [IN_ALL_EVENTS] has the twelve events and none of
    the other flags. *)
Theorem inotify_mask_test fs f : fs ⊆ inotify_flags -> f ∈ inotify_flags ->
  (Z.land (word fs) f <> 0 <-> f ∈ fs) /\ (Z.land IN_ALL_EVENTS f <> 0 <-> f ∈ inotify_events).
Proof.
  destruct flag_words as (Hi & _). intros Hs Hf. split; [by apply (flags_test inotify_flags)|].
  change IN_ALL_EVENTS with (word inotify_events). apply (flags_test inotify_flags); [done | | done].
  intros g Hg. apply elem_of_app. by left.
Qed.
Theorem epoll_mask_test fs f : fs ⊆ epoll_flags -> f ∈ epoll_flags -> (Z.land (word fs) f <> 0 <-> f ∈ fs).
Proof. destruct flag_words as (_ & _ & He & _). by apply flags_test. Qed.
End LibcTypes.
