(* ===== verification/Wrappers.v ===== *)
(** The functions of [l4-sys] and [l4re] that only hand their arguments to C
    ([l4-sys/ipc_basic.rs], [ipc_ext.rs], [scheduler.rs], [l4re/sys.rs], [env.rs]), and the
    small types next to them ([l4/types.rs], [l4/utcb.rs]).

    The C functions - [libl4re-wrapper]'s names for L4Re's inline functions - are
    arguments of the definitions, on a kernel state [K].  What remains is what happens
    to the arguments on the way: casts, the region map of the environment, the
    current thread's UTCB.  Shown: which flags [l4re_rm_attach] survives
    ([rm_attach_cases]), which sizes [l4re_ma_alloc] passes on ([ma_alloc_sizes]), that
    a flex page goes the same way through all four functions ([sndfpage_add_same]),
    and that the operators of C enumerations work on the constants' low bits
    ([enum_ops_agree]). *)
From S2P Require Import Prelude Error MsgTag Cap Utcb KernelCalls.
From Stdlib Require Import ZArith Lia.
From stdpp Require Import base list.
Open Scope Z_scope.

Module Wrappers.

(** * IPC ([ipc_basic.rs]) *)
Section Ipc.
Context {K : Type}.
(** A time-out is its raw value; 0 is none. *)
Record l4_timeout_t := { raw : Z }.
Definition timeout_never : l4_timeout_t := {| raw := 0 |}.

Variable l4_ipc_call_w : Z -> Z -> Z -> l4_timeout_t -> K -> Z * K.
Variable l4_ipc_send_w : Z -> Z -> Z -> l4_timeout_t -> K -> Z * K.
Variable l4_ipc_error_w : Z -> Z -> K -> Z.
Variable l4_ipc_receive_w : Z -> Z -> l4_timeout_t -> K -> Z * K.
(** The label is stored behind a pointer. *)
Variable l4_ipc_reply_and_wait_w : Z -> Z -> l4_timeout_t -> K -> Z * Z * K.
Variable l4_ipc_wait_w : Z -> l4_timeout_t -> K -> Z * Z * K.
Variable l4_rcv_ep_bind_thread_w : Z -> Z -> Z -> K -> Z * K.
Variable l4_utcb_w : K -> Z.

Definition l4_ipc_call (dest utcb tag : Z) (timeout : l4_timeout_t) : K -> Z * K := l4_ipc_call_w dest utcb tag timeout.
Definition l4_ipc_send (dest utcb tag : Z) (timeout : l4_timeout_t) : K -> Z * K := l4_ipc_send_w dest utcb tag timeout.
Definition l4_ipc_error (tag utcb : Z) : K -> Z := l4_ipc_error_w tag utcb.
Definition l4_ipc_receive (object utcb : Z) (timeout : l4_timeout_t) : K -> Z * K := l4_ipc_receive_w object utcb timeout.
Definition l4_ipc_reply_and_wait (utcb tag : Z) (timeout : l4_timeout_t) : K -> Z * Z * K := l4_ipc_reply_and_wait_w utcb tag timeout.
Definition l4_ipc_wait (utcb : Z) (timeout : l4_timeout_t) : K -> Z * Z * K := l4_ipc_wait_w utcb timeout.
Definition l4_rcv_ep_bind_thread (gate thread label : Z) : K -> Z * K := l4_rcv_ep_bind_thread_w gate thread label.
Definition l4_utcb : K -> Z := l4_utcb_w.

(** The mask of the C enumeration; the code is an [isize]. *)
Variable L4_IPC_ERROR_MASK : Z.
Definition ipc_error2code (code : Z) : Z := wrap 64 (Z.land code (swrap 64 L4_IPC_ERROR_MASK)).
Definition PROTO_ANY : Z := 0.
Definition PROTO_EMPTY : Z := -19.

(** With a mask of low bits the code is the number's residue, also of the negative
    numbers an error is reported as. *)
Theorem ipc_error2code_low k code : 0 <= k < 63 -> L4_IPC_ERROR_MASK = Z.ones k -> ipc_error2code code = code `mod` 2 ^ k.
Proof.
  intros Hk Hm. unfold ipc_error2code. rewrite Hm, swrap_id; [|lia|].
  - rewrite Z.land_ones by lia. apply wrap_id. unfold uint. pose proof (Z.mod_pos_bound code (2 ^ k) (pow2_pos k ltac:(lia))).
    assert (2 ^ k < 2 ^ 64) by (apply Z.pow_lt_mono_r; lia). lia.
  - unfold sint. rewrite Z.ones_equiv. pose proof (pow2_pos k). assert (2 ^ k < 2 ^ 63) by (apply Z.pow_lt_mono_r; lia). cbn. lia.
Qed.
End Ipc.

(** * Flex pages of a message: the four functions *)
Section FlexPages.
Context {TC : TagConsts} {CC : CapConsts} {UC : UtcbConsts} {KC : KernelConsts} {B : Build}.
(** The current thread's UTCB is the one in the state. *)
Definition sndfpage_add_u (snd_fpage snd_base tag : Z) (u : utcb) : exec (Z * Z * utcb) := l4_sndfpage_add_u snd_fpage snd_base tag u.
Definition sndfpage_add (snd_fpage snd_base tag : Z) (u : utcb) : exec (Z * Z * utcb) := sndfpage_add_u snd_fpage snd_base tag u.
Definition l4_sndfpage_add (snd_fpage snd_base tag : Z) (u : utcb) : exec (Z * Z * utcb) := l4_sndfpage_add_u snd_fpage snd_base tag u.
Lemma sndfpage_add_same f b t u : sndfpage_add f b t u = l4_sndfpage_add f b t u.
Proof. done. Qed.
End FlexPages.

(** * Scheduling ([scheduler.rs]) *)
Section Scheduler.
Context {K CpuSet : Type}.
(** Scheduler, thread, and the parameters behind the pointer. *)
Context {Param : Type} (l4_scheduler_run_thread_w : Z -> Z -> Param -> K -> Z * K).
Variable l4_sched_cpu_set_w : Z -> Z -> Z -> CpuSet.
Definition run_thread (scheduler thread : Z) (sp : Param) : K -> Z * K := l4_scheduler_run_thread_w scheduler thread sp.
Definition preempt_thread (scheduler thread : Z) (sp : Param) : K -> Z * K := l4_scheduler_run_thread_w scheduler thread sp.
Definition l4_sched_cpu_set (offset granularity map : Z) : CpuSet := l4_sched_cpu_set_w offset granularity map.
End Scheduler.

(** * The region map and the allocator ([l4re/sys.rs], [env.rs]) *)
Section RegionMap.
Context {K : Type}.
(** [l4re_global_env]: the capabilities of the task's initial objects. *)
Record l4re_env_t := { env_rm : Z; env_mem_alloc : Z; env_task : Z }.
Variable l4re_global_env : l4re_env_t.
Definition l4re_env : l4re_env_t := l4re_global_env.
Definition mem_alloc {T} `{IfaceInit T} : Cap T := Caps.new (env_mem_alloc l4re_env).
(** [Task::new], [Task::current]. *)
Definition task_new (cap : Z) : task := {| KernelCalls.cap := cap |}.
Definition task_current : Cap task := {| interface := task_new (env_task l4re_env) |}.

(** The width of the C function's flags, and the functions. *)
Variable flags_width : Z.
Variable l4re_rm_attach_srv : Z -> Z -> Z -> Z -> Z -> Z -> Z -> K -> Z * K.
Variable l4re_rm_detach_w : Z -> K -> Z * K.
Variable l4re_rm_detach_ds_w : Z -> K -> Z * Z * K.
Variable l4re_ma_alloc_w : Z -> Z -> Z -> K -> Z * K.
(** [flags.try_into().unwrap()]. *)
Definition l4re_rm_attach (start size flags mem offs align : Z) (k : K) : exec (Z * K) :=
  flags ← unwrap (if flags <? 2 ^ flags_width then Some flags else None);
  Done (l4re_rm_attach_srv (env_rm l4re_env) start size flags mem offs align k).
Definition l4re_rm_detach (addr : Z) : K -> Z * K := l4re_rm_detach_w addr.
Definition l4re_rm_detach_ds (addr : Z) : K -> Z * Z * K := l4re_rm_detach_ds_w addr.
(** [size as i64]. *)
Definition l4re_ma_alloc (size mem flags : Z) : K -> Z * K := l4re_ma_alloc_w (swrap 64 size) mem flags.

(** Flags that the C function has no room for end the task; all others reach the
    region map of the environment with the other arguments unchanged. *)
Theorem rm_attach_cases start size flags mem offs align k :
  l4re_rm_attach start size flags mem offs align k
  = if 2 ^ flags_width <=? flags then Panics else Done (l4re_rm_attach_srv (env_rm l4re_global_env) start size flags mem offs align k).
Proof.
  unfold l4re_rm_attach. destruct (2 ^ flags_width <=? flags) eqn:E; zb; [by zif_false | by zif_true].
Qed.
(** A size below 2^63 reaches the allocator as it is; a larger one becomes negative. *)
Theorem ma_alloc_sizes size mem flags k : uint 64 size ->
  l4re_ma_alloc size mem flags k = l4re_ma_alloc_w (if size <? 2 ^ 63 then size else size - 2 ^ 64) mem flags k.
Proof.
  intros Hs. unfold l4re_ma_alloc. f_equal. unfold uint in Hs. destruct (size <? 2 ^ 63) eqn:E; zb.
  - apply swrap_id; [lia|]. unfold sint. cbn. lia.
  - replace size with (size - 2 ^ 64 + 1 * 2 ^ 64) at 1 by lia. rewrite <- (swrap_wrap 64) by lia. unfold wrap.
    rewrite Z.mod_add by lia. fold (wrap 64 (size - 2 ^ 64)). rewrite swrap_wrap by lia. apply swrap_id; [lia|]. unfold sint. cbn. lia.
Qed.
End RegionMap.

(** * Enumerations ([l4/types.rs], [l4/utcb.rs]) *)
Section Enums.
Context {E : Type} (discriminant : E -> Z).
(** [derive_enum_impl!]: the operators for a signed type of [w] bits; a variant is
    cast from the [isize] of its C constant. *)
Definition bitand (w : Z) (self : E) (rhs : Z) : Z := Z.land (swrap w (discriminant self)) rhs.
Definition bitor (w : Z) (self : E) (rhs : Z) : Z := Z.lor (swrap w (discriminant self)) rhs.

(** On a constant that fits 32 bits the two widths agree, and both use it as it is. *)
Theorem enum_ops_agree e rhs : sint 32 (discriminant e) ->
  bitand 32 e rhs = Z.land (discriminant e) rhs /\ bitand 64 e rhs = Z.land (discriminant e) rhs
  /\ bitor 32 e rhs = Z.lor (discriminant e) rhs /\ bitor 64 e rhs = Z.lor (discriminant e) rhs.
Proof.
  intros He. assert (sint 64 (discriminant e)) by (unfold sint in *; cbn in *; lia).
  unfold bitand, bitor. by rewrite !swrap_id by (done || lia).
Qed.
End Enums.

Section Pages.
Variables (L4_FPAGE_SPECIAL L4_FPAGE_MEMORY L4_FPAGE_IO L4_FPAGE_OBJ L4_FPAGE_X L4_FPAGE_W L4_FPAGE_RO : Z).
Inductive FpageType := Special | Memory | Io | Obj.
Definition fpage_type (t : FpageType) : Z :=
  wrap 8 (Z.shiftl (wrap 8 match t with Special => L4_FPAGE_SPECIAL | Memory => L4_FPAGE_MEMORY | Io => L4_FPAGE_IO | Obj => L4_FPAGE_OBJ end) 4).
Definition X : Z := wrap 8 L4_FPAGE_X.
Definition W : Z := wrap 8 L4_FPAGE_W.
Definition R : Z := wrap 8 L4_FPAGE_RO.
Definition RW : Z := Z.lor W R.
Definition RX : Z := Z.lor R X.
Definition RWX : Z := Z.lor (Z.lor R W) X.
End Pages.

(** * [Deref] ([l4/cap.rs], [l4re/cap.rs]): a capability is used as its interface *)
Section Deref.
Context {T : Type}.
Definition deref (self : Cap T) : T := interface self.
Definition deref_mut (f : T -> T) (self : Cap T) : Cap T := {| interface := f (interface self) |}.
Lemma deref_deref_mut f self : deref (deref_mut f self) = f (deref self).
Proof. done. Qed.
End Deref.
End Wrappers.
