(* ===== verification/Functors.v ===== *)
(** The functor macros of [l4/ipc/iface.rs]: [unroll_types!], [rpc_func!],
    [rpc_func_impl!] and [derive_functors!], an older form of the interface macros that
    gives every method a type of its own.

    Shown: one functor per method, with the method's name, its argument types in order
    and the number of its position ([derive_functors_spec]); and that the constructor
    of a method without arguments does not fit its type ([functor_new_checks]). *)
From S2P Require Import Prelude.
From Stdlib Require Import ZArith Lia.
From stdpp Require Import base list strings.
Open Scope Z_scope.

Module Functors.
Section Functors.
Context {Ty : Type}.

(** [Sender<A, Sender<B, Return<R>>>]. *)
Inductive FunTy := Return (ret : Ty) | Sender (head : Ty) (tail : FunTy).
Fixpoint unroll_types (args : list Ty) (ret : Ty) : FunTy :=
  match args with
  | [] => Return ret
  | head :: tail => match tail with [] => Sender head (Return ret) | _ => Sender head (unroll_types tail ret) end
  end.

(** An opcode is the expression the counter has become. *)
Inductive Count := Lit (n : Z) | Plus (c : Count) (n : Z).
Fixpoint value (c : Count) : Z := match c with Lit n => n | Plus c n => value c + n end.

(** The struct with its [HasOpCode]; what [new] puts into it is a [Sender]. *)
Record Functor := { f_name : string; f_content : FunTy; OP_CODE : Count }.
Definition rpc_func_impl (name : string) (content : FunTy) (opcode : Count) : Functor :=
  {| f_name := name; f_content := content; OP_CODE := opcode |}.
Definition new_checks (f : Functor) : bool := match f_content f with Sender _ _ => true | Return _ => false end.
Definition rpc_func (opcode : Count) (name : string) (args : list Ty) (ret : Ty) : Functor :=
  match args with
  | [] => rpc_func_impl name (Return ret) opcode
  | head :: tail =>
    match tail with
    | [] => rpc_func_impl name (Sender head (Return ret)) opcode
    | _ => rpc_func_impl name (Sender head (unroll_types tail ret)) opcode
    end
  end.
Fixpoint derive_functors (count : Count) (fns : list (string * list Ty * Ty)) : list Functor :=
  match fns with
  | [] => []
  | (name, types, ret) :: more => rpc_func count name types ret :: derive_functors (Plus count 1) more
  end.

(** The arguments and the result a functor type spells out. *)
Fixpoint spelled (t : FunTy) : list Ty * Ty :=
  match t with Return r => ([], r) | Sender h t => let '(args, r) := spelled t in (h :: args, r) end.
Lemma spelled_unroll args ret : spelled (unroll_types args ret) = (args, ret).
Proof. induction args as [|h [|h2 tl] IH]; [done | done |]. cbn [unroll_types spelled] in *. by rewrite IH. Qed.
Lemma spelled_rpc_func c n args ret : spelled (f_content (rpc_func c n args ret)) = (args, ret).
Proof. destruct args as [|h [|h2 tl]]; [done | done |]. cbn [rpc_func rpc_func_impl f_content spelled]. by rewrite spelled_unroll. Qed.
Lemma rpc_func_name c n args ret : f_name (rpc_func c n args ret) = n /\ OP_CODE (rpc_func c n args ret) = c.
Proof. by destruct args as [|h [|h2 tl]]. Qed.

(** The [i]-th method becomes the [i]-th functor: same name, same types, opcode
    [i] places behind the first. *)
Theorem derive_functors_spec count fns i name args ret : fns !! i = Some (name, args, ret) ->
  exists f, derive_functors count fns !! i = Some f /\ f_name f = name /\ spelled (f_content f) = (args, ret)
    /\ value (OP_CODE f) = value count + Z.of_nat i.
Proof.
  revert count i. induction fns as [|[[n a] r] fns IH]; intros count [|i]; cbn [lookup list_lookup derive_functors]; [done | done | |].
  - intros [= -> -> ->]. eexists. split; [done|]. destruct (rpc_func_name count name args ret) as [Hn Ho].
    split; [done|]. split; [apply spelled_rpc_func|]. rewrite Ho. lia.
  - intros Hi. destruct (IH (Plus count 1) i Hi) as (f & Hf & Hn & Hs & Ho). exists f. split_and!; try done. rewrite Ho. cbn [value]. lia.
Qed.
Theorem functor_new_checks c n args ret : new_checks (rpc_func c n args ret) = true <-> args <> [].
Proof. by destruct args as [|h [|h2 tl]]. Qed.
End Functors.
End Functors.
